(* ===== verification/_CoqProject ===== *)
-Q . S2P
Prelude.v
JsInt.v
JsNum.v
JsText.v
Bytes.v
Bech32.v
PoolAddress.v
Block.v
BlockSpec.v
Target.v
PoolMath.v
Vardiff.v
StoreDb.v
Shares.v
Ledger.v
CoinbaseLedger.v
Maturity.v
Pipes.v
PoolState.v
PoolInv.v
PoolServer.v
PoolProofs.v
PoolTheorems.v
BotMoney.v
BotDb.v
BotInv.v
BotBilling.v
BotDeposits.v
BotRewards.v
BotStars.v
BotJobs.v
BotWpcn.v
BotAddress.v
BotPool.v
BotWatch.v
BotHistory.v
BotGates.v
BotRun.v
BotTheorems.v
BotInbox.v
Tasks.v
Bsc.v
WpcnPay.v
WpcnLedger.v
WpcnBot.v
WpcnLost.v
WpcnTheorems.v
MarketPrice.v
MarketDb.v
MarketLadder.v
MarketDelivery.v
MarketSafe.v
MarketIpn.v
MarketShop.v
MarketRetire.v
MarketStall.v
MarketRace.v
MarketRun.v
MarketKept.v
MarketBooks.v
MarketRows.v
MarketExample.v
MarketRules.v
MarketTheorems.v
Desk.v
DeskBooks.v
DeskClaims.v
DeskTheorems.v
