(* ===== verification/Prelude.v ===== *)
(** * PCoin services: a verification library (root file)

    PCoin is a proof-of-work coin (a fork of Bitcoin Core with RandomX mining)
    with services around the node, written in JavaScript under contrib/. This
    library models five of them, those that hold other people's money: the
    mining pool (contrib/pool), the prepaid AI bot (contrib/pcnaibot), the market
    that sells the coin (contrib/market), the verifier of payments in wPCN, the
    coin's token on another chain (contrib/wpcn-pay), and the desk that wraps the
    coin into the token (contrib/wrapdesk).

    ** How the services work

    The mining pool hands out block headers. A miner that finds a nonce below its
    share target earns a share, stored in a sqlite3 ledger before it is
    acknowledged. When a share is also a block, its coinbase has already paid the
    miners of the last shares (PPLNS), and the ledger records what that coinbase
    pays. Later the chain decides whether the block matures or is orphaned.

    The bot keeps a prepaid balance per chat in SQLite. Money comes in as PCN to
    an address of the chat (a watcher reads an explorer), as Telegram Stars, as
    wPCN transfers a verifier vouches for, as gifts, invite rewards and hand
    credits. It goes out as AI turns and generated media, each reserved first
    and settled at its cost. Every movement is a row of a ledger with a unique
    key.

    The market sells PCN from a ladder of rungs in MariaDB. An order reserves its
    rungs, the payment gateway calls back, the order is accepted and sold, and the
    coins leave a hot wallet, at once or when an operator presses Send. Sweeps
    give back what nobody paid for and resolve sends a crash interrupted; a scan
    of the chain retires rungs as the services are used.

    The verifier takes a transaction hash from a service, reads the receipt of
    the other chain, claims each transfer to us once in a directory of files
    and answers what it is worth; the bot credits the answer, and asks again when
    an answer was lost.

    The wrap desk gives a customer a deposit address from a fixed pool and notes
    whose it is in a JSON file, read and written whole; what is sent to the address
    is wrapped elsewhere. A customer who sent wPCN back claims PCN: the desk has
    the signer of a message recovered, reads the receipt and notes the claim in
    another file, which a watcher lists for payment.

    ** The files

    Shared: [Prelude] (results, sums, sorting, the [pcoin] databases and
    tactics), [JsInt] and [JsNum] (JavaScript's integers, 32-bit operators,
    BigInt division, doubles), [JsText] (values of JSON, and numbers from and to
    text), [Bytes] (Buffers and hex), [Bsc] (receipts and logs of the token's
    chain), [Tasks] (asynchronous functions as programs that stop at each await, a
    machine that runs many of them, a logic for invariants with a ghost note per
    task, a logic for a program that runs alone).

    The pool, contrib/pool:
    - [PoolAddress], [Bech32]: the checksum at the login door and the decoder of
      the payout path in block.mjs; a one-character typo is refused.
    - [Block], [BlockSpec]: coinbase, merkle root, header and block bytes of
      block.mjs, and decoders that read back what was put in. The node's
      CScript() << n (src/script/script.h) is the reference for the height.
    - [Target], [Vardiff]: compact targets and share targets against the node's
      SetCompact (src/arith_uint256.cpp), the difficulty controller in doubles.
    - [PoolMath]: the fee, the split of a pot and the coinbase output set
      (store.mjs, pure half).
    - [StoreDb], [Shares], [Ledger], [CoinbaseLedger], [Maturity]: the sqlite
      ledger (store.mjs). A call is a list of statements of which a crash or a
      lost answer may leave any prefix applied ([w_faults] says which).
    - [Pipes]: the request queues of the sqlite3 and the validator process, as
      step relations.
    - [PoolState], [PoolInv], [PoolServer], [PoolProofs], [PoolTheorems]: the
      server (pool.mjs). Miners and jobs are objects shared by a Map and by the
      frames of suspended handlers, so they live on heaps; a handler is its
      segments between two awaits, and a run is any list of events, so every
      interleaving of the single thread is a run.

    The bot, contrib/pcnaibot:
    - [BotMoney] (lib/money.mjs), [BotDb] (lib/db.mjs and migrations/): the
      arithmetic, the tables, statements as functions that may throw, and the
      transaction [immediate], which undoes what a throw left.
    - [BotBilling] (lib/billing.mjs), [BotDeposits] (lib/deposits.mjs),
      [BotRewards] (lib/rewards.mjs, adminCredit of lib/admin-api.mjs),
      [BotStars] (lib/stars.mjs, lib/updates.mjs), [BotJobs] (lib/jobs.mjs,
      priceFor of lib/media.mjs), [BotWpcn] (lib/wpcn.mjs): the operations that
      move money, one definition per function.
    - [BotAddress] (lib/address.mjs), [BotPool] (lib/pool.mjs), [BotWatch]
      (watch.mjs, the gate and the touch detector of lib/explorer.mjs): deposit
      addresses and the watcher's tick.
    - [BotInv]: what each operation keeps true of one database. [BotHistory]:
      what no operation takes back, a preorder between databases. [BotRun]: all
      operations as commands and the databases they lead to. [BotTheorems]: the
      theorems over every history.
    - [BotInbox] (lib/inbox.mjs, lib/turns.mjs, runTurn and the claim of
      bot.mjs): messages from claim to answer, over starts and crashes.

    The market, contrib/market:
    - [MarketPrice] (ladder.mjs, pure half): the curve, the flat walk at the
      index, the capped rungs, the gate of the index.
    - [MarketDb] (ladder.sql, orders-payment.sql and the schema of ipn-test.mjs):
      tables, the wallet, the memory of each process, statements and what an
      await can answer.
    - [MarketLadder] (ladder.mjs, makeLadder), [MarketDelivery] (delivery.mjs,
      order/send of admin.mjs, send of market-admin.mjs), [MarketIpn] (ipn.mjs),
      [MarketShop] (/api/buy and cancel of server.mjs, makeBacking of
      delivery.mjs), [MarketRetire] (retire.mjs): one definition per function,
      one await per statement, transaction or RPC.
    - [MarketRun]: requests, sweeps, scans and command lines as tasks of
      processes; crashes; what the outside does. [MarketSafe]: at most one send
      per order, by notes that say which task holds an order.
    - [MarketKept]: the interface between the programs and the invariants of the
      database, a class of what every statement must keep; [MarketBooks] (the
      inventory and the keys) and [MarketRows] (what a status says of a row) are
      its instances. [MarketRules]: what a callback that is not in full cannot do.
      [MarketExample]: runs of a small market. [MarketTheorems]: the theorems.

    The wPCN rail, contrib/wpcn-pay:
    - [WpcnPay] (server.mjs, rate.mjs): the rate, the directory of claims, verify
      and the handlers, as programs of [Tasks]; what the nodes, the price feed
      and the disk answer is the oracle's.
    - [WpcnLedger]: the invariant of the directory and of what was replied, over
      every interleaving.
    - [WpcnBot] (clients/wpcn-pay.mjs, lib/wpcn.mjs of the bot): the verifier's
      responses as the bot reads them, and one attempt over both services.
    - [WpcnTheorems]: the theorems, of the verifier alone and with the bot.

    The wrap desk, contrib/wrapdesk/server.mjs:
    - [Desk]: the signed cookies, the limits, POST /request and POST /return as
      programs of [Tasks]; the explorer, the nodes, the watcher's ledger, the flag
      and block files, the captcha and the recovery of signers are the oracle's.
    - [DeskBooks]: what a request that is served alone does on every branch, and
      the invariant of the state under customers one after another.
    - [DeskClaims]: the invariant of the claims over every interleaving.
    - [DeskTheorems]: the theorems, and the runs that break the books.

    ** What the theorems show

    Pool: no run of events takes the server down; what a job's coinbase pays is
    what the ledger will be told; an acknowledged share is in the ledger once,
    for its miner; a replay is refused and a pool fault leaves a retry open. The
    output set is exact, proportional and above dust, and depends on the window
    only; the PPLNS scan is its specification; recordings conserve the block's
    value; a height that was settled stays; an orphan takes two looks. Bytes
    decode to what they encode, and the targets and pushes are the node's.

    Bot: after any history the books balance and the ledger only grew, one row
    per key. A turn, a deposit, a Stars payment and a wPCN transfer move money
    once, by the amounts stated, whatever runs after. A button charges the price
    shown and starts one job. A payment is credited, retried or parked, never
    lost. A refund follows its payment's state on every answer. An address is
    payable by the pool and stays with its chat. A deposit is credited by the
    watcher only through its gates. A claimed message is answered at most once
    and never forgotten.

    Market: in every run of the machine no rung is oversold and its counters are
    the sums of its fills, one payment is on one order, and a row's columns follow
    its status. An order is sent only when paid, and once, as long as no wallet
    lookup scrolled past a send and no sweep gave up an order being sent; that the
    second can happen is a theorem too. Reserving, settling, releasing, retiring
    and accepting are given on every branch. Only a payment in full is accepted. A
    purchase is within its limits, an index price is vouched for. An output over
    the daily cap stops the retirement scan for good.

    wPCN: a transfer is credited by at most one row of all replies, to one user of
    one service, and its record never changes. Every record rests on a successful
    receipt, enough depth, a canonical block and a fresh rate that were heard. A
    reply that was lost heals when the bot asks again. Two ways to lose a payment
    are theorems: a claim file whose record was not written, and a rate that cannot
    be read between two transfers of one payment.

    Wrap desk: a request served alone is answered, and given a deposit address
    only past every guard and limit. Customers one after another get addresses of
    their own and no record is lost. Two ways to lose a record are theorems: a
    request answered while another awaits the explorer, and a state file that
    cannot be read. A claim rests, in every interleaving, on a receipt that was
    heard, and a verified one on the signature of a wallet that made the transfer;
    while signatures cannot be recovered, anyone can re-point a claim, which is a
    theorem too. A session cookie reads back as what was signed.

    ** Conventions and bounds

    Satoshis, micro- and nano-dollars are integers (Z). Number(big) rounds to 53
    bits, [Number], wherever the code calls it; sums the code does in doubles
    are kept exact where the values stay integers the code bounds. BigInt
    division truncates, 32-bit operators wrap. Strings are ASCII. A JavaScript
    exception is [Err] of a [result]; error texts are reduced to the reason
    they state.

    A parameter or an argument stands for what is outside: SHA-256 (a class: 32
    bytes out, nothing more), the validator's
    verdicts, the node's and the explorer's answers, Telegram, the AI provider,
    the chain the token is on. JSON that is only stored is kept parsed. One clock
    reading serves a whole operation. SQL rows without ORDER BY come in the
    order of the map.

    Recursion that is not structural has fuel: the passes over dust use the
    code's own bound of 64, of which two are always enough (dropping a miner only
    raises the others' shares); the merkle tree has one unit per leaf, number
    loops one per digit or bit, each shown to be enough where a theorem says the
    function returns.

    A watcher tick is one command though it awaits the explorer between
    statements: what other operations do meanwhile is not interleaved with it. A
    refund is two commands, as anything may run while Telegram is asked.

    In the market every await is a step. The oracle of a step says whether the
    connection worked, failed before, or failed after with the answer lost, the
    time, and what the wallet, the explorer and the node answer. A transaction is
    one step and undone when it throws: the locks the code takes make it so, and
    its retry on a deadlock is the same step later. An RPC takes effect while its
    caller waits, not after the caller gave up. DECIMAL columns are integers of
    their last place; text compares exactly. The wallet's sends by hand carry no
    comment. [w_gave_up] and [w_missed] are history, written by no code. The
    announcement the code starts beside the delivery is done before it, and every
    error text is the reason it states. A callback is decided again at most twice,
    as in the code.

    In the verifier every answer of a node, of the price feed and every use of the
    directory is a step, so several processes may share it. A process may end at
    any step; that the machine loses what it did not sync is outside. A log index
    and a block number are doubles kept as the integers they are.

    In the desk every await is a step, and the reads and writes of its files that
    no await separates are one. [Hmac] is a class: a digest is a text without a
    dot, nothing more. A state file that parses holds records of the shape the desk
    writes. The keys of an object are in the order of insertion. The loop for a free
    key has one unit of fuel per record, which is shown to be enough.

    ** Not modelled

    HTTP servers and clients, sockets, JSON framing, logs, heartbeats, schema
    migration, texts and keyboards. Of the market: the signature of a callback,
    accounts, the sale gate and waivers (answers of the request), geo lookups,
    mail, pages, the fee report, the alarm on the float and the address it names,
    the explorer readings behind the backing (an answer of the outside). Of the
    verifier: its totals for operators (/stats) and the readings of its
    configuration file. Of the
    desk: its pages, the sign-in redirect, the proof of reserve and the readings
    of the explorer it shows; the watcher that pays is a Python program. The other
    services of contrib/ are not modelled: the price server is an index over live
    exchange feeds in floating point, and the admin panel, the vault and the
    dashboards are interfaces to what is modelled here or to the node. The C++
    node and the applications in other languages are outside, except for the parts
    of the node the pool must agree with. *)

From stdpp Require Export prelude gmap strings list sorting.
From Stdlib Require Export ZArith Lia.

(** ** Notations and databases *)

Declare Scope pcoin_scope.
Delimit Scope pcoin_scope with pcoin.
Open Scope pcoin_scope.

(** Lemmas that close side conditions ([pcoin]) and lemmas that simplify sums
    and results from left to right ([pcoin_simpl]). *)
Create HintDb pcoin.
Create Rewrite HintDb pcoin_simpl.

(** ** Results: a value, or the error a JavaScript [throw] carries *)

Inductive result (E A : Type) : Type :=
  | Ok (a : A)
  | Err (e : E).
Arguments Ok {E A} a.
Arguments Err {E A} e.

#[export] Instance result_ret {E} : MRet (result E) := fun A a => Ok a.
#[export] Instance result_bind {E} : MBind (result E) := fun A B f m =>
  match m with Ok a => f a | Err e => Err e end.
#[export] Instance result_fmap {E} : FMap (result E) := fun A B f m =>
  match m with Ok a => Ok (f a) | Err e => Err e end.
#[export] Instance result_eq_dec {E A} `{EqDecision E, EqDecision A} :
  EqDecision (result E A).
Proof. solve_decision. Defined.

(** [if (!b) throw e; k] *)
Notation "'require' b 'orelse' e ; k" := (if b then k else Err e)
  (at level 10, b at level 100, e at level 100, k at level 200,
   only parsing) : pcoin_scope.

Definition is_ok {E A} (r : result E A) : bool :=
  match r with Ok _ => true | Err _ => false end.

Definition ok_or {E A} (d : A) (r : result E A) : A :=
  match r with Ok a => a | Err _ => d end.

Definition of_option {E A} (e : E) (o : option A) : result E A :=
  match o with Some a => Ok a | None => Err e end.

(** Errors of a callee re-raised in the caller's error type. *)
Definition lift_err {E F A} (f : E -> F) (r : result E A) : result F A :=
  match r with Ok a => Ok a | Err e => Err (f e) end.

Section results.
Context {E : Type}.

Lemma bind_Ok {A B} (m : result E A) (f : A -> result E B) b :
  m ≫= f = Ok b <-> exists a, m = Ok a /\ f a = Ok b.
Proof.
  split.
  - destruct m; cbn; intros H; [eauto | discriminate].
  - intros (a & -> & H). exact H.
Qed.

Lemma fmap_Ok {A B} (m : result E A) (f : A -> B) b :
  f <$> m = Ok b <-> exists a, m = Ok a /\ b = f a.
Proof.
  destruct m as [a|e]; cbn; split.
  - intros [= <-]. eauto.
  - intros (a' & [= ->] & ->). reflexivity.
  - discriminate.
  - intros (a' & [=] & _).
Qed.

Lemma lift_err_Ok {F A} (f : E -> F) (r : result E A) a :
  lift_err f r = Ok a <-> r = Ok a.
Proof. destruct r; cbn; split; congruence. Qed.

Lemma of_option_Ok {A} (e : E) (o : option A) a :
  of_option e o = Ok a <-> o = Some a.
Proof. destruct o; cbn; split; congruence. Qed.

Lemma is_ok_true {A} (r : result E A) : is_ok r = true <-> exists a, r = Ok a.
Proof. destruct r; cbn; split; eauto; [intros [=] | intros (? & [=])]. Qed.

(** [mapM] over results succeeds exactly when every element does. *)
Lemma mapM_Ok {A B} (f : A -> result E B) l k :
  mapM f l = Ok k <-> Forall2 (fun a b => f a = Ok b) l k.
Proof.
  revert k. induction l as [|a l IH]; intros k; simpl.
  - split; [intros [= <-]; constructor | intros H; inversion H; reflexivity].
  - split.
    + rewrite bind_Ok. intros (b & Hb & Hk). rewrite bind_Ok in Hk.
      destruct Hk as (k' & Hk' & [= <-]). constructor; [done | by apply IH].
    + intros H; inversion H as [|? b ? k' Hb Hk']; subst.
      rewrite Hb. simpl. apply IH in Hk'. rewrite Hk'. reflexivity.
Qed.

Lemma mapM_total {A B} (f : A -> result E B) (g : A -> B) l :
  (forall a, a ∈ l -> f a = Ok (g a)) -> mapM f l = Ok (g <$> l).
Proof.
  intros H. apply mapM_Ok, Forall2_fmap_r, Forall2_same_length_lookup_2; [done|].
  intros i x y Hx Hy. assert (x = y) as -> by congruence.
  apply H. by eapply list_elem_of_lookup_2.
Qed.
End results.

(** Splits every hypothesis that says a chain of binds and guards returned [Ok]. *)
Ltac res_inv :=
  repeat match goal with
  | H : _ ≫= _ = Ok _ |- _ =>
      let a := fresh "a" in let Ha := fresh "Ha" in
      apply bind_Ok in H; destruct H as (a & Ha & H)
  | H : _ <$> _ = Ok _ |- _ =>
      let a := fresh "a" in let Ha := fresh "Ha" in
      apply fmap_Ok in H; destruct H as (a & Ha & H)
  | H : lift_err _ _ = Ok _ |- _ => apply lift_err_Ok in H
  | H : of_option _ _ = Ok _ |- _ => apply of_option_Ok in H
  | H : (if ?b then Err _ else _) = Ok _ |- _ =>
      let Hb := fresh "Hb" in destruct b eqn:Hb; [discriminate H|]
  | H : (if ?b then _ else Err _) = Ok _ |- _ =>
      let Hb := fresh "Hb" in destruct b eqn:Hb; [|discriminate H]
  | H : mret _ = Ok _ |- _ => injection H as H
  | H : Ok _ = Ok _ |- _ => injection H as H
  | H : Err _ = Ok _ |- _ => discriminate H
  end.

(** Turns boolean tests on integers in the context into propositions. *)
Ltac bool_to_prop :=
  repeat match goal with
  | H : _ && _ = true |- _ => apply andb_true_iff in H; destruct H
  | H : _ || _ = false |- _ => apply orb_false_iff in H; destruct H
  | H : negb _ = true |- _ => apply negb_true_iff in H
  | H : negb _ = false |- _ => apply negb_false_iff in H
  | H : (_ <? _)%Z = true |- _ => apply Z.ltb_lt in H
  | H : (_ <? _)%Z = false |- _ => apply Z.ltb_ge in H
  | H : (_ <=? _)%Z = true |- _ => apply Z.leb_le in H
  | H : (_ <=? _)%Z = false |- _ => apply Z.leb_gt in H
  | H : (_ =? _)%Z = true |- _ => apply Z.eqb_eq in H
  | H : (_ =? _)%Z = false |- _ => apply Z.eqb_neq in H
  | H : (_ =? _)%string = true |- _ => apply String.eqb_eq in H
  | H : (_ =? _)%string = false |- _ => apply String.eqb_neq in H
  | H : bool_decide _ = true |- _ => apply bool_decide_eq_true_1 in H
  | H : bool_decide _ = false |- _ => apply bool_decide_eq_false_1 in H
  end.

(** ** Sums of integers over lists *)

Local Open Scope Z_scope.

Definition zsum (l : list Z) : Z := foldr Z.add 0 l.
Definition zsum_by {A} (f : A -> Z) (l : list A) : Z := zsum (f <$> l).
Arguments zsum_by : simpl never.

Section sums.
Context {A : Type}.
Implicit Types (f g : A -> Z) (l k : list A).

Lemma zsum_by_nil f : zsum_by f [] = 0.
Proof. reflexivity. Qed.
Lemma zsum_by_cons f a l : zsum_by f (a :: l) = f a + zsum_by f l.
Proof. reflexivity. Qed.
Lemma zsum_by_app f l k : zsum_by f (l ++ k) = zsum_by f l + zsum_by f k.
Proof.
  induction l as [|a l IH]; [done|].
  rewrite <- app_comm_cons, !zsum_by_cons, IH. lia.
Qed.

Lemma zsum_by_ext f g l : (forall a, a ∈ l -> f a = g a) -> zsum_by f l = zsum_by g l.
Proof.
  induction l as [|a l IH]; intros H; [done|].
  rewrite !zsum_by_cons, H, IH; [done | | by constructor].
  intros b Hb. apply H. by constructor.
Qed.

Lemma zsum_by_le f g l : (forall a, a ∈ l -> f a <= g a) -> zsum_by f l <= zsum_by g l.
Proof.
  induction l as [|a l IH]; intros H; [done|]. rewrite !zsum_by_cons.
  assert (f a <= g a) by (apply H; constructor).
  assert (zsum_by f l <= zsum_by g l) by (apply IH; intros; apply H; by constructor).
  lia.
Qed.

Lemma zsum_by_const c l : zsum_by (fun _ => c) l = c * Z.of_nat (length l).
Proof.
  induction l as [|a l IH]; [rewrite zsum_by_nil; cbn; lia|].
  rewrite zsum_by_cons, IH. cbn [length]. lia.
Qed.

Lemma zsum_by_nonneg f l : (forall a, a ∈ l -> 0 <= f a) -> 0 <= zsum_by f l.
Proof.
  intros H. transitivity (zsum_by (fun _ => 0) l); [rewrite zsum_by_const; lia|].
  by apply zsum_by_le.
Qed.

Lemma zsum_by_zero f l : (forall a, a ∈ l -> f a = 0) -> zsum_by f l = 0.
Proof. intros H. rewrite (zsum_by_ext f (fun _ => 0)) by done. rewrite zsum_by_const. lia. Qed.

Lemma zsum_by_elem f l a : (forall b, b ∈ l -> 0 <= f b) -> a ∈ l -> f a <= zsum_by f l.
Proof.
  intros Hf [l1 [l2 ->]]%list_elem_of_split.
  rewrite zsum_by_app, zsum_by_cons.
  assert (0 <= zsum_by f l1) by (apply zsum_by_nonneg; intros; apply Hf; set_solver).
  assert (0 <= zsum_by f l2) by (apply zsum_by_nonneg; intros; apply Hf; set_solver).
  lia.
Qed.

Lemma zsum_by_scale f c l : zsum_by (fun a => c * f a) l = c * zsum_by f l.
Proof. induction l as [|a l IH]; [rewrite !zsum_by_nil; lia|]. rewrite !zsum_by_cons, IH. lia. Qed.

Lemma zsum_by_plus f g l : zsum_by (fun a => f a + g a) l = zsum_by f l + zsum_by g l.
Proof. induction l as [|a l IH]; [done|]. rewrite !zsum_by_cons, IH. lia. Qed.

(** Floors of shares never add up to more than the whole. *)
Lemma zsum_by_div_le f l d :
  0 < d -> zsum_by (fun a => f a / d) l <= zsum_by f l / d.
Proof.
  intros Hd. induction l as [|a l IH]; [rewrite zsum_by_nil, Z.div_0_l; cbn; lia|].
  rewrite !zsum_by_cons.
  pose proof (Z.div_mod (f a) d ltac:(lia)). pose proof (Z.mod_pos_bound (f a) d Hd).
  pose proof (Z.div_mod (zsum_by f l) d ltac:(lia)).
  pose proof (Z.mod_pos_bound (zsum_by f l) d Hd).
  enough (f a / d + zsum_by f l / d <= (f a + zsum_by f l) / d) by lia.
  apply Z.div_le_lower_bound; [lia|]. nia.
Qed.

(** ... and lose less than one unit per entry. *)
Lemma zsum_by_div_gap f l d :
  0 < d -> zsum_by f l < d * (zsum_by (fun a => f a / d) l + Z.of_nat (length l)) + 1
           /\ zsum_by f l - d * zsum_by (fun a => f a / d) l <= (d - 1) * Z.of_nat (length l).
Proof.
  intros Hd. induction l as [|a l [IH1 IH2]]; [rewrite !zsum_by_nil; cbn; lia|].
  rewrite !zsum_by_cons. cbn [length].
  pose proof (Z.div_mod (f a) d ltac:(lia)). pose proof (Z.mod_pos_bound (f a) d Hd).
  split; nia.
Qed.

Lemma zsum_by_filter_le f (P : A -> Prop) `{!forall a, Decision (P a)} l :
  (forall a, a ∈ l -> 0 <= f a) -> zsum_by f (filter P l) <= zsum_by f l.
Proof.
  induction l as [|a l IH]; intros Hf; [done|].
  assert (0 <= f a) by (apply Hf; constructor).
  assert (zsum_by f (filter P l) <= zsum_by f l)
    by (apply IH; intros; apply Hf; by constructor).
  rewrite filter_cons. case_decide; rewrite ?zsum_by_cons; lia.
Qed.

#[export] Instance zsum_by_perm f : Proper ((≡ₚ) ==> (=)) (zsum_by f).
Proof.
  intros l k H. induction H; rewrite ?zsum_by_cons in *; lia || congruence.
Qed.
End sums.

Lemma zsum_by_fmap {A B} (f : B -> Z) (g : A -> B) l :
  zsum_by f (g <$> l) = zsum_by (f ∘ g) l.
Proof. unfold zsum_by. by rewrite <- list_fmap_compose. Qed.

Lemma zsum_app l k : zsum (l ++ k) = zsum l + zsum k.
Proof. unfold zsum. rewrite foldr_app. induction l as [|a l IH]; simpl; lia. Qed.

#[export] Hint Rewrite @zsum_by_nil @zsum_by_cons @zsum_by_app @zsum_by_fmap : pcoin_simpl.
#[export] Hint Resolve zsum_by_nonneg zsum_by_le : pcoin.

(** Left folds that accumulate a sum, as the source's [reduce] calls do. *)
Lemma foldl_sum {A} (f : A -> Z) l acc :
  foldl (fun s a => s + f a) acc l = acc + zsum_by f l.
Proof.
  revert acc. induction l as [|a l IH]; intros acc; cbn.
  - rewrite zsum_by_nil. lia.
  - rewrite IH, zsum_by_cons. lia.
Qed.
#[export] Hint Rewrite @foldl_sum : pcoin_simpl.


(** ** Lists *)

Section lists.
Context {A : Type}.
Implicit Types l k : list A.

Lemma filter_all (P : A -> Prop) `{!forall a, Decision (P a)} l :
  Forall P l -> filter P l = l.
Proof.
  induction 1 as [|a l Ha _ IH]; [done|]. by rewrite filter_cons_True, IH.
Qed.

Lemma filter_none (P : A -> Prop) `{!forall a, Decision (P a)} l :
  Forall (fun a => ~ P a) l -> filter P l = [].
Proof.
  induction 1 as [|a l Ha _ IH]; [done|]. by rewrite filter_cons_False.
Qed.

Lemma filter_ext_in (P Q : A -> Prop) `{!forall a, Decision (P a), !forall a, Decision (Q a)} l :
  (forall a, a ∈ l -> P a <-> Q a) -> filter P l = filter Q l.
Proof.
  induction l as [|a l IH]; intros Hpq; [done|].
  assert (P a <-> Q a) by (apply Hpq; constructor).
  assert (filter P l = filter Q l) by (apply IH; intros; apply Hpq; by constructor).
  rewrite !filter_cons. repeat case_decide; solve [congruence | tauto].
Qed.

(** Two lists that differ in one element and share a prefix up to a mark. *)
Lemma app_cons_diff l k h t t' (c d s : A) :
  l ++ c :: k = h ++ s :: t -> l ++ d :: k = h ++ s :: t' -> c <> d ->
  exists p, t = p ++ c :: k /\ t' = p ++ d :: k.
Proof.
  intros H1 H2 Hne. revert l H1 H2.
  induction h as [|x h IH]; intros [|y l] H1 H2; simpl in *; simplify_eq; eauto.
Qed.

Lemma take_drop_len (n : nat) l k : n = length l -> take n (l ++ k) = l /\ drop n (l ++ k) = k.
Proof. intros ->. by rewrite take_app_length, drop_app_length. Qed.
End lists.

(** Grouping by a key and adding up the groups is adding up the rows. *)
Lemma zsum_by_groups {A K} `{!EqDecision K} (key : A -> K) (f : A -> Z) (ks : list K) (l : list A) :
  NoDup ks -> (forall a, a ∈ l -> key a ∈ ks) ->
  zsum_by (fun k => zsum_by f (filter (fun a => key a = k) l)) ks = zsum_by f l.
Proof.
  revert l. induction ks as [|k ks IH]; intros l Hnd Hin.
  - destruct l as [|a l]; [done|]. specialize (Hin a ltac:(by left)). by apply elem_of_nil in Hin.
  - apply NoDup_cons in Hnd as [Hk Hnd]. rewrite zsum_by_cons.
    transitivity (zsum_by f (filter (fun a => key a = k) l) + zsum_by f (filter (fun a => key a <> k) l)).
    + f_equal. rewrite <- (IH (filter (fun a => key a <> k) l) Hnd).
      * apply zsum_by_ext. intros k' Hk'. rewrite list_filter_filter. f_equal.
        apply filter_ext_in. intros a _. split; [|naive_solver]. intros ->. split; [done|].
        by intros ->.
      * intros a Ha. apply list_elem_of_filter in Ha as [Hne Ha].
        specialize (Hin a Ha). apply elem_of_cons in Hin as [?|?]; done.
    + clear. induction l as [|a l IH]; [done|]. rewrite !filter_cons, (zsum_by_cons f a l).
      repeat case_decide; rewrite ?zsum_by_cons; try done; lia.
Qed.

(** ** Stable sorting by a string key, as [Array.prototype.sort] with a comparator *)

Lemma filter_fmap_eq {A B} (f : A -> B) (P : B -> Prop) `{!forall b, Decision (P b)} (l : list A) :
  filter P (f <$> l) = f <$> filter (fun a => P (f a)) l.
Proof.
  induction l as [|a l IH]; [done|]. rewrite fmap_cons, !filter_cons.
  destruct (decide (P (f a))); by rewrite ?fmap_cons, IH.
Qed.

Section sort_by.
Context {A : Type} (key : A -> string).

Fixpoint insert_by (a : A) (l : list A) : list A :=
  match l with
  | [] => [a]
  | b :: l' => if decide (String.le (key a) (key b)) then a :: l else b :: insert_by a l'
  end.
Definition sort_by (l : list A) : list A := foldr insert_by [] l.

Definition key_le (a b : A) : Prop := String.le (key a) (key b).

Lemma insert_by_perm a l : insert_by a l ≡ₚ a :: l.
Proof.
  induction l as [|b l IH]; cbn; [done|]. case_decide; [done|].
  rewrite IH. constructor.
Qed.

Lemma sort_by_perm l : sort_by l ≡ₚ l.
Proof. induction l as [|a l IH]; cbn; [done|]. by rewrite insert_by_perm, IH. Qed.

Lemma insert_by_sorted a l : StronglySorted key_le l -> StronglySorted key_le (insert_by a l).
Proof.
  induction 1 as [|b l Hl IH Hb]; cbn; [repeat constructor|]. case_decide as Hab.
  - constructor; [by constructor|]. constructor; [done|].
    eapply Forall_impl; [exact Hb|]. intros c Hc. unfold key_le in *. by etransitivity.
  - constructor; [done|]. rewrite insert_by_perm. constructor; [|done].
    unfold key_le. by destruct (total String.le (key a) (key b)).
Qed.

Lemma sort_by_sorted l : StronglySorted key_le (sort_by l).
Proof. induction l as [|a l IH]; cbn; [constructor|by apply insert_by_sorted]. Qed.

(** When keys are distinct the sorted list does not depend on the order given. *)
Lemma sort_by_unique l k : NoDup (key <$> l) -> l ≡ₚ k -> sort_by l = sort_by k.
Proof.
  intros Hnd Hp. apply (StronglySorted_unique_strong key_le).
  - intros a b Ha Hb Hab Hba.
    assert (key a = key b) as Hk by (by apply (anti_symm String.le)).
    rewrite sort_by_perm in Ha, Hb. rewrite <- Hp in Hb.
    apply list_elem_of_lookup in Ha as [i Hi], Hb as [j Hj].
    assert (i = j) as <-.
    { eapply NoDup_lookup; [exact Hnd| |]; rewrite list_lookup_fmap.
      - rewrite Hi. done.
      - rewrite Hj. cbn. by rewrite Hk. }
    congruence.
  - apply sort_by_sorted.
  - apply sort_by_sorted.
  - by rewrite !sort_by_perm.
Qed.
End sort_by.

(** ** Strings *)

(** stdpp keeps [String.append] folded; these open it one character at a time. *)
Lemma string_nil_app (t : string) : ("" ++ t = t)%string.
Proof. reflexivity. Qed.

Lemma string_cons_app c (s t : string) : (String c s ++ t = String c (s ++ t))%string.
Proof. reflexivity. Qed.

Lemma string_app_assoc (a b c : string) : ((a ++ b) ++ c = a ++ (b ++ c))%string.
Proof. induction a as [|x a IH]; [done|exact (f_equal (String x) IH)]. Qed.

Lemma string_app_nil_r (a : string) : (a ++ "")%string = a.
Proof. induction a as [|x a IH]; [done|exact (f_equal (String x) IH)]. Qed.

Lemma string_app_length (a b : string) :
  String.length (a ++ b) = (String.length a + String.length b)%nat.
Proof. induction a as [|x a IH]; [done|exact (f_equal S IH)]. Qed.

(** Checking a boolean property of every integer below a literal bound. *)
Lemma forall_below (n : nat) (P : Z -> bool) :
  forallb (P ∘ Z.of_nat) (seq 0 n) = true -> forall z, 0 <= z < Z.of_nat n -> P z = true.
Proof.
  rewrite forallb_forall. intros H z Hz.
  specialize (H (Z.to_nat z)). unfold compose in H. rewrite Z2Nat.id in H by lia.
  apply H, in_seq. lia.
Qed.

(** Reflexive-transitive closure of a step relation is stdpp's [rtc]; an
    invariant kept by every step holds in every reachable state. *)
Lemma rtc_invariant {S} (step : relation S) (Inv : S -> Prop) s s' :
  (forall a b, Inv a -> step a b -> Inv b) -> Inv s -> rtc step s s' -> Inv s'.
Proof. intros Hstep Hs Hr. induction Hr; eauto. Qed.

(** ** Tables: maps from a number to a row *)

(** Rows in the order of their numbers ([ORDER BY id]). *)
Fixpoint insert_numbered {A} (x : Z * A) (l : list (Z * A)) : list (Z * A) :=
  match l with [] => [x] | y :: l' => if x.1 <=? y.1 then x :: l else y :: insert_numbered x l' end.
Definition by_id {A} (t : gmap Z A) : list (Z * A) := foldr insert_numbered [] (map_to_list t).

Section by_id.
Context {A : Type}.
Implicit Types (x : Z * A) (l : list (Z * A)) (t : gmap Z A).

Lemma insert_numbered_perm x l : insert_numbered x l ≡ₚ x :: l.
Proof.
  induction l as [|y l IH]; [done|]. cbn. destruct (x.1 <=? y.1); [done|].
  etransitivity; [apply Permutation_skip, IH|apply Permutation_swap].
Qed.

Lemma by_id_perm t : by_id t ≡ₚ map_to_list t.
Proof.
  unfold by_id. induction (map_to_list t) as [|x l IH]; [done|]. cbn.
  etransitivity; [apply insert_numbered_perm|by constructor].
Qed.

Lemma elem_of_by_id t i a : (i, a) ∈ by_id t <-> t !! i = Some a.
Proof. rewrite by_id_perm. apply elem_of_map_to_list. Qed.

Lemma by_id_NoDup t : NoDup (by_id t).*1.
Proof. rewrite by_id_perm. apply NoDup_fst_map_to_list. Qed.

Definition numbered_before (x y : Z * A) : Prop := x.1 <= y.1.
Lemma insert_numbered_sorted x l : StronglySorted numbered_before l -> StronglySorted numbered_before (insert_numbered x l).
Proof.
  induction 1 as [|y l Hl IH Hy]; [repeat constructor|]. cbn. destruct (x.1 <=? y.1) eqn:E; bool_to_prop.
  - constructor; [by constructor|]. constructor; [done|]. eapply Forall_impl; [exact Hy|]. unfold numbered_before. lia.
  - constructor; [done|]. rewrite insert_numbered_perm. constructor; [|done]. unfold numbered_before. lia.
Qed.
Lemma by_id_sorted t : StronglySorted numbered_before (by_id t).
Proof. unfold by_id. induction (map_to_list t); [constructor|]. by apply insert_numbered_sorted. Qed.
End by_id.

(** The sum of a column. *)
Definition map_sum {K A} `{Countable K} (f : A -> Z) (t : gmap K A) : Z := zsum_by f (map_to_list t).*2.

Section map_sum.
Context {K A : Type} `{Countable K}.
Implicit Types (f g : A -> Z) (t : gmap K A).

Lemma map_sum_empty f : map_sum f (∅ : gmap K A) = 0.
Proof. unfold map_sum. by rewrite map_to_list_empty. Qed.

Lemma map_sum_insert f t i a : t !! i = None -> map_sum f (<[i := a]> t) = f a + map_sum f t.
Proof.
  intros Hi. unfold map_sum. rewrite map_to_list_insert by done. apply zsum_by_cons.
Qed.

Lemma map_sum_update f t i a b :
  t !! i = Some a -> map_sum f (<[i := b]> t) = map_sum f t - f a + f b.
Proof.
  intros Hi. rewrite <- (insert_delete_id t i a Hi) at 2.
  rewrite (map_sum_insert f (delete i t)) by apply lookup_delete_eq.
  rewrite <- insert_delete_eq, map_sum_insert by apply lookup_delete_eq. lia.
Qed.

Lemma map_sum_zero f t : (forall i a, t !! i = Some a -> f a = 0) -> map_sum f t = 0.
Proof.
  intros Hf. apply zsum_by_zero. intros a Ha. apply list_elem_of_fmap in Ha as ([i x] & -> & Ha).
  apply elem_of_map_to_list in Ha. eauto.
Qed.

Lemma map_sum_le f g t : (forall i a, t !! i = Some a -> f a <= g a) -> map_sum f t <= map_sum g t.
Proof.
  intros Hf. apply zsum_by_le. intros a Ha. apply list_elem_of_fmap in Ha as ([i x] & -> & Ha).
  apply elem_of_map_to_list in Ha. eauto.
Qed.

Lemma map_sum_elem f t i a : (forall j b, t !! j = Some b -> 0 <= f b) -> t !! i = Some a -> f a <= map_sum f t.
Proof.
  intros Hf Hi. apply zsum_by_elem.
  - intros b Hb. apply list_elem_of_fmap in Hb as ([j x] & -> & Hb). apply elem_of_map_to_list in Hb. eauto.
  - apply list_elem_of_fmap. exists (i, a). split; [done|]. by apply elem_of_map_to_list.
Qed.
End map_sum.
