(* ===== verification/JsInt.v ===== *)
(** * JavaScript integers

    The integer arithmetic the services rely on: the 32-bit bitwise operators
    of [Number] (ECMAScript ToInt32/ToUint32), [BigInt] division, and the
    rounding of a [BigInt] to the nearest double that [Number(big)] performs. *)

From S2P Require Import Prelude.
Local Open Scope Z_scope.

(** ** ToInt32, ToUint32 and the bitwise operators *)

Definition to_uint32 (z : Z) : Z := z mod 2 ^ 32.
Definition to_int32 (z : Z) : Z :=
  let u := z mod 2 ^ 32 in if u <? 2 ^ 31 then u else u - 2 ^ 32.

Definition js_and (a b : Z) : Z := Z.land (to_int32 a) (to_int32 b).
Definition js_or (a b : Z) : Z := Z.lor (to_int32 a) (to_int32 b).
Definition js_xor (a b : Z) : Z := Z.lxor (to_int32 a) (to_int32 b).
Definition js_shl (a n : Z) : Z := to_int32 (Z.shiftl (to_int32 a) (n mod 32)).
Definition js_shr (a n : Z) : Z := Z.shiftr (to_int32 a) (n mod 32).
Definition js_ushr (a n : Z) : Z := Z.shiftr (to_uint32 a) (n mod 32).

(** ** BigInt division truncates toward zero *)

Definition big_div (a b : Z) : Z := Z.quot a b.
Definition big_rem (a b : Z) : Z := Z.rem a b.

(** [Number(big)]: round to nearest, ties to even, 53 significant bits. *)
Definition round53 (z : Z) : Z :=
  let m := Z.abs z in
  if m <? 2 ^ 53 then z else
  let s := Z.log2 m - 52 in
  let q := m / 2 ^ s in
  let r := m mod 2 ^ s in
  let half := 2 ^ (s - 1) in
  let q' := if (half <? r) || ((r =? half) && Z.odd q) then q + 1 else q in
  Z.sgn z * (q' * 2 ^ s).

(** ** Facts *)

Section word32.
Lemma to_uint32_range z : 0 <= to_uint32 z < 2 ^ 32.
Proof. apply Z.mod_pos_bound. lia. Qed.

Lemma to_uint32_small z : 0 <= z < 2 ^ 32 -> to_uint32 z = z.
Proof. intros H. by apply Z.mod_small. Qed.

Lemma to_int32_range z : - 2 ^ 31 <= to_int32 z < 2 ^ 31.
Proof.
  unfold to_int32. pose proof (Z.mod_pos_bound z (2 ^ 32) ltac:(lia)).
  destruct (Z.ltb_spec (z mod 2 ^ 32) (2 ^ 31)); lia.
Qed.

Lemma to_int32_small z : - 2 ^ 31 <= z < 2 ^ 31 -> to_int32 z = z.
Proof.
  intros H. unfold to_int32. destruct (Z_lt_le_dec z 0).
  - replace (z mod 2 ^ 32) with (z + 2 ^ 32).
    + destruct (Z.ltb_spec (z + 2 ^ 32) (2 ^ 31)); lia.
    + apply Z.mod_unique with (q := -1); lia.
  - rewrite Z.mod_small by lia. destruct (Z.ltb_spec z (2 ^ 31)); lia.
Qed.

(** ToInt32 changes a number by a multiple of 2^32. *)
Lemma to_int32_mod z : to_int32 z mod 2 ^ 32 = z mod 2 ^ 32.
Proof.
  unfold to_int32. destruct (z mod 2 ^ 32 <? 2 ^ 31).
  - by rewrite Z.mod_mod.
  - replace (z mod 2 ^ 32 - 2 ^ 32) with (z mod 2 ^ 32 + (-1) * 2 ^ 32) by lia.
    by rewrite Z.mod_add, Z.mod_mod.
Qed.

Lemma mod_pow2_trans z a b : 0 <= a <= b -> (z mod 2 ^ b) mod 2 ^ a = z mod 2 ^ a.
Proof.
  intros H. rewrite <- !Z.land_ones by lia. apply Z.bits_inj'. intros i Hi.
  rewrite !Z.land_spec, !Z.testbit_ones_nonneg by lia.
  destruct (Z.testbit z i); [|done].
  destruct (Z.ltb_spec i a), (Z.ltb_spec i b); lia || done.
Qed.

Lemma to_int32_mod_le z a : 0 <= a <= 32 -> to_int32 z mod 2 ^ a = z mod 2 ^ a.
Proof.
  intros H. rewrite <- (mod_pow2_trans (to_int32 z) a 32), to_int32_mod by lia.
  apply mod_pow2_trans. lia.
Qed.

(** [z & (2^k - 1)] keeps the low [k] bits of any integer. *)
Lemma js_and_ones z k : 0 <= k <= 31 -> js_and z (Z.ones k) = z mod 2 ^ k.
Proof.
  intros H. unfold js_and.
  rewrite (to_int32_small (Z.ones k)).
  - rewrite Z.land_ones by lia. apply to_int32_mod_le. lia.
  - rewrite Z.ones_equiv. assert (2 ^ k <= 2 ^ 31) by (apply Z.pow_le_mono_r; lia).
    assert (0 < 2 ^ k) by (apply Z.pow_pos_nonneg; lia). lia.
Qed.

Lemma js_ushr_small a n : 0 <= a < 2 ^ 32 -> 0 <= n < 32 -> js_ushr a n = a / 2 ^ n.
Proof.
  intros Ha Hn. unfold js_ushr. rewrite to_uint32_small, Z.mod_small by lia.
  apply Z.shiftr_div_pow2. lia.
Qed.

Lemma js_shr_small a n : 0 <= a < 2 ^ 31 -> 0 <= n < 32 -> js_shr a n = a / 2 ^ n.
Proof.
  intros Ha Hn. unfold js_shr. rewrite to_int32_small, Z.mod_small by lia.
  apply Z.shiftr_div_pow2. lia.
Qed.

Lemma js_shl_small a n : 0 <= a -> 0 <= n < 32 -> a * 2 ^ n < 2 ^ 31 -> js_shl a n = a * 2 ^ n.
Proof.
  intros Ha Hn Hb. assert (0 < 2 ^ n) by (apply Z.pow_pos_nonneg; lia).
  unfold js_shl. rewrite (to_int32_small a) by nia.
  rewrite (Z.mod_small n), Z.shiftl_mul_pow2 by lia.
  apply to_int32_small. nia.
Qed.

Lemma lxor_range a b n : 0 <= n -> 0 <= a < 2 ^ n -> 0 <= b < 2 ^ n -> 0 <= Z.lxor a b < 2 ^ n.
Proof.
  intros Hn Ha Hb. assert (0 <= Z.lxor a b) by (apply Z.lxor_nonneg; lia).
  split; [done|]. destruct (Z.eq_dec (Z.lxor a b) 0) as [->|]; [apply Z.pow_pos_nonneg; lia|].
  apply Z.log2_lt_pow2; [lia|].
  pose proof (Z.log2_lxor a b ltac:(lia) ltac:(lia)).
  assert (forall x, 0 <= x < 2 ^ n -> x = 0 \/ Z.log2 x < n) as Hlog.
  { intros x Hx. destruct (Z.eq_dec x 0); [by left|]. right. apply Z.log2_lt_pow2; lia. }
  destruct (Hlog a Ha) as [->|], (Hlog b Hb) as [->|]; change (Z.log2 0) with 0 in *.
  - by rewrite Z.lxor_0_l in *.
  - rewrite Z.lxor_0_l in *. lia.
  - rewrite Z.lxor_0_r in *. lia.
  - lia.
Qed.

(** On 31-bit naturals the signed xor is the plain one. *)
Lemma js_xor_small a b : 0 <= a < 2 ^ 31 -> 0 <= b < 2 ^ 31 -> js_xor a b = Z.lxor a b.
Proof. intros Ha Hb. unfold js_xor. by rewrite !to_int32_small by lia. Qed.

Lemma js_or_small a b : 0 <= a < 2 ^ 31 -> 0 <= b < 2 ^ 31 -> js_or a b = Z.lor a b.
Proof. intros Ha Hb. unfold js_or. by rewrite !to_int32_small by lia. Qed.
End word32.

Section bigint.
Lemma big_div_nonneg a b : 0 <= a -> 0 < b -> big_div a b = a / b.
Proof. apply Z.quot_div_nonneg. Qed.

Lemma big_rem_nonneg a b : 0 <= a -> 0 < b -> big_rem a b = a mod b.
Proof. apply Z.rem_mod_nonneg. Qed.

Lemma big_div_bounds a b : 0 <= a -> 0 < b -> 0 <= big_div a b <= a.
Proof.
  intros Ha Hb. rewrite big_div_nonneg by done. split; [apply Z.div_pos; lia|].
  apply Z.div_le_upper_bound; nia.
Qed.

Lemma round53_small z : Z.abs z < 2 ^ 53 -> round53 z = z.
Proof. intros H. unfold round53. destruct (Z.ltb_spec (Z.abs z) (2 ^ 53)); lia. Qed.

Lemma round53_pos z : 0 < z -> 0 < round53 z.
Proof.
  intros H. unfold round53. destruct (Z.ltb_spec (Z.abs z) (2 ^ 53)) as [|Hb]; [lia|].
  rewrite Z.sgn_pos, Z.abs_eq, Z.mul_1_l by lia. rewrite Z.abs_eq in Hb by lia.
  assert (53 <= Z.log2 z) by (apply Z.log2_le_pow2; lia).
  assert (0 < 2 ^ (Z.log2 z - 52)) by (apply Z.pow_pos_nonneg; lia).
  assert (0 < z / 2 ^ (Z.log2 z - 52)).
  { apply Z.div_str_pos. split; [lia|].
    transitivity (2 ^ Z.log2 z); [apply Z.pow_le_mono_r; lia|]. apply Z.log2_spec. lia. }
  destruct (_ || _); nia.
Qed.
(** A multiple of a large enough power of two with few bits is exact. *)
Lemma round53_exact q s : 2 ^ 52 <= q < 2 ^ 53 -> 0 <= s -> round53 (q * 2 ^ s) = q * 2 ^ s.
Proof.
  intros Hq Hs. assert (0 < 2 ^ s) as Hp by (apply Z.pow_pos_nonneg; lia).
  unfold round53. rewrite Z.abs_eq by nia.
  destruct (Z.ltb_spec (q * 2 ^ s) (2 ^ 53)); [done|].
  assert (Z.log2 q = 52) as Hl by (apply Z.log2_unique; lia).
  rewrite Z.log2_mul_pow2, Hl by lia. replace (s + 52 - 52) with s by lia.
  assert (s <> 0) by (intros ->; lia).
  rewrite Z.div_mul, Z.mod_mul by lia.
  assert (0 < 2 ^ (s - 1)) by (apply Z.pow_pos_nonneg; lia).
  destruct (Z.ltb_spec (2 ^ (s - 1)) 0), (Z.eqb_spec 0 (2 ^ (s - 1))); cbn [orb andb]; try lia.
Qed.

Lemma round53_opp z : round53 (- z) = - round53 z.
Proof.
  unfold round53. rewrite Z.abs_opp, Z.sgn_opp.
  destruct (Z.abs z <? 2 ^ 53); [done|]. lia.
Qed.

(** A double is its own nearest double. *)
Lemma round53_idem z : round53 (round53 z) = round53 z.
Proof.
  assert (forall z, 0 <= z -> round53 (round53 z) = round53 z) as Hpos.
  { clear z. intros z Hz. destruct (Z.lt_ge_cases z (2 ^ 53)) as [Hb|Hb].
    { by rewrite (round53_small z) by lia; rewrite round53_small by lia. }
    unfold round53 at 2 3. rewrite Z.abs_eq, Z.sgn_pos, Z.mul_1_l by lia.
    destruct (Z.ltb_spec z (2 ^ 53)); [lia|].
    assert (53 <= Z.log2 z) as Hlog by (apply Z.log2_le_pow2; lia).
    set (s := Z.log2 z - 52). set (q := z / 2 ^ s).
    assert (2 ^ 52 <= q < 2 ^ 53) as Hq.
    { assert (0 < 2 ^ s) by (apply Z.pow_pos_nonneg; lia).
      pose proof (Z.log2_spec z ltac:(lia)) as Hspec.
      replace (Z.log2 z) with (52 + s) in Hspec by lia.
      replace (Z.succ (52 + s)) with (53 + s) in Hspec by lia.
      rewrite !Z.pow_add_r in Hspec by lia. unfold q. split.
      - apply Z.div_le_lower_bound; lia.
      - apply Z.div_lt_upper_bound; lia. }
    destruct (_ || _); [|apply round53_exact; lia].
    destruct (Z.eq_dec q (2 ^ 53 - 1)) as [->|Hne]; [|apply round53_exact; lia].
    replace ((2 ^ 53 - 1 + 1) * 2 ^ s) with (2 ^ 52 * 2 ^ (s + 1)).
    - apply round53_exact; lia.
    - rewrite Z.pow_add_r by lia. lia. }
  destruct (Z.le_ge_cases 0 z); [by apply Hpos|].
  rewrite <- (Z.opp_involutive z), !(round53_opp (- z)), round53_opp. by rewrite Hpos by lia.
Qed.

Lemma round53_nonneg z : 0 <= z -> 0 <= round53 z.
Proof. intros H. destruct (Z.eq_dec z 0) as [->|]; [done|]. pose proof (round53_pos z). lia. Qed.
End bigint.

#[export] Hint Resolve to_uint32_range to_int32_range round53_pos : pcoin.
