(* ===== verification/JsNum.v ===== *)
(** * JavaScript numbers

    IEEE 754 binary64 through the Standard Library's executable specification
    [SpecFloat] (53 bits, exponents below 1024), the comparisons of [Number],
    [Math.min], [Math.max] and [Math.round], and the passage from and to integers. *)

From Stdlib Require Import SpecFloat.
From S2P Require Import Prelude JsInt.
Local Open Scope Z_scope.

Definition js_num := spec_float.
Definition num_add : js_num -> js_num -> js_num := SFadd 53 1024.
Definition num_sub : js_num -> js_num -> js_num := SFsub 53 1024.
Definition num_mul : js_num -> js_num -> js_num := SFmul 53 1024.
Definition num_div : js_num -> js_num -> js_num := SFdiv 53 1024.
Definition num_ltb (a b : js_num) : bool := SFltb a b.
Definition num_leb (a b : js_num) : bool := SFleb a b.
Definition num_eqb (a b : js_num) : bool := SFeqb a b.

(** The nearest double of an integer, and a decimal literal [n / 10^k]. *)
Definition num_of_Z (z : Z) : js_num := binary_normalize 53 1024 z 0 false.
Definition num_dec (n k : Z) : js_num := num_div (num_of_Z n) (num_of_Z (10 ^ k)).

(** The double nearest to [n / d]: what a decimal text reads as. *)
Definition num_ratio (n d : Z) : js_num :=
  match n with
  | 0 => S754_zero false
  | Z.pos p => SFdiv 53 1024 (S754_finite false p 0) (S754_finite false (Z.to_pos d) 0)
  | Z.neg p => SFdiv 53 1024 (S754_finite true p 0) (S754_finite false (Z.to_pos d) 0)
  end.

Definition is_nan (x : js_num) : bool := match x with S754_nan => true | _ => false end.
Definition is_finite (x : js_num) : bool :=
  match x with S754_finite _ _ _ | S754_zero _ => true | _ => false end.

Definition js_max (a b : js_num) : js_num :=
  match SFcompare a b with
  | None => S754_nan
  | Some Lt => b
  | Some Gt => a
  | Some Eq => match a with S754_zero true => b | _ => a end
  end.
Definition js_min (a b : js_num) : js_num :=
  match SFcompare a b with
  | None => S754_nan
  | Some Lt => a
  | Some Gt => b
  | Some Eq => match b with S754_zero true => b | _ => a end
  end.

(** [Math.round]: to the nearest integer, halves toward +infinity. *)
Definition signed (s : bool) (m : positive) : Z := if s then Z.neg m else Z.pos m.
Definition js_round (x : js_num) : js_num :=
  match x with
  | S754_finite s m e =>
      if 0 <=? e then x
      else let k := 2 ^ (- e) in
           let r := (2 * signed s m + k) / (2 * k) in
           if r =? 0 then S754_zero s else num_of_Z r
  | _ => x
  end.

(** [BigInt(x)]: the integer a number is, a RangeError otherwise. *)
Definition Z_of_num (x : js_num) : option Z :=
  match x with
  | S754_zero _ => Some 0
  | S754_finite s m e =>
      if 0 <=? e then Some (signed s m * 2 ^ e)
      else if signed s m mod 2 ^ (- e) =? 0 then Some (signed s m / 2 ^ (- e)) else None
  | _ => None
  end.

(** ** Comparisons *)

Section compare.
Lemma SFcompare_refl x : is_nan x = false -> SFcompare x x = Some Eq.
Proof.
  destruct x as [s|s| |s m e]; cbn; try done; [by destruct s|].
  intros _. rewrite Z.compare_refl. fold (Pos.compare m m). rewrite Pos.compare_refl. by destruct s.
Qed.

Lemma compare_cont_swap m1 m2 : Pos.compare_cont Eq m2 m1 = CompOpp (Pos.compare_cont Eq m1 m2).
Proof. exact (Pos.compare_antisym m1 m2). Qed.

Lemma SFcompare_swap x y : SFcompare y x = CompOpp <$> SFcompare x y.
Proof.
  destruct x as [s1|s1| |s1 m1 e1], y as [s2|s2| |s2 m2 e2]; try (by destruct s1);
    try (by destruct s2); try (by destruct s1, s2); [done|].
  cbn. f_equal. destruct s1, s2; try done.
  - rewrite (Z.compare_antisym e1 e2). destruct (e1 ?= e2); cbn; try done. by rewrite compare_cont_swap.
  - rewrite (Z.compare_antisym e1 e2). destruct (e1 ?= e2); cbn; try done. apply compare_cont_swap.
Qed.

Lemma SFcompare_nan x y : SFcompare x y = None -> is_nan x = true \/ is_nan y = true.
Proof. destruct x as [[]|[]| |[]], y as [[]|[]| |[]]; cbn; intros H; discriminate || auto. Qed.

Lemma num_leb_refl x : is_nan x = false -> num_leb x x = true.
Proof. intros H. unfold num_leb, SFleb. by rewrite SFcompare_refl. Qed.

Lemma num_leb_not_nan a b : num_leb a b = true -> is_nan b = false.
Proof. destruct b as [s|s| |s m e]; try done. by destruct a as [[]|[]| |[]]. Qed.

(** A clamp lands between its bounds. *)
Lemma clamp_bounds lo hi x :
  is_nan x = false -> num_leb lo hi = true ->
  num_leb lo (js_max lo (js_min hi x)) = true /\ num_leb (js_max lo (js_min hi x)) hi = true.
Proof.
  intros Hx Hlh. assert (is_nan lo = false /\ is_nan hi = false) as [Hlo Hhi].
  { unfold num_leb, SFleb in Hlh. destruct lo as [|[]| |[]], hi as [|[]| |[]]; done. }
  assert (exists y, js_min hi x = y /\ is_nan y = false /\ num_leb y hi = true) as (y & -> & Hy & Hyh).
  { unfold js_min. destruct (SFcompare hi x) as [[]|] eqn:E.
    - destruct x as [[]|[]| |[]]; eexists; (split; [reflexivity|]); (split; [done|]);
        try (by apply num_leb_refl). unfold num_leb, SFleb. rewrite SFcompare_swap, E. done.
    - eexists; split; [reflexivity|]; split; [done|]. by apply num_leb_refl.
    - eexists; split; [reflexivity|]; split; [done|]. unfold num_leb, SFleb. by rewrite SFcompare_swap, E.
    - apply SFcompare_nan in E as [E|E]; congruence. }
  unfold js_max. destruct (SFcompare lo y) as [[]|] eqn:E.
  - assert (num_leb lo y = true) by (unfold num_leb, SFleb; by rewrite E).
    destruct lo as [[]|[]| |[]]; split; try done; try (by apply num_leb_refl).
  - split; [unfold num_leb, SFleb; by rewrite E|done].
  - split; [by apply num_leb_refl|done].
  - apply SFcompare_nan in E as [E|E]; congruence.
Qed.
(** A maximum is at least its second argument. *)
Lemma js_max_ge x y : is_nan (js_max x y) = false -> num_leb y (js_max x y) = true.
Proof.
  intros Hn. unfold js_max in *. destruct (SFcompare x y) as [[]|] eqn:E.
  - assert (num_leb y x = true) as Hyx by (unfold num_leb, SFleb; by rewrite SFcompare_swap, E).
    destruct x as [[]|[]| |[]]; try done; apply num_leb_refl; done || (destruct y as [[]|[]| |[]]; done).
  - apply num_leb_refl. by destruct y.
  - unfold num_leb, SFleb. by rewrite SFcompare_swap, E.
  - done.
Qed.
End compare.

(** ** No operation below invents a NaN *)

Section nan.
Lemma shr_1_nonneg mrs : 0 <= shr_m mrs -> 0 <= shr_m (shr_1 mrs).
Proof. destruct mrs as [[|p|p] r s]; cbn; [lia| |lia]. by destruct p. Qed.

Lemma iter_shr_nonneg p mrs : 0 <= shr_m mrs -> 0 <= shr_m (@SpecFloat.iter_pos shr_record shr_1 p mrs).
Proof.
  revert mrs. induction p as [p IH|p IH|]; intros mrs H; cbn [SpecFloat.iter_pos].
  - by apply IH, IH, shr_1_nonneg.
  - by apply IH, IH.
  - by apply shr_1_nonneg.
Qed.

Lemma shr_fexp_nonneg m e l : 0 <= m -> 0 <= shr_m (shr_fexp 53 1024 m e l).1.
Proof.
  intros H. unfold shr_fexp, shr.
  assert (0 <= shr_m (shr_record_of_loc m l)) by (destruct l as [|[]]; done).
  destruct (_ - e); cbn [fst]; try done. by apply iter_shr_nonneg.
Qed.

Lemma round_not_nan s m e l : 0 <= m -> is_nan (binary_round_aux 53 1024 s m e l) = false.
Proof.
  intros H. unfold binary_round_aux. pose proof (shr_fexp_nonneg m e l H) as H1.
  destruct (shr_fexp 53 1024 m e l) as [r1 e1]. cbn [fst] in H1.
  assert (0 <= round_nearest_even (shr_m r1) (loc_of_shr_record r1)) as H2.
  { unfold round_nearest_even. destruct (loc_of_shr_record r1) as [|[]]; try lia. destruct (Z.even _); lia. }
  pose proof (shr_fexp_nonneg _ e1 loc_Exact H2) as H3.
  destruct (shr_fexp 53 1024 _ e1 loc_Exact) as [r2 e2]. cbn [fst] in H3.
  destruct (shr_m r2); [done| |lia]. by destruct (_ <=? _).
Qed.

Lemma num_of_Z_not_nan z : is_nan (num_of_Z z) = false.
Proof.
  destruct z as [|p|p]; [done| |]; unfold num_of_Z, binary_normalize, binary_round;
    destruct (shl_align _ _ _); by apply round_not_nan.
Qed.

Lemma num_mul_not_nan x y : is_finite x = true -> num_eqb x (S754_zero false) = false ->
  is_nan y = false -> is_nan (num_mul x y) = false.
Proof.
  destruct x as [|[]| |s1 m1 e1], y as [[]|[]| |s2 m2 e2]; try done. intros _ _ _.
  apply round_not_nan. lia.
Qed.

Lemma num_div_not_nan x y : is_nan x = false -> is_finite y = true ->
  num_eqb y (S754_zero false) = false -> is_nan (num_div x y) = false.
Proof.
  destruct x as [[]|[]| |s1 m1 e1], y as [|[]| |s2 m2 e2]; try done. intros _ _ _. cbn.
  unfold num_div, SFdiv, SFdiv_core_binary.
  match goal with |- context [Z.div_eucl ?a ?b] => pose proof (Z.div_eucl_eq a b) as Hq;
    assert (0 <= a) as Ha by (destruct (_ - _); try lia; by apply Z.shiftl_nonneg);
    pose proof (Z.div_pos a b Ha ltac:(lia)) as Hd; unfold Z.div in Hd; destruct (Z.div_eucl a b) end.
  by apply round_not_nan.
Qed.

Lemma js_round_not_nan x : is_nan x = false -> is_nan (js_round x) = false.
Proof.
  destruct x as [| | |s m e]; try done. intros _. cbn [js_round]. destruct (0 <=? e); [done|].
  destruct (_ =? 0); [done|]. apply num_of_Z_not_nan.
Qed.

Lemma js_minmax_not_nan x y : is_nan x = false -> is_nan y = false ->
  is_nan (js_max x y) = false /\ is_nan (js_min x y) = false.
Proof.
  intros Hx Hy. unfold js_max, js_min. destruct (SFcompare x y) as [[]|] eqn:E.
  - split; [by destruct x as [[]|[]| |[]]|]. by destruct y as [[]|[]| |[]].
  - done.
  - done.
  - apply SFcompare_nan in E as [E|E]; congruence.
Qed.
End nan.

(** ** Integers stay integers

    [factor_like x]: [x] is a non-negative integer, so [BigInt(x)] does not throw. *)

Section integers.
Definition int_at (m e : Z) : Prop := 0 <= e \/ (2 ^ (- e) | m).

Definition factor_like (x : js_num) : Prop :=
  match x with S754_zero false => True | S754_finite false m e => int_at (Z.pos m) e | _ => False end.
Definition factor_or_inf (x : js_num) : Prop := factor_like x \/ x = S754_infinity false.

Definition exact_rec (m : Z) : shr_record := {| shr_m := m; shr_r := false; shr_s := false |}.

Lemma shr_1_exact k : 0 <= k -> shr_1 (exact_rec (k * 2)) = exact_rec k.
Proof. intros H. destruct k as [|p|p]; [done| |lia]. rewrite Z.mul_comm. done. Qed.

Lemma iter_shr_exact p k : 0 <= k ->
  @SpecFloat.iter_pos shr_record shr_1 p (exact_rec (k * 2 ^ Z.pos p)) = exact_rec k.
Proof.
  revert k. induction p as [p IH|p IH|]; intros k Hk; cbn [SpecFloat.iter_pos].
  - replace (k * 2 ^ Z.pos p~1) with (k * 2 ^ Z.pos p * 2 ^ Z.pos p * 2).
    2:{ replace (Z.pos p~1) with (Z.pos p + Z.pos p + 1) by lia. rewrite !Z.pow_add_r by lia. lia. }
    rewrite shr_1_exact, !IH by lia. done.
  - replace (k * 2 ^ Z.pos p~0) with (k * 2 ^ Z.pos p * 2 ^ Z.pos p).
    2:{ replace (Z.pos p~0) with (Z.pos p + Z.pos p) by lia. rewrite Z.pow_add_r by lia. lia. }
    by rewrite !IH by lia.
  - by apply shr_1_exact.
Qed.

Lemma shr_fexp_int m e : 0 <= m -> int_at m e ->
  let '(r, e') := shr_fexp 53 1024 m e loc_Exact in
  int_at (shr_m r) e' /\ (0 <= e' \/ loc_of_shr_record r = loc_Exact).
Proof.
  intros Hm Hi. unfold shr_fexp, shr. cbn [shr_record_of_loc]. fold (exact_rec m).
  destruct (_ - e) as [|p|p]; [by auto| |by auto].
  destruct (Z.le_gt_cases 0 (e + Z.pos p)) as [|Hlt]; [split; by left|].
  destruct Hi as [|[k Hk]]; [lia|].
  assert (m = k * 2 ^ (- (e + Z.pos p)) * 2 ^ Z.pos p) as ->.
  { rewrite Hk, <- Z.mul_assoc, <- Z.pow_add_r by lia. do 2 f_equal. lia. }
  rewrite iter_shr_exact; [split; [right; cbn; apply Z.divide_factor_r|by right]|].
  apply (Zmult_le_0_reg_r (2 ^ Z.pos p)); [apply Z.lt_gt, Z.pow_pos_nonneg; lia|lia].
Qed.

Lemma round_int m e : 0 <= m -> int_at m e -> factor_or_inf (binary_round_aux 53 1024 false m e loc_Exact).
Proof.
  intros Hm Hi. unfold binary_round_aux.
  pose proof (shr_fexp_nonneg m e loc_Exact Hm) as Hn1. pose proof (shr_fexp_int m e Hm Hi) as H1.
  destruct (shr_fexp 53 1024 m e loc_Exact) as [r1 e1]. cbn [fst] in Hn1. destruct H1 as [Hi1 Hloc].
  assert (0 <= round_nearest_even (shr_m r1) (loc_of_shr_record r1) /\
          int_at (round_nearest_even (shr_m r1) (loc_of_shr_record r1)) e1) as [Hn2 Hi2].
  { destruct Hloc as [He|Hl]; [|by rewrite Hl]. split; [|by left].
    unfold round_nearest_even. destruct (loc_of_shr_record r1) as [|[]]; try lia. destruct (Z.even _); lia. }
  pose proof (shr_fexp_nonneg _ e1 loc_Exact Hn2) as Hn3. pose proof (shr_fexp_int _ e1 Hn2 Hi2) as H3.
  destruct (shr_fexp 53 1024 _ e1 loc_Exact) as [r2 e2]. cbn [fst] in Hn3. destruct H3 as [Hi3 _].
  destruct (shr_m r2); [by left| |lia]. destruct (_ <=? _); [by left|by right].
Qed.

Lemma num_of_Z_int z : 0 <= z -> factor_or_inf (num_of_Z z).
Proof.
  intros Hz. destruct z as [|p|p]; [by left| |lia]. unfold num_of_Z, binary_normalize, binary_round.
  unfold shl_align. destruct (_ - 0) as [|d|d] eqn:E; [apply round_int; [lia|by left]..|].
  rewrite Z.sub_0_r in E. rewrite E. apply round_int; [lia|]. right.
  replace (Z.pos (Pos.iter xO p d)) with (Z.pos p * 2 ^ Z.pos d); [apply Z.divide_factor_r|].
  clear. rewrite Z.mul_comm. induction d as [|d IH] using Pos.peano_ind; [done|].
  rewrite Pos.iter_succ, Pos2Z.inj_succ, Z.pow_succ_r, <- Z.mul_assoc, IH by lia. done.
Qed.

Lemma int_at_mul m1 e1 m2 e2 : int_at m1 e1 -> int_at m2 e2 -> int_at (m1 * m2) (e1 + e2).
Proof.
  unfold int_at. intros H1 H2. destruct (Z.le_gt_cases 0 (e1 + e2)) as [|Hlt]; [by left|]. right.
  assert (forall m a b, 0 <= a <= b -> (2 ^ b | m) -> (2 ^ a | m)) as Hd.
  { intros m a b Hab. apply Z.divide_trans. exists (2 ^ (b - a)). rewrite <- Z.pow_add_r by lia. f_equal. lia. }
  destruct H1 as [H1|H1], H2 as [H2|H2]; [lia| | |].
  - apply Z.divide_mul_r. by apply (Hd _ _ (- e2)); [lia|].
  - apply Z.divide_mul_l. by apply (Hd _ _ (- e1)); [lia|].
  - destruct (Z.le_gt_cases 0 e1); [apply Z.divide_mul_r, (Hd _ _ (- e2)); [lia|done]|].
    destruct (Z.le_gt_cases 0 e2); [apply Z.divide_mul_l, (Hd _ _ (- e1)); [lia|done]|].
    replace (- (e1 + e2)) with (- e1 + - e2) by lia. rewrite Z.pow_add_r by lia.
    destruct H1 as [a ->], H2 as [b ->]. exists (a * b). lia.
Qed.

Lemma num_mul_int x y : factor_like x -> factor_like y -> factor_or_inf (num_mul x y).
Proof.
  destruct x as [[]| | |[] m1 e1], y as [[]| | |[] m2 e2]; cbn; try done; try by left.
  intros H1 H2. apply round_int; [lia|]. rewrite Pos2Z.inj_mul. by apply int_at_mul.
Qed.

Lemma js_min_int a b : factor_like a -> factor_or_inf b -> factor_like (js_min a b).
Proof.
  intros Ha [Hb| ->]; [|by destruct a as [[]| | |[]]].
  unfold js_min. destruct (SFcompare a b) as [[]|] eqn:E; try done.
  - by destruct b as [[]| | |[]].
  - destruct a as [[]| | |[]], b as [[]| | |[]]; done.
Qed.

Lemma js_max_int a b : factor_like a -> factor_like b -> factor_like (js_max a b).
Proof.
  intros Ha Hb. unfold js_max. destruct (SFcompare a b) as [[]|] eqn:E; try done.
  - by destruct a as [[]| | |[]].
  - destruct a as [[]| | |[]], b as [[]| | |[]]; done.
Qed.

(** A number with the sign of a positive one, or zero. *)
Definition plus_sign (x : js_num) : Prop :=
  match x with S754_zero s | S754_infinity s | S754_finite s _ _ => s = false | S754_nan => False end.

Lemma round_plus_sign m e l : 0 <= m -> plus_sign (binary_round_aux 53 1024 false m e l).
Proof.
  intros H. pose proof (round_not_nan false m e l H) as Hn. unfold binary_round_aux in *.
  destruct (shr_fexp 53 1024 m e l) as [r1 e1]. destruct (shr_fexp 53 1024 _ e1 loc_Exact) as [r2 e2].
  destruct (shr_m r2); try done. by destruct (_ <=? _).
Qed.

Lemma js_round_int x : plus_sign x -> factor_or_inf (js_round x).
Proof.
  destruct x as [[]|[]| |[] m e]; cbn [plus_sign]; try done; [by left|by right|]. intros _. cbn [js_round].
  destruct (Z.leb_spec 0 e); [left; by left|]. destruct (_ =? 0); [by left|]. apply num_of_Z_int.
  apply Z.div_pos; [|]; pose proof (Z.pow_pos_nonneg 2 (- e)); cbn; lia.
Qed.

Lemma Z_of_num_int x : factor_like x -> exists n, Z_of_num x = Some n /\ 0 <= n.
Proof.
  destruct x as [[]| | |[] m e]; cbn [factor_like]; try done; [by eexists|]. intros H.
  cbn [Z_of_num signed]. destruct (Z.leb_spec 0 e).
  - eexists. split; [done|]. pose proof (Z.pow_nonneg 2 e). lia.
  - destruct H as [|H]; [lia|]. apply Z.mod_divide in H; [|apply Z.pow_nonzero; lia].
    rewrite H. eexists. split; [done|]. apply Z.div_pos; [lia|]. apply Z.pow_pos_nonneg; lia.
Qed.
End integers.

Example num_examples :
  Z_of_num (js_round (num_mul (num_of_Z 1000) (num_dec 25 1))) = Some 2500 /\
  Z_of_num (js_round (num_dec 25 1)) = Some 3 /\ Z_of_num (js_round (num_dec (-25) 1)) = Some (-2) /\
  num_ltb (num_add (num_dec 1 1) (num_dec 2 1)) (num_dec 3 1) = false /\
  num_eqb (num_add (num_dec 1 1) (num_dec 2 1)) (num_dec 3 1) = false.
Proof. by vm_compute. Qed.
