(* ===== verification/JsText.v ===== *)
(** * JavaScript values and numbers as text

    The scalar values of a parsed JSON body, [String], [Number] and [BigInt] of a
    text, and the shortest decimal text of a double
    (ECMAScript Number::toString). *)

From Stdlib Require Import Ascii SpecFloat.
From stdpp Require Import pretty.
From S2P Require Import Prelude JsInt JsNum.
Local Open Scope Z_scope.

(** ** Values of a JSON body *)

(** A number comes with the text [String] gives it. *)
Inductive json :=
  | JMissing | JNull | JBool (b : bool) | JNum (n : js_num) (text : string) | JStr (s : string) | JOther (text : string).

(** [String(v)], and [v ?? null] being null. *)
Definition js_String (v : json) : string :=
  match v with
  | JMissing => "undefined" | JNull => "null" | JBool true => "true" | JBool false => "false"
  | JNum _ t | JStr t | JOther t => t
  end.
Definition nullish (v : json) : bool := match v with JMissing | JNull => true | _ => false end.
(** [String(v ?? '')] *)
Definition text_or_empty (v : json) : string := if nullish v then "" else js_String v.

(** Decimal digits, a fraction, an exponent: the mantissa and the power of ten. *)
Definition digit (c : Ascii.ascii) : option Z :=
  let n := Z.of_nat (Ascii.nat_of_ascii c) in if (48 <=? n) && (n <=? 57) then Some (n - 48) else None.
Fixpoint digits (s : string) (acc : Z) (count : nat) : Z * nat * string :=
  match s with
  | String c s' => match digit c with Some d => digits s' (10 * acc + d) (S count) | None => (acc, count, s) end
  | EmptyString => (acc, count, s)
  end.
Definition sign_of (s : string) : Z * string :=
  match s with
  | String "+"%char s' => (1, s')
  | String "-"%char s' => (-1, s')
  | _ => (1, s)
  end.
Definition exponent (s : string) : option Z :=
  match s with
  | EmptyString => Some 0
  | String "e"%char s' | String "E"%char s' =>
      let '(sg, s1) := sign_of s' in
      let '(e, n, rest) := digits s1 0 0 in
      if (1 <=? n)%nat && String.eqb rest "" then Some (sg * e) else None
  | _ => None
  end.
Definition decimal (s : string) : option (Z * Z * Z) :=
  let '(sg, s1) := sign_of s in
  let '(m, n, rest) := digits s1 0 0 in
  match rest with
  | String "."%char s2 =>
      let '(m', n', rest') := digits s2 m 0 in
      if (n + n' =? 0)%nat then None else (fun e => (sg, m', e - Z.of_nat n')) <$> exponent rest'
  | _ => if (n =? 0)%nat then None else (fun e => (sg, m, e)) <$> exponent rest
  end.

Definition space (c : Ascii.ascii) : bool :=
  let n := Ascii.nat_of_ascii c in ((9 <=? n) && (n <=? 13))%nat || (n =? 32)%nat.
Fixpoint drop_spaces (l : list Ascii.ascii) : list Ascii.ascii :=
  match l with c :: l' => if space c then drop_spaces l' else l | [] => [] end.
Definition js_trim (s : string) : string :=
  String.string_of_list_ascii (rev (drop_spaces (rev (drop_spaces (String.list_ascii_of_string s))))).

(** [Number(s)] of a decimal text: the nearest double. *)
Definition number_of_decimal (x : Z * Z * Z) : js_num :=
  let '(sg, m, e) := x in
  let n := if 0 <=? e then num_ratio (m * 10 ^ e) 1 else num_ratio m (10 ^ (- e)) in
  if sg <? 0 then SFopp n else n.

(** ** [Number] and [BigInt] of a value *)

Definition base_digit (base : Z) (c : Ascii.ascii) : option Z :=
  let n := Z.of_nat (Ascii.nat_of_ascii c) in
  let d := if (48 <=? n) && (n <=? 57) then n - 48
           else if (97 <=? n) && (n <=? 122) then n - 87
           else if (65 <=? n) && (n <=? 90) then n - 55 else base in
  if d <? base then Some d else None.
Fixpoint base_value (base acc : Z) (s : string) : option Z :=
  match s with
  | EmptyString => Some acc
  | String c s' => match base_digit base c with Some d => base_value base (base * acc + d) s' | None => None end
  end.
Definition nonempty_value (base : Z) (s : string) : option Z :=
  match s with EmptyString => None | _ => base_value base 0 s end.
(** [0x], [0o], [0b] and digits: the forms [Number] and [BigInt] share. *)
Definition prefixed (s : string) : option (option Z) :=
  match s with
  | String "0"%char (String "x"%char t) | String "0"%char (String "X"%char t) => Some (nonempty_value 16 t)
  | String "0"%char (String "o"%char t) | String "0"%char (String "O"%char t) => Some (nonempty_value 8 t)
  | String "0"%char (String "b"%char t) | String "0"%char (String "B"%char t) => Some (nonempty_value 2 t)
  | _ => None
  end.

Definition infinity_text (s : string) : option js_num :=
  let '(sg, t) := sign_of s in if String.eqb t "Infinity" then Some (S754_infinity (sg <? 0)) else None.
Definition Number_text (s : string) : js_num :=
  let t := js_trim s in
  if String.eqb t "" then S754_zero false else
  match prefixed t with
  | Some (Some z) => num_of_Z z
  | Some None => S754_nan
  | None => match infinity_text t with
            | Some x => x
            | None => default S754_nan (number_of_decimal <$> decimal t)
            end
  end.
(** [Number(v)]; of an object or an array, that of its text. *)
Definition js_Number (v : json) : js_num :=
  match v with
  | JMissing => S754_nan
  | JNull | JBool false => S754_zero false
  | JBool true => num_of_Z 1
  | JNum n _ => n
  | JStr s | JOther s => Number_text s
  end.

Definition BigInt_text (s : string) : option Z :=
  let t := js_trim s in
  if String.eqb t "" then Some 0 else
  match prefixed t with
  | Some z => z
  | None => let '(sg, u) := sign_of t in (fun n => sg * n) <$> nonempty_value 10 u
  end.
(** [BigInt(v)]; [None] is the TypeError, the RangeError or the SyntaxError. *)
Definition js_BigInt (v : json) : option Z :=
  match v with
  | JMissing | JNull => None
  | JBool b => Some (if b then 1 else 0)
  | JNum n _ => Z_of_num n
  | JStr s | JOther s => BigInt_text s
  end.

(** [!v] is false. *)
Definition truthy (v : json) : bool :=
  match v with
  | JMissing | JNull | JBool false => false
  | JBool true | JOther _ => true
  | JNum n _ => negb (is_nan n) && negb (num_eqb n (S754_zero false))
  | JStr s => negb (String.eqb s "")
  end.

(** ** The text of a number *)

(** How many decimal digits an integer part has. *)
Definition digit_count (z : Z) : Z := Z.of_nat (String.length (pretty z)).
(** How many zeros follow the point before the first digit of [p / q] below one. *)
Fixpoint leading_zeros (fuel : nat) (p q : Z) : Z :=
  match fuel with
  | O => 0
  | S f => if q <=? 10 * p then 0 else 1 + leading_zeros f (10 * p) q
  end.

(** Digits [s] and the place of the point [n]: the number reads as
    [s * 10^(n - k)], [k] being the number of digits. *)
Definition reads_as (x : js_num) (s e : Z) : bool := num_eqb (number_of_decimal (1, s, e)) x.

(** The nearest integer [s], then the other neighbour, that reads as the number
    with [k] digits: the fewest digits win. *)
Fixpoint shortest (fuel : nat) (x : js_num) (p q n k : Z) : Z * Z * Z :=
  let e := k - n in
  let '(a, b) := if 0 <=? e then (p * 10 ^ e, q) else (p, q * 10 ^ (- e)) in
  let lo := a / b in
  let up := b <? 2 * (a - lo * b) in
  let near := if up then lo + 1 else lo in
  let far := if up then lo else lo + 1 in
  let found s := if s =? 10 ^ k then (10 ^ (k - 1), k, n + 1) else (s, k, n) in
  if reads_as x near (- e) then found near else
  if reads_as x far (- e) then found far else
  match fuel with O => found near | S f => shortest f x p q n (k + 1) end.

Fixpoint zeros_text (k : nat) : string := match k with O => "" | S k' => String "0"%char (zeros_text k') end.
Definition layout (s k n : Z) : string :=
  let d := pretty s in
  if (k <=? n) && (n <=? 21) then (d ++ zeros_text (Z.to_nat (n - k)))%string else
  if (0 <? n) && (n <=? 21) then
    (String.substring 0 (Z.to_nat n) d ++ "." ++ String.substring (Z.to_nat n) (Z.to_nat (k - n)) d)%string else
  if (-6 <? n) && (n <=? 0) then ("0." ++ zeros_text (Z.to_nat (- n)) ++ d)%string else
  let e := n - 1 in
  let m := if k =? 1 then d else (String.substring 0 1 d ++ "." ++ String.substring 1 (Z.to_nat (k - 1)) d)%string in
  (m ++ "e" ++ (if (e <? 0)%Z then "-" else "+") ++ pretty (Z.abs e))%string.

Definition num_text (x : js_num) : string :=
  match x with
  | S754_nan => "NaN"
  | S754_zero _ => "0"
  | S754_infinity s => ((if s then "-" else "") ++ "Infinity")%string
  | S754_finite s m e =>
      let '(p, q) := if 0 <=? e then (Z.pos m * 2 ^ e, 1) else (Z.pos m, 2 ^ (- e)) in
      let n := if q <=? p then digit_count (p / q) else - leading_zeros 400 p q in
      let '(d, k, n') := shortest 16 (S754_finite false m e) p q n 1 in
      ((if s then "-" else "") ++ layout d k n')%string
  end.

Example num_text_examples :
  num_text (num_dec 1 1) = "0.1"%string /\ num_text (num_of_Z 12345) = "12345"%string
  /\ num_text (num_dec 1 7) = "1e-7"%string /\ num_text (num_ratio 36 1000) = "0.036"%string
  /\ num_text (num_of_Z (10 ^ 23)) = "1e+23"%string /\ num_text (num_div (num_of_Z 2) (num_of_Z 3)) = "0.6666666666666666"%string
  /\ num_text (num_ratio 123456789 1000000) = "123.456789"%string /\ num_text (num_of_Z (10 ^ 20)) = "100000000000000000000"%string.
Proof. by vm_compute. Qed.
