(* ===== verification/Bytes.v ===== *)
(** * Buffers, hex and character codes

    Node's [Buffer] as a list of bytes (integers in 0..255): little- and
    big-endian integers, fixed-offset writes and copies, hex in both
    directions, and strings as lists of character codes. *)

From Stdlib Require Import Ascii.
From S2P Require Import Prelude JsInt.
Local Open Scope Z_scope.

Abbreviation bytes := (list Z).

Definition byte_ok (b : Z) : Prop := 0 <= b < 256.
Definition bytes_ok (l : bytes) : Prop := Forall byte_ok l.
#[export] Instance byte_ok_dec b : Decision (byte_ok b).
Proof. unfold byte_ok. apply _. Defined.

(** ** Integers in bytes *)

Fixpoint le_bytes (n : nat) (v : Z) : bytes :=
  match n with
  | O => []
  | S n' => v mod 256 :: le_bytes n' (v / 256)
  end.

Fixpoint le_value (l : bytes) : Z :=
  match l with
  | [] => 0
  | b :: l' => b + 256 * le_value l'
  end.

Definition be_bytes (n : nat) (v : Z) : bytes := reverse (le_bytes n v).
Definition be_value (l : bytes) : Z := le_value (reverse l).

Section endian.
Lemma le_bytes_length n v : length (le_bytes n v) = n.
Proof. revert v. induction n; intros v; cbn; [done | by rewrite IHn]. Qed.

Lemma le_bytes_ok n v : bytes_ok (le_bytes n v).
Proof.
  revert v. induction n as [|n IH]; intros v; cbn; constructor; [|apply IH].
  apply Z.mod_pos_bound. lia.
Qed.

Lemma pow256_S n : 256 ^ Z.of_nat (S n) = 256 * 256 ^ Z.of_nat n.
Proof. rewrite Nat2Z.inj_succ, Z.pow_succ_r by lia. done. Qed.

Lemma le_value_range l : bytes_ok l -> 0 <= le_value l < 256 ^ Z.of_nat (length l).
Proof.
  induction 1 as [|b l Hb _ IH]; [cbn; lia|].
  cbn [length le_value]. rewrite pow256_S. unfold byte_ok in Hb. lia.
Qed.

Lemma le_value_bytes n v : le_value (le_bytes n v) = v mod 256 ^ Z.of_nat n.
Proof.
  revert v. induction n as [|n IH]; intros v; [cbn; by rewrite Z.mod_1_r|].
  cbn [le_bytes le_value]. rewrite IH, pow256_S.
  rewrite Z.rem_mul_r; [done | lia | apply Z.pow_pos_nonneg; lia].
Qed.

Lemma le_value_bytes_small n v : 0 <= v < 256 ^ Z.of_nat n -> le_value (le_bytes n v) = v.
Proof. intros H. rewrite le_value_bytes. by apply Z.mod_small. Qed.

Lemma le_bytes_value l : bytes_ok l -> le_bytes (length l) (le_value l) = l.
Proof.
  induction 1 as [|b l Hb _ IH]; [done|]. cbn. unfold byte_ok in Hb.
  rewrite Z.mul_comm, Z.mod_add, Z.mod_small, Z.div_add, Z.div_small, Z.add_0_l, IH by lia.
  done.
Qed.

Lemma le_value_inj l k :
  bytes_ok l -> bytes_ok k -> length l = length k -> le_value l = le_value k -> l = k.
Proof.
  intros Hl Hk Hlen Hv. rewrite <- (le_bytes_value l Hl), <- (le_bytes_value k Hk).
  by rewrite Hlen, Hv.
Qed.

Lemma le_value_app l k : le_value (l ++ k) = le_value l + 256 ^ Z.of_nat (length l) * le_value k.
Proof.
  induction l as [|b l IH]; [cbn; lia|].
  cbn [app le_value length]. rewrite IH, pow256_S. lia.
Qed.

Lemma reverse_ok l : bytes_ok l -> bytes_ok (reverse l).
Proof. unfold bytes_ok. by rewrite Forall_reverse. Qed.

Lemma be_bytes_length n v : length (be_bytes n v) = n.
Proof. unfold be_bytes. by rewrite length_reverse, le_bytes_length. Qed.

Lemma be_bytes_ok n v : bytes_ok (be_bytes n v).
Proof. apply reverse_ok, le_bytes_ok. Qed.

Lemma be_value_bytes_small n v : 0 <= v < 256 ^ Z.of_nat n -> be_value (be_bytes n v) = v.
Proof. unfold be_value, be_bytes. rewrite reverse_involutive. apply le_value_bytes_small. Qed.

Lemma be_value_range l : bytes_ok l -> 0 <= be_value l < 256 ^ Z.of_nat (length l).
Proof.
  intros H. rewrite <- (length_reverse l). by apply le_value_range, reverse_ok.
Qed.

Lemma be_bytes_value l : bytes_ok l -> be_bytes (length l) (be_value l) = l.
Proof.
  intros H. unfold be_bytes, be_value. rewrite <- (length_reverse l).
  rewrite le_bytes_value by by apply reverse_ok. apply reverse_involutive.
Qed.

Lemma be_value_inj l k :
  bytes_ok l -> bytes_ok k -> length l = length k -> be_value l = be_value k -> l = k.
Proof.
  intros Hl Hk Hlen Hv. rewrite <- (be_bytes_value l Hl), <- (be_bytes_value k Hk).
  by rewrite Hlen, Hv.
Qed.

Lemma be_value_app l k : be_value (l ++ k) = be_value l * 256 ^ Z.of_nat (length k) + be_value k.
Proof.
  unfold be_value. rewrite reverse_app, le_value_app, length_reverse. lia.
Qed.

Lemma be_value_cons b l : be_value (b :: l) = b * 256 ^ Z.of_nat (length l) + be_value l.
Proof. change (b :: l) with ([b] ++ l). rewrite be_value_app. cbn. lia. Qed.

(** [Buffer.compare] is the comparison of the big-endian values. *)
Fixpoint buf_compare (a b : bytes) : comparison :=
  match a, b with
  | [], [] => Eq
  | [], _ :: _ => Lt
  | _ :: _, [] => Gt
  | x :: a', y :: b' => match x ?= y with Eq => buf_compare a' b' | c => c end
  end.

Lemma buf_compare_value a b :
  bytes_ok a -> bytes_ok b -> length a = length b ->
  buf_compare a b = (be_value a ?= be_value b).
Proof.
  intros Ha. revert b. induction Ha as [|x a Hx Ha IH]; intros [|y b] Hb Hlen; try done.
  inversion Hb as [|? ? Hy Hb']; subst. injection Hlen as Hlen. cbn [buf_compare].
  rewrite !be_value_cons, Hlen.
  pose proof (be_value_range a Ha) as Ra. rewrite Hlen in Ra.
  pose proof (be_value_range b Hb'). unfold byte_ok in *.
  destruct (Z.compare_spec x y) as [->|Hlt|Hgt].
  - rewrite IH by done. symmetry.
    destruct (Z.compare_spec (be_value a) (be_value b));
      [apply Z.compare_eq_iff | apply Z.compare_lt_iff | apply Z.compare_gt_iff]; nia.
  - symmetry. apply Z.compare_lt_iff. nia.
  - symmetry. apply Z.compare_gt_iff. nia.
Qed.
End endian.

#[export] Hint Resolve le_bytes_ok be_bytes_ok reverse_ok : pcoin.
#[export] Hint Rewrite le_bytes_length be_bytes_length @length_app @length_reverse
  @length_replicate : pcoin_simpl.

(** ** Writes at an offset; [RangeError]s as [None] *)

(** [target.copy(buf, off)]: copies what fits. *)
Definition buf_copy (src : bytes) (off : nat) (dst : bytes) : bytes :=
  let src' := take (length dst - off) src in
  take off dst ++ src' ++ drop (off + length src') dst.

(** [buf.writeUIntXXLE(v, off)] and [buf.writeInt32LE(v, off)] refuse a value out of range. *)
Definition write_uint_le (n : nat) (v : Z) (off : nat) (dst : bytes) : option bytes :=
  if (0 <=? v) && (v <? 256 ^ Z.of_nat n) && bool_decide (off + n <= length dst)%nat
  then Some (buf_copy (le_bytes n v) off dst) else None.

Definition write_int32_le (v : Z) (off : nat) (dst : bytes) : option bytes :=
  if (- 2 ^ 31 <=? v) && (v <? 2 ^ 31) && bool_decide (off + 4 <= length dst)%nat
  then Some (buf_copy (le_bytes 4 v) off dst) else None.

Definition zeros (n : nat) : bytes := replicate n 0.

Lemma zeros_ok n : bytes_ok (zeros n).
Proof. apply Forall_replicate. unfold byte_ok. lia. Qed.
#[export] Hint Resolve zeros_ok : pcoin.

Lemma buf_copy_length src off dst :
  (off <= length dst)%nat -> length (buf_copy src off dst) = length dst.
Proof.
  intros H. unfold buf_copy.
  rewrite !length_app, length_drop, !length_take. lia.
Qed.

(** A write over the middle of a buffer, when the whole source fits. *)
Lemma buf_copy_mid src a b c :
  length src = length b -> buf_copy src (length a) (a ++ b ++ c) = a ++ src ++ c.
Proof.
  intros H. unfold buf_copy. rewrite !length_app.
  rewrite (take_ge src) by lia. rewrite take_app_length. f_equal. f_equal.
  rewrite H, drop_app_ge, drop_app_ge by lia.
  by replace (length a + length b - length a - length b)%nat with 0%nat by lia.
Qed.

(** ** Hexadecimal *)

Definition hex_digits : string := "0123456789abcdef".

Definition hex_digit (d : Z) : Ascii.ascii :=
  match String.get (Z.to_nat d) hex_digits with Some c => c | None => "0"%char end.

Definition hex_val (c : Ascii.ascii) : option Z :=
  let n := Z.of_nat (Ascii.nat_of_ascii c) in
  if (48 <=? n) && (n <=? 57) then Some (n - 48)
  else if (97 <=? n) && (n <=? 102) then Some (n - 87)
  else if (65 <=? n) && (n <=? 70) then Some (n - 55)
  else None.

(** [buf.toString('hex')] *)
Fixpoint hex_encode (l : bytes) : string :=
  match l with
  | [] => ""
  | b :: l' => String (hex_digit (b / 16)) (String (hex_digit (b mod 16)) (hex_encode l'))
  end.

(** [Buffer.from(s, 'hex')]: decodes pairs until the first that is not hex. *)
Fixpoint hex_decode (s : string) : bytes :=
  match s with
  | String a (String b s') =>
      match hex_val a, hex_val b with
      | Some x, Some y => 16 * x + y :: hex_decode s'
      | _, _ => []
      end
  | _ => []
  end.

Lemma hex_val_digit d : 0 <= d < 16 -> hex_val (hex_digit d) = Some d.
Proof.
  intros H.
  assert (bool_decide (hex_val (hex_digit d) = Some d) = true) as Hd;
    [|by apply bool_decide_eq_true in Hd].
  exact (forall_below 16 (fun d => bool_decide (hex_val (hex_digit d) = Some d)) eq_refl d H).
Qed.

Lemma hex_decode_encode l : bytes_ok l -> hex_decode (hex_encode l) = l.
Proof.
  induction 1 as [|b l Hb _ IH]; [done|]. cbn. unfold byte_ok in Hb.
  pose proof (Z.div_mod b 16 ltac:(lia)). pose proof (Z.mod_pos_bound b 16 ltac:(lia)).
  assert (0 <= b / 16 < 16) by (split; [apply Z.div_pos | apply Z.div_lt_upper_bound]; lia).
  rewrite !hex_val_digit, IH by lia. f_equal. lia.
Qed.

Lemma hex_val_range c d : hex_val c = Some d -> 0 <= d < 16.
Proof.
  unfold hex_val. repeat case_match; intros [= <-]; bool_to_prop; lia.
Qed.

Lemma hex_decode_ok s : bytes_ok (hex_decode s).
Proof.
  assert (forall n s, (String.length s <= n)%nat -> bytes_ok (hex_decode s)) as H; [|by eapply H].
  clear s. intros n. induction n as [|n IH]; intros [|a [|b s]] Hs; cbn in *; try constructor; try lia.
  destruct (hex_val a) as [x|] eqn:Ha; [|constructor].
  destruct (hex_val b) as [y|] eqn:Hb; [|constructor].
  apply hex_val_range in Ha, Hb. constructor; [unfold byte_ok; lia|]. apply IH. lia.
Qed.
#[export] Hint Resolve hex_decode_ok : pcoin.

(** ** Strings as lists of character codes (the strings are ASCII) *)

Fixpoint codes (s : string) : list Z :=
  match s with
  | EmptyString => []
  | String c s' => Z.of_nat (Ascii.nat_of_ascii c) :: codes s'
  end.

(** [s.toLowerCase()] and [s.toUpperCase()] on ASCII. *)
Definition lower_code (c : Z) : Z := if (65 <=? c) && (c <=? 90) then c + 32 else c.
Definition upper_code (c : Z) : Z := if (97 <=? c) && (c <=? 122) then c - 32 else c.
Fixpoint lower_string (s : string) : string :=
  match s with
  | EmptyString => EmptyString
  | String c s' =>
      String (Ascii.ascii_of_nat (Z.to_nat (lower_code (Z.of_nat (Ascii.nat_of_ascii c))))) (lower_string s')
  end.

(** [s.indexOf(c)] and [s.lastIndexOf(c)], -1 when absent. *)
Fixpoint index_of_from (i : Z) (c : Z) (l : list Z) : Z :=
  match l with
  | [] => -1
  | x :: l' => if x =? c then i else index_of_from (i + 1) c l'
  end.
Definition index_of (c : Z) (l : list Z) : Z := index_of_from 0 c l.

Fixpoint last_index_from (i best : Z) (c : Z) (l : list Z) : Z :=
  match l with
  | [] => best
  | x :: l' => last_index_from (i + 1) (if x =? c then i else best) c l'
  end.
Definition last_index_of (c : Z) (l : list Z) : Z := last_index_from 0 (-1) c l.

Lemma index_of_from_spec i c l :
  0 <= i -> index_of_from i c l = -1 \/
  (i <= index_of_from i c l < i + Z.of_nat (length l) /\
   l !! Z.to_nat (index_of_from i c l - i) = Some c).
Proof.
  revert i. induction l as [|x l IH]; intros i Hi; [by left|]. cbn.
  destruct (Z.eqb_spec x c) as [->|Hne].
  - right. split; [lia|]. by replace (Z.to_nat (i - i)) with 0%nat by lia.
  - destruct (IH (i + 1) ltac:(lia)) as [->|[Hr Hl]]; [by left|]. right. split; [lia|].
    replace (Z.to_nat (index_of_from (i + 1) c l - i))
      with (S (Z.to_nat (index_of_from (i + 1) c l - (i + 1)))) by lia.
    done.
Qed.

Lemma index_of_spec c l : 0 <= index_of c l ->
  index_of c l < Z.of_nat (length l) /\ l !! Z.to_nat (index_of c l) = Some c.
Proof.
  intros H. destruct (index_of_from_spec 0 c l ltac:(lia)) as [Hm|[Hr Hl]];
    unfold index_of in *; [lia|].
  rewrite Z.sub_0_r in Hl. split; [lia | done].
Qed.

(** A code found at two positions is found at the first: equal indices mean equal codes. *)
Lemma index_of_inj c d l : 0 <= index_of c l -> index_of c l = index_of d l -> c = d.
Proof.
  intros H1 H2. assert (0 <= index_of d l) as H3 by lia.
  apply index_of_spec in H1 as [_ H1], H3 as [_ H3]. rewrite H2 in H1. congruence.
Qed.

Lemma last_index_from_spec i best c l :
  last_index_from i best c l = best \/
  (i <= last_index_from i best c l < i + Z.of_nat (length l) /\
   l !! Z.to_nat (last_index_from i best c l - i) = Some c).
Proof.
  revert i best. induction l as [|x l IH]; intros i best; [by left|]. cbn [last_index_from].
  set (b := if x =? c then i else best).
  destruct (IH (i + 1) b) as [->|[Hr Hl]].
  - subst b. destruct (Z.eqb_spec x c) as [->|]; [|by left].
    right. cbn [length]. split; [lia|]. by replace (Z.to_nat (i - i)) with 0%nat by lia.
  - right. cbn [length]. split; [lia|].
    by replace (Z.to_nat (last_index_from (i + 1) b c l - i))
      with (S (Z.to_nat (last_index_from (i + 1) b c l - (i + 1)))) by lia.
Qed.

(** Splitting a string at the last occurrence of a character. *)
Lemma last_index_of_split c l : 0 <= last_index_of c l ->
  let p := Z.to_nat (last_index_of c l) in
  l = take p l ++ c :: drop (Z.to_nat (last_index_of c l + 1)) l.
Proof.
  intros H p. destruct (last_index_from_spec 0 (-1) c l) as [Hm|[Hr Hl]];
    unfold last_index_of in *; [lia|].
  rewrite Z.sub_0_r in Hl. subst p.
  replace (Z.to_nat (last_index_from 0 (-1) c l + 1))
    with (S (Z.to_nat (last_index_from 0 (-1) c l))) by lia.
  symmetry. by apply take_drop_middle.
Qed.

Lemma codes_range s : Forall (fun c => 0 <= c < 256) (codes s).
Proof.
  induction s as [|a s IH]; cbn; constructor; [|done].
  pose proof (Ascii.nat_ascii_bounded a). lia.
Qed.

Lemma lower_code_range c : 0 <= c < 256 -> 0 <= lower_code c < 256.
Proof. unfold lower_code. repeat case_match; bool_to_prop; lia. Qed.

Lemma lower_codes_range s : Forall (fun c => 0 <= c < 256) (lower_code <$> codes s).
Proof.
  apply Forall_fmap. eapply Forall_impl; [apply codes_range|]. apply lower_code_range.
Qed.

Lemma codes_lower s : codes (lower_string s) = lower_code <$> codes s.
Proof.
  induction s as [|c s IH]; [done|]. cbn. rewrite IH. f_equal.
  pose proof (Ascii.nat_ascii_bounded c). rewrite Ascii.nat_ascii_embedding; [|].
  - rewrite Z2Nat.id; [done|]. pose proof (lower_code_range (Z.of_nat (Ascii.nat_of_ascii c))). lia.
  - pose proof (lower_code_range (Z.of_nat (Ascii.nat_of_ascii c))). lia.
Qed.

Lemma lower_code_idem c : lower_code (lower_code c) = lower_code c.
Proof. unfold lower_code. repeat case_match; lia. Qed.
