(* ===== verification/PoolAddress.v ===== *)
(** * Payout addresses of the mining pool (contrib/pool/block.mjs)

    [assertBech32Checksum], the check at the login door, and [addressToScript],
    the decoder of the payout path, which drops the checksum unread. *)

From Stdlib Require Import Ascii.
From S2P Require Import Prelude JsInt Bytes Bech32.
Local Open Scope Z_scope.

(** The [Error]s the two functions throw. *)
Inductive addr_err :=
  | MixedCase
  | NotBech32
  | BadCharacter (c : Z)
  | ChecksumWrong
  | WrongHrp (hrp : list Z)
  | PayloadTooShort
  | WitnessVersion (v : Z)
  | ProgramLength (n : nat).

#[export] Instance addr_err_eq_dec : EqDecision addr_err.
Proof. solve_decision. Defined.

(** [CHARSET.indexOf(ch)], an error below zero. *)
Definition charset_value (ch : Z) : result addr_err Z :=
  let v := index_of ch CHARSET in
  if v <? 0 then Err (BadCharacter ch) else Ok v.

(** The character code of ["1"], the separator. *)
Definition SEP : Z := 49.

Definition assertBech32Checksum (addr : string) : result addr_err () :=
  let s := codes addr in
  let lower := lower_code <$> s in
  let upper := upper_code <$> s in
  if negb (bool_decide (s = lower)) && negb (bool_decide (s = upper)) then Err MixedCase else
  let a := lower in
  let pos := last_index_of SEP a in
  if (pos <? 1) || (Z.of_nat (length a) <? pos + 7) then Err NotBech32 else
  let hrp := take (Z.to_nat pos) a in
  data ← mapM charset_value (drop (Z.to_nat (pos + 1)) a);
  if polymod (hrpExpand hrp ++ data) =? 1 then Ok () else Err ChecksumWrong.

(** The 5-bit to 8-bit loop: [acc] is never masked, so it overflows 32 bits on
    every real address.  [drain] is the inner [while (bits >= 8)]; one turn
    always empties it, two are allowed. *)
Fixpoint drain (fuel : nat) (acc bits : Z) : Z * bytes :=
  match fuel with
  | O => (bits, [])
  | S fuel' =>
      if 8 <=? bits then
        let bits := bits - 8 in
        let '(bits', out) := drain fuel' acc bits in
        (bits', js_and (js_shr acc bits) 0xff :: out)
      else (bits, [])
  end.

Definition regroup_step (st : Z * Z * bytes) (v : Z) : Z * Z * bytes :=
  let '(acc, bits, prog) := st in
  let acc := js_or (js_shl acc 5) v in
  let '(bits, out) := drain 2 acc (bits + 5) in
  (acc, bits, prog ++ out).

Definition regroup (groups : list Z) : bytes := (foldl regroup_step (0, 0, []) groups).2.

Definition addressToScript (addr : string) (expectHrp : string) : result addr_err bytes :=
  let lower := lower_code <$> codes addr in
  let pos := last_index_of SEP lower in
  if pos <? 1 then Err NotBech32 else
  let hrp := take (Z.to_nat pos) lower in
  if negb (bool_decide (hrp = codes expectHrp)) then Err (WrongHrp hrp) else
  data ← mapM charset_value (drop (Z.to_nat (pos + 1)) lower);
  if (length data <? 7)%nat then Err PayloadTooShort else
  let payload := take (length data - 6) data in
  match payload with
  | [] => Err PayloadTooShort
  | version :: groups =>
      if negb (version =? 0) then Err (WitnessVersion version) else
      let prog := regroup groups in
      if negb (length prog =? 20)%nat then Err (ProgramLength (length prog)) else
      Ok ([0x00; 0x14] ++ prog)
  end.

(** The check a login and the pool's own address pass, in the source's order
    (contrib/pool/pool.mjs). *)
Definition login_address (addr hrp : string) : result addr_err bytes :=
  script ← addressToScript addr hrp;
  _ ← assertBech32Checksum addr;
  Ok script.

(** ** The 5-to-8-bit loop is exact despite the 32-bit accumulator *)

Section regroup.
(** The groups read as one base-32 number. *)
Fixpoint groups_value (acc : Z) (l : list Z) : Z :=
  match l with [] => acc | v :: l' => groups_value (32 * acc + v) l' end.

Lemma or_low5 a v : 0 <= v < 32 -> a mod 32 = 0 -> Z.lor a v = a + v.
Proof.
  intros Hv Ha. rewrite <- Z.add_lor_land.
  enough (Z.land a v = 0) by lia.
  apply Z.bits_inj'. intros i Hi. rewrite Z.land_spec, Z.bits_0.
  destruct (Z_lt_le_dec i 5).
  - assert (Z.testbit a i = false) as ->; [|done].
    rewrite (Z.div_mod a 32), Ha, Z.add_0_r by lia. change 32 with (2 ^ 5).
    rewrite Z.mul_comm. by apply Z.mul_pow2_bits_low.
  - rewrite (Z.bits_above_log2 v i); [by rewrite andb_false_r | lia |].
    destruct (Z.eq_dec v 0) as [->|]; [cbn; lia|].
    apply Z.log2_lt_pow2; [lia|].
    assert (2 ^ 5 <= 2 ^ i) by (apply Z.pow_le_mono_r; lia). lia.
Qed.

(** The accumulator holds the exact value modulo 2^32. *)
Lemma acc_step acc V v :
  0 <= v < 32 -> acc mod 2 ^ 32 = V mod 2 ^ 32 ->
  js_or (js_shl acc 5) v mod 2 ^ 32 = (32 * V + v) mod 2 ^ 32.
Proof.
  intros Hv H. unfold js_or. rewrite (to_int32_small v) by lia.
  set (s := to_int32 (js_shl acc 5)).
  assert (s mod 2 ^ 32 = (32 * V) mod 2 ^ 32) as Hs.
  { unfold s, js_shl. rewrite to_int32_mod, to_int32_mod.
    change (5 mod 32) with 5. rewrite Z.shiftl_mul_pow2 by lia. change (2 ^ 5) with 32.
    rewrite (Z.mul_comm _ 32), <- Z.mul_mod_idemp_r, to_int32_mod, H by lia.
    by rewrite Z.mul_mod_idemp_r. }
  rewrite or_low5 by (try done; change 32 with (2 ^ 5) at 1;
    rewrite <- (mod_pow2_trans s 5 32), Hs, mod_pow2_trans by lia;
    rewrite Z.mul_comm; by apply Z.mod_mul).
  by rewrite <- Z.add_mod_idemp_l, Hs, Z.add_mod_idemp_l.
Qed.

(** Extracting a byte sees only bits the accumulator still has. *)
Lemma acc_byte acc V b :
  acc mod 2 ^ 32 = V mod 2 ^ 32 -> 0 <= b <= 24 ->
  js_and (js_shr acc b) 0xff = (V / 2 ^ b) mod 256.
Proof.
  intros H Hb. rewrite (js_and_ones (js_shr acc b) 8 ltac:(lia) : js_and _ 0xff = _).
  unfold js_shr. rewrite (Z.mod_small b), Z.shiftr_div_pow2 by lia.
  assert (forall X, (X / 2 ^ b) mod 2 ^ 8 = (X mod 2 ^ 32) / 2 ^ b mod 2 ^ 8) as Hcut.
  { intros X. rewrite <- !Z.shiftr_div_pow2, <- !Z.land_ones by lia.
    apply Z.bits_inj'. intros i Hi.
    rewrite !Z.land_spec, !Z.shiftr_spec, Z.land_spec, !Z.testbit_ones_nonneg by lia.
    destruct (Z.ltb_spec i 8); [|by rewrite !andb_false_r].
    destruct (Z.ltb_spec (i + b) 32); [by rewrite !andb_true_r | lia]. }
  rewrite Hcut, to_int32_mod, H, <- Hcut. done.
Qed.

(** What the loop state means after reading the number [V] of [k] groups. *)
Definition regroup_inv (V : Z) (k : nat) (st : Z * Z * bytes) : Prop :=
  let '(acc, bits, prog) := st in
  acc mod 2 ^ 32 = V mod 2 ^ 32 /\ 0 <= bits < 8 /\
  5 * Z.of_nat k = 8 * Z.of_nat (length prog) + bits /\
  bytes_ok prog /\ be_value prog = V / 2 ^ bits.

Lemma regroup_step_inv V k st v :
  0 <= V -> 0 <= v < 32 -> regroup_inv V k st -> regroup_inv (32 * V + v) (S k) (regroup_step st v).
Proof.
  destruct st as [[acc bits] prog]. intros HV Hv (Hacc & Hbits & Hlen & Hok & Hval).
  pose proof (acc_step acc V v Hv Hacc) as Hacc'.
  assert ((32 * V + v) / 2 ^ (bits + 5) = be_value prog) as Hold.
  { rewrite Hval, Z.pow_add_r, (Z.mul_comm (2 ^ bits)), <- Z.div_div
      by (try apply Z.pow_nonzero; try apply Z.pow_pos_nonneg; lia).
    replace (32 * V + v) with (v + V * 2 ^ 5) by lia.
    rewrite Z.div_add, (Z.div_small v) by lia. done. }
  unfold regroup_step. cbn [drain].
  destruct (Z.leb_spec 8 (bits + 5)) as [H8|H8]; cbn beta iota zeta.
  - destruct (Z.leb_spec 8 (bits + 5 - 8)) as [|_]; [lia|].
    unfold regroup_inv. cbn beta iota zeta.
    split; [done|]. split; [lia|].
    rewrite length_app. cbn [length].
    split; [lia|].
    rewrite (acc_byte _ (32 * V + v) (bits + 5 - 8) Hacc') by lia.
    split; [apply Forall_app; split; [done|]; constructor; [|done];
            apply Z.mod_pos_bound; lia|].
    rewrite be_value_app, <- Hold. cbn [length]. change (be_value [?x]) with (x + 256 * 0).
    replace (bits + 5) with (bits + 5 - 8 + 8) at 1 by lia.
    rewrite Z.pow_add_r, <- Z.div_div by (try apply Z.pow_pos_nonneg; lia).
    pose proof (Z.div_mod ((32 * V + v) / 2 ^ (bits + 5 - 8)) 256 ltac:(lia)).
    change (2 ^ 8) with 256. change (256 ^ Z.of_nat 1) with 256. lia.
  - rewrite app_nil_r. repeat split; try done; lia.
Qed.

Lemma regroup_fold l V k st :
  0 <= V -> Forall (fun v => 0 <= v < 32) l -> regroup_inv V k st ->
  regroup_inv (groups_value V l) (k + length l) (foldl regroup_step st l).
Proof.
  intros HV Hl. revert V k st HV. induction Hl as [|v l Hv _ IH]; intros V k st HV Hst; cbn.
  - by rewrite Nat.add_0_r.
  - rewrite <- Nat.add_succ_comm. apply IH; [lia|]. by apply regroup_step_inv.
Qed.

Lemma regroup_spec l :
  Forall (fun v => 0 <= v < 32) l ->
  let n := Z.of_nat (length l) in
  Z.of_nat (length (regroup l)) = 5 * n / 8 /\ bytes_ok (regroup l) /\
  be_value (regroup l) = groups_value 0 l / 2 ^ (5 * n mod 8).
Proof.
  intros Hl n. assert (regroup_inv 0 0 (0, 0, [])) as H0.
  { repeat split; try done; lia || constructor. }
  pose proof (regroup_fold l 0 0 _ ltac:(lia) Hl H0) as H.
  unfold regroup. destruct (foldl _ _ _) as [[acc bits] prog].
  destruct H as (_ & Hb & Hlen & Hok & Hv). cbn in Hlen |- *.
  assert (5 * n / 8 = Z.of_nat (length prog) /\ 5 * n mod 8 = bits) as [-> ->].
  { subst n. split; [symmetry; apply Z.div_unique with bits
                    | symmetry; apply Z.mod_unique with (Z.of_nat (length prog))]; lia. }
  done.
Qed.
End regroup.

(** ** What an accepted address looks like *)

Section accepted.
Lemma charset_value_Ok c v : charset_value c = Ok v -> 0 <= v < 32 /\ v = index_of c CHARSET.
Proof.
  unfold charset_value. intros H. res_inv. bool_to_prop. subst.
  pose proof (index_of_spec c CHARSET Hb) as [Hlt _]. change (Z.of_nat (length CHARSET)) with 32 in Hlt. split; [lia | done].
Qed.

Lemma charset_value_inj c d v : charset_value c = Ok v -> charset_value d = Ok v -> c = d.
Proof.
  intros [Hv ->]%charset_value_Ok [_ Hd]%charset_value_Ok. apply (index_of_inj c d CHARSET); [lia | done].
Qed.

Lemma mapM_charset_range l data :
  mapM charset_value l = Ok data -> Forall (fun v => 0 <= v < 32) data.
Proof.
  rewrite mapM_Ok. induction 1 as [|c v l data Hc _ IH]; constructor; [|done].
  by apply charset_value_Ok in Hc as [? _].
Qed.

(** A decoded address is its prefix, the separator and charset characters. *)
Lemma addressToScript_Ok addr hrp script :
  addressToScript addr hrp = Ok script ->
  exists tail data groups sum,
    lower_code <$> codes addr = codes hrp ++ SEP :: tail /\
    last_index_of SEP (lower_code <$> codes addr) = Z.of_nat (length (codes hrp)) /\
    mapM charset_value tail = Ok data /\
    data = 0 :: groups ++ sum /\ length sum = 6%nat /\
    length (regroup groups) = 20%nat /\ script = [0x00; 0x14] ++ regroup groups.
Proof.
  unfold addressToScript. set (a := lower_code <$> codes addr). intros H.
  destruct (last_index_of SEP a <? 1) eqn:Hpos; [discriminate|]. bool_to_prop.
  destruct (negb _) eqn:Hhrp in H; [discriminate|]. bool_to_prop.
  pose proof (last_index_of_split SEP a ltac:(lia)) as Hsplit. cbn zeta in Hsplit.
  rewrite Hhrp in Hsplit. res_inv. rename a0 into data.
  destruct (take (length data - 6) data) as [|version groups] eqn:Hpay; [discriminate|].
  res_inv. bool_to_prop. subst version. apply Nat.eqb_eq in Hb1. apply Nat.ltb_ge in Hb.
  exists (drop (Z.to_nat (last_index_of SEP a + 1)) a), data, groups,
    (drop (length data - 6) data).
  repeat split; try done.
  - apply (f_equal length) in Hhrp. rewrite length_take in Hhrp.
    destruct (last_index_from_spec 0 (-1) SEP a) as [Hm|[Hr _]];
      unfold last_index_of in *; lia.
  - rewrite <- (take_drop (length data - 6) data) at 1. by rewrite Hpay.
  - rewrite length_drop. lia.
Qed.

Lemma assertBech32Checksum_Ok addr hrp tail data :
  lower_code <$> codes addr = codes hrp ++ SEP :: tail ->
  last_index_of SEP (lower_code <$> codes addr) = Z.of_nat (length (codes hrp)) ->
  mapM charset_value tail = Ok data ->
  assertBech32Checksum addr = Ok () ->
  polymod (hrpExpand (codes hrp) ++ data) = 1.
Proof.
  intros Ha Hpos Hdata H. unfold assertBech32Checksum in H. rewrite Hpos in H.
  rewrite Ha in H.
  assert (drop (Z.to_nat (Z.of_nat (length (codes hrp)) + 1)) (codes hrp ++ SEP :: tail) = tail)
    as Hdrop.
  { rewrite drop_app_ge by lia.
    by replace (Z.to_nat (Z.of_nat (length (codes hrp)) + 1) - length (codes hrp))%nat
      with 1%nat by lia. }
  rewrite Hdrop, Hdata, Nat2Z.id, take_app_length in H.
  destruct (_ && _) in H; [discriminate H|]. destruct (_ || _) in H; [discriminate H|].
  simpl in H. destruct (polymod _ =? 1) eqn:E in H; [by bool_to_prop | discriminate H].
Qed.

Lemma hrpExpand_range hrp : Forall (fun v => 0 <= v < 32) (hrpExpand (codes hrp)).
Proof.
  unfold hrpExpand. rewrite !Forall_app, !Forall_fmap.
  split; [|split; [by repeat constructor|]];
    (eapply Forall_impl; [apply codes_range|]); intros c Hc; cbn in Hc |- *.
  - rewrite js_shr_small by lia. change (2 ^ 5) with 32.
    split; [apply Z.div_pos | apply Z.div_lt_upper_bound]; lia.
  - rewrite (js_and_ones c 5 ltac:(lia) : js_and c 31 = c mod 2 ^ 5).
    apply Z.mod_pos_bound. lia.
Qed.

Lemma login_address_Ok addr hrp script :
  login_address addr hrp = Ok script <->
  addressToScript addr hrp = Ok script /\ assertBech32Checksum addr = Ok ().
Proof.
  unfold login_address. rewrite bind_Ok. split.
  - intros (s & -> & H). rewrite bind_Ok in H. by destruct H as ([] & -> & [= ->]).
  - intros [-> ->]. by exists script.
Qed.
End accepted.

(** ** Properties *)

(** C32: no address one character away from an accepted one is accepted: if
    [addr] passes the login checks, a string that differs from it in exactly one
    character (letter case aside) fails them -- the typo of September 2026 that
    burned 712 PCN cannot log in. *)
Theorem one_character_typo_refused addr addr' hrp script pre c d suf :
  login_address addr hrp = Ok script ->
  codes addr = pre ++ c :: suf -> codes addr' = pre ++ d :: suf ->
  lower_code c <> lower_code d ->
  is_ok (login_address addr' hrp) = false.
Proof.
  intros Hok Hc Hd Hne. destruct (login_address addr' hrp) as [s'|] eqn:Hok'; [exfalso | done].
  apply login_address_Ok in Hok as [Ha Ha0], Hok' as [Ha1 Ha2].
  apply addressToScript_Ok in Ha as (t & v & g & m & Ht & Hp & Hv & _).
  apply addressToScript_Ok in Ha1 as (t' & v' & g' & m' & Ht' & Hp' & Hv' & _).
  pose proof (assertBech32Checksum_Ok _ _ _ _ Ht Hp Hv Ha0) as Hsum.
  pose proof (assertBech32Checksum_Ok _ _ _ _ Ht' Hp' Hv' Ha2) as Hsum'.
  rewrite Hc, fmap_app, fmap_cons in Ht. rewrite Hd, fmap_app, fmap_cons in Ht'.
  assert (exists p, t = p ++ lower_code c :: (lower_code <$> suf) /\
                    t' = p ++ lower_code d :: (lower_code <$> suf)) as (p & -> & ->).
  { by eapply app_cons_diff. }
  clear Ht Ht' Hp Hp'. apply mapM_Ok in Hv, Hv'.
  apply Forall2_app_inv_l in Hv as (v1 & v2 & Hv1 & Hv2 & ->).
  apply Forall2_app_inv_l in Hv' as (v1' & v2' & Hv1' & Hv2' & ->).
  inversion Hv2 as [|? x ? k Hx Hk]; subst. inversion Hv2' as [|? y ? k' Hy Hk']; subst.
  assert (v1' = v1) as -> by (apply mapM_Ok in Hv1, Hv1'; congruence).
  assert (k' = k) as -> by (apply mapM_Ok in Hk, Hk'; congruence).
  rewrite app_assoc in Hsum, Hsum'. rewrite <- Hsum' in Hsum. revert Hsum.
  apply polymod_differ.
  - rewrite !Forall_app, Forall_cons. apply mapM_Ok in Hv1, Hk.
    apply charset_value_Ok in Hx as [Hx _].
    split_and!; try lia; eauto using hrpExpand_range, mapM_charset_range.
  - by apply charset_value_Ok in Hy as [? _].
  - intros ->. apply Hne. by eapply charset_value_inj.
Qed.

Lemma one_character_typo_refused_witness :
  let good := "pc1qrgase7g8zvvrepxmh8kgnmf09freyqual7y7c6" in
  let typo := "pc1qrgase7g8zvvrepxmh8kgnmf09freyquak7y7c6" in
  is_ok (login_address good "pc") = true /\ is_ok (login_address typo "pc") = false.
Proof.
  split; [by vm_compute|].
  apply (one_character_typo_refused "pc1qrgase7g8zvvrepxmh8kgnmf09freyqual7y7c6" _ "pc"
    (ok_or [] (login_address "pc1qrgase7g8zvvrepxmh8kgnmf09freyqual7y7c6" "pc"))
    (codes "pc1qrgase7g8zvvrepxmh8kgnmf09freyqua") 108 107 (codes "7y7c6"));
    by vm_compute.
Defined.

(** a decoded payout script is OP_0 and a 20-byte push of exactly the
    address's 5-bit groups read as one number, less the bits left over: the
    unmasked 32-bit accumulator of the source overflows on every address and the
    overflow never reaches the script. *)
Theorem addressToScript_exact addr hrp script :
  addressToScript addr hrp = Ok script ->
  exists tail groups sum prog,
    lower_code <$> codes addr = codes hrp ++ SEP :: tail /\
    mapM charset_value tail = Ok (0 :: groups ++ sum) /\ length sum = 6%nat /\
    script = [0x00; 0x14] ++ prog /\ length prog = 20%nat /\ bytes_ok prog /\
    be_value prog = groups_value 0 groups / 2 ^ (5 * Z.of_nat (length groups) mod 8).
Proof.
  intros H. apply addressToScript_Ok in H as (t & v & g & m & Ht & _ & Hv & -> & Hm & Hl & ->).
  assert (Forall (fun v => 0 <= v < 32) g) as Hg.
  { apply mapM_charset_range in Hv. inversion Hv as [|? ? _ Hv']; subst.
    by apply Forall_app in Hv' as [? _]. }
  destruct (regroup_spec g Hg) as (_ & Hok & Hval).
  by exists t, g, m, (regroup g).
Qed.

Lemma addressToScript_exact_witness :
  exists tail groups sum prog,
    lower_code <$> codes "pc1qrgase7g8zvvrepxmh8kgnmf09freyqual7y7c6"
      = codes "pc" ++ SEP :: tail /\
    mapM charset_value tail = Ok (0 :: groups ++ sum) /\ length sum = 6%nat /\
    ok_or [] (addressToScript "pc1qrgase7g8zvvrepxmh8kgnmf09freyqual7y7c6" "pc")
      = [0x00; 0x14] ++ prog /\ length prog = 20%nat /\ bytes_ok prog /\
    be_value prog = groups_value 0 groups / 2 ^ (5 * Z.of_nat (length groups) mod 8).
Proof. apply addressToScript_exact. by vm_compute. Defined.
