(* ===== verification/Block.v ===== *)
(** * Block assembly for the pool (contrib/pool/block.mjs)

    From a block template to the 80-byte header a miner grinds and the
    serialized block a node accepts: compact sizes, the BIP34 height push, the
    coinbase in its two serializations, the merkle root, the header and the
    block.  SHA-256 is node's own (node:crypto): a parameter. *)

From S2P Require Import Prelude JsInt Bytes.
Local Open Scope Z_scope.

(** [createHash('sha256')]: what the code relies on is that a digest is 32 bytes. *)
Class Sha256 := {
  sha256 : bytes -> bytes;
  sha256_length b : length (sha256 b) = 32%nat;
  sha256_ok b : bytes_ok (sha256 b)
}.

(** The [Error]s and [RangeError]s block assembly throws. *)
Inductive block_err :=
  | ScriptSigTooLong (n : nat)
  | NegativeOutput
  | CoinbaseOverpays (total value : Z)
  | NoTxids
  | OutOfRange
  | MissingValue.

(** ** Compact sizes *)

Definition varint (n : Z) : bytes :=
  if n <? 0xfd then [n mod 256]
  else if n <=? 0xffff then 0xfd :: le_bytes 2 n
  else if n <=? 0xffffffff then 0xfe :: le_bytes 4 n
  else 0xff :: le_bytes 8 n.

Definition hexToLE (hex : string) : bytes := reverse (hex_decode hex).

(** ** The BIP34 height push *)

(** [while (v > 0) { out.push(v & 0xff); v >>= 8; }]: five turns empty any 32-bit number. *)
Fixpoint push_int_loop (fuel : nat) (v : Z) : bytes :=
  match fuel with
  | O => []
  | S fuel' => if 0 <? v then js_and v 0xff :: push_int_loop fuel' (js_shr v 8) else []
  end.

Definition pushInt (n : Z) : bytes :=
  if n =? 0 then [0x00]
  else if (1 <=? n) && (n <=? 16) then [0x50 + n]
  else
    let out := push_int_loop 5 n in
    let out := if js_and (default 0 (last out)) 0x80 =? 0 then out else out ++ [0x00] in
    Z.of_nat (length out) :: out.

(** ** The coinbase transaction *)

Record pay := { pay_script : bytes; pay_value : Z }.

Record coinbase_args := {
  ca_height : Z;
  ca_value : option Z;                 (* [undefined] when absent *)
  ca_script : bytes;
  ca_pays : option (list pay);         (* [null] when there is no payout set *)
  ca_extranonce : string;
  ca_witnessCommitment : option string
}.

Record coinbase := { cb_legacy : bytes; cb_witness : bytes; cb_txid : bytes }.

Definition tx_output (script : bytes) (value : Z) : bytes :=
  le_bytes 8 value ++ varint (Z.of_nat (length script)) ++ script.

(** The outputs loop: refuses a negative value, [writeBigUInt64LE] one over 64 bits. *)
Definition output_bytes (o : pay) : result block_err bytes :=
  if pay_value o <? 0 then Err NegativeOutput
  else if 2 ^ 64 <=? pay_value o then Err OutOfRange
  else Ok (tx_output (pay_script o) (pay_value o)).

Definition pays_total (l : list pay) : Z := zsum_by pay_value l.

(** [pays && pays.length ? pays : [{ script, value: BigInt(value) }]] *)
Definition spend_of (a : coinbase_args) : result block_err (list pay) :=
  match ca_pays a with
  | Some (p :: l) => Ok (p :: l)
  | _ => match ca_value a with
         | Some v => Ok [{| pay_script := ca_script a; pay_value := v |}]
         | None => Err MissingValue
         end
  end.

Definition commitment_output (wc : option string) : list bytes :=
  match wc with
  | Some (String c s) => [tx_output (hex_decode (String c s)) 0]
  | _ => []
  end.

Section block.
Context {SHA : Sha256}.

Definition sha256d (b : bytes) : bytes := sha256 (sha256 b).

Definition scriptSig_of (height : Z) (extranonce : string) : bytes :=
  let en := hex_decode extranonce in
  pushInt height ++ [Z.of_nat (length en) mod 256] ++ en.

Definition coinbase_version : bytes := le_bytes 4 2.
Definition coinbase_prevout : bytes := zeros 32 ++ [0xff; 0xff; 0xff; 0xff].
Definition coinbase_sequence : bytes := [0xff; 0xff; 0xff; 0xff].
Definition coinbase_locktime : bytes := zeros 4.

(** The part the two serializations share. *)
Definition coinbase_body (scriptSig : bytes) (outputs : list bytes) : bytes :=
  varint 1 ++ coinbase_prevout ++ varint (Z.of_nat (length scriptSig)) ++ scriptSig
  ++ coinbase_sequence ++ varint (Z.of_nat (length outputs)) ++ mjoin outputs.

Definition buildCoinbase (a : coinbase_args) : result block_err coinbase :=
  let scriptSig := scriptSig_of (ca_height a) (ca_extranonce a) in
  if (100 <? length scriptSig)%nat then Err (ScriptSigTooLong (length scriptSig)) else
  spend ← spend_of a;
  outputs ← mapM output_bytes spend;
  let total := pays_total spend in
  if match ca_value a with Some v => v <? total | None => false end
  then Err (CoinbaseOverpays total (default 0 (ca_value a))) else
  let outputs := outputs ++ commitment_output (ca_witnessCommitment a) in
  let legacy := coinbase_version ++ coinbase_body scriptSig outputs ++ coinbase_locktime in
  let witness := coinbase_version ++ [0x00; 0x01] ++ coinbase_body scriptSig outputs
                 ++ varint 1 ++ varint 32 ++ zeros 32 ++ coinbase_locktime in
  Ok {| cb_legacy := legacy; cb_witness := witness; cb_txid := sha256d legacy |}.

(** ** Merkle root *)

Fixpoint merkle_pairs (layer : list bytes) : list bytes :=
  match layer with
  | a :: b :: rest => sha256d (a ++ b) :: merkle_pairs rest
  | _ => []
  end.

(** One turn of the loop: duplicate an odd tail, then hash the pairs. *)
Definition merkle_layer (layer : list bytes) : list bytes :=
  merkle_pairs (if Nat.odd (length layer) then layer ++ [default [] (last layer)] else layer).

Fixpoint merkle_loop (fuel : nat) (layer : list bytes) : option bytes :=
  match layer with
  | [] => None
  | [r] => Some r
  | _ => match fuel with O => None | S fuel' => merkle_loop fuel' (merkle_layer layer) end
  end.

(** The loop halves the layer, so as many turns as there are transactions suffice. *)
Definition merkleRoot (txids : list bytes) : result block_err bytes :=
  of_option NoTxids (merkle_loop (length txids) txids).

(** ** Header and block *)

(** [parseInt(s, 16)] on a hex string without a prefix: the longest hex prefix,
    as the nearest double; [None] is NaN. *)
Fixpoint parse_hex_from (acc : Z) (s : string) : Z :=
  match s with
  | EmptyString => acc
  | String c s' => match hex_val c with Some d => parse_hex_from (16 * acc + d) s' | None => acc end
  end.
Definition parse_hex (s : string) : option Z :=
  match s with
  | String c _ => match hex_val c with Some _ => Some (round53 (parse_hex_from 0 s)) | None => None end
  | EmptyString => None
  end.

Record header_args := {
  ha_version : Z; ha_prevhash : string; ha_merkle : bytes;
  ha_time : Z; ha_bits : string; ha_nonce : Z
}.

Definition buildHeader (a : header_args) : result block_err bytes :=
  h ← of_option OutOfRange (write_int32_le (ha_version a) 0 (zeros 80));
  let h := buf_copy (hexToLE (ha_prevhash a)) 4 h in
  let h := buf_copy (ha_merkle a) 36 h in
  h ← of_option OutOfRange (write_uint_le 4 (ha_time a) 68 h);
  let bits := default 0 (parse_hex (ha_bits a)) in   (* writeUInt32LE stores NaN as 0 *)
  h ← of_option OutOfRange (write_uint_le 4 bits 72 h);
  of_option OutOfRange (write_uint_le 4 (to_uint32 (ha_nonce a)) 76 h).

Definition serializeBlock (header coinbaseWitness : bytes) (otherTxHex : list string) : string :=
  hex_encode (header ++ varint (1 + Z.of_nat (length otherTxHex)) ++ coinbaseWitness
              ++ mjoin (hex_decode <$> otherTxHex)).
End block.

(** A concrete digest, for evaluating examples: a multiplicative hash. *)
Definition example_mix (b : bytes) : Z :=
  foldl (fun h x => (h * 6364136223846793005 + x + 1442695040888963407) mod 2 ^ 256) 7 b.

Definition example_sha256 : Sha256 := {|
  sha256 b := le_bytes 32 (example_mix b);
  sha256_length b := le_bytes_length 32 (example_mix b);
  sha256_ok b := le_bytes_ok 32 (example_mix b)
|}.
