(* ===== verification/BlockSpec.v ===== *)
(** * What a node reads back from the pool's blocks

    Reference decoders for the serialization of [Block]: compact sizes, the
    coinbase transaction and the header, and [CScript() << n] of the node
    (src/script/script.h).  The theorems state that everything the pool
    assembles decodes to what was put in. *)

From S2P Require Import Prelude JsInt Bytes Block.
Local Open Scope Z_scope.

(** ** Decoders *)

Definition read_n (n : nat) (l : bytes) : option (bytes * bytes) :=
  if bool_decide (n <= length l)%nat then Some (take n l, drop n l) else None.

Definition read_le (n : nat) (l : bytes) : option (Z * bytes) :=
  '(b, rest) ← read_n n l; Some (le_value b, rest).

(** A compact size, refused when it is not the shortest form. *)
Definition read_varint (l : bytes) : option (Z * bytes) :=
  '(tag, rest) ← read_le 1 l;
  if tag <? 0xfd then Some (tag, rest)
  else
    let n := if tag =? 0xfd then 2%nat else if tag =? 0xfe then 4%nat else 8%nat in
    let least := if tag =? 0xfd then 0xfd else if tag =? 0xfe then 0x10000 else 0x100000000 in
    '(v, rest) ← read_le n rest;
    if v <? least then None else Some (v, rest).

Definition read_script (l : bytes) : option (bytes * bytes) :=
  '(n, rest) ← read_varint l; read_n (Z.to_nat n) rest.

Fixpoint read_outputs (n : nat) (l : bytes) : option (list (Z * bytes) * bytes) :=
  match n with
  | O => Some ([], l)
  | S n' =>
      '(v, l) ← read_le 8 l;
      '(s, l) ← read_script l;
      '(os, l) ← read_outputs n' l;
      Some ((v, s) :: os, l)
  end.

Record tx_read := { tr_scriptSig : bytes; tr_outputs : list (Z * bytes) }.

(** A transaction with one input spending nothing, as a coinbase is. *)
Definition read_coinbase_body (l : bytes) : option (tx_read * bytes) :=
  '(n_in, l) ← read_varint l;
  if negb (n_in =? 1) then None else
  '(prevout, l) ← read_n 36 l;
  if negb (bool_decide (prevout = zeros 32 ++ [0xff; 0xff; 0xff; 0xff])) then None else
  '(scriptSig, l) ← read_script l;
  '(_, l) ← read_n 4 l;
  '(n_out, l) ← read_varint l;
  '(outs, l) ← read_outputs (Z.to_nat n_out) l;
  Some ({| tr_scriptSig := scriptSig; tr_outputs := outs |}, l).

(** The legacy serialization, the one the txid hashes. *)
Definition read_legacy (l : bytes) : option tx_read :=
  '(version, l) ← read_le 4 l;
  if negb (version =? 2) then None else
  '(t, l) ← read_coinbase_body l;
  if bool_decide (l = zeros 4) then Some t else None.

(** The witness serialization: marker, flag, and one 32-byte witness item. *)
Definition read_witness (l : bytes) : option (tx_read * bytes) :=
  '(version, l) ← read_le 4 l;
  if negb (version =? 2) then None else
  '(marker, l) ← read_n 2 l;
  if negb (bool_decide (marker = [0x00; 0x01])) then None else
  '(t, l) ← read_coinbase_body l;
  '(n_items, l) ← read_varint l;
  if negb (n_items =? 1) then None else
  '(item, l) ← read_script l;
  if bool_decide (l = zeros 4) then Some (t, item) else None.

(** ** Reading back what was written *)

(** Continue after a read that succeeded or a test that passed. *)
Ltac opt_next := cbn [mbind option_bind negb Z.eqb Pos.eqb]; cbv beta iota.

Section read.
Lemma read_n_app b l : read_n (length b) (b ++ l) = Some (b, l).
Proof.
  unfold read_n. rewrite bool_decide_eq_true_2 by (rewrite length_app; lia).
  by rewrite take_app_length, drop_app_length.
Qed.

Lemma read_n_app' n b l : length b = n -> read_n n (b ++ l) = Some (b, l).
Proof. intros <-. apply read_n_app. Qed.

Lemma read_le_app n v l :
  0 <= v < 256 ^ Z.of_nat n -> read_le n (le_bytes n v ++ l) = Some (v, l).
Proof.
  intros H. unfold read_le. rewrite read_n_app' by apply le_bytes_length. cbn.
  by rewrite le_value_bytes_small.
Qed.

Lemma read_tag_app b l : read_le 1 (b :: l) = Some (b, l).
Proof. unfold read_le, read_n. simpl. by rewrite Z.add_0_r, drop_0. Qed.

Lemma read_varint_app n l : 0 <= n < 2 ^ 64 -> read_varint (varint n ++ l) = Some (n, l).
Proof.
  intros H. unfold varint, read_varint.
  destruct (Z.ltb_spec n 0xfd); [|destruct (Z.leb_spec n 0xffff); [|destruct (Z.leb_spec n 0xffffffff)]];
    rewrite <- ?app_comm_cons, read_tag_app; cbn -[read_le le_bytes app].
  - rewrite Z.mod_small by lia. by destruct (Z.ltb_spec n 253); [|lia].
  - rewrite read_le_app by (cbn; lia). cbn. by destruct (Z.ltb_spec n 253); [lia|].
  - rewrite read_le_app by (cbn; lia). cbn. by destruct (Z.ltb_spec n 65536); [lia|].
  - rewrite read_le_app by (cbn; lia). cbn. by destruct (Z.ltb_spec n 4294967296); [lia|].
Qed.

Lemma read_script_app s l :
  Z.of_nat (length s) < 2 ^ 64 ->
  read_script (varint (Z.of_nat (length s)) ++ s ++ l) = Some (s, l).
Proof.
  intros H. unfold read_script. rewrite read_varint_app by lia. cbn.
  by rewrite Nat2Z.id, read_n_app.
Qed.

Definition outs_of (os : list (Z * bytes)) : list bytes := (fun o => tx_output o.2 o.1) <$> os.

Definition out_ok (o : Z * bytes) : Prop :=
  0 <= o.1 < 2 ^ 64 /\ Z.of_nat (length o.2) < 2 ^ 64.

Lemma read_outputs_app os l :
  Forall out_ok os -> read_outputs (length os) (mjoin (outs_of os) ++ l) = Some (os, l).
Proof.
  intros H. revert l. induction H as [|[v s] os [Hv Hs] _ IH]; intros l; [done|].
  cbn [length outs_of fmap list_fmap mjoin list_join read_outputs fst snd] in *.
  unfold tx_output at 1. rewrite <- !app_assoc.
  rewrite read_le_app by (cbn; lia). cbn -[read_outputs read_script mjoin].
  rewrite read_script_app by done. cbn -[read_outputs mjoin].
  fold (outs_of os). rewrite IH. done.
Qed.

Lemma read_coinbase_body_app sig os l :
  Z.of_nat (length sig) < 2 ^ 64 -> Forall out_ok os -> Z.of_nat (length os) < 2 ^ 64 ->
  read_coinbase_body (coinbase_body sig (outs_of os) ++ l)
  = Some ({| tr_scriptSig := sig; tr_outputs := os |}, l).
Proof.
  intros Hsig Hos Hn. unfold read_coinbase_body, coinbase_body, coinbase_prevout, coinbase_sequence.
  rewrite <- !(app_assoc (varint 1)), read_varint_app by lia. opt_next.
  rewrite <- (app_assoc (zeros 32 ++ _)), (read_n_app' 36) by done. opt_next.
  rewrite bool_decide_eq_true_2 by done. opt_next.
  rewrite <- !app_assoc, read_script_app by done. opt_next.
  rewrite (read_n_app' 4) by done. opt_next.
  replace (length (outs_of os)) with (length os) by (unfold outs_of; by rewrite length_fmap).
  rewrite read_varint_app by lia. opt_next.
  by rewrite Nat2Z.id, read_outputs_app.
Qed.
End read.

(** ** The node's height push: [CScript() << n] (src/script/script.h) *)

(** [while (absvalue) { result.push_back(absvalue & 0xff); absvalue >>= 8; }] on 64 bits. *)
Fixpoint scriptnum_bytes (fuel : nat) (v : Z) : bytes :=
  match fuel with
  | O => []
  | S fuel' => if v =? 0 then [] else Z.land v 0xff :: scriptnum_bytes fuel' (Z.shiftr v 8)
  end.

(** [CScriptNum::serialize] *)
Definition CScriptNum_serialize (value : Z) : bytes :=
  if value =? 0 then [] else
  let neg := value <? 0 in
  let r := scriptnum_bytes 8 (Z.abs value) in
  if negb (Z.land (default 0 (last r)) 0x80 =? 0)
  then r ++ [if neg then 0x80 else 0x00]
  else if neg then take (length r - 1) r ++ [Z.lor (default 0 (last r)) 0x80]
  else r.

(** [CScript::push_int64]; a number's bytes are pushed with one length byte. *)
Definition push_int64 (n : Z) : bytes :=
  if (n =? -1) || ((1 <=? n) && (n <=? 16)) then [n + 0x50]
  else if n =? 0 then [0x00]
  else Z.of_nat (length (CScriptNum_serialize n)) :: CScriptNum_serialize n.

Section push.
Lemma land_ff v : Z.land v 0xff = v mod 256.
Proof. exact (Z.land_ones v 8 ltac:(lia)). Qed.

Lemma push_loop_eq fuel k v :
  (fuel <= k)%nat -> 0 <= v < 2 ^ 31 -> v < 256 ^ Z.of_nat fuel ->
  push_int_loop fuel v = scriptnum_bytes k v.
Proof.
  revert k v. induction fuel as [|fuel IH]; intros k v Hk Hv Hf.
  - change (256 ^ Z.of_nat 0) with 1 in Hf. assert (v = 0) as -> by lia.
    by destruct k.
  - destruct k as [|k]; [lia|]. cbn [push_int_loop scriptnum_bytes].
    destruct (Z.ltb_spec 0 v), (Z.eqb_spec v 0); try lia; [|done].
    rewrite land_ff, (js_and_ones v 8 ltac:(lia) : js_and v 0xff = v mod 256).
    rewrite js_shr_small, Z.shiftr_div_pow2 by lia. change (2 ^ 8) with 256.
    rewrite pow256_S in Hf.
    assert (0 <= v / 256 < 2 ^ 31) by (split; [apply Z.div_pos | apply Z.div_lt_upper_bound]; lia).
    rewrite (IH k); [done | lia | done | apply Z.div_lt_upper_bound; lia].
Qed.

Lemma scriptnum_bytes_range fuel v b : b ∈ scriptnum_bytes fuel v -> 0 <= b < 256.
Proof.
  revert v. induction fuel as [|fuel IH]; intros v; cbn; [set_solver|].
  destruct (v =? 0); [set_solver|]. rewrite elem_of_cons. intros [->|H]; [|eauto].
  rewrite land_ff. apply Z.mod_pos_bound. lia.
Qed.
End push.

(** for every height a block can have (below 2^31), the pool's height push is
    byte for byte the one the node rebuilds for its BIP34 check, the OP_N forms
    of 1..16 and the sign padding included. *)
Theorem pushInt_is_cscript n : 0 <= n < 2 ^ 31 -> pushInt n = push_int64 n.
Proof.
  intros Hn. unfold pushInt, push_int64.
  destruct (Z.eqb_spec n 0) as [->|Hn0]; [done|].
  destruct (Z.eqb_spec n (-1)); [lia|].
  destruct (_ && _); [by rewrite Z.add_comm|]. cbn [orb].
  unfold CScriptNum_serialize. destruct (Z.eqb_spec n 0); [done|].
  destruct (Z.ltb_spec n 0); [lia|].
  rewrite Z.abs_eq by lia.
  rewrite (push_loop_eq 5 8 n ltac:(lia) Hn)
    by (change (256 ^ Z.of_nat 5) with 1099511627776; lia).
  set (r := scriptnum_bytes 8 n).
  assert (0 <= default 0 (last r) < 256).
  { destruct (last r) as [b|] eqn:E; cbn; [|lia].
    apply last_Some in E as [l E]. apply (scriptnum_bytes_range 8 n). fold r. rewrite E.
    apply elem_of_app. right. constructor. }
  clearbody r.
  unfold js_and. rewrite !to_int32_small by lia.
  by destruct (Z.land (default 0 (last r)) 128 =? 0).
Qed.

Lemma pushInt_is_cscript_witness : pushInt 12789 = push_int64 12789 /\ pushInt 12789 = [2; 0xf5; 0x31].
Proof. split; [apply pushInt_is_cscript; lia | by vm_compute]. Defined.

(** ** The coinbase reads back *)

Section coinbase.
Context {SHA : Sha256}.

Definition out_of_pay (p : pay) : Z * bytes := (pay_value p, pay_script p).

Definition commitment_outs (wc : option string) : list (Z * bytes) :=
  match wc with Some (String c s) => [(0, hex_decode (String c s))] | _ => [] end.

Lemma commitment_outs_spec wc : commitment_output wc = outs_of (commitment_outs wc).
Proof. by destruct wc as [[]|]. Qed.

Lemma output_bytes_Ok o b :
  output_bytes o = Ok b -> b = tx_output (pay_script o) (pay_value o) /\ 0 <= pay_value o < 2 ^ 64.
Proof. unfold output_bytes. intros H. res_inv. bool_to_prop. subst. split; [done|lia]. Qed.

Lemma mapM_output_bytes l outs :
  mapM output_bytes l = Ok outs ->
  outs = outs_of (out_of_pay <$> l) /\ Forall (fun p => 0 <= pay_value p < 2 ^ 64) l.
Proof.
  rewrite mapM_Ok. induction 1 as [|p b l outs Hp _ [-> IH]]; [done|].
  apply output_bytes_Ok in Hp as [-> Hp]. by split; [|constructor].
Qed.

(** No buffer or array has 2^64 elements. *)
Definition sizes_ok (l : list pay) (wc : option string) : Prop :=
  Forall (fun p => Z.of_nat (length (pay_script p)) < 2 ^ 64) l /\
  Forall (fun o => Z.of_nat (length o.2) < 2 ^ 64) (commitment_outs wc) /\
  Z.of_nat (length l) + 1 < 2 ^ 64.

Lemma buildCoinbase_Ok a cb :
  buildCoinbase a = Ok cb ->
  exists spend,
    let sig := scriptSig_of (ca_height a) (ca_extranonce a) in
    let outs := (out_of_pay <$> spend) ++ commitment_outs (ca_witnessCommitment a) in
    spend_of a = Ok spend /\ (length sig <= 100)%nat /\
    Forall (fun p => 0 <= pay_value p < 2 ^ 64) spend /\
    (forall v, ca_value a = Some v -> pays_total spend <= v) /\
    cb_legacy cb = coinbase_version ++ coinbase_body sig (outs_of outs) ++ coinbase_locktime /\
    cb_witness cb = coinbase_version ++ [0x00; 0x01] ++ coinbase_body sig (outs_of outs)
                    ++ varint 1 ++ varint 32 ++ zeros 32 ++ coinbase_locktime /\
    cb_txid cb = sha256d (cb_legacy cb).
Proof.
  unfold buildCoinbase. intros H. destruct (100 <? _)%nat eqn:Hl in H; [discriminate H|].
  apply Nat.ltb_ge in Hl. apply bind_Ok in H as (spend & Hs & H).
  apply bind_Ok in H as (outs & Ho & H). apply mapM_output_bytes in Ho as [-> Hv].
  destruct (match ca_value a with Some _ => _ | None => _ end) eqn:Ht in H; [discriminate H|].
  injection H as <-. exists spend. cbn zeta. cbn [cb_legacy cb_witness cb_txid].
  rewrite commitment_outs_spec. unfold outs_of. rewrite <- fmap_app.
  repeat split; try done.
  intros v Hval. rewrite Hval in Ht. by bool_to_prop.
Qed.

Lemma push_int_loop_length fuel v : (length (push_int_loop fuel v) <= fuel)%nat.
Proof.
  revert v. induction fuel as [|fuel IH]; intros v; cbn [push_int_loop]; [done|].
  destruct (0 <? v); cbn [length]; [|lia]. specialize (IH (js_shr v 8)). lia.
Qed.

Lemma pushInt_length n : (length (pushInt n) <= 7)%nat.
Proof.
  unfold pushInt. pose proof (push_int_loop_length 5 n).
  destruct (n =? 0); [cbn; lia|]. destruct (_ && _); [cbn; lia|]. cbn [length].
  destruct (_ =? 0); rewrite ?length_app; cbn [length]; lia.
Qed.

(** What a coinbase needs to be built: outputs in range that fit the value. *)
Lemma buildCoinbase_total a spend v :
  spend_of a = Ok spend -> ca_value a = Some v -> v < 2 ^ 64 ->
  (length (hex_decode (ca_extranonce a)) <= 92)%nat ->
  Forall (fun p => 0 <= pay_value p) spend -> pays_total spend <= v ->
  exists cb, buildCoinbase a = Ok cb.
Proof.
  intros Hs Hv H64 Hen Hnn Hfit. unfold buildCoinbase.
  assert (length (scriptSig_of (ca_height a) (ca_extranonce a)) <= 100)%nat as Hlen.
  { unfold scriptSig_of. pose proof (pushInt_length (ca_height a)).
    rewrite !length_app. cbn [length]. lia. }
  destruct (Nat.ltb_spec 100 (length (scriptSig_of (ca_height a) (ca_extranonce a)))) as [|_]; [lia|].
  rewrite Hs. cbn [mbind result_bind].
  rewrite (mapM_total _ (fun p => tx_output (pay_script p) (pay_value p))).
  - cbn [mbind result_bind]. rewrite Hv. destruct (Z.ltb_spec v (pays_total spend)); [lia|]. by eexists.
  - rewrite Forall_forall in Hnn. intros p Hp. unfold output_bytes. pose proof (Hnn p Hp).
    pose proof (zsum_by_elem pay_value spend p Hnn Hp). unfold pays_total in Hfit.
    destruct (Z.ltb_spec (pay_value p) 0); [lia|]. by destruct (Z.leb_spec (2 ^ 64) (pay_value p)); [lia|].
Qed.

(** Both serializations read back as the same transaction. *)
Lemma coinbase_reads a cb spend :
  buildCoinbase a = Ok cb -> spend_of a = Ok spend -> sizes_ok spend (ca_witnessCommitment a) ->
  let t := {| tr_scriptSig := scriptSig_of (ca_height a) (ca_extranonce a);
              tr_outputs := (out_of_pay <$> spend) ++ commitment_outs (ca_witnessCommitment a) |} in
  read_legacy (cb_legacy cb) = Some t /\
  read_witness (cb_witness cb) = Some (t, zeros 32) /\
  cb_txid cb = sha256d (cb_legacy cb) /\
  forall v, ca_value a = Some v -> zsum_by fst (tr_outputs t) <= v.
Proof.
  intros H Hs (Hp & Hc & Hn) t.
  apply buildCoinbase_Ok in H as (spend' & Hs' & Hsig & Hv & Htot & Hleg & Hwit & Htx).
  rewrite Hs in Hs'. injection Hs' as <-.
  assert (Forall out_ok (tr_outputs t)) as Hok.
  { apply Forall_app. split.
    - apply Forall_fmap. rewrite Forall_forall in Hp, Hv |- *.
      intros p Hin. specialize (Hp p Hin). specialize (Hv p Hin). by split.
    - destruct (ca_witnessCommitment a) as [[|c s]|]; cbn in *; constructor; [|done].
      split; cbn; [lia|]. by inversion Hc. }
  assert (length (tr_outputs t) <= length spend + 1)%nat as Hlen.
  { cbn. rewrite length_app, length_fmap. destruct (ca_witnessCommitment a) as [[|]|]; cbn; lia. }
  assert (forall l, read_coinbase_body (coinbase_body (tr_scriptSig t) (outs_of (tr_outputs t)) ++ l)
                    = Some (t, l)) as Hbody.
  { intros l. apply read_coinbase_body_app; cbn [tr_scriptSig tr_outputs t] in *; lia || done. }
  split; [|split; [|split; [done|]]].
  - rewrite Hleg. unfold read_legacy, coinbase_version. rewrite read_le_app by (cbn; lia). opt_next.
    cbn [tr_scriptSig tr_outputs t] in Hbody. by rewrite Hbody.
  - rewrite Hwit. unfold read_witness, coinbase_version. rewrite read_le_app by (cbn; lia). opt_next.
    rewrite (read_n_app' 2) by done. opt_next. rewrite bool_decide_eq_true_2 by done. opt_next.
    cbn [tr_scriptSig tr_outputs t] in Hbody. by rewrite Hbody.
  - intros v Hval. cbn [tr_outputs t]. rewrite zsum_by_app, zsum_by_fmap.
    specialize (Htot v Hval). unfold pays_total in Htot.
    replace (zsum_by fst (commitment_outs _)) with 0.
    { change (zsum_by (fst ∘ out_of_pay) spend) with (zsum_by pay_value spend). lia. }
    by destruct (ca_witnessCommitment a) as [[|]|].
Qed.

(** C30: whatever coinbase the pool builds, a node reading its legacy form finds
    the height script and exactly the payout set (then the zero-value
    commitment), the witness form holds the same transaction with one 32-byte
    zero witness item, and the outputs never exceed the template's value. *)
Theorem coinbase_reads_back a cb spend :
  buildCoinbase a = Ok cb -> spend_of a = Ok spend -> sizes_ok spend (ca_witnessCommitment a) ->
  let t := {| tr_scriptSig := scriptSig_of (ca_height a) (ca_extranonce a);
              tr_outputs := (out_of_pay <$> spend) ++ commitment_outs (ca_witnessCommitment a) |} in
  read_legacy (cb_legacy cb) = Some t /\
  read_witness (cb_witness cb) = Some (t, zeros 32) /\
  cb_txid cb = sha256d (cb_legacy cb) /\
  forall v, ca_value a = Some v -> zsum_by fst (tr_outputs t) <= v.
Proof. intros H Hs Hok. by apply coinbase_reads. Qed.
End coinbase.

Lemma coinbase_reads_back_witness :
  let pays := [{| pay_script := [0x51]; pay_value := 4900000000 |};
               {| pay_script := [0x52]; pay_value := 100000000 |}] in
  let a := {| ca_height := 12789; ca_value := Some 5000000000; ca_script := [0x51];
              ca_pays := Some pays; ca_extranonce := "abcd0001";
              ca_witnessCommitment := Some "6a24aa21a9ed"%string |} in
  let cb := ok_or {| cb_legacy := []; cb_witness := []; cb_txid := [] |}
              (buildCoinbase (SHA := example_sha256) a) in
  read_legacy (cb_legacy cb) =
    Some {| tr_scriptSig := [2; 0xf5; 0x31; 4; 0xab; 0xcd; 0; 1];
            tr_outputs := [(4900000000, [0x51]); (100000000, [0x52]);
                           (0, [0x6a; 0x24; 0xaa; 0x21; 0xa9; 0xed])] |}.
Proof.
  intros pays a cb.
  apply (coinbase_reads_back (SHA := example_sha256) a cb pays);
    [by vm_compute | done |].
  split; [|split]; [repeat constructor; by vm_compute.. | by vm_compute].
Defined.

(** ** The merkle root commits to the transactions *)

Section merkle.
Context {SHA : Sha256}.

Lemma sha256d_length b : length (sha256d b) = 32%nat.
Proof. apply sha256_length. Qed.

(** What one turn of the loop hashes, and what the whole computation does. *)
Fixpoint pair_inputs (layer : list bytes) : list bytes :=
  match layer with
  | a :: b :: rest => (a ++ b) :: pair_inputs rest
  | _ => []
  end.

(** No two of the byte strings hashed for [l] and for [k] are different and
    have one digest. *)
Definition no_collision (xs ys : list bytes) : Prop :=
  forall x y, x ∈ xs -> y ∈ ys -> sha256d x = sha256d y -> x = y.

Definition len32 (l : list bytes) : Prop := Forall (fun b => length b = 32%nat) l.

Lemma merkle_pairs_len32 l : len32 (merkle_pairs l).
Proof.
  assert (forall n l, (length l <= n)%nat -> len32 (merkle_pairs l)) as H; [|by eapply H].
  clear l. intros n. induction n as [|n IH]; intros [|a [|b l]] Hn; cbn in *; try constructor; try lia.
  - apply sha256d_length.
  - apply IH. lia.
Qed.

Lemma merkle_pairs_length n l : length l = (2 * n)%nat -> length (merkle_pairs l) = n.
Proof.
  revert l. induction n as [|n IH]; intros [|a [|b l]] H; cbn in *; try lia; try done.
  rewrite IH; lia.
Qed.

Lemma merkle_pairs_inj n l k :
  length l = (2 * n)%nat -> length k = (2 * n)%nat -> len32 l -> len32 k ->
  no_collision (pair_inputs l) (pair_inputs k) ->
  merkle_pairs l = merkle_pairs k -> l = k.
Proof.
  revert l k. induction n as [|n IH]; intros l k Hl Hk Ll Lk Hnc Heq.
  - destruct l, k; done.
  - destruct l as [|a [|b l]], k as [|c [|d k]]; cbn in Hl, Hk; try lia.
    inversion Ll as [|? ? La Ll1]; subst. inversion Ll1 as [|? ? Lb Ll2]; subst.
    inversion Lk as [|? ? Lc Lk1]; subst. inversion Lk1 as [|? ? Ld Lk2]; subst.
    cbn [merkle_pairs] in Heq. injection Heq as Hhash Heq. cbn [pair_inputs] in Hnc.
    assert (a ++ b = c ++ d) as Hab by (apply Hnc; [by left | by left | done]).
    apply app_inj_1 in Hab as [-> ->]; [|congruence].
    rewrite (IH l k); [done | lia | lia | done | done | | done].
    intros x y Hx Hy. apply Hnc; by right.
Qed.

(** The list a turn of the loop pairs up. *)
Definition padded (l : list bytes) : list bytes :=
  if Nat.odd (length l) then l ++ [default [] (last l)] else l.

Lemma padded_spec l : l <> [] -> len32 l ->
  length (padded l) = (2 * ((length l + 1) / 2))%nat /\ len32 (padded l).
Proof.
  intros Hne Hl. unfold padded.
  pose proof (Nat.div2_odd (length l)) as Hodd.
  destruct (Nat.odd (length l)) eqn:E; cbn [Nat.b2n] in Hodd.
  - rewrite length_app. cbn [length]. split.
    + rewrite Hodd at 2. replace (2 * Nat.div2 (length l) + 1 + 1)%nat
        with ((Nat.div2 (length l) + 1) * 2)%nat by lia. rewrite Nat.div_mul by lia. lia.
    + apply Forall_app. split; [done|]. constructor; [|done].
      destruct (last l) as [x|] eqn:Hlast; [|by apply last_None in Hlast].
      cbn. apply (proj1 (Forall_forall _ _) Hl).
      apply last_Some in Hlast as [l' ->]. apply elem_of_app. right. constructor.
  - split; [|done]. rewrite Hodd at 2.
    replace (2 * Nat.div2 (length l) + 0 + 1)%nat with (1 + Nat.div2 (length l) * 2)%nat by lia.
    rewrite Nat.div_add, Nat.add_0_l by lia. lia.
Qed.

Lemma padded_inj l k : length l = length k -> padded l = padded k -> l = k.
Proof.
  unfold padded. intros Hlen H. rewrite <- Hlen in H.
  destruct (Nat.odd (length l)); [|done]. by apply app_inj_1 in H as [-> _].
Qed.

Fixpoint merkle_inputs (fuel : nat) (l : list bytes) : list bytes :=
  match fuel with
  | O => []
  | S fuel' => pair_inputs (padded l) ++ merkle_inputs fuel' (merkle_layer l)
  end.

Lemma merkle_layer_length l : l <> [] -> len32 l ->
  length (merkle_layer l) = ((length l + 1) / 2)%nat /\ len32 (merkle_layer l).
Proof.
  intros Hne Hl. destruct (padded_spec l Hne Hl) as [Hp _].
  split; [|apply merkle_pairs_len32]. by apply merkle_pairs_length.
Qed.

Lemma half_lt n : (2 <= n)%nat -> (1 <= (n + 1) / 2 < n)%nat.
Proof.
  intros H. split; [apply Nat.div_le_lower_bound; lia | apply Nat.Div0.div_lt_upper_bound; lia].
Qed.

(** One equation for a turn of the loop. *)
Lemma merkle_loop_turn fuel l : (2 <= length l)%nat ->
  merkle_loop (S fuel) l = merkle_loop fuel (merkle_layer l).
Proof. destruct l as [|a [|b l]]; cbn [length]; intros; try lia. done. Qed.

Lemma merkle_loop_total fuel l :
  l <> [] -> len32 l -> (length l <= S fuel)%nat -> is_Some (merkle_loop fuel l).
Proof.
  revert l. induction fuel as [|fuel IH]; intros l Hne Hl Hf;
    destruct (Nat.le_gt_cases 2 (length l)) as [H2|H2].
  - exfalso. lia.
  - destruct l as [|a []]; cbn in *; solve [done | lia | eauto].
  - rewrite merkle_loop_turn by done. destruct (merkle_layer_length l Hne Hl) as [Hn Hll].
    pose proof (half_lt (length l) H2).
    apply IH; [|done|lia]. intros E. rewrite E in Hn. cbn [length] in Hn. lia.
  - destruct l as [|a []]; cbn in *; solve [done | lia | eauto].
Qed.

Lemma merkle_loop_inj fuel l k r :
  length l = length k -> len32 l -> len32 k -> (length l <= S fuel)%nat ->
  no_collision (merkle_inputs fuel l) (merkle_inputs fuel k) ->
  merkle_loop fuel l = Some r -> merkle_loop fuel k = Some r -> l = k.
Proof.
  revert l k. induction fuel as [|fuel IH]; intros l k Hlen Ll Lk Hf Hnc Hr Hr'.
  - destruct l as [|a []], k as [|b []]; cbn in *; try lia; try done. congruence.
  - destruct (Nat.le_gt_cases 2 (length l)) as [H2|H2].
    + rewrite merkle_loop_turn in Hr, Hr' by lia.
      assert (l <> []) by (intros ->; cbn in *; lia).
      assert (k <> []) by (intros ->; cbn in *; lia).
      destruct (merkle_layer_length l) as [Nl Lll]; [done..|].
      destruct (merkle_layer_length k) as [Nk Lkk]; [done..|].
      pose proof (half_lt (length l) H2). cbn [merkle_inputs] in Hnc.
      assert (merkle_layer l = merkle_layer k) as Heq.
      { apply (IH (merkle_layer l) (merkle_layer k)); try done; [congruence|lia|].
        intros x y Hx Hy. apply Hnc; apply elem_of_app; by right. }
      destruct (padded_spec l) as [Pl Pll]; [done..|].
      destruct (padded_spec k) as [Pk Pkk]; [done..|].
      rewrite <- Hlen in Pk. apply padded_inj; [done|].
      apply (merkle_pairs_inj _ _ _ Pl Pk Pll Pkk); [|done].
      intros x y Hx Hy. apply Hnc; apply elem_of_app; by left.
    + destruct l as [|a []], k as [|b []]; cbn in *; try lia; try done. congruence.
Qed.

Lemma merkle_loop_len32 fuel l r : len32 l -> merkle_loop fuel l = Some r -> length r = 32%nat.
Proof.
  revert l. induction fuel as [|fuel IH]; intros [|a [|b l]] Hl H; cbn [merkle_loop] in H;
    try discriminate H; try (injection H as <-; by inversion Hl).
  apply (IH (merkle_layer (a :: b :: l))); [|done]. by apply merkle_layer_length.
Qed.

Lemma merkleRoot_total l : l <> [] -> len32 l -> exists r, merkleRoot l = Ok r /\ length r = 32%nat.
Proof.
  intros Hne Hl. destruct (merkle_loop_total (length l) l Hne Hl) as [r Hr]; [lia|].
  exists r. unfold merkleRoot. rewrite Hr. split; [done|]. by apply (merkle_loop_len32 (length l) l).
Qed.

(** C31: the root loop ends on every non-empty block, and the root it returns
    commits to the transactions: unless two of the byte strings hashed on the way
    have one digest, two lists of the same length with one root are the same list. *)
Theorem merkleRoot_commits l k :
  len32 l -> len32 k -> l <> [] -> length l = length k ->
  no_collision (merkle_inputs (length l) l) (merkle_inputs (length k) k) ->
  exists r, merkleRoot l = Ok r /\ (merkleRoot k = Ok r -> l = k).
Proof.
  intros Ll Lk Hne Hlen Hnc. unfold merkleRoot.
  destruct (merkle_loop_total (length l) l) as [r Hr]; [done..|lia|].
  exists r. rewrite Hr. split; [done|].
  intros Hk. rewrite <- Hlen in Hk, Hnc. res_inv.
  by apply (merkle_loop_inj (length l) l k r); auto.
Qed.
End merkle.

Lemma merkleRoot_commits_witness :
  exists r, merkleRoot (SHA := example_sha256) [be_bytes 32 1; be_bytes 32 2; be_bytes 32 3] = Ok r /\
    (merkleRoot (SHA := example_sha256) [be_bytes 32 1; be_bytes 32 3; be_bytes 32 2] = Ok r ->
     [be_bytes 32 1; be_bytes 32 2; be_bytes 32 3] = [be_bytes 32 1; be_bytes 32 3; be_bytes 32 2]).
Proof.
  apply (merkleRoot_commits (SHA := example_sha256));
    [repeat constructor | repeat constructor | done | done |].
  intros x y Hx Hy.
  assert (forallb (fun x => forallb (fun y =>
    negb (bool_decide (sha256d (SHA := example_sha256) x = sha256d (SHA := example_sha256) y))
    || bool_decide (x = y))
    (merkle_inputs (SHA := example_sha256) 3 [be_bytes 32 1; be_bytes 32 3; be_bytes 32 2]))
    (merkle_inputs (SHA := example_sha256) 3 [be_bytes 32 1; be_bytes 32 2; be_bytes 32 3]) = true)
    as Hall by (vm_compute; reflexivity).
  rewrite forallb_forall in Hall. apply list_elem_of_In in Hx, Hy.
  specialize (Hall x Hx). rewrite forallb_forall in Hall. specialize (Hall y Hy).
  intros Heq. apply orb_true_iff in Hall as [Hn|Hq].
  - apply negb_true_iff, bool_decide_eq_false_1 in Hn. by destruct Hn.
  - by apply bool_decide_eq_true_1 in Hq.
Defined.

(** ** The header reads back *)

(** The 80 bytes of a node's [CBlockHeader]. *)
Record header_read := {
  hr_version : Z; hr_prev : bytes; hr_merkle : bytes; hr_time : Z; hr_bits : Z; hr_nonce : Z
}.

Definition read_header (l : bytes) : option header_read :=
  '(v, l) ← read_le 4 l;
  '(p, l) ← read_n 32 l;
  '(m, l) ← read_n 32 l;
  '(t, l) ← read_le 4 l;
  '(b, l) ← read_le 4 l;
  '(n, l) ← read_le 4 l;
  if bool_decide (l = []) then
    Some {| hr_version := to_int32 v; hr_prev := p; hr_merkle := m;
            hr_time := t; hr_bits := b; hr_nonce := n |}
  else None.

Section header.
(** A write at the end of what is filled in of a zeroed buffer. *)
Lemma buf_copy_zeros src pre off n m :
  off = length pre -> m = (length src + n)%nat ->
  buf_copy src off (pre ++ zeros m) = (pre ++ src) ++ zeros n.
Proof.
  intros -> ->. unfold zeros. rewrite replicate_add, <- (app_assoc pre src).
  apply buf_copy_mid. by rewrite length_replicate.
Qed.

Lemma write_uint_zeros k v pre off n m :
  0 <= v < 256 ^ Z.of_nat k -> off = length pre -> m = (k + n)%nat ->
  write_uint_le k v off (pre ++ zeros m) = Some ((pre ++ le_bytes k v) ++ zeros n).
Proof.
  intros Hv -> ->. unfold write_uint_le.
  rewrite (proj2 (Z.leb_le 0 v)), (proj2 (Z.ltb_lt v _)), bool_decide_eq_true_2 by
    (try (unfold zeros; rewrite length_app, length_replicate); lia).
  cbn [andb]. f_equal. apply buf_copy_zeros; [done|]. by rewrite le_bytes_length.
Qed.

Lemma write_uint_range k v off dst h :
  write_uint_le k v off dst = Some h -> 0 <= v < 256 ^ Z.of_nat k.
Proof. unfold write_uint_le. intros H. destruct (_ && _) eqn:E in H; [|done]. bool_to_prop. lia. Qed.

Lemma le_bytes_mod_eq n u v :
  u mod 256 ^ Z.of_nat n = v mod 256 ^ Z.of_nat n -> le_bytes n u = le_bytes n v.
Proof.
  intros H. apply le_value_inj.
  - apply le_bytes_ok.
  - apply le_bytes_ok.
  - by rewrite !le_bytes_length.
  - by rewrite !le_value_bytes.
Qed.

Lemma buildHeader_layout a bits :
  - 2 ^ 31 <= ha_version a < 2 ^ 31 -> length (hex_decode (ha_prevhash a)) = 32%nat ->
  length (ha_merkle a) = 32%nat -> 0 <= ha_time a < 2 ^ 32 ->
  parse_hex (ha_bits a) = Some bits -> 0 <= bits < 2 ^ 32 ->
  buildHeader a = Ok (le_bytes 4 (ha_version a) ++ reverse (hex_decode (ha_prevhash a))
    ++ ha_merkle a ++ le_bytes 4 (ha_time a) ++ le_bytes 4 bits
    ++ le_bytes 4 (to_uint32 (ha_nonce a))).
Proof.
  intros Hv Hp Hm Ht Hb Hbits. unfold buildHeader, write_int32_le.
  rewrite (proj2 (Z.leb_le _ _)), (proj2 (Z.ltb_lt _ _)) by lia.
  change (zeros 80) with ([] ++ zeros 80) at 2.
  rewrite bool_decide_eq_true_2 by (cbn; lia). cbn [andb of_option].
  rewrite (buf_copy_zeros _ [] 0 76 80) by (rewrite ?le_bytes_length; done).
  cbn [mbind result_bind app].
  rewrite (buf_copy_zeros _ _ 4 44 76)
    by (unfold hexToLE; rewrite ?length_reverse, ?le_bytes_length, ?Hp; done).
  rewrite (buf_copy_zeros _ _ 36 12 44)
    by (unfold hexToLE; rewrite ?length_app, ?length_reverse, ?le_bytes_length, ?Hp, ?Hm; done).
  rewrite (write_uint_zeros 4 _ _ 68 8 12)
    by (unfold hexToLE; rewrite ?length_app, ?length_reverse, ?le_bytes_length, ?Hp, ?Hm; done).
  cbn [mbind result_bind of_option]. rewrite Hb. cbn [default].
  rewrite (write_uint_zeros 4 _ _ 72 4 8)
    by (unfold hexToLE; rewrite ?length_app, ?length_reverse, ?le_bytes_length, ?Hp, ?Hm; done).
  cbn [mbind result_bind of_option].
  rewrite (write_uint_zeros 4 _ _ 76 0 4)
    by (unfold hexToLE; rewrite ?length_app, ?length_reverse, ?le_bytes_length, ?Hp, ?Hm;
        done || apply to_uint32_range).
  cbn [of_option]. f_equal. unfold hexToLE. rewrite app_nil_r, <- !app_assoc. done.
Qed.

Lemma to_int32_mod_small v : - 2 ^ 31 <= v < 2 ^ 31 -> to_int32 (v mod 2 ^ 32) = v.
Proof.
  intros H. rewrite <- (to_int32_small v) at 2 by done.
  unfold to_int32. by rewrite Z.mod_mod by lia.
Qed.

Lemma read_header_layout v prev merkle time bits nonce :
  - 2 ^ 31 <= v < 2 ^ 31 -> length prev = 32%nat -> length merkle = 32%nat -> 0 <= time < 2 ^ 32 ->
  0 <= bits < 2 ^ 32 -> length nonce = 4%nat -> bytes_ok nonce ->
  read_header (le_bytes 4 v ++ prev ++ merkle ++ le_bytes 4 time ++ le_bytes 4 bits ++ nonce) =
    Some {| hr_version := v; hr_prev := prev; hr_merkle := merkle; hr_time := time; hr_bits := bits;
            hr_nonce := le_value nonce |}.
Proof.
  intros Hv Hp Hm Ht Hbits Hn Hok. unfold read_header.
  rewrite <- (le_bytes_mod_eq 4 (v mod 2 ^ 32)).
  2:{ change (256 ^ Z.of_nat 4) with (2 ^ 32). by rewrite Z.mod_mod. }
  rewrite read_le_app by (apply Z.mod_pos_bound; done). opt_next.
  rewrite (read_n_app' 32) by done. opt_next.
  rewrite (read_n_app' 32) by done. opt_next.
  rewrite read_le_app by done. opt_next. rewrite read_le_app by done. opt_next.
  rewrite <- (le_bytes_value nonce), <- (app_nil_r (le_bytes _ _)), Hn by done.
  pose proof (le_value_range nonce Hok) as Hr. rewrite Hn in Hr.
  rewrite read_le_app by done. opt_next.
  rewrite bool_decide_eq_true_2, app_nil_r, le_value_bytes_small by done. by rewrite to_int32_mod_small.
Qed.

(** a header is 80 bytes and a node reads back every field the pool put in:
    the version, the previous hash with its bytes reversed, the merkle root, the
    time, the parsed bits and the miner's nonce modulo 2^32. *)
Theorem header_reads_back a bits :
  - 2 ^ 31 <= ha_version a < 2 ^ 31 -> length (hex_decode (ha_prevhash a)) = 32%nat ->
  length (ha_merkle a) = 32%nat -> 0 <= ha_time a < 2 ^ 32 ->
  parse_hex (ha_bits a) = Some bits -> 0 <= bits < 2 ^ 32 ->
  exists h, buildHeader a = Ok h /\ length h = 80%nat /\
    read_header h = Some {|
      hr_version := ha_version a; hr_prev := reverse (hex_decode (ha_prevhash a));
      hr_merkle := ha_merkle a; hr_time := ha_time a; hr_bits := bits;
      hr_nonce := ha_nonce a mod 2 ^ 32 |}.
Proof.
  intros Hv Hp Hm Ht Hb Hbits. eexists. split; [by apply buildHeader_layout|]. split.
  - rewrite !length_app, length_reverse, !le_bytes_length. lia.
  - rewrite read_header_layout; try done.
    + by rewrite le_value_bytes_small by apply to_uint32_range.
    + by rewrite length_reverse.
    + apply le_bytes_ok.
Qed.
End header.

Lemma header_reads_back_witness :
  let a := {| ha_version := -1; ha_prevhash := hex_encode (le_bytes 32 (2 ^ 200 + 77));
              ha_merkle := le_bytes 32 99; ha_time := 1770000000; ha_bits := "1d00ffff";
              ha_nonce := -5 |} in
  exists h, buildHeader a = Ok h /\ length h = 80%nat /\
    read_header h = Some {|
      hr_version := -1; hr_prev := reverse (hex_decode (ha_prevhash a)); hr_merkle := le_bytes 32 99;
      hr_time := 1770000000; hr_bits := 0x1d00ffff; hr_nonce := (-5) mod 2 ^ 32 |}.
Proof.
  intros a. apply (header_reads_back a 0x1d00ffff);
    [cbn; lia | by vm_compute | by vm_compute | cbn; lia | by vm_compute | lia].
Defined.
