(* ===== verification/Target.v ===== *)
(** * Targets, share targets and share weights

    The 256-bit target arithmetic of contrib/pool/block.mjs ([bitsToTarget],
    [maxFactorForWeight], [scaleTarget]) and the weight a share is credited
    with in contrib/pool/store.mjs ([targetWeight]), against the compact
    encoding of the node (src/arith_uint256.cpp). *)

From Stdlib Require Import Ascii.
From S2P Require Import Prelude JsInt Bytes Block.
Local Open Scope Z_scope.

(** ** nBits to a 32-byte big-endian target *)

Definition bitsToTarget (bitsHex : string) : bytes :=
  let bits := default 0 (parse_hex bitsHex) in    (* NaN is 0 to the bitwise operators *)
  let exponent := js_ushr bits 24 in
  let mantissa := js_and bits 0x007fffff in
  let t := zeros 32 in
  if exponent <=? 3 then
    let m := js_ushr mantissa (8 * (3 - exponent)) in
    let t := <[31%nat := js_and m 0xff]> t in
    let t := if 2 <=? exponent then <[30%nat := js_and (js_ushr m 8) 0xff]> t else t in
    if 3 <=? exponent then <[29%nat := js_and (js_ushr m 16) 0xff]> t else t
  else
    let i := 32 - exponent in
    if (0 <=? i) && (i + 2 <? 32) then
      let t := <[Z.to_nat i := js_and (js_ushr mantissa 16) 0xff]> t in
      let t := <[Z.to_nat (i + 1) := js_and (js_ushr mantissa 8) 0xff]> t in
      <[Z.to_nat (i + 2) := js_and mantissa 0xff]> t
    else t.

(** [arith_uint256::SetCompact]: the node's own decoding, with its overflow flag. *)
Definition SetCompact (nCompact : Z) : Z :=
  let nSize := Z.shiftr nCompact 24 in
  let nWord := Z.land nCompact 0x007fffff in
  if nSize <=? 3 then Z.shiftr nWord (8 * (3 - nSize))
  else Z.shiftl nWord (8 * (nSize - 3)) mod 2 ^ 256.

Definition SetCompact_overflow (nCompact : Z) : bool :=
  let nSize := Z.shiftr nCompact 24 in
  let nWord := Z.land nCompact 0x007fffff in
  negb (nWord =? 0) &&
  ((34 <? nSize) || ((0xff <? nWord) && (33 <? nSize)) || ((0xffff <? nWord) && (32 <? nSize))).

(** ** Hexadecimal output of a [BigInt] *)

(** [v.toString(16)] of a non-negative big integer. *)
Fixpoint to_hex_go (fuel : nat) (v : Z) (acc : string) : string :=
  match fuel with
  | O => acc
  | S fuel' =>
      let acc := String (hex_digit (v mod 16)) acc in
      if v <? 16 then acc else to_hex_go fuel' (v / 16) acc
  end.
Definition big_to_hex (v : Z) : string := to_hex_go (S (Z.to_nat (Z.log2 v))) v "".

(** [s.padStart(n, '0')] *)
Fixpoint zeros_before (n : nat) (s : string) : string :=
  match n with O => s | S n' => String "0"%char (zeros_before n' s) end.
Definition pad_start (n : nat) (s : string) : string := zeros_before (n - String.length s) s.

(** ** Share targets *)

(** [BigInt('0x' + buf.toString('hex'))] *)
Definition big_of_buf (b : bytes) : Z := be_value b.

Definition scaleTarget (targetBE : bytes) (factor : Z) : bytes :=
  let v := big_of_buf targetBE * factor in
  let max := 2 ^ 256 - 1 in
  let v := if max <? v then max else v in
  hex_decode (pad_start 64 (big_to_hex v)).

(** The largest factor whose shares still weigh [minWeight]; a JavaScript number. *)
Definition maxFactorForWeight (netTargetBE : bytes) (minWeight : Z) : Z :=
  let t := big_of_buf netTargetBE in
  if t <=? 0 then 1 else
  let blockWork := big_div (2 ^ 256) t in
  let cap := big_div blockWork minWeight in
  if cap <? 1 then 1 else round53 cap.

(** ** Share weight *)

Inductive weight_err := TargetZero | WeightTooLarge (w : Z).

Definition targetWeight (t : Z) : result weight_err Z :=
  if t <=? 0 then Err TargetZero else
  let w := big_div (2 ^ 256) t in
  if 2 ^ 62 <=? w then Err (WeightTooLarge w) else Ok w.

(** ** Lemmas *)

Section compact.
(** Three bytes written into a zeroed buffer. *)
Lemma three_bytes (i : nat) a b c : (i <= 29)%nat ->
  be_value (<[(i + 2)%nat := c]> (<[(i + 1)%nat := b]> (<[i := a]> (zeros 32)))) =
  (a * 65536 + b * 256 + c) * 256 ^ Z.of_nat (29 - i).
Proof.
  intros Hi.
  replace (zeros 32) with (zeros i ++ [0; 0; 0] ++ zeros (29 - i))
    by (unfold zeros; change [0; 0; 0] with (replicate 3 0); rewrite <- !replicate_add; f_equal; lia).
  assert (length (zeros i) = i) as Hz by apply length_replicate.
  rewrite (insert_app_r_alt _ _ i) by lia. rewrite Hz, Nat.sub_diag.
  rewrite (insert_app_r_alt _ _ (i + 1)) by lia. rewrite Hz.
  rewrite (insert_app_r_alt _ _ (i + 2)) by lia. rewrite Hz.
  replace (i + 1 - i)%nat with 1%nat by lia. replace (i + 2 - i)%nat with 2%nat by lia.
  cbn [app insert list_insert].
  assert (forall n l, be_value (zeros n ++ l) = be_value l) as Hzero.
  { intros n l. induction n as [|n IH]; [done|]. cbn [zeros replicate app].
    rewrite be_value_cons. unfold zeros in IH. rewrite IH. lia. }
  rewrite Hzero, !be_value_cons.
  replace (be_value (zeros (29 - i))) with 0
    by (rewrite <- (app_nil_r (zeros _)), Hzero; done).
  cbn [length]. rewrite !Nat2Z.inj_succ, !Z.pow_succ_r by lia.
  unfold zeros. rewrite length_replicate. nia.
Qed.

Lemma byte_and m : js_and m 0xff = m mod 256.
Proof. apply (js_and_ones m 8). lia. Qed.

(** A mantissa is the three bytes written. *)
Lemma mantissa_bytes m : 0 <= m < 2 ^ 23 ->
  js_and (js_ushr m 16) 0xff * 65536 + js_and (js_ushr m 8) 0xff * 256 + js_and m 0xff = m.
Proof.
  intros H. rewrite !byte_and, !js_ushr_small by lia.
  change (2 ^ 16) with 65536. change (2 ^ 8) with 256.
  rewrite (Z.mod_small (m / 65536)) by (split; [apply Z.div_pos; lia | apply Z.div_lt_upper_bound; lia]).
  pose proof (Z.div_mod m 256 ltac:(lia)). pose proof (Z.div_mod (m / 256) 256 ltac:(lia)).
  rewrite Z.div_div in * by lia. change (256 * 256) with 65536 in *. lia.
Qed.

Lemma small_exponent_value e m : 0 <= e <= 3 -> 0 <= m < 256 ^ e -> m < 2 ^ 23 ->
  let t := <[31%nat := js_and m 0xff]> (zeros 32) in
  let t := if 2 <=? e then <[30%nat := js_and (js_ushr m 8) 0xff]> t else t in
  let t := if 3 <=? e then <[29%nat := js_and (js_ushr m 16) 0xff]> t else t in
  be_value t = m.
Proof.
  intros He Hm Hm'. pose proof (mantissa_bytes m ltac:(lia)) as Hb.
  pose proof (three_bytes 29 (js_and (js_ushr m 16) 0xff) (js_and (js_ushr m 8) 0xff)
    (js_and m 0xff) ltac:(lia)) as H3.
  replace (_ * 256 ^ Z.of_nat (29 - 29)) with m in H3 by (change (256 ^ Z.of_nat (29 - 29)) with 1; lia).
  assert (e < 3 -> js_and (js_ushr m 16) 0xff = 0) as H16.
  { intros. assert (256 ^ e <= 256 ^ 2) by (apply Z.pow_le_mono_r; lia).
    rewrite byte_and, js_ushr_small, Z.div_small by lia. done. }
  assert (e < 2 -> js_and (js_ushr m 8) 0xff = 0) as H8.
  { intros. assert (256 ^ e <= 256 ^ 1) by (apply Z.pow_le_mono_r; lia).
    rewrite byte_and, js_ushr_small, Z.div_small by lia. done. }
  cbv zeta. etransitivity; [|exact H3]. clear H3 Hb.
  destruct (Z.leb_spec 2 e); destruct (Z.leb_spec 3 e); try lia.
  - reflexivity.
  - rewrite H16 by lia. reflexivity.
  - rewrite H16, H8 by lia. reflexivity.
Qed.

Lemma bitsToTarget_length s : length (bitsToTarget s) = 32%nat.
Proof.
  unfold bitsToTarget. repeat case_match; rewrite ?length_insert; done.
Qed.

Lemma big_exponent_value e m : 3 < e <= 32 -> 0 <= m < 2 ^ 23 ->
  be_value (<[Z.to_nat (32 - e + 2) := js_and m 0xff]>
    (<[Z.to_nat (32 - e + 1) := js_and (js_ushr m 8) 0xff]>
      (<[Z.to_nat (32 - e) := js_and (js_ushr m 16) 0xff]> (zeros 32)))) = m * 256 ^ (e - 3).
Proof.
  intros He Hm. rewrite !Z2Nat.inj_add by lia.
  change (Z.to_nat 2) with 2%nat. change (Z.to_nat 1) with 1%nat.
  rewrite three_bytes, mantissa_bytes by lia. do 2 f_equal. lia.
Qed.

Lemma mantissa_of bits : 0 <= bits -> js_and bits 0x007fffff = Z.land bits 0x007fffff
  /\ 0 <= Z.land bits 0x007fffff < 2 ^ 23.
Proof.
  intros H. change 0x007fffff with (Z.ones 23).
  rewrite js_and_ones, Z.land_ones by lia. split; [done|]. by apply Z.mod_pos_bound.
Qed.

(** C33: a target decoded from nBits is the node's own: for every exponent up to
    32 the 32 bytes are [SetCompact] of the parsed bits, which does not overflow,
    and an exponent the buffer cannot hold decodes to zero, below which no hash is. *)
Theorem bitsToTarget_is_SetCompact s bits :
  parse_hex s = Some bits -> 0 <= bits < 2 ^ 32 ->
  length (bitsToTarget s) = 32%nat /\
  (Z.shiftr bits 24 <= 32 -> be_value (bitsToTarget s) = SetCompact bits
                             /\ SetCompact_overflow bits = false) /\
  (32 < Z.shiftr bits 24 -> be_value (bitsToTarget s) = 0).
Proof.
  intros Hs Hb. split; [apply bitsToTarget_length|].
  unfold bitsToTarget, SetCompact, SetCompact_overflow. rewrite Hs. cbn [default from_option id].
  destruct (mantissa_of bits) as [-> Hm]; [lia|].
  rewrite js_ushr_small by lia. rewrite (Z.shiftr_div_pow2 bits) by lia.
  set (m := Z.land bits 0x007fffff) in *. set (e := bits / 2 ^ 24).
  assert (0 <= e) by (apply Z.div_pos; lia).
  split; intros He.
  - split.
    + destruct (Z.leb_spec e 3).
      * rewrite (js_ushr_small m (8 * (3 - e))), Z.shiftr_div_pow2 by lia.
        assert (0 < 2 ^ (8 * (3 - e))) by (apply Z.pow_pos_nonneg; lia).
        apply (small_exponent_value e); [lia| |].
        -- split; [apply Z.div_pos; lia|]. apply Z.div_lt_upper_bound; [lia|].
           change 256 with (2 ^ 8). rewrite <- Z.pow_mul_r, <- Z.pow_add_r by lia.
           replace (8 * (3 - e) + 8 * e) with 24 by lia. lia.
        -- apply Z.div_lt_upper_bound; nia.
      * rewrite (proj2 (Z.leb_le 0 _)), (proj2 (Z.ltb_lt _ _)) by lia. cbn [andb].
        rewrite big_exponent_value, Z.shiftl_mul_pow2, Z.pow_mul_r by lia.
        change (2 ^ 8) with 256. symmetry. apply Z.mod_small.
        assert (0 < 256 ^ (e - 3)) by (apply Z.pow_pos_nonneg; lia).
        assert (256 ^ (e - 3) <= 256 ^ 29) by (apply Z.pow_le_mono_r; lia). nia.
    + rewrite !(proj2 (Z.ltb_ge _ e)) by lia. by rewrite !andb_false_r.
  - destruct (Z.leb_spec e 3); [lia|]. destruct (Z.leb_spec 0 (32 - e)); [lia|]. done.
Qed.

(** Where the two decodings part: an exponent of 33 over a two-byte mantissa is a
    target to the node and zero to the pool. *)
Lemma bitsToTarget_exponent_33 :
  SetCompact 0x2100ffff = 0xffff * 2 ^ 240 /\ SetCompact_overflow 0x2100ffff = false /\
  be_value (bitsToTarget "2100ffff") = 0.
Proof. by vm_compute. Qed.
End compact.

Lemma bitsToTarget_is_SetCompact_witness :
  length (bitsToTarget "1d00ffff") = 32%nat /\
  (Z.shiftr 0x1d00ffff 24 <= 32 ->
     be_value (bitsToTarget "1d00ffff") = SetCompact 0x1d00ffff
     /\ SetCompact_overflow 0x1d00ffff = false) /\
  (32 < Z.shiftr 0x1d00ffff 24 -> be_value (bitsToTarget "1d00ffff") = 0).
Proof. apply bitsToTarget_is_SetCompact; [by vm_compute | lia]. Defined.

(** Printing a big integer in hex, padding it and decoding it is writing it big-endian. *)
Section hex_out.
Fixpoint hexw (k : nat) (v : Z) (acc : string) : string :=
  match k with
  | O => acc
  | S k' => hexw k' (v / 16) (String (hex_digit (v mod 16)) acc)
  end.

Lemma zeros_before_push k s : zeros_before k (String "0"%char s) = String "0"%char (zeros_before k s).
Proof. induction k as [|k IH]; cbn; [done|by rewrite IH]. Qed.

Lemma hexw_zero k acc : hexw k 0 acc = zeros_before k acc.
Proof.
  revert acc. induction k as [|k IH]; intros acc; [done|]. cbn [hexw zeros_before].
  change (0 / 16) with 0. change (hex_digit (0 mod 16)) with "0"%char.
  by rewrite IH, zeros_before_push.
Qed.

Lemma to_hex_go_hexw fuel k v acc : 0 <= v < 16 ^ Z.of_nat k -> (1 <= k)%nat ->
  v < 16 ^ Z.of_nat fuel -> (1 <= fuel)%nat ->
  exists j, (1 <= j <= k)%nat /\ String.length (to_hex_go fuel v acc) = (j + String.length acc)%nat
    /\ zeros_before (k - j) (to_hex_go fuel v acc) = hexw k v acc.
Proof.
  revert k v acc. induction fuel as [|fuel IH]; intros k v acc Hv Hk Hf Hf1; [lia|].
  destruct k as [|k]; [lia|]. cbn [to_hex_go hexw].
  destruct (Z.ltb_spec v 16) as [Hs|Hs].
  - exists 1%nat. split; [lia|]. split; [done|].
    rewrite Z.div_small, hexw_zero by lia. f_equal. lia.
  - assert (16 <= v < 16 ^ Z.of_nat (S k)) as Hvk by lia.
    rewrite Nat2Z.inj_succ, Z.pow_succ_r in Hvk, Hf by lia.
    assert (k <> O) by (intros ->; cbn in Hvk; lia).
    assert (fuel <> O) by (intros ->; cbn in Hf; lia).
    destruct (IH k (v / 16) (String (hex_digit (v mod 16)) acc)) as (j & Hj & Hl & Hz).
    + split; [apply Z.div_pos; lia | apply Z.div_lt_upper_bound; lia].
    + lia.
    + apply Z.div_lt_upper_bound; lia.
    + lia.
    + exists (S j). split; [lia|]. split; [rewrite Hl; cbn; lia|]. by rewrite <- Hz.
Qed.

Lemma hex_encode_app l k : hex_encode (l ++ k) = (hex_encode l ++ hex_encode k)%string.
Proof. induction l as [|b l IH]; cbn; [done|by rewrite IH]. Qed.

Lemma hexw_be_bytes n v acc : hexw (2 * n) v acc = (hex_encode (be_bytes n v) ++ acc)%string.
Proof.
  revert v acc. induction n as [|n IH]; intros v acc; [done|].
  replace (2 * S n)%nat with (S (S (2 * n))) by lia. cbn [hexw].
  unfold be_bytes. cbn [le_bytes]. rewrite reverse_cons. fold (be_bytes n (v / 256)).
  rewrite hex_encode_app, Z.div_div, IH by lia. change (16 * 16) with 256.
  cbn [hex_encode]. rewrite string_app_assoc. f_equal. cbn.
  pose proof (Z.div_mod v 16 ltac:(lia)). pose proof (Z.mod_pos_bound v 16 ltac:(lia)).
  pose proof (Z.div_mod (v / 16) 16 ltac:(lia)). pose proof (Z.mod_pos_bound (v / 16) 16 ltac:(lia)).
  replace (v mod 256) with (v / 16 mod 16 * 16 + v mod 16).
  - rewrite Z.div_add_l, (Z.div_small (v mod 16)), Z.add_0_r by lia.
    rewrite (Z.add_comm _ (v mod 16)), Z.mod_add, Z.mod_mod by lia. done.
  - apply Z.mod_unique with (q := v / 16 / 16); lia.
Qed.

Lemma hex_out n v : (1 <= n)%nat -> 0 <= v < 256 ^ Z.of_nat n ->
  hex_decode (pad_start (2 * n) (big_to_hex v)) = be_bytes n v.
Proof.
  intros Hn Hv. unfold pad_start, big_to_hex.
  destruct (to_hex_go_hexw (S (Z.to_nat (Z.log2 v))) (2 * n) v "") as (j & Hj & Hl & Hz).
  - change 16 with (2 ^ 4). change 256 with (2 ^ 8) in Hv. rewrite <- Z.pow_mul_r in Hv |- * by lia.
    replace (4 * Z.of_nat (2 * n)) with (8 * Z.of_nat n) by lia. done.
  - lia.
  - change 16 with (2 ^ 4). rewrite <- Z.pow_mul_r by lia.
    pose proof (Z.log2_nonneg v).
    destruct (Z.eq_dec v 0) as [->|]; [apply Z.pow_pos_nonneg; lia|].
    apply Z.log2_lt_pow2; lia.
  - lia.
  - rewrite Hl. cbn [String.length]. rewrite Nat.add_0_r, Hz, hexw_be_bytes.
    rewrite string_app_nil_r. apply hex_decode_encode, be_bytes_ok.
Qed.
End hex_out.

Section share_target.
Lemma scaleTarget_value t f : 0 <= be_value t -> 0 <= f ->
  be_value (scaleTarget t f) = Z.min (be_value t * f) (2 ^ 256 - 1)
  /\ length (scaleTarget t f) = 32%nat /\ bytes_ok (scaleTarget t f).
Proof.
  intros Ht Hf. unfold scaleTarget, big_of_buf. cbv zeta.
  set (v := if 2 ^ 256 - 1 <? be_value t * f then 2 ^ 256 - 1 else be_value t * f).
  assert (v = Z.min (be_value t * f) (2 ^ 256 - 1)) as Hv
    by (unfold v; destruct (Z.ltb_spec (2 ^ 256 - 1) (be_value t * f)); lia).
  assert (0 <= v < 2 ^ 256) by (rewrite Hv; nia).
  change (pad_start 64) with (pad_start (2 * 32)).
  rewrite hex_out by (change (256 ^ Z.of_nat 32) with (2 ^ 256); lia).
  rewrite be_value_bytes_small by (change (256 ^ Z.of_nat 32) with (2 ^ 256); lia).
  split; [done|]. split; [apply be_bytes_length | apply be_bytes_ok].
Qed.

Lemma targetWeight_Ok t w : targetWeight t = Ok w ->
  0 < t /\ w = 2 ^ 256 / t /\ w < 2 ^ 62.
Proof.
  unfold targetWeight. intros H. res_inv. bool_to_prop.
  rewrite big_div_nonneg in * by lia. lia.
Qed.

(** A weight is the number of hashes a target takes, at least one. *)
Lemma targetWeight_bounds t w : t < 2 ^ 256 -> targetWeight t = Ok w ->
  1 <= w < 2 ^ 62 /\ w * t <= 2 ^ 256 < (w + 1) * t.
Proof.
  intros Ht H. apply targetWeight_Ok in H as (H0 & -> & Hw).
  pose proof (Z.div_mod (2 ^ 256) t ltac:(lia)). pose proof (Z.mod_pos_bound (2 ^ 256) t H0).
  assert (1 <= 2 ^ 256 / t) by (apply Z.div_le_lower_bound; lia). nia.
Qed.

Lemma maxFactorForWeight_le t mw f :
  0 < be_value t -> 1 <= mw -> mw <= 2 ^ 256 / be_value t -> 2 ^ 256 / be_value t < 2 ^ 53 * mw ->
  f <= maxFactorForWeight t mw -> f * mw * be_value t <= 2 ^ 256.
Proof.
  intros Ht Hmw Hlo Hhi. unfold maxFactorForWeight, big_of_buf.
  destruct (Z.leb_spec (be_value t) 0); [lia|].
  rewrite (big_div_nonneg (2 ^ 256)) by lia.
  set (W := 2 ^ 256 / be_value t) in *. rewrite big_div_nonneg by lia.
  assert (W / mw < 2 ^ 53) by (apply Z.div_lt_upper_bound; lia).
  assert (1 <= W / mw) by (apply Z.div_le_lower_bound; lia).
  destruct (Z.ltb_spec (W / mw) 1); [lia|]. rewrite round53_small by lia. intros Hf.
  pose proof (Z.mul_div_le W mw ltac:(lia)).
  pose proof (Z.mul_div_le (2 ^ 256) (be_value t) ltac:(lia)) as HW. fold W in HW.
  assert (f * mw <= W) by nia.
  transitivity (W * be_value t); [by apply Z.mul_le_mono_nonneg_r; lia | lia].
Qed.

(** a share target is easier than the block target and worth what it costs. For a
    factor up to [maxFactorForWeight], every hash that meets the network target
    meets the share target (a block is always a share), a share weighs at least
    [minWeight], and [factor] shares weigh the work of a block, up to the floor. *)
Theorem share_target_measures_work t mw f :
  length t = 32%nat -> bytes_ok t -> 0 < be_value t -> 1 <= mw ->
  mw <= 2 ^ 256 / be_value t -> 2 ^ 256 / be_value t < Z.min (2 ^ 62) (2 ^ 53 * mw) ->
  1 <= f <= maxFactorForWeight t mw ->
  (forall h, length h = 32%nat -> bytes_ok h ->
     buf_compare h t <> Gt -> buf_compare h (scaleTarget t f) <> Gt) /\
  exists w, targetWeight (be_value (scaleTarget t f)) = Ok w /\ mw <= w < 2 ^ 62 /\
    (2 <= mw -> w * f <= 2 ^ 256 / be_value t < (w + 1) * f).
Proof.
  intros Hlen Hok Ht Hmw Hlo Hhi Hf.
  pose proof (maxFactorForWeight_le t mw f Ht Hmw Hlo ltac:(lia) ltac:(lia)) as Hcap.
  destruct (scaleTarget_value t f ltac:(lia) ltac:(lia)) as (Hv & Hl & Ho).
  assert (be_value t < 2 ^ 256) as Htop.
  { pose proof (be_value_range t Hok) as H. rewrite Hlen in H.
    change (256 ^ Z.of_nat 32) with (2 ^ 256) in H. lia. }
  split.
  - intros h Hh Hhok. rewrite !buf_compare_value, Hv by (done || congruence).
    change (be_value h <= be_value t -> be_value h <= Z.min (be_value t * f) (2 ^ 256 - 1)).
    intros H1. assert (be_value t <= be_value t * f) by nia. lia.
  - set (s := be_value (scaleTarget t f)) in *.
    assert (0 < s < 2 ^ 256) by nia.
    assert (mw <= 2 ^ 256 / s) by (apply Z.div_le_lower_bound; nia).
    assert (2 ^ 256 / s <= 2 ^ 256 / be_value t) by (apply Z.div_le_compat_l; nia).
    exists (2 ^ 256 / s). split; [|split; [lia|]].
    + unfold targetWeight. destruct (Z.leb_spec s 0); [lia|].
      rewrite big_div_nonneg by lia. destruct (Z.leb_spec (2 ^ 62) (2 ^ 256 / s)); [lia|done].
    + intros H2. assert (s = be_value t * f) as -> by nia.
      rewrite <- Z.div_div by lia.
      pose proof (Z.div_mod (2 ^ 256 / be_value t) f ltac:(lia)).
      pose proof (Z.mod_pos_bound (2 ^ 256 / be_value t) f ltac:(lia)). nia.
Qed.
End share_target.

Lemma share_target_measures_work_witness :
  let t := bitsToTarget "1d00ffff" in
  (forall h, length h = 32%nat -> bytes_ok h ->
     buf_compare h t <> Gt -> buf_compare h (scaleTarget t 1000) <> Gt) /\
  exists w, targetWeight (be_value (scaleTarget t 1000)) = Ok w /\ 256 <= w < 2 ^ 62 /\
    (2 <= 256 -> w * 1000 <= 2 ^ 256 / be_value t < (w + 1) * 1000).
Proof.
  intros t. apply share_target_measures_work;
    [by vm_compute | apply (bool_decide_unpack _); by vm_compute
    | by vm_compute | lia | by vm_compute | by vm_compute | split; [lia | by vm_compute]].
Defined.
