(* ===== verification/PoolMath.v ===== *)
(** * The money math of the pool (contrib/pool/store.mjs, the pure half)

    The fee, the proportional split of a pot over a PPLNS window, and the
    coinbase output set built from it.  Amounts are [BigInt] satoshis. *)

From S2P Require Import Prelude JsInt Bytes PoolAddress.
Local Open Scope Z_scope.

Record entry := { e_miner : string; e_weight : Z }.
Record amount := { a_miner : string; a_weight : Z; a_amount : Z }.
Record split := { s_amounts : list amount; s_dust : Z; s_windowWeight : Z }.

Inductive money_err :=
  | FeeOutOfRange (bp : Z)
  | NegativePot
  | ZeroTotalWeight
  | NegativeWeight
  | SplitOverpaid
  | SplitNotReconciled
  | ValueNotPositive (v : Z)
  | OutputsExceedValue
  | OutputsNotValue (total : Z)
  | NoScript (e : addr_err).

(** ** Operations *)

Definition feeOf (value basisPoints : Z) : result money_err Z :=
  if (basisPoints <? 0) || (10000 <? basisPoints) then Err (FeeOutOfRange basisPoints)
  else Ok (big_div (value * basisPoints) 10000).

Definition total_weight (l : list entry) : Z := foldl (fun a e => a + e_weight e) 0 l.

(** One turn of the split's loop over the entries. *)
Definition split_entry (pot total : Z) (e : entry) : result money_err amount :=
  if e_weight e <? 0 then Err NegativeWeight
  else Ok {| a_miner := e_miner e; a_weight := e_weight e;
             a_amount := big_div (pot * e_weight e) total |}.

Definition splitPot (pot : Z) (entries : list entry) : result money_err split :=
  if pot <? 0 then Err NegativePot else
  let total := total_weight entries in
  if total <=? 0 then Err ZeroTotalWeight else
  amounts ← mapM (split_entry pot total) entries;
  let paid := foldl (fun p a => p + a_amount a) 0 amounts in
  let dust := pot - paid in
  if dust <? 0 then Err SplitOverpaid else
  if negb (paid + dust =? pot) then Err SplitNotReconciled else
  Ok {| s_amounts := amounts; s_dust := dust; s_windowWeight := total |}.

(** *** The coinbase output set *)

Record dropped := { d_miner : string; d_wouldHave : Z }.

Record payout_output := {
  o_miner : option string;        (* [null] for the pool's own output *)
  o_script : bytes;
  o_value : Z;
  o_weight : option Z
}.

Record payout_set := {
  ps_outputs : list payout_output;
  ps_fee : Z;
  ps_dropped : list dropped;
  ps_paid : Z;
  ps_windowWeight : Z
}.

Record payout_args := {
  pa_value : Z;
  pa_feeBasisPoints : Z;
  pa_entries : list entry;
  pa_scriptOf : string -> result addr_err bytes;
  pa_poolScript : bytes;
  pa_dustLimit : Z
}.

(** The passes of the loop: split what is live, drop what is under the dust
    limit, split again.  Out of passes the amounts stay empty, as in the code. *)
Fixpoint payout_passes (fuel : nat) (pot dustLimit : Z) (live : list entry) (drops : list dropped)
    : result money_err (list entry * list dropped * list amount) :=
  match fuel with
  | O => Ok (live, drops, [])
  | S fuel' =>
      match live with
      | [] => Ok (live, drops, [])
      | _ =>
          r ← splitPot pot live;
          let under := filter (fun a => a_amount a < dustLimit) (s_amounts r) in
          match under with
          | [] => Ok (live, drops, s_amounts r)
          | _ =>
              let drops := drops ++ ((fun u => {| d_miner := a_miner u; d_wouldHave := a_amount u |}) <$> under) in
              let drop := a_miner <$> under in
              payout_passes fuel' pot dustLimit (filter (fun e => e_miner e ∉ drop) live) drops
          end
      end
  end.

Definition miner_output (scriptOf : string -> result addr_err bytes) (a : amount)
    : result money_err payout_output :=
  s ← lift_err NoScript (scriptOf (a_miner a));
  Ok {| o_miner := Some (a_miner a); o_script := s; o_value := a_amount a;
        o_weight := Some (a_weight a) |}.

Definition buildPayoutOutputs (a : payout_args) : result money_err payout_set :=
  let V := pa_value a in
  if V <=? 0 then Err (ValueNotPositive V) else
  fee ← feeOf V (pa_feeBasisPoints a);
  let pot := V - fee in
  let live := filter (fun e => 0 < e_weight e) (pa_entries a) in
  '(live, drops, amounts) ← payout_passes 64 pot (pa_dustLimit a) live [];
  let amounts := sort_by a_miner amounts in
  outputs ← mapM (miner_output (pa_scriptOf a)) amounts;
  let paid := foldl (fun p x => p + a_amount x) 0 amounts in
  let poolValue := V - paid in
  if poolValue <? 0 then Err OutputsExceedValue else
  let outputs := outputs ++ [{| o_miner := None; o_script := pa_poolScript a;
                                o_value := poolValue; o_weight := None |}] in
  let total := foldl (fun s o => s + o_value o) 0 outputs in
  if negb (total =? V) then Err (OutputsNotValue total) else
  Ok {| ps_outputs := outputs; ps_fee := fee; ps_dropped := drops; ps_paid := paid;
        ps_windowWeight := total_weight live |}.

(** ** The split *)

Section split.
Implicit Types l : list entry.

Definition weights_ok l : Prop := Forall (fun e => 0 <= e_weight e) l.
Definition weight_of l : Z := zsum_by e_weight l.

(** What an entry is due of a pot over a total weight. *)
Definition due (pot total : Z) (e : entry) : Z := pot * e_weight e / total.
Definition amount_of (pot total : Z) (e : entry) : amount :=
  {| a_miner := e_miner e; a_weight := e_weight e; a_amount := due pot total e |}.

Lemma total_weight_sum l : total_weight l = weight_of l.
Proof. unfold total_weight. by rewrite foldl_sum. Qed.

Lemma feeOf_Ok V bp : 0 <= V -> 0 <= bp <= 10000 ->
  feeOf V bp = Ok (V * bp / 10000) /\ 0 <= V * bp / 10000 <= V.
Proof.
  intros HV Hbp. unfold feeOf.
  rewrite (proj2 (Z.ltb_ge bp 0)), (proj2 (Z.ltb_ge 10000 bp)) by lia. cbn [orb].
  rewrite big_div_nonneg by nia. split; [done|]. split; [apply Z.div_pos; nia|].
  apply Z.div_le_upper_bound; nia.
Qed.

Lemma split_entries pot total l : 0 <= pot -> 0 < total -> weights_ok l ->
  mapM (split_entry pot total) l = Ok (amount_of pot total <$> l).
Proof.
  intros Hp Ht Hl. apply mapM_total. intros e He.
  apply (proj1 (Forall_forall _ _) Hl) in He. unfold split_entry.
  destruct (Z.ltb_spec (e_weight e) 0); [lia|].
  unfold amount_of, due. by rewrite big_div_nonneg by nia.
Qed.

Lemma due_sum pot total l : zsum_by a_amount (amount_of pot total <$> l) = zsum_by (due pot total) l.
Proof. by rewrite zsum_by_fmap. Qed.

Lemma due_nonneg pot total e : 0 <= pot -> 0 < total -> 0 <= e_weight e -> 0 <= due pot total e.
Proof. intros. apply Z.div_pos; nia. Qed.

(** The floors lose less than a satoshi per entry and never overpay. *)
Lemma due_sum_bounds pot l : 0 <= pot -> weights_ok l -> 0 < weight_of l ->
  0 <= pot - zsum_by (due pot (weight_of l)) l /\
  (l <> [] -> pot - zsum_by (due pot (weight_of l)) l < Z.of_nat (length l)).
Proof.
  intros Hp Hl HW. unfold due.
  assert (zsum_by (fun e => pot * e_weight e) l = pot * weight_of l) as Hs by apply zsum_by_scale.
  split.
  - pose proof (zsum_by_div_le (fun e => pot * e_weight e) l (weight_of l) HW) as H.
    rewrite Hs, Z.div_mul in H by lia. lia.
  - intros Hne. destruct (zsum_by_div_gap (fun e => pot * e_weight e) l (weight_of l) HW) as [_ H].
    rewrite Hs in H. assert (0 < Z.of_nat (length l)) by (destruct l; [done|cbn; lia]). nia.
Qed.

Lemma splitPot_eq pot l : 0 <= pot -> weights_ok l -> 0 < weight_of l ->
  splitPot pot l = Ok {| s_amounts := amount_of pot (weight_of l) <$> l;
                         s_dust := pot - zsum_by (due pot (weight_of l)) l;
                         s_windowWeight := weight_of l |}.
Proof.
  intros Hp Hl HW. destruct (due_sum_bounds pot l Hp Hl HW) as [Hd _].
  unfold splitPot. rewrite total_weight_sum.
  destruct (Z.ltb_spec pot 0); [lia|]. destruct (Z.leb_spec (weight_of l) 0); [lia|].
  rewrite split_entries by done. cbn [mbind result_bind]. rewrite foldl_sum, due_sum, Z.add_0_l.
  destruct (Z.ltb_spec (pot - zsum_by (due pot (weight_of l)) l) 0); [lia|].
  rewrite (proj2 (Z.eqb_eq _ pot)) by lia. done.
Qed.

(** a split accounts for every satoshi: the amounts and the dust add up to the
    pot, each miner's amount is within one satoshi below its exact share, the dust
    is less than one satoshi per miner, and the split's own two assertions
    (overpaid, does not reconcile) never fire. *)
Theorem splitPot_reconciles pot l :
  0 <= pot -> weights_ok l -> 0 < weight_of l ->
  exists r, splitPot pot l = Ok r /\
    zsum_by a_amount (s_amounts r) + s_dust r = pot /\
    0 <= s_dust r < Z.of_nat (length l) /\
    s_windowWeight r = weight_of l /\
    Forall2 (fun e a => a_miner a = e_miner e /\ a_weight a = e_weight e /\
       0 <= a_amount a /\
       a_amount a * weight_of l <= pot * e_weight e < (a_amount a + 1) * weight_of l)
      l (s_amounts r).
Proof.
  intros Hp Hl HW. destruct (due_sum_bounds pot l Hp Hl HW) as [Hd0 Hd1].
  eexists. split; [by apply splitPot_eq|]. cbn [s_amounts s_dust s_windowWeight].
  rewrite due_sum. split; [lia|]. split; [split; [lia|]|split; [done|]].
  - apply Hd1. intros ->. unfold weight_of in HW. rewrite zsum_by_nil in HW. lia.
  - apply Forall2_fmap_r, Forall_Forall2_diag. eapply Forall_impl; [exact Hl|].
    intros e He. cbn in He |- *. split; [done|]. split; [done|].
    split; [by apply due_nonneg|]. unfold due.
    pose proof (Z.div_mod (pot * e_weight e) (weight_of l) ltac:(lia)).
    pose proof (Z.mod_pos_bound (pot * e_weight e) (weight_of l) HW). nia.
Qed.
End split.

Lemma splitPot_reconciles_witness :
  let l := [{| e_miner := "a"; e_weight := 3 |}; {| e_miner := "b"; e_weight := 4 |}] in
  exists r, splitPot 100 l = Ok r /\
    zsum_by a_amount (s_amounts r) + s_dust r = 100 /\
    0 <= s_dust r < Z.of_nat (length l) /\ s_windowWeight r = weight_of l /\
    Forall2 (fun e a => a_miner a = e_miner e /\ a_weight a = e_weight e /\ 0 <= a_amount a /\
       a_amount a * weight_of l <= 100 * e_weight e < (a_amount a + 1) * weight_of l)
      l (s_amounts r).
Proof. intros l. apply splitPot_reconciles; [lia | repeat constructor; cbn; lia | by vm_compute]. Defined.

(** ** The coinbase output set *)

Section payout.
Implicit Types l : list entry.

Definition positive l : Prop := Forall (fun e => 0 < e_weight e) l.
Definition distinct l : Prop := NoDup (e_miner <$> l).

(** Who is paid in a block: due at least the dust limit of the whole pot. *)
Definition served (pot dustLimit : Z) l : list entry :=
  filter (fun e => dustLimit <= due pot (weight_of l) e) l.

Lemma positive_ok l : positive l -> weights_ok l.
Proof. intros H. eapply Forall_impl; [exact H|]. cbn. lia. Qed.

Lemma positive_weight l : positive l -> l <> [] -> 0 < weight_of l.
Proof.
  intros H Hne. destruct H as [|e l He Hl]; [done|]. unfold weight_of. rewrite zsum_by_cons.
  assert (0 <= zsum_by e_weight l); [|lia].
  apply zsum_by_nonneg. intros x Hx. apply (proj1 (Forall_forall _ _) Hl) in Hx. lia.
Qed.

Lemma positive_filter (P : entry -> Prop) `{!forall e, Decision (P e)} l :
  positive l -> positive (filter P l).
Proof.
  unfold positive. rewrite !Forall_forall. intros Hl e He.
  apply Hl. by apply list_elem_of_filter in He as [_ ?].
Qed.

Lemma distinct_filter (P : entry -> Prop) `{!forall e, Decision (P e)} l :
  distinct l -> distinct (filter P l).
Proof.
  unfold distinct. induction l as [|e l IH]; [done|]. rewrite fmap_cons, NoDup_cons, filter_cons.
  intros [Hn Hd]. case_decide; [|by apply IH]. rewrite fmap_cons, NoDup_cons. split; [|by apply IH].
  intros Hin. apply Hn. apply list_elem_of_fmap in Hin as (x & Hx & Hxl).
  apply list_elem_of_filter in Hxl as [_ Hxl]. apply list_elem_of_fmap. eauto.
Qed.

Lemma distinct_eq l e e' : distinct l -> e ∈ l -> e' ∈ l -> e_miner e = e_miner e' -> e = e'.
Proof.
  unfold distinct. induction l as [|x l IH]; [intros _ H; by apply elem_of_nil in H|].
  rewrite fmap_cons, NoDup_cons. intros [Hn Hd] He He' Heq.
  apply elem_of_cons in He as [->|He], He' as [->|He']; try done.
  - destruct Hn. apply list_elem_of_fmap. eauto.
  - destruct Hn. apply list_elem_of_fmap. eauto.
  - by apply IH.
Qed.

(** Fewer miners in the split: nobody left is due less. *)
Lemma due_mono pot W W' e : 0 <= pot -> 0 < W' <= W -> 0 <= e_weight e -> due pot W e <= due pot W' e.
Proof. intros Hp HW He. apply Z.div_le_compat_l; nia. Qed.

Lemma served_weight pot d l : positive l -> weight_of (served pot d l) <= weight_of l.
Proof.
  intros H. apply zsum_by_filter_le. intros e He.
  apply (proj1 (Forall_forall _ _) H) in He. lia.
Qed.

(** The second split has nobody under the limit: dropping does not cascade. *)
Lemma served_stable pot d l : 0 <= pot -> positive l ->
  served pot d (served pot d l) = served pot d l.
Proof.
  intros Hp Hl. apply filter_all, Forall_forall. intros e He.
  pose proof He as He2. apply list_elem_of_filter in He2 as [Hd Hin].
  apply (proj1 (Forall_forall _ _) Hl) in Hin as Hw. cbn in Hw.
  etransitivity; [exact Hd|]. apply due_mono; [done| |lia]. split; [|by apply served_weight].
  apply positive_weight; [by apply positive_filter|]. intros E. rewrite E in He.
  by apply elem_of_nil in He.
Qed.

Lemma under_eq pot d W l :
  filter (fun a => a_amount a < d) (amount_of pot W <$> l)
  = amount_of pot W <$> filter (fun e => due pot W e < d) l.
Proof. by rewrite filter_fmap_eq. Qed.

(** One turn of the loop on a window that is not empty. *)
Lemma passes_turn fuel pot d l drops :
  0 <= pot -> positive l -> l <> [] ->
  payout_passes (S fuel) pot d l drops =
  let under := amount_of pot (weight_of l) <$> filter (fun e => due pot (weight_of l) e < d) l in
  match under with
  | [] => Ok (l, drops, amount_of pot (weight_of l) <$> l)
  | _ =>
      payout_passes fuel pot d (filter (fun e => e_miner e ∉ a_miner <$> under) l)
        (drops ++ ((fun u => {| d_miner := a_miner u; d_wouldHave := a_amount u |}) <$> under))
  end.
Proof.
  intros Hp Hl Hne. pose proof (positive_weight l Hl Hne) as HW.
  destruct l as [|e l]; [done|]. cbn [payout_passes].
  rewrite splitPot_eq by (done || by apply positive_ok). cbn [mbind result_bind s_amounts].
  by rewrite under_eq.
Qed.

Lemma passes_stop fuel pot d l drops :
  0 <= pot -> positive l -> served pot d l = l ->
  payout_passes (S fuel) pot d l drops = Ok (l, drops, amount_of pot (weight_of l) <$> l).
Proof.
  intros Hp Hl Hs. destruct (decide (l = [])) as [->|Hne]; [done|].
  rewrite passes_turn by done. rewrite filter_none; [done|].
  apply Forall_forall. intros x Hx. rewrite <- Hs in Hx.
  apply list_elem_of_filter in Hx as [Hx _]. lia.
Qed.

Lemma survivors pot d l : distinct l ->
  filter (fun e => e_miner e ∉ a_miner <$>
    (amount_of pot (weight_of l) <$> filter (fun e => due pot (weight_of l) e < d) l)) l
  = served pot d l.
Proof.
  intros Hd. apply filter_ext_in. intros e He. rewrite <- list_fmap_compose. split.
  - intros Hn. destruct (Z.le_gt_cases d (due pot (weight_of l) e)) as [|Hlt]; [done|].
    destruct Hn. apply list_elem_of_fmap. exists e. split; [done|]. by apply list_elem_of_filter.
  - intros Hle Hin. apply list_elem_of_fmap in Hin as (x & Hx & Hxl).
    apply list_elem_of_filter in Hxl as [Hlt Hxl].
    assert (e = x) as -> by (by eapply distinct_eq). lia.
Qed.

(** Two passes are enough, whatever the window. *)
Lemma passes_eq fuel pot d l drops :
  0 <= pot -> positive l -> distinct l ->
  exists dr, payout_passes (S (S fuel)) pot d l drops =
    Ok (served pot d l, drops ++ dr,
        amount_of pot (weight_of (served pot d l)) <$> served pot d l) /\
    dr = (fun e => {| d_miner := e_miner e; d_wouldHave := due pot (weight_of l) e |})
           <$> filter (fun e => due pot (weight_of l) e < d) l.
Proof.
  intros Hp Hl Hd. destruct (decide (l = [])) as [->|Hne].
  { exists []. by rewrite app_nil_r. }
  rewrite passes_turn by done. cbv zeta.
  destruct (filter (fun e => due pot (weight_of l) e < d) l) as [|u us] eqn:Hu at 1.
  - exists []. assert (served pot d l = l) as ->.
    + apply filter_all, Forall_forall. intros e He.
      destruct (Z.le_gt_cases d (due pot (weight_of l) e)) as [|Hlt]; [done|].
      assert (e ∈ filter (fun e => due pot (weight_of l) e < d) l) as Hin by by apply list_elem_of_filter.
      rewrite Hu in Hin. by apply elem_of_nil in Hin.
    + rewrite app_nil_r. split; [done|]. by rewrite Hu.
  - rewrite (fmap_cons _ u us). cbv iota. rewrite survivors by done.
    rewrite passes_stop by (done || by apply positive_filter || by apply served_stable).
    eexists. split; [reflexivity|]. by rewrite <- list_fmap_compose.
Qed.

(** *** The whole function *)

Definition live_of (a : payout_args) : list entry := filter (fun e => 0 < e_weight e) (pa_entries a).
Definition fee_of (a : payout_args) : Z := pa_value a * pa_feeBasisPoints a / 10000.
Definition pot_of (a : payout_args) : Z := pa_value a - fee_of a.
Definition served_of (a : payout_args) : list entry := served (pot_of a) (pa_dustLimit a) (live_of a).
Definition paid_of (a : payout_args) (e : entry) : Z := due (pot_of a) (weight_of (served_of a)) e.

(** What the code is called with: a positive coinbase value, a fee in range, one
    entry per miner, and an address that has a script for everyone paid. *)
Record payout_args_ok (a : payout_args) : Prop := {
  pok_value : 0 < pa_value a;
  pok_fee : 0 <= pa_feeBasisPoints a <= 10000;
  pok_distinct : distinct (pa_entries a);
  pok_scripts : forall e, e ∈ served_of a -> is_ok (pa_scriptOf a (e_miner e)) = true
}.

Definition output_for (a : payout_args) (x : amount) : payout_output :=
  {| o_miner := Some (a_miner x); o_script := ok_or [] (pa_scriptOf a (a_miner x));
     o_value := a_amount x; o_weight := Some (a_weight x) |}.
Definition pool_output (a : payout_args) (v : Z) : payout_output :=
  {| o_miner := None; o_script := pa_poolScript a; o_value := v; o_weight := None |}.
Definition amounts_of (a : payout_args) : list amount :=
  amount_of (pot_of a) (weight_of (served_of a)) <$> served_of a.
Definition sum_paid (a : payout_args) : Z := zsum_by (paid_of a) (served_of a).

Lemma live_positive a : positive (live_of a).
Proof. apply Forall_forall. intros e He. by apply list_elem_of_filter in He as [? _]. Qed.

Lemma live_distinct a : distinct (pa_entries a) -> distinct (live_of a).
Proof. apply distinct_filter. Qed.

Lemma served_positive a : positive (served_of a).
Proof. apply positive_filter, live_positive. Qed.

Lemma served_distinct a : distinct (pa_entries a) -> distinct (served_of a).
Proof. intros H. by repeat apply distinct_filter. Qed.

Lemma pot_bounds a : payout_args_ok a -> 0 <= pot_of a <= pa_value a.
Proof.
  intros [HV Hbp _ _]. unfold pot_of, fee_of.
  destruct (feeOf_Ok (pa_value a) (pa_feeBasisPoints a)) as [_ Hf]; lia.
Qed.

Lemma sum_paid_bounds a : payout_args_ok a ->
  0 <= sum_paid a <= pot_of a /\
  (served_of a <> [] -> pot_of a - sum_paid a < Z.of_nat (length (served_of a))).
Proof.
  intros Ha. pose proof (pot_bounds a Ha).
  pose proof (positive_ok _ (served_positive a)) as Hok. unfold sum_paid.
  destruct (decide (served_of a = [])) as [->|Hne]; [rewrite zsum_by_nil; split; [lia|done]|].
  pose proof (positive_weight _ (served_positive a) Hne) as HW.
  destruct (due_sum_bounds (pot_of a) (served_of a)) as [H1 H2]; [lia|done|done|].
  change (zsum_by (paid_of a)) with (zsum_by (due (pot_of a) (weight_of (served_of a)))).
  split; [|auto]. split; [|lia]. apply zsum_by_nonneg. intros e He.
  apply due_nonneg; [lia|done|]. by apply (proj1 (Forall_forall _ _) Hok).
Qed.

(** The function's result, written out. *)
Lemma buildPayoutOutputs_eq a : payout_args_ok a ->
  exists dr, buildPayoutOutputs a = Ok {|
    ps_outputs := (output_for a <$> sort_by a_miner (amounts_of a))
                  ++ [pool_output a (pa_value a - sum_paid a)];
    ps_fee := fee_of a; ps_dropped := dr; ps_paid := sum_paid a;
    ps_windowWeight := weight_of (served_of a) |} /\
  dr = (fun e => {| d_miner := e_miner e; d_wouldHave := due (pot_of a) (weight_of (live_of a)) e |})
         <$> filter (fun e => due (pot_of a) (weight_of (live_of a)) e < pa_dustLimit a) (live_of a).
Proof.
  intros Ha. destruct (pot_bounds a Ha) as [Hp _]. destruct (sum_paid_bounds a Ha) as [Hs _].
  pose proof Ha as Ha'. destruct Ha as [HV Hbp Hd Hscr].
  destruct (feeOf_Ok (pa_value a) (pa_feeBasisPoints a)) as [Hf Hf']; [lia..|].
  destruct (passes_eq 62 (pot_of a) (pa_dustLimit a) (live_of a) [] Hp (live_positive a))
    as (dr & Hpass & Hdr); [by apply distinct_filter|].
  assert (foldl (fun p x => p + a_amount x) 0 (sort_by a_miner (amounts_of a)) = sum_paid a) as Hsum.
  { rewrite foldl_sum, (zsum_by_perm _ _ _ (sort_by_perm _ _)). unfold amounts_of. by rewrite due_sum. }
  exists dr. split; [|done]. unfold buildPayoutOutputs.
  destruct (Z.leb_spec (pa_value a) 0); [lia|]. rewrite Hf. cbn [mbind result_bind].
  fold (fee_of a) (pot_of a) (live_of a). rewrite Hpass. cbn [mbind result_bind].
  fold (served_of a) (amounts_of a).
  rewrite (mapM_total _ (output_for a)).
  2:{ intros x Hx. rewrite sort_by_perm in Hx. apply list_elem_of_fmap in Hx as (e & -> & He).
      specialize (Hscr e He). unfold miner_output, output_for. cbn [a_miner amount_of].
      by destruct (pa_scriptOf a (e_miner e)). }
  cbn [mbind result_bind]. rewrite Hsum. destruct (pot_bounds a Ha').
  destruct (Z.ltb_spec (pa_value a - sum_paid a) 0); [lia|].
  rewrite foldl_sum, zsum_by_app, zsum_by_fmap, zsum_by_cons, zsum_by_nil.
  change (zsum_by (o_value ∘ output_for a)) with (zsum_by a_amount).
  rewrite foldl_sum in Hsum. cbn [o_value].
  rewrite (proj2 (Z.eqb_eq _ (pa_value a))) by lia. cbn [negb].
  by rewrite total_weight_sum.
Qed.

(** Whatever it is called with, an answer of the function adds up to the value, pays
    nothing negative, and pays only the pool's script and scripts of its miners. *)
Definition output_sound (a : payout_args) (o : payout_output) : Prop :=
  0 <= o_value o /\ (o_script o = pa_poolScript a \/ exists m, pa_scriptOf a m = Ok (o_script o)).

Lemma splitPot_nonneg pot l r : splitPot pot l = Ok r -> Forall (fun x => 0 <= a_amount x) (s_amounts r).
Proof.
  unfold splitPot. intros H. destruct (Z.ltb_spec pot 0) as [|Hp]; [discriminate H|].
  destruct (Z.leb_spec (total_weight l) 0) as [|Ht]; [discriminate H|]. res_inv. subst r.
  cbn [s_amounts]. clear Hb Hb0. apply mapM_Ok in Ha. induction Ha as [|e x l' k He _ IH]; constructor; [|done].
  unfold split_entry in He. destruct (Z.ltb_spec (e_weight e) 0); [discriminate He|]. injection He as <-.
  cbn [a_amount]. rewrite big_div_nonneg by nia. apply Z.div_pos; nia.
Qed.

Lemma payout_passes_nonneg fuel pot d l drops l' drops' amounts :
  payout_passes fuel pot d l drops = Ok (l', drops', amounts) -> Forall (fun x => 0 <= a_amount x) amounts.
Proof.
  revert l drops. induction fuel as [|fuel IH]; intros l drops H; cbn [payout_passes] in H.
  { by injection H as _ _ <-. }
  destruct l as [|e l]; [by injection H as _ _ <-|].
  apply bind_Ok in H as (r & Hr & H). destruct (filter _ (s_amounts r)); [|by apply IH in H].
  injection H as _ _ <-. by apply splitPot_nonneg in Hr.
Qed.

Lemma buildPayoutOutputs_sound a ps : buildPayoutOutputs a = Ok ps ->
  zsum_by o_value (ps_outputs ps) = pa_value a /\ Forall (output_sound a) (ps_outputs ps) /\
  ps_outputs ps <> [].
Proof.
  unfold buildPayoutOutputs. intros H. destruct (_ <=? 0); [discriminate H|].
  apply bind_Ok in H as (fee & _ & H). apply bind_Ok in H as ([[live drops] amounts] & Hpass & H).
  apply bind_Ok in H as (outs & Houts & H). revert H.
  set (paid := foldl _ 0 (sort_by a_miner amounts)). clearbody paid. intros H.
  destruct (Z.ltb_spec (pa_value a - paid) 0) as [|Hnn]; [discriminate H|].
  destruct (_ =? pa_value a) eqn:Htot in H; [|discriminate H]. injection H as <-.
  cbn [ps_outputs]. apply Z.eqb_eq in Htot. rewrite foldl_sum in Htot. split; [done|].
  split; [|by destruct outs]. apply Forall_app. split; [|constructor; [|done]; split; [done|by left]].
  apply payout_passes_nonneg in Hpass. rewrite <- (sort_by_perm a_miner amounts) in Hpass.
  apply mapM_Ok in Houts. clear Htot Hnn. induction Houts as [|x o l outs Hx _ IH]; [done|].
  inversion Hpass as [|? ? H1 H2]; subst. constructor; [|by apply IH].
  unfold miner_output in Hx. res_inv. subst o. split; [done|]. right. by eexists.
Qed.

Lemma splitPot_miners pot l r : splitPot pot l = Ok r -> a_miner <$> s_amounts r = e_miner <$> l.
Proof.
  unfold splitPot. intros H. destruct (pot <? 0); [discriminate H|].
  destruct (total_weight l <=? 0); [discriminate H|]. res_inv. subst r. cbn [s_amounts].
  apply mapM_Ok in Ha. clear Hb Hb0. induction Ha as [|e x l' k He _ IH]; [done|].
  unfold split_entry in He. destruct (e_weight e <? 0); [discriminate He|]. injection He as <-.
  rewrite !fmap_cons. by rewrite IH.
Qed.

Lemma payout_passes_miners fuel pot d l drops l' drops' amounts :
  payout_passes fuel pot d l drops = Ok (l', drops', amounts) ->
  NoDup (e_miner <$> l) -> NoDup (a_miner <$> amounts).
Proof.
  revert l drops. induction fuel as [|fuel IH]; intros l drops H Hnd; cbn [payout_passes] in H.
  { injection H as _ _ <-. constructor. }
  destruct l as [|e l]; [injection H as _ _ <-; constructor|].
  apply bind_Ok in H as (r & Hr & H). destruct (filter _ (s_amounts r)).
  - injection H as _ _ <-. by rewrite (splitPot_miners _ _ _ Hr).
  - apply IH in H; [done|]. by apply distinct_filter.
Qed.

(** Each miner is named once, and its output pays its script. *)
Lemma buildPayoutOutputs_named a ps : buildPayoutOutputs a = Ok ps -> NoDup (e_miner <$> pa_entries a) ->
  NoDup (omap o_miner (ps_outputs ps)) /\
  Forall (fun o => forall m, o_miner o = Some m -> pa_scriptOf a m = Ok (o_script o)) (ps_outputs ps).
Proof.
  unfold buildPayoutOutputs. intros H Hnd. destruct (_ <=? 0); [discriminate H|].
  apply bind_Ok in H as (fee & _ & H). apply bind_Ok in H as ([[live drops] amounts] & Hpass & H).
  apply bind_Ok in H as (outs & Houts & H). revert H.
  set (paid := foldl _ 0 (sort_by a_miner amounts)). clearbody paid. intros H.
  destruct (_ <? 0) in H; [discriminate H|]. destruct (_ =? pa_value a) in H; [|discriminate H].
  injection H as <-. cbn [ps_outputs].
  apply payout_passes_miners in Hpass; [|by apply distinct_filter].
  rewrite <- (sort_by_perm a_miner amounts) in Hpass. apply mapM_Ok in Houts.
  assert (omap o_miner outs = a_miner <$> sort_by a_miner amounts) as Hnames.
  { clear Hpass. induction Houts as [|x o l outs Hx _ IH]; [done|]. unfold miner_output in Hx. res_inv. subst o.
    cbn. by rewrite IH. }
  split.
  - rewrite omap_app, Hnames. cbn. by rewrite app_nil_r.
  - apply Forall_app. split; [|by repeat constructor].
    clear Hpass Hnames. induction Houts as [|x o l outs Hx _ IH]; constructor; [|done].
    unfold miner_output in Hx. res_inv. subst o. by intros m [= <-].
Qed.

(** C21: the coinbase the pool builds is exact. For a positive value, a fee in range
    and one window entry per miner the function returns (64 passes are never
    exhausted and its own checks never fire); the outputs add up to the coinbase
    value to the satoshi; every miner output is at least the dust limit, is that
    miner's floor share of the pot over the miners served, and pays its script;
    and the pool's own output comes last and holds at least the fee. *)
Theorem buildPayoutOutputs_exact a : payout_args_ok a ->
  exists ps miners pool, buildPayoutOutputs a = Ok ps /\
    ps_outputs ps = miners ++ [pool] /\
    zsum_by o_value (ps_outputs ps) = pa_value a /\
    (forall o, o ∈ miners -> exists e, e ∈ pa_entries a /\ 0 < e_weight e /\
       o_miner o = Some (e_miner e) /\ pa_scriptOf a (e_miner e) = Ok (o_script o) /\
       pa_dustLimit a <= o_value o /\
       o_value o = (pa_value a - ps_fee ps) * e_weight e / ps_windowWeight ps) /\
    NoDup (o_miner <$> ps_outputs ps) /\
    o_miner pool = None /\ o_script pool = pa_poolScript a /\
    ps_fee ps = pa_value a * pa_feeBasisPoints a / 10000 /\
    ps_fee ps <= o_value pool.
Proof.
  intros Ha. destruct (buildPayoutOutputs_eq a Ha) as (dr & Heq & _).
  destruct (sum_paid_bounds a Ha) as [Hs _]. destruct (pot_bounds a Ha) as [Hp _].
  eexists _, _, _. split; [exact Heq|]. cbn [ps_outputs ps_fee ps_windowWeight].
  split; [reflexivity|]. split; [|split; [|split; [|split; [done|split; [done|split; [done|]]]]]].
  - rewrite zsum_by_app, zsum_by_fmap, zsum_by_cons, zsum_by_nil.
    change (zsum_by (o_value ∘ output_for a)) with (zsum_by a_amount).
    rewrite (zsum_by_perm _ _ _ (sort_by_perm _ _)). unfold amounts_of. rewrite due_sum.
    cbn [o_value pool_output]. unfold sum_paid, paid_of.
    change (zsum_by (fun e => due (pot_of a) (weight_of (served_of a)) e))
      with (zsum_by (due (pot_of a) (weight_of (served_of a)))). lia.
  - intros o Ho. apply list_elem_of_fmap in Ho as (x & -> & Hx). rewrite sort_by_perm in Hx.
    apply list_elem_of_fmap in Hx as (e & -> & He). exists e.
    pose proof (pok_scripts a Ha e He) as Hscr. pose proof He as Hst.
    unfold served_of in Hst. rewrite <- served_stable in Hst by (lia || apply live_positive).
    apply list_elem_of_filter in Hst as [Hdust _].
    apply list_elem_of_filter in He as [_ He]. apply list_elem_of_filter in He as [Hw He].
    cbn [output_for o_miner o_script o_value amount_of a_miner a_amount].
    do 3 (split; [done|]). split; [|done]. by destruct (pa_scriptOf a (e_miner e)).
  - rewrite fmap_app, <- list_fmap_compose. cbn [fmap list_fmap o_miner pool_output].
    apply NoDup_app. split; [|split].
    + change (o_miner ∘ output_for a) with (Some ∘ a_miner). rewrite list_fmap_compose.
      apply NoDup_fmap_2; [apply _|]. rewrite sort_by_perm. unfold amounts_of.
      rewrite <- list_fmap_compose. apply served_distinct, Ha.
    + intros m Hm Hin. apply list_elem_of_singleton in Hin as ->.
      apply list_elem_of_fmap in Hm as (x & Hx & _). done.
    + apply NoDup_singleton.
  - cbn [o_value pool_output]. unfold pot_of in *. lia.
Qed.

(** nobody over the dust limit is dropped, and a dropped miner's share goes to the
    other miners. A miner due at least the dust limit of the whole window gets an
    output, of at least what it was due; a miner under it is in no output and is
    listed as dropped; and while anyone is served the pool keeps less than one
    satoshi per miner on top of its fee. *)
Theorem buildPayoutOutputs_fair a ps : payout_args_ok a -> buildPayoutOutputs a = Ok ps ->
  let W := weight_of (live_of a) in
  (forall e, e ∈ pa_entries a -> 0 < e_weight e ->
     pa_dustLimit a <= due (pot_of a) W e ->
     exists o, o ∈ ps_outputs ps /\ o_miner o = Some (e_miner e) /\ due (pot_of a) W e <= o_value o) /\
  (forall e, e ∈ pa_entries a -> 0 < e_weight e ->
     due (pot_of a) W e < pa_dustLimit a ->
     {| d_miner := e_miner e; d_wouldHave := due (pot_of a) W e |} ∈ ps_dropped ps /\
     Some (e_miner e) ∉ o_miner <$> ps_outputs ps) /\
  ((exists o, o ∈ ps_outputs ps /\ o_miner o <> None) ->
     forall pool, pool ∈ ps_outputs ps -> o_miner pool = None ->
       o_value pool < ps_fee ps + Z.of_nat (length (ps_outputs ps))).
Proof.
  intros Ha Hps W. destruct (buildPayoutOutputs_eq a Ha) as (dr & Heq & Hdr).
  rewrite Heq in Hps. injection Hps as <-. cbn [ps_outputs ps_dropped ps_fee].
  destruct (pot_bounds a Ha) as [Hp _]. destruct (sum_paid_bounds a Ha) as [_ Hlt].
  assert (forall e, e ∈ served_of a -> output_for a (amount_of (pot_of a) (weight_of (served_of a)) e)
            ∈ output_for a <$> sort_by a_miner (amounts_of a)) as Hout.
  { intros e He. apply list_elem_of_fmap. eexists. split; [done|]. rewrite sort_by_perm.
    apply list_elem_of_fmap. eauto. }
  split; [|split].
  - intros e He Hw Hdue.
    assert (e ∈ served_of a) as Hs.
    { apply list_elem_of_filter. split; [done|]. by apply list_elem_of_filter. }
    eexists. split; [apply elem_of_app; left; by apply Hout|]. split; [done|].
    cbn [output_for o_value amount_of a_amount]. apply due_mono; [done| |lia].
    split; [|apply served_weight, live_positive].
    apply positive_weight; [apply served_positive|]. intros E. rewrite E in Hs. by apply elem_of_nil in Hs.
  - intros e He Hw Hdue.
    assert (e ∈ live_of a) as Hl by by apply list_elem_of_filter.
    split.
    + rewrite Hdr. apply list_elem_of_fmap. exists e. split; [done|]. by apply list_elem_of_filter.
    + intros Hin. apply list_elem_of_fmap in Hin as (o & Ho & Hin).
      apply elem_of_app in Hin as [Hin|Hin].
      * apply list_elem_of_fmap in Hin as (x & -> & Hx). rewrite sort_by_perm in Hx.
        apply list_elem_of_fmap in Hx as (e' & -> & He'). cbn in Ho. injection Ho as Ho.
        apply list_elem_of_filter in He' as [Hd' Hl'].
        assert (e = e') as <- by (by apply (distinct_eq (live_of a)); [apply live_distinct, Ha|..]).
        unfold W in Hdue. lia.
      * apply list_elem_of_singleton in Hin as ->. done.
  - intros (o & Hin & Hne) pool Hpool Hnone.
    assert (served_of a <> []) as Hserved.
    { intros E. unfold amounts_of in Hin. rewrite E in Hin. cbn in Hin.
      apply list_elem_of_singleton in Hin as ->. done. }
    apply elem_of_app in Hpool as [Hpool|Hpool].
    + apply list_elem_of_fmap in Hpool as (x & -> & _). done.
    + apply list_elem_of_singleton in Hpool as ->. cbn [o_value pool_output].
      rewrite length_app, length_fmap, (Permutation_length (sort_by_perm _ _)).
      unfold amounts_of. rewrite length_fmap. specialize (Hlt Hserved). unfold pot_of in *. cbn. lia.
Qed.

(** the coinbase does not depend on the order the window's rows came in. *)
Theorem buildPayoutOutputs_deterministic a entries :
  payout_args_ok a -> entries ≡ₚ pa_entries a ->
  ps_outputs <$> buildPayoutOutputs {|
      pa_value := pa_value a; pa_feeBasisPoints := pa_feeBasisPoints a; pa_entries := entries;
      pa_scriptOf := pa_scriptOf a; pa_poolScript := pa_poolScript a;
      pa_dustLimit := pa_dustLimit a |}
  = ps_outputs <$> buildPayoutOutputs a.
Proof.
  intros Ha Hperm. set (b := {| pa_entries := entries |}).
  assert (live_of b ≡ₚ live_of a) as Hlive by (unfold live_of; change (pa_entries b) with entries; by rewrite Hperm).
  assert (weight_of (live_of b) = weight_of (live_of a)) as HW by (unfold weight_of; by rewrite Hlive).
  assert (served_of b ≡ₚ served_of a) as Hserved.
  { unfold served_of, served. rewrite HW. change (pot_of b) with (pot_of a).
    change (pa_dustLimit b) with (pa_dustLimit a). by rewrite Hlive. }
  assert (weight_of (served_of b) = weight_of (served_of a)) as HWs
    by (unfold weight_of; by rewrite Hserved).
  assert (payout_args_ok b) as Hb.
  { destruct Ha as [HV Hbp Hd Hscr]. split; [done|done| |].
    - unfold distinct in *. cbn [pa_entries b]. by rewrite Hperm.
    - intros e He. rewrite Hserved in He. by apply Hscr. }
  destruct (buildPayoutOutputs_eq a Ha) as (dra & -> & _).
  destruct (buildPayoutOutputs_eq b Hb) as (drb & -> & _). cbn [fmap result_fmap ps_outputs].
  assert (amounts_of b ≡ₚ amounts_of a) as Ham.
  { unfold amounts_of. rewrite HWs. change (pot_of b) with (pot_of a). by rewrite Hserved. }
  rewrite (sort_by_unique a_miner (amounts_of b) (amounts_of a)); [| |done].
  - assert (sum_paid b = sum_paid a) as ->; [|done].
    unfold sum_paid. rewrite Hserved. unfold paid_of. by rewrite HWs.
  - unfold amounts_of. rewrite <- list_fmap_compose. apply served_distinct, Hb.
Qed.
End payout.

(** ** Concrete coinbases *)

Definition example_scriptOf (m : string) : result addr_err bytes :=
  Ok [0x00; Z.of_nat (String.length m)].

Definition example_args : payout_args := {|
  pa_value := 5000000000; pa_feeBasisPoints := 200;
  pa_entries := [{| e_miner := "carol"; e_weight := 123456 |};
                 {| e_miner := "alice"; e_weight := 999999 |};
                 {| e_miner := "idle"; e_weight := 0 |};
                 {| e_miner := "bob"; e_weight := 1 |};
                 {| e_miner := "dave"; e_weight := 777777777777 |}];
  pa_scriptOf := example_scriptOf; pa_poolScript := [0x51]; pa_dustLimit := 294 |}.

Lemma example_args_ok : payout_args_ok example_args.
Proof.
  split; [cbn; lia | cbn; lia | apply (bool_decide_unpack _); by vm_compute |].
  intros e _. done.
Qed.

Lemma buildPayoutOutputs_exact_witness :
  let a := example_args in
  exists ps miners pool, buildPayoutOutputs a = Ok ps /\
    ps_outputs ps = miners ++ [pool] /\
    zsum_by o_value (ps_outputs ps) = pa_value a /\
    (forall o, o ∈ miners -> exists e, e ∈ pa_entries a /\ 0 < e_weight e /\
       o_miner o = Some (e_miner e) /\ pa_scriptOf a (e_miner e) = Ok (o_script o) /\
       pa_dustLimit a <= o_value o /\
       o_value o = (pa_value a - ps_fee ps) * e_weight e / ps_windowWeight ps) /\
    NoDup (o_miner <$> ps_outputs ps) /\
    o_miner pool = None /\ o_script pool = pa_poolScript a /\
    ps_fee ps = pa_value a * pa_feeBasisPoints a / 10000 /\
    ps_fee ps <= o_value pool.
Proof. apply buildPayoutOutputs_exact, example_args_ok. Defined.

Definition example_ps : payout_set :=
  ok_or {| ps_outputs := []; ps_fee := 0; ps_dropped := []; ps_paid := 0; ps_windowWeight := 0 |}
    (buildPayoutOutputs example_args).

Lemma buildPayoutOutputs_fair_witness :
  let a := example_args in let ps := example_ps in let W := weight_of (live_of a) in
  (forall e, e ∈ pa_entries a -> 0 < e_weight e ->
     pa_dustLimit a <= due (pot_of a) W e ->
     exists o, o ∈ ps_outputs ps /\ o_miner o = Some (e_miner e) /\ due (pot_of a) W e <= o_value o) /\
  (forall e, e ∈ pa_entries a -> 0 < e_weight e ->
     due (pot_of a) W e < pa_dustLimit a ->
     {| d_miner := e_miner e; d_wouldHave := due (pot_of a) W e |} ∈ ps_dropped ps /\
     Some (e_miner e) ∉ o_miner <$> ps_outputs ps) /\
  ((exists o, o ∈ ps_outputs ps /\ o_miner o <> None) ->
     forall pool, pool ∈ ps_outputs ps -> o_miner pool = None ->
       o_value pool < ps_fee ps + Z.of_nat (length (ps_outputs ps))).
Proof. apply buildPayoutOutputs_fair; [apply example_args_ok | by vm_compute]. Defined.

Lemma buildPayoutOutputs_deterministic_witness :
  let a := example_args in
  ps_outputs <$> buildPayoutOutputs {|
      pa_value := pa_value a; pa_feeBasisPoints := pa_feeBasisPoints a;
      pa_entries := reverse (pa_entries a);
      pa_scriptOf := pa_scriptOf a; pa_poolScript := pa_poolScript a;
      pa_dustLimit := pa_dustLimit a |}
  = ps_outputs <$> buildPayoutOutputs a.
Proof. apply buildPayoutOutputs_deterministic; [apply example_args_ok | apply reverse_Permutation]. Defined.

(** Two miners are under the limit and are dropped; what they were due goes to the rest. *)
Example example_payouts :
  (fun o => (o_miner o, o_value o)) <$> ps_outputs example_ps =
    [(Some "alice", 6299); (Some "carol", 777); (Some "dave", 4899992922); (None, 100000002)]%string /\
  d_miner <$> ps_dropped example_ps = ["bob"%string].
Proof. by vm_compute. Qed.
