(* ===== verification/Vardiff.v ===== *)
(** * Share difficulty per miner (contrib/pool/block.mjs, contrib/pool/pool.mjs)

    [nextDiffFactor], the controller, in double arithmetic, and the decision
    [retune] takes from a miner's window: keep, start a new window, or change the
    factor and push a job. *)

From Stdlib Require Import SpecFloat.
From S2P Require Import Prelude JsInt Bytes Block Target JsNum.
Local Open Scope Z_scope.

Definition num0 : js_num := S754_zero false.

Definition nextDiffFactor (factor rate targetSeconds minFactor maxFactor : js_num) : js_num :=
  if negb (num_ltb num0 rate) || negb (num_ltb num0 factor) then factor else
  let want := num_div (num_of_Z 1) targetSeconds in
  let ratio := num_div want rate in
  if num_leb ratio (num_dec 15 1) && num_leb (num_dec 67 2) ratio then factor else
  let ratio := js_max (num_dec 25 2) (js_min (num_of_Z 4) ratio) in
  js_max minFactor (js_min maxFactor (js_round (num_mul factor ratio))).

Record vardiff := {
  vc_startFactor : js_num; vc_minFactor : js_num; vc_maxFactor : js_num;
  vc_targetSeconds : js_num; vc_retuneSeconds : js_num
}.

(** What a miner's window holds. *)
Record vwindow := { vw_start : Z; vw_shares : Z; vw_offered : Z }.
Definition fresh_vwindow (now : Z) : vwindow := {| vw_start := now; vw_shares := 0; vw_offered := 0 |}.

Inductive retuning :=
  | Keep                         (* the window is too young *)
  | NewWindow                    (* start a new window, factor unchanged *)
  | Change (next : js_num).      (* new factor, new job, new window *)

Definition chain_cap (c : vardiff) (netTarget : option bytes) : js_num :=
  match netTarget with
  | Some t => num_of_Z (maxFactorForWeight t 256)
  | None => vc_maxFactor c
  end.

Definition retune (c : vardiff) (netTarget : option bytes) (now : Z) (factor : js_num) (w : vwindow)
    : retuning :=
  let elapsed := num_div (num_of_Z (now - vw_start w)) (num_of_Z 1000) in
  if num_ltb elapsed (vc_retuneSeconds c) then Keep else
  let rate := num_div (num_of_Z (vw_shares w)) elapsed in
  if num_eqb rate num0 && (0 <? vw_offered w) then NewWindow else
  let changed next := if num_eqb next factor then NewWindow else Change next in
  if num_eqb rate num0 then
    changed (js_min (js_min (vc_maxFactor c) (chain_cap c netTarget)) (num_mul factor (num_of_Z 4)))
  else if num_ltb num0 rate then
    changed (nextDiffFactor factor rate (vc_targetSeconds c) (vc_minFactor c)
               (js_min (vc_maxFactor c) (chain_cap c netTarget)))
  else NewWindow.

(** ** The controller stays between its rails *)

Section bounds.
Lemma positive_not_zero x : num_ltb num0 x = true -> num_eqb x num0 = false /\ is_nan x = false.
Proof. destruct x as [|[]| |[] m e]; done. Qed.

Definition positive_finite (x : js_num) : Prop := num_ltb num0 x = true /\ is_finite x = true.

(** vardiff never leaves its rails. Whatever a miner's rate, the next factor is the
    old one, or lies between the least and the greatest factor allowed; it is the old
    one when there is no positive rate to go by; and it is never NaN. *)
Theorem nextDiffFactor_bounded factor rate targetSeconds lo hi :
  positive_finite factor -> positive_finite targetSeconds -> is_nan rate = false ->
  (num_ltb num0 rate = true -> is_finite rate = true) -> num_leb lo hi = true ->
  let next := nextDiffFactor factor rate targetSeconds lo hi in
  (next = factor \/ (num_leb lo next = true /\ num_leb next hi = true)) /\
  (num_ltb num0 rate = false -> next = factor) /\ is_nan next = false.
Proof.
  intros [Hf Hff] [Ht Htf] Hr Hrf Hlh next. unfold next, nextDiffFactor.
  destruct (positive_not_zero _ Hf) as [Hf0 Hfn], (positive_not_zero _ Ht) as [Ht0 Htn].
  rewrite Hf. destruct (num_ltb num0 rate) eqn:Hr0; cbn [negb orb]; [|auto].
  destruct (positive_not_zero _ Hr0) as [Hrz _].
  set (ratio := num_div (num_div (num_of_Z 1) targetSeconds) rate).
  assert (is_nan ratio = false) as Hratio.
  { apply num_div_not_nan; [|auto|done]. apply num_div_not_nan; [done|done|done]. }
  destruct (num_leb ratio _ && _); [auto|].
  assert (is_nan (js_max (num_dec 25 2) (js_min (num_of_Z 4) ratio)) = false) as Hc.
  { apply js_minmax_not_nan; [done|]. by apply js_minmax_not_nan. }
  assert (is_nan (js_round (num_mul factor (js_max (num_dec 25 2) (js_min (num_of_Z 4) ratio)))) = false) as Hround
    by (apply js_round_not_nan, num_mul_not_nan; done).
  destruct (clamp_bounds lo hi _ Hround Hlh) as [H1 H2].
  split; [by right|]. split; [done|].
  by apply (num_leb_not_nan lo).
Qed.
End bounds.

(** ** The controller keeps integers

    [BigInt(factor)] in [scaleTarget] throws on anything else. *)

Record vardiff_ok (c : vardiff) : Prop := {
  vok_start : factor_like (vc_startFactor c);
  vok_min : factor_like (vc_minFactor c);
  vok_max : factor_like (vc_maxFactor c);
  vok_want : is_finite (num_div (num_of_Z 1) (vc_targetSeconds c)) = true
}.

Section integral.
Lemma want_over_rate want rate : is_finite want = true -> num_ltb num0 rate = true ->
  is_nan (num_div want rate) = false.
Proof.
  intros Hw Hr. destruct rate as [[]|[]| |[] m e]; try done.
  - by destruct want as [[]|[]| |[]].
  - apply num_div_not_nan; [by destruct want|done|done].
Qed.

Lemma step_plus_sign x : is_nan x = false -> plus_sign (js_max (num_dec 25 2) (js_min (num_of_Z 4) x)).
Proof.
  intros Hx. assert (is_nan (js_min (num_of_Z 4) x) = false) as Hy by (by apply js_minmax_not_nan).
  set (y := js_min _ x) in *. clearbody y. unfold js_max.
  assert (exists m e, num_dec 25 2 = S754_finite false m e) as (m & e & ->) by (eexists _, _; by vm_compute).
  destruct (SFcompare _ y) as [[]|] eqn:E; try done.
  - destruct y as [[]|[]| |[]]; done.
  - by apply SFcompare_nan in E as [E|E]; [|congruence].
Qed.

Lemma factor_times_step f x : factor_like f -> num_ltb num0 f = true -> plus_sign x ->
  plus_sign (num_mul f x).
Proof.
  destruct f as [[]| | |[] m e]; cbn [factor_like]; try done. intros _ _ Hx.
  destruct x as [[]|[]| |[] m' e']; cbn in Hx; try done. by apply round_plus_sign.
Qed.

Lemma nextDiffFactor_int factor rate ts lo hi :
  factor_like factor -> factor_like lo -> factor_like hi ->
  is_finite (num_div (num_of_Z 1) ts) = true ->
  factor_like (nextDiffFactor factor rate ts lo hi).
Proof.
  intros Hf Hlo Hhi Hw. unfold nextDiffFactor.
  destruct (num_ltb num0 rate) eqn:Hr; [|done]. destruct (num_ltb num0 factor) eqn:Hp; [|done].
  cbn [negb orb]. destruct (num_leb _ _ && _); [done|].
  apply js_max_int; [done|]. apply js_min_int; [done|]. apply js_round_int, factor_times_step; [done|done|].
  by apply step_plus_sign, want_over_rate.
Qed.

Lemma maxFactor_nonneg t mw : 0 <= maxFactorForWeight t mw.
Proof.
  unfold maxFactorForWeight. destruct (_ <=? 0); [done|]. set (cap := big_div (big_div _ _) mw).
  destruct (Z.ltb_spec cap 1); [done|]. pose proof (round53_pos cap). lia.
Qed.

Lemma num_4_int : factor_like (num_of_Z 4).
Proof. vm_compute. right. by exists 4. Qed.

Lemma retune_int c net now factor w next :
  vardiff_ok c -> factor_like factor -> retune c net now factor w = Change next -> factor_like next.
Proof.
  intros [Hs Hmin Hmax Hw] Hf. unfold retune.
  assert (factor_or_inf (chain_cap c net)) as Hcap.
  { destruct net; [apply num_of_Z_int, maxFactor_nonneg|by left]. }
  pose proof (js_min_int _ _ Hmax Hcap) as Hhi.
  repeat case_match; intros [= <-]; try done.
  - apply js_min_int; [done|]. apply num_mul_int; [done|apply num_4_int].
  - by apply nextDiffFactor_int.
Qed.
End integral.

Lemma nextDiffFactor_bounded_witness :
  let next := nextDiffFactor (num_of_Z 1000) (num_dec 1 1) (num_of_Z 15) (num_of_Z 1) (num_of_Z 100000000) in
  (next = num_of_Z 1000 \/ (num_leb (num_of_Z 1) next = true /\ num_leb next (num_of_Z 100000000) = true)) /\
  (num_ltb num0 (num_dec 1 1) = false -> next = num_of_Z 1000) /\ is_nan next = false.
Proof.
  apply nextDiffFactor_bounded; [split; by vm_compute | split; by vm_compute | by vm_compute | done | by vm_compute].
Defined.

(** The direction is WANT over RATE: a miner ten times too slow is eased by the largest
    step, one four times too fast is made harder by the largest step, one on rate is
    left alone, and a window without shares eases a miner that offered nothing only. *)
Example vardiff_direction :
  let c := {| vc_startFactor := num_of_Z 1000; vc_minFactor := num_of_Z 1; vc_maxFactor := num_of_Z 100000000;
              vc_targetSeconds := num_of_Z 15; vc_retuneSeconds := num_of_Z 60 |} in
  let r shares offered := retune c None 600000 (num_of_Z 1000)
                            {| vw_start := 0; vw_shares := shares; vw_offered := offered |} in
  r 4 4 = Change (num_of_Z 4000) /\ r 4000 4000 = Change (num_of_Z 250) /\ r 40 41 = NewWindow /\
  r 0 0 = Change (num_of_Z 4000) /\ r 0 12 = NewWindow /\
  retune c None 30000 (num_of_Z 1000) (fresh_vwindow 0) = Keep.
Proof. by vm_compute. Qed.
