(* ===== verification/StoreDb.v ===== *)
(** * The ledger's tables and the SQL that reaches them (contrib/pool/store.mjs)

    The four tables of SCHEMA with their keys, the guards on every value that is
    put in a statement ([lit], [num]), the [.mode list] rows that come back, and
    the calls to the sqlite3 process: a call is a list of statements, each durable
    on its own, of which a failed call may leave any part applied. *)

From Stdlib Require Import Ascii.
From S2P Require Import Prelude JsInt Bytes Target PoolMath.
Local Open Scope Z_scope.

(** ** Rows *)

Record share := {
  sh_id : Z; sh_at : Z; sh_miner : string; sh_session : string; sh_job : string;
  sh_nonce : string; sh_height : Z; sh_weight : Z; sh_target : string; sh_is_block : bool
}.

Inductive block_state := Pending | Mature | Orphaned.

Record block := {
  b_hash : string; b_height : Z; b_found_at : Z; b_value : Z; b_finder : string;
  b_share_id : Z; b_state : block_state; b_state_at : Z; b_confirmations : option Z;
  b_orphan_strikes : Z; b_alarm : option string
}.

Record payout := {
  p_height : Z; p_miner : string; p_hash : string; p_amount : Z; p_weight : Z;
  p_window_weight : Z; p_pot : Z; p_computed_at : Z; p_sent_txid : option string
}.

Record pool_fee := { f_height : Z; f_hash : string; f_value : Z; f_fee : Z; f_dust : Z }.

Record db := {
  shares : list share;            (* in id order *)
  share_seq : Z;                  (* sqlite_sequence: the largest id given *)
  blocks : list block;
  payouts : list payout;
  pool_fees : list pool_fee
}.

Definition empty_db : db := {|
  shares := []; share_seq := 0; blocks := []; payouts := []; pool_fees := [] |}.

#[export] Instance block_state_eq_dec : EqDecision block_state.
Proof. solve_decision. Defined.

(** ** Errors *)

Inductive store_err :=
  | ControlCharacter
  | IntegerTooLarge (v : Z)
  | StoreFailed                       (* refused, or the process died *)
  | SqlOverflow                       (* SUM over int64 *)
  | RowNotThere
  | WindowNotFound                    (* the limit search ran out of turns *)
  | Weight (e : weight_err)
  | Money (e : money_err)
  | EmptyWindow
  | PayoutNotReconciled
  | PayoutsNotStored.

(** ** Values in a statement *)

Definition is_control (c : ascii) : bool := (Ascii.nat_of_ascii c <=? 31)%nat.

Fixpoint has_control (s : string) : bool :=
  match s with EmptyString => false | String c s' => is_control c || has_control s' end.

Definition quote : ascii := "'"%char.

(** [v.replace(/'/g, "''")] *)
Fixpoint double_quotes (s : string) : string :=
  match s with
  | EmptyString => EmptyString
  | String c s' => if decide (c = quote) then String quote (String quote (double_quotes s'))
                   else String c (double_quotes s')
  end.

Definition lit (s : string) : result store_err string :=
  if has_control s then Err ControlCharacter
  else Ok (String quote (double_quotes s ++ String quote "")).

Definition num (v : Z) : result store_err Z :=
  if (2 ^ 62 <=? v) || (v <=? - 2 ^ 62) then Err (IntegerTooLarge v) else Ok v.

(** How SQLite reads a string literal: up to a quote that is not doubled. *)
Fixpoint read_literal_body (s : string) : option (string * string) :=
  match s with
  | EmptyString => None
  | String c s' =>
      if decide (c = quote) then
        match s' with
        | String d s'' => if decide (d = quote)
                          then '(v, rest) ← read_literal_body s''; Some (String quote v, rest)
                          else Some (EmptyString, s')
        | EmptyString => Some (EmptyString, s')
        end
      else '(v, rest) ← read_literal_body s'; Some (String c v, rest)
  end.
Definition read_literal (s : string) : option (string * string) :=
  match s with
  | String c s' => if decide (c = quote) then read_literal_body s' else None
  | EmptyString => None
  end.

(** ** Rows on the wire: [.mode list] joins columns with a bar, the code splits on it *)

Definition bar : ascii := "|"%char.

Fixpoint row_line (cols : list string) : string :=
  match cols with
  | [] => EmptyString
  | [c] => c
  | c :: cols' => (c ++ String bar (row_line cols'))%string
  end.

(** [line.split('|')] *)
Fixpoint split_bar (s : string) : list string :=
  match s with
  | EmptyString => [EmptyString]
  | String c s' =>
      if decide (c = bar) then EmptyString :: split_bar s'
      else match split_bar s' with
           | [] => [String c EmptyString]
           | x :: xs => String c x :: xs
           end
  end.

Fixpoint has_char (c : ascii) (s : string) : bool :=
  match s with EmptyString => false | String d s' => bool_decide (c = d) || has_char c s' end.

(** ** Calls to the sqlite3 process *)

(** What happens to a call: it is answered, or it fails with the marked statements
    applied (none: refused; the first ones: the process died between; all: the answer
    was lost with the process; any others: sqlite3 reports a statement it could not
    run and carries on to the next). What the code wraps in BEGIN and COMMIT is one
    statement of this list; the only call with two is a pair of deletes. An answer is the answer of its own request:
    after a request timed out while sqlite3 lives that is not so, which [Pipes] shows
    of the queue itself ([Sqlite.timeout_misdelivers]). Such runs are outside this file
    and those that build on it. *)
Inductive fault := Fine | Torn (ran : list bool).

Record world := { w_db : db; w_faults : list fault }.

(** An operation of the store: state, then a value or the error it throws. *)
Definition io (A : Type) : Type := world -> result store_err A * world.

#[export] Instance io_ret : MRet io := fun A a w => (Ok a, w).
#[export] Instance io_bind : MBind io := fun A B f m w =>
  match m w with
  | (Ok a, w') => f a w'
  | (Err e, w') => (Err e, w')
  end.

Definition throw {A} (e : store_err) : io A := fun w => (Err e, w).
Definition lift {A} (r : result store_err A) : io A := fun w => (r, w).

(** The statements of a call that ran; those beyond the marks did not. *)
Fixpoint that_ran {A} (ran : list bool) (stmts : list A) : list A :=
  match ran, stmts with
  | b :: ran, s :: stmts => if b : bool then s :: that_ran ran stmts else that_ran ran stmts
  | _, _ => []
  end.

Definition apply_all (stmts : list (db -> db)) (d : db) : db := foldl (fun d f => f d) d stmts.

(** [this.db.run(sql)]: the statements, then what is selected from the tables
    before and after them. *)
Definition run {A} (stmts : list (db -> db)) (q : db -> db -> result store_err A) : io A :=
  fun w =>
    let d := w_db w in
    match w_faults w with
    | Torn ran :: fs => (Err StoreFailed, {| w_db := apply_all (that_ran ran stmts) d; w_faults := fs |})
    | [] | Fine :: _ =>
        let d' := apply_all stmts d in
        (q d d', {| w_db := d'; w_faults := tail (w_faults w) |})
    end.

Definition select {A} (q : db -> result store_err A) : io A := run [] (fun _ d => q d).

(** [SUM(column)], an error when it leaves int64. *)
Definition sql_sum (l : list Z) : result store_err Z :=
  let s := zsum l in
  if (- 2 ^ 63 <=? s) && (s <? 2 ^ 63) then Ok s else Err SqlOverflow.

(** ** Lemmas *)

Section literals.
Lemma read_double_quotes s rest :
  match rest with String c _ => c <> quote | EmptyString => True end ->
  read_literal_body (double_quotes s ++ String quote rest) = Some (s, rest).
Proof.
  intros Hr. induction s as [|c s IH].
  - cbn [double_quotes]. rewrite string_nil_app. cbn [read_literal_body].
    destruct rest as [|d rest]; [done|]. rewrite decide_True, decide_False by done. done.
  - cbn [double_quotes]. case_decide as Hc; rewrite !string_cons_app; cbn [read_literal_body].
    + rewrite !decide_True by done. rewrite IH. by subst.
    + rewrite decide_False by done. by rewrite IH.
Qed.

(** a value cannot end its own literal. Whatever string [lit] accepts, SQLite's
    lexer reads back exactly that string and continues where the statement's own
    text resumes; a string with a control character is refused. *)
Theorem lit_reads_back s rest :
  match rest with String c _ => c <> quote | EmptyString => True end ->
  match lit s with
  | Ok q => has_control s = false /\ read_literal (q ++ rest) = Some (s, rest)
  | Err e => has_control s = true /\ e = ControlCharacter
  end.
Proof.
  intros Hr. unfold lit. destruct (has_control s) eqn:Hc; [done|]. split; [done|].
  unfold read_literal. rewrite string_cons_app, decide_True by done.
  rewrite string_app_assoc, string_cons_app, string_nil_app. by apply read_double_quotes.
Qed.

Lemma split_bar_nil s : split_bar s <> [].
Proof. destruct s as [|c s]; cbn; [done|]. case_decide; [done|]. by destruct (split_bar s). Qed.

Lemma split_bar_single s : has_char bar s = false -> split_bar s = [s].
Proof.
  induction s as [|c s IH]; [done|]. cbn. intros H. apply orb_false_iff in H as [Hc Hs].
  apply bool_decide_eq_false_1 in Hc. rewrite decide_False by congruence. by rewrite IH.
Qed.

Lemma split_bar_app c s : has_char bar c = false -> split_bar (c ++ String bar s) = c :: split_bar s.
Proof.
  induction c as [|x c IH].
  { intros _. rewrite string_nil_app. cbn [split_bar]. by rewrite decide_True. }
  rewrite string_cons_app. cbn. intros H. apply orb_false_iff in H as [Hx Hc]. apply bool_decide_eq_false_1 in Hx.
  rewrite decide_False by congruence. by rewrite IH.
Qed.

(** Columns without a bar come back as they were stored: reading rows as tuples
    below is reading them as the code does. *)
Lemma row_line_split cols :
  cols <> [] -> Forall (fun c => has_char bar c = false) cols -> split_bar (row_line cols) = cols.
Proof.
  intros Hne H. induction H as [|c cols Hc Hcs IH]; [done|].
  destruct cols as [|c' cols]; [by apply split_bar_single|].
  change (row_line (c :: c' :: cols)) with (c ++ String bar (row_line (c' :: cols)))%string.
  by rewrite split_bar_app, IH.
Qed.
End literals.

Lemma lit_reads_back_witness :
  match lit "it's'; DROP TABLE shares; --" with
  | Ok q => has_control "it's'; DROP TABLE shares; --" = false /\
            read_literal (q ++ ",7);") = Some ("it's'; DROP TABLE shares; --"%string, ",7);"%string)
  | Err e => has_control "it's'; DROP TABLE shares; --" = true /\ e = ControlCharacter
  end.
Proof. apply (lit_reads_back "it's'; DROP TABLE shares; --" ",7);"). cbn. discriminate. Defined.

(** ** Reasoning about calls *)

Section calls.
Context {A B : Type}.

Lemma io_bind_eq (m : io A) (f : A -> io B) w :
  (m ≫= f) w = match m w with (Ok a, w') => f a w' | (Err e, w') => (Err e, w') end.
Proof. done. Qed.

Lemma io_bind_Ok (m : io A) (f : A -> io B) w b w' :
  (m ≫= f) w = (Ok b, w') <-> exists a w1, m w = (Ok a, w1) /\ f a w1 = (Ok b, w').
Proof.
  unfold mbind, io_bind. destruct (m w) as [[a|e] w1]; split.
  - eauto.
  - intros (a' & w2 & [= <- <-] & H). done.
  - intros [=].
  - intros (a' & w2 & [=] & _).
Qed.

Lemma lift_Ok (r : result store_err A) w a w' : lift r w = (Ok a, w') <-> r = Ok a /\ w' = w.
Proof. unfold lift. split; [intros [= -> <-]; done | intros [-> ->]; done]. Qed.

Lemma select_Ok (q : db -> result store_err A) w a w' :
  select q w = (Ok a, w') -> q (w_db w) = Ok a /\ w_db w' = w_db w /\ w_faults w' = tail (w_faults w).
Proof. unfold select, run. destruct w as [d [|[|k] fs]]; cbn; intros [= Hq <-]; done. Qed.

(** Without faults a call runs all its statements. *)
Lemma run_fine (stmts : list (db -> db)) (q : db -> db -> result store_err A) d :
  run stmts q {| w_db := d; w_faults := [] |} =
  (q d (apply_all stmts d), {| w_db := apply_all stmts d; w_faults := [] |}).
Proof. done. Qed.

Lemma that_ran_sublist {T} ran (l : list T) : that_ran ran l `sublist_of` l.
Proof.
  revert ran. induction l as [|x l IH]; intros [|[] ran]; cbn [that_ran];
    auto using sublist_nil_l, sublist_skip, sublist_cons.
Qed.

(** A call leaves a part of its statements applied, all of them when it is answered. *)
Lemma run_part (stmts : list (db -> db)) (q : db -> db -> result store_err A) w r w' :
  run stmts q w = (r, w') ->
  exists l, l `sublist_of` stmts /\ w_db w' = apply_all l (w_db w) /\
    (forall a, r = Ok a -> l = stmts /\ q (w_db w) (w_db w') = Ok a).
Proof.
  unfold run. destruct (w_faults w) as [|[|ran] fs]; intros [= <- <-]; cbn.
  - by exists stmts.
  - by exists stmts.
  - exists (that_ran ran stmts). split; [apply that_ran_sublist|]. split; [done|]. intros a [=].
Qed.

(** A call of one statement ran it or not, and ran it when it is answered. *)
Lemma run_one (f : db -> db) (q : db -> db -> result store_err A) w r w' :
  run [f] q w = (r, w') ->
  (w_db w' = w_db w \/ w_db w' = f (w_db w)) /\
  (forall a, r = Ok a -> w_db w' = f (w_db w) /\ q (w_db w) (w_db w') = Ok a).
Proof.
  intros (l & Hl & -> & Hok)%run_part. split.
  - apply sublist_cons_r in Hl as [Hl|(k & -> & Hl)]; apply sublist_nil_r in Hl as ->; auto.
  - by intros a [-> Hq]%Hok.
Qed.

(** Statements that keep an invariant keep it through any call, answered or torn. *)
Lemma run_invariant (P : db -> Prop) (stmts : list (db -> db)) (q : db -> db -> result store_err A) w :
  Forall (fun f => forall d, P d -> P (f d)) stmts -> P (w_db w) -> P (w_db (run stmts q w).2).
Proof.
  intros Hs Hp. destruct (run stmts q w) as [r w'] eqn:E.
  apply run_part in E as (l & Hl & Hw & _). cbn [snd]. rewrite Hw.
  assert (Forall (fun f => forall d, P d -> P (f d)) l) as Hk.
  { rewrite Forall_forall in *. intros f Hf. by eapply Hs, elem_of_sublist. }
  clear -Hk Hp. revert Hp. generalize (w_db w).
  induction Hk as [|f l Hf _ IH]; intros d Hd; [done|]. by apply IH, Hf.
Qed.
End calls.

(** Splits a sequence of store calls that returned. *)
Ltac io_inv :=
  repeat match goal with
  | H : (_ ≫= _) _ = (Ok _, _) |- _ =>
      let a := fresh "a" in let w := fresh "w" in let H1 := fresh "Hs" in
      apply io_bind_Ok in H; destruct H as (a & w & H1 & H)
  | H : lift _ _ = (Ok _, _) |- _ =>
      let H1 := fresh "Hl" in apply lift_Ok in H; destruct H as [H1 H]; subst
  | H : select _ _ = (Ok _, _) |- _ =>
      let H1 := fresh "Hq" in let H2 := fresh "Hd" in let H3 := fresh "Hf" in
      apply select_Ok in H; destruct H as (H1 & H2 & H3)
  | H : mret _ _ = (Ok _, _) |- _ => injection H as H; subst
  | H : throw _ _ = (Ok _, _) |- _ => discriminate H
  end.

(** ** Invariants through any sequence of calls, whatever fails *)

Definition keeps (P : db -> Prop) {A} (m : io A) : Prop := forall w, P (w_db w) -> P (w_db (m w).2).

(** An operation that only reads. *)
Definition reads {A} (m : io A) : Prop := forall w, w_db (m w).2 = w_db w.

Section keeps.
Context (P : db -> Prop).

Lemma io_keeps_bind {A B} (m : io A) (f : A -> io B) :
  keeps P m -> (forall a, keeps P (f a)) -> keeps P (m ≫= f).
Proof.
  intros Hm Hf w Hw. specialize (Hm w Hw). unfold mbind, io_bind.
  destruct (m w) as [[a|e] w']; [by apply Hf | done].
Qed.
Lemma io_keeps_ret {A} (a : A) : keeps P (mret a).
Proof. by intros w Hw. Qed.
Lemma keeps_lift {A} (r : result store_err A) : keeps P (lift r).
Proof. by intros w Hw. Qed.
Lemma io_keeps_throw {A} e : keeps P (throw (A := A) e).
Proof. by intros w Hw. Qed.
Lemma keeps_run {A} (stmts : list (db -> db)) (q : db -> db -> result store_err A) :
  Forall (fun f => forall d, P d -> P (f d)) stmts -> keeps P (run stmts q).
Proof. intros Hs w Hw. by apply run_invariant. Qed.
Lemma keeps_select {A} (q : db -> result store_err A) : keeps P (select q).
Proof. apply keeps_run. constructor. Qed.
End keeps.

Lemma reads_keeps {A} (m : io A) P : reads m -> keeps P m.
Proof. intros Hm w Hw. by rewrite Hm. Qed.

Lemma reads_bind {A B} (m : io A) (f : A -> io B) :
  reads m -> (forall a, reads (f a)) -> reads (m ≫= f).
Proof.
  intros Hm Hf w. specialize (Hm w). unfold mbind, io_bind.
  destruct (m w) as [[a|e] w']; cbn in *; [by rewrite Hf | done].
Qed.
Lemma reads_ret {A} (a : A) : reads (mret a).
Proof. done. Qed.
Lemma reads_lift {A} (r : result store_err A) : reads (lift r).
Proof. done. Qed.
Lemma reads_throw {A} e : reads (throw (A := A) e).
Proof. done. Qed.
Lemma reads_select {A} (q : db -> result store_err A) : reads (select q).
Proof.
  intros w. unfold select, run. by destruct (w_faults w) as [|[|[|b ran]] fs].
Qed.

(** The database of the walk keeps every constant folded. *)
Create HintDb calls.
#[export] Hint Constants Opaque : calls.
#[export] Hint Resolve io_keeps_ret keeps_lift io_keeps_throw keeps_select
  reads_ret reads_lift reads_throw reads_select reads_keeps : calls.

(** Closes [keeps] and [reads] goals by walking the operation. *)
Ltac walk :=
  repeat first
  [ progress intros
  | solve [eauto 2 with calls nocore]
  | match goal with
    | |- keeps _ (_ ≫= _) => apply io_keeps_bind
    | |- reads (_ ≫= _) => apply reads_bind
    | |- keeps _ (run _ _) =>
        apply keeps_run; repeat first [apply Forall_cons_2 | apply Forall_nil_2];
        intros; eauto 6 with pcoin
    end
  | case_match ].
