(* ===== verification/Shares.v ===== *)
(** * Shares and the PPLNS window (contrib/pool/store.mjs)

    Recording an accepted share, and the window of the newest shares whose
    weights add up to a multiple of a block's work. *)

From S2P Require Import Prelude JsInt Bytes Target PoolMath StoreDb.
Local Open Scope Z_scope.

(** ** Recording a share *)

Record share_args := {
  sa_at : Z; sa_miner : string; sa_session : string; sa_jobId : string;
  sa_nonce : string; sa_height : Z; sa_targetHex : string
}.

Record recorded := { r_id : Z; r_fresh : bool; r_weight : Z }.

(** The unique index [shares_job_nonce]. *)
Definition share_key (s : share) : string * string := (sh_job s, sh_nonce s).
Definition find_share (key : string * string) (d : db) : option share :=
  head (filter (fun s => share_key s = key) (shares d)).

Definition new_share (a : share_args) (id weight : Z) : share := {|
  sh_id := id; sh_at := sa_at a; sh_miner := sa_miner a; sh_session := sa_session a;
  sh_job := sa_jobId a; sh_nonce := sa_nonce a; sh_height := sa_height a;
  sh_weight := weight; sh_target := sa_targetHex a; sh_is_block := false |}.

(** [INSERT OR IGNORE INTO shares]; ids are AUTOINCREMENT. *)
Definition insert_share (a : share_args) (weight : Z) (d : db) : db :=
  match find_share (sa_jobId a, sa_nonce a) d with
  | Some _ => d
  | None => {| shares := shares d ++ [new_share a (share_seq d + 1) weight];
               share_seq := share_seq d + 1;
               blocks := blocks d; payouts := payouts d; pool_fees := pool_fees d |}
  end.

(** Every value goes through [lit] or [num] before the statement is sent. *)
Definition share_values (a : share_args) (weight : Z) : result store_err unit :=
  _ ← lit (sa_jobId a); _ ← lit (sa_nonce a);
  _ ← num (sa_at a); _ ← lit (sa_miner a); _ ← lit (sa_session a);
  _ ← num (sa_height a); _ ← num weight; _ ← lit (sa_targetHex a); Ok tt.

Definition recordShare (a : share_args) : io recorded :=
  weight ← lift (lift_err Weight (targetWeight (big_of_buf (hex_decode (sa_targetHex a)))));
  _ ← lift (share_values a weight);
  run [insert_share a weight] (fun before after =>
    match find_share (sa_jobId a, sa_nonce a) after with
    | None => Err RowNotThere
    | Some s => Ok {| r_id := sh_id s;
                      r_fresh := bool_decide (length (shares before) < length (shares after))%nat;
                      r_weight := weight |}
    end).

Definition mark_block (id : Z) (d : db) : db := {|
  shares := (fun s => if decide (sh_id s = id) then
      {| sh_id := sh_id s; sh_at := sh_at s; sh_miner := sh_miner s; sh_session := sh_session s;
         sh_job := sh_job s; sh_nonce := sh_nonce s; sh_height := sh_height s;
         sh_weight := sh_weight s; sh_target := sh_target s; sh_is_block := true |}
      else s) <$> shares d;
  share_seq := share_seq d; blocks := blocks d; payouts := payouts d; pool_fees := pool_fees d |}.

Definition markShareIsBlock (id : Z) : io unit :=
  _ ← lift (num id); run [mark_block id] (fun _ _ => Ok tt).

(** ** The window *)

Record window_entry := { we_entry : entry; we_shares : Z }.
Record window := { win_entries : list window_entry; win_N : Z; win_blockWork : Z }.

(** [WHERE id <= last ORDER BY id DESC] *)
Definition newest (last : Z) (d : db) : list share :=
  reverse (filter (fun s => sh_id s <= last) (shares d)).

(** [SUM(weight) OVER (ORDER BY id DESC ROWS UNBOUNDED PRECEDING) AS cum ...
    WHERE cum - weight < N] *)
Fixpoint window_rows (N cum : Z) (l : list share) : list share :=
  match l with
  | [] => []
  | s :: l' =>
      let cum := cum + sh_weight s in
      (if cum - sh_weight s <? N then [s] else []) ++ window_rows N cum l'
  end.

(** [SELECT miner, SUM(weight), COUNT( * ) ... GROUP BY miner] *)
Definition group_miner (l : list share) (m : string) : window_entry :=
  let rows := filter (fun s => sh_miner s = m) l in
  {| we_entry := {| e_miner := m; e_weight := zsum_by sh_weight rows |};
     we_shares := Z.of_nat (length rows) |}.
Definition group_miners (l : list share) : list window_entry :=
  group_miner l <$> remove_dups (sh_miner <$> l).

(** [ORDER BY 2 DESC] *)
Definition heavier (a b : window_entry) : Prop := e_weight (we_entry b) <= e_weight (we_entry a).
#[export] Instance heavier_dec : RelDecision heavier.
Proof. intros a b. unfold heavier. apply _. Defined.

(** The search for how many rows to look at: double until they outweigh [N], or
    until they are all there are. *)
Fixpoint find_limit (fuel : nat) (last N limit : Z) : io Z :=
  match fuel with
  | O => throw WindowNotFound
  | S fuel' =>
      _ ← lift (num last); _ ← lift (num limit);
      covered ← select (fun d => sql_sum (sh_weight <$> take (Z.to_nat limit) (newest last d)));
      if N <=? covered then mret limit else
      have ← select (fun d => Ok (Z.of_nat (length (newest last d))));
      if have <=? limit then mret (if have =? 0 then 1 else have)
      else find_limit fuel' last N (limit * 2)
  end.

(** A row count is below 2^62, so 64 turns from 65536 always reach it. *)
Definition limit_turns : nat := 64.

Definition pplnsWindow (windowMultiplier lastShareId : Z) (netTargetHex : string) : io window :=
  blockWork ← lift (lift_err Weight (targetWeight (big_of_buf (hex_decode netTargetHex))));
  let N := blockWork * windowMultiplier in
  limit ← find_limit limit_turns lastShareId N 65536;
  _ ← lift (num lastShareId); _ ← lift (num limit); _ ← lift (num N);
  entries ← select (fun d =>
    let scanned := take (Z.to_nat limit) (newest lastShareId d) in
    _ ← sql_sum (sh_weight <$> scanned);
    Ok (merge_sort heavier (group_miners (window_rows N 0 scanned))));
  mret {| win_entries := entries; win_N := N; win_blockWork := blockWork |}.

Definition max_id (d : db) : Z := foldr Z.max 0 (sh_id <$> shares d).

Definition currentWindow (windowMultiplier : Z) (netTargetHex : string) : io window :=
  maxId ← select (fun d => Ok (max_id d));
  if maxId =? 0 then mret {| win_entries := []; win_N := 0; win_blockWork := 0 |}
  else pplnsWindow windowMultiplier maxId netTargetHex.

Record summary_row := { su_miner : string; su_shares : Z; su_weight : Z; su_last : Z }.

Definition shareSummary (sinceMs : Z) : io (list summary_row) :=
  _ ← lift (num sinceMs);
  select (fun d =>
    let rows := filter (fun s => sinceMs <= sh_at s) (shares d) in
    _ ← mapM (fun m => sql_sum (sh_weight <$> filter (fun s => sh_miner s = m) rows))
             (remove_dups (sh_miner <$> rows));
    Ok ((fun we => let mine := filter (fun s => sh_miner s = e_miner (we_entry we)) rows in
                   {| su_miner := e_miner (we_entry we); su_shares := we_shares we;
                      su_weight := e_weight (we_entry we);
                      su_last := foldr Z.max sinceMs (sh_at <$> mine) |})
        <$> merge_sort heavier (group_miners rows))).

(** ** Lemmas *)

(** What the table always satisfies: ids grow, the unique index holds, and every
    weight is a positive integer a SQLite integer holds. *)
Record shares_ok (d : db) : Prop := {
  sok_ids : StronglySorted Z.lt (sh_id <$> shares d);
  sok_seq : Forall (fun s => 0 < sh_id s <= share_seq d) (shares d);
  sok_nonneg : 0 <= share_seq d;
  sok_keys : NoDup (share_key <$> shares d);
  sok_weights : Forall (fun s => 1 <= sh_weight s < 2 ^ 62) (shares d)
}.

Section recording.
Lemma empty_shares_ok : shares_ok empty_db.
Proof. split; cbn; repeat constructor; lia. Qed.

Lemma find_share_Some key d s : find_share key d = Some s -> s ∈ shares d /\ share_key s = key.
Proof.
  unfold find_share. intros H. apply head_Some_elem_of in H.
  by apply list_elem_of_filter in H as [? ?].
Qed.

Lemma find_share_None key d : find_share key d = None <-> forall s, s ∈ shares d -> share_key s <> key.
Proof.
  unfold find_share. rewrite head_None. split.
  - intros H s Hs Hk. assert (s ∈ filter (fun s => share_key s = key) (shares d)) as Hin
      by by apply list_elem_of_filter.
    rewrite H in Hin. by apply elem_of_nil in Hin.
  - intros H. apply filter_none, Forall_forall. auto.
Qed.

Lemma StronglySorted_snoc (l : list Z) x :
  StronglySorted Z.lt l -> Forall (fun y => y < x) l -> StronglySorted Z.lt (l ++ [x]).
Proof.
  induction 1 as [|y l Hl IH Hy]; cbn; intros Hx; [repeat constructor|].
  inversion Hx; subst. constructor; [auto|]. apply Forall_app. split; [done|]. by constructor.
Qed.

Lemma insert_share_ok a w d : 1 <= w < 2 ^ 62 -> shares_ok d -> shares_ok (insert_share a w d).
Proof.
  intros Hw Hok. unfold insert_share.
  destruct (find_share _ d) as [s|] eqn:Hf; [done|]. destruct Hok as [Hids Hseq Hn Hk Hws].
  split; cbn [shares share_seq].
  - rewrite fmap_app. apply StronglySorted_snoc; [done|]. cbn.
    apply Forall_fmap. eapply Forall_impl; [exact Hseq|]. cbn. lia.
  - apply Forall_app. split; [|constructor; [cbn; lia|done]].
    eapply Forall_impl; [exact Hseq|]. cbn. lia.
  - lia.
  - rewrite fmap_app. apply NoDup_app. split; [done|]. split; [|apply NoDup_singleton].
    intros k Hin Hin'. apply list_elem_of_singleton in Hin' as ->.
    apply list_elem_of_fmap in Hin as (s & Hs & Hin).
    by apply (proj1 (find_share_None _ _) Hf s Hin).
  - apply Forall_app. split; [done|]. by constructor.
Qed.

Lemma insert_share_find a w d : is_Some (find_share (sa_jobId a, sa_nonce a) (insert_share a w d)).
Proof.
  unfold insert_share. destruct (find_share _ d) as [s|] eqn:Hf; [eauto|].
  destruct (find_share _ {| shares := _ |}) as [s|] eqn:Hg; [eauto|].
  exfalso. apply (proj1 (find_share_None _ _) Hg (new_share a (share_seq d + 1) w)); [|done].
  cbn. apply elem_of_app. right. by apply list_elem_of_singleton.
Qed.

(** Inserting the same share again changes nothing. *)
Lemma insert_share_idem a w w' d : insert_share a w' (insert_share a w d) = insert_share a w d.
Proof.
  destruct (insert_share_find a w d) as [s Hs]. unfold insert_share at 1. by rewrite Hs.
Qed.

Lemma find_share_unique d s s' : shares_ok d -> s ∈ shares d -> s' ∈ shares d ->
  share_key s = share_key s' -> s = s'.
Proof.
  intros Hok Hs Hs' Hk. apply list_elem_of_lookup in Hs as [i Hi], Hs' as [j Hj].
  assert (i = j) as <-; [|congruence].
  eapply NoDup_lookup; [apply (sok_keys d Hok)| |]; rewrite list_lookup_fmap.
  - rewrite Hi. done.
  - rewrite Hj. cbn. by rewrite Hk.
Qed.

(** The ledger's own tables are out of reach of a share. *)
Lemma insert_share_rest a w d :
  blocks (insert_share a w d) = blocks d /\ payouts (insert_share a w d) = payouts d
  /\ pool_fees (insert_share a w d) = pool_fees d.
Proof. unfold insert_share. by destruct (find_share _ d). Qed.

Definition record_call (a : share_args) (wt : Z) : io recorded :=
  run [insert_share a wt] (fun before after =>
    match find_share (sa_jobId a, sa_nonce a) after with
    | None => Err RowNotThere
    | Some s => Ok {| r_id := sh_id s;
                      r_fresh := bool_decide (length (shares before) < length (shares after))%nat;
                      r_weight := wt |}
    end).

(** Either the guards refuse the share before anything is sent, or one call is made. *)
Lemma recordShare_cases a :
  (exists e, forall w, recordShare a w = (Err e, w)) \/
  exists wt, targetWeight (big_of_buf (hex_decode (sa_targetHex a))) = Ok wt /\
    forall w, recordShare a w = record_call a wt w.
Proof.
  unfold recordShare, mbind, io_bind, lift. destruct (targetWeight _) as [wt|e]; cbn [lift_err].
  - destruct (share_values a wt) as [[]|e]; [right; by eexists | left; by eexists].
  - left. by eexists.
Qed.

Lemma targetWeight_range t wt : t < 2 ^ 256 -> targetWeight t = Ok wt -> 1 <= wt < 2 ^ 62.
Proof. intros Ht H. by apply targetWeight_bounds in H as [? _]. Qed.

(** What the answer says of the row. *)
Lemma record_fresh a wt d s :
  find_share (sa_jobId a, sa_nonce a) (insert_share a wt d) = Some s ->
  let fresh := bool_decide (length (shares d) < length (shares (insert_share a wt d)))%nat in
  exists s', s' ∈ shares (insert_share a wt d) /\ share_key s' = (sa_jobId a, sa_nonce a) /\
    sh_id s' = sh_id s /\
    (fresh = true -> s' = new_share a (sh_id s) wt /\
       forall s'', s'' ∈ shares d -> share_key s'' <> share_key s') /\
    (fresh = false -> s' ∈ shares d /\ insert_share a wt d = d).
Proof.
  intros Hs fresh. apply find_share_Some in Hs as [Hin Hk]. exists s.
  split; [done|]. split; [done|]. split; [done|]. unfold fresh, insert_share in *.
  destruct (find_share _ d) as [x|] eqn:Hf.
  - rewrite bool_decide_eq_false_2 by lia. split; [done|]. auto.
  - cbn [shares] in *. rewrite length_app. cbn [length]. rewrite bool_decide_eq_true_2 by lia.
    split; [|done]. intros _. rewrite Hk. pose proof (proj1 (find_share_None _ _) Hf) as Hn.
    apply elem_of_app in Hin as [Hin|Hin]; [by destruct (Hn s Hin)|].
    apply list_elem_of_singleton in Hin as ->. split; [done|]. auto.
Qed.

(** an acknowledged share is in the ledger, once. Whatever fails underneath, when
    [recordShare] returns, the row with that job and nonce is there under the id it
    returned, it is marked fresh exactly when it was not there before, and recording
    it again returns the same id, not fresh, and changes nothing; when it throws, the
    tables are as they were or hold that one share more. The table stays well formed. *)
Theorem recordShare_durable a w :
  shares_ok (w_db w) -> big_of_buf (hex_decode (sa_targetHex a)) < 2 ^ 256 ->
  let '(r, w') := recordShare a w in
  shares_ok (w_db w') /\
  match r with
  | Ok rec =>
      (exists s, s ∈ shares (w_db w') /\ share_key s = (sa_jobId a, sa_nonce a) /\
         sh_id s = r_id rec /\
         (r_fresh rec = true -> s = new_share a (r_id rec) (r_weight rec) /\
            forall s', s' ∈ shares (w_db w) -> share_key s' <> share_key s) /\
         (r_fresh rec = false -> s ∈ shares (w_db w) /\ w_db w' = w_db w)) /\
      recordShare a {| w_db := w_db w'; w_faults := [] |} =
        (Ok {| r_id := r_id rec; r_fresh := false; r_weight := r_weight rec |},
         {| w_db := w_db w'; w_faults := [] |})
  | Err _ =>
      w_db w' = w_db w \/
      exists wt, targetWeight (big_of_buf (hex_decode (sa_targetHex a))) = Ok wt /\
                 w_db w' = insert_share a wt (w_db w)
  end.
Proof.
  intros Hok Ht. destruct (recordShare_cases a) as [[e He]|(wt & Hwt & Heq)].
  { rewrite He. split; [done|]. by left. }
  pose proof (targetWeight_range _ _ Ht Hwt) as Hr.
  pose proof (insert_share_ok a wt _ Hr Hok) as Hok'. rewrite !Heq.
  destruct (insert_share_find a wt (w_db w)) as [s Hs].
  destruct w as [d [|[|[|[] [|? ran]]] fs]]; cbn [record_call run w_db w_faults apply_all foldl that_ran tail] in *;
    try (split; [done|]; solve [by left | right; by exists wt]).
  all: rewrite Hs; split; [done|]; rewrite Heq; split.
  all: try (unfold record_call, run; cbn [w_faults w_db apply_all foldl tail];
            rewrite insert_share_idem, Hs; rewrite bool_decide_eq_false_2 by lia; done).
  all: by apply record_fresh.
Qed.
End recording.

Definition example_share : share_args := {|
  sa_at := 1770000000000; sa_miner := "pc1qalice"; sa_session := "s1"; sa_jobId := "job1";
  sa_nonce := "deadbeef"; sa_height := 12789;
  sa_targetHex := "00000fffffffffffffffffffffffffffffffffffffffffffffffffffffffffff" |}.

Lemma recordShare_durable_witness :
  let '(r, w') := recordShare example_share {| w_db := empty_db; w_faults := [] |} in
  r = Ok {| r_id := 1; r_fresh := true; r_weight := 2 ^ 20 |} /\ shares_ok (w_db w').
Proof.
  pose proof (recordShare_durable example_share {| w_db := empty_db; w_faults := [] |}
    empty_shares_ok ltac:(by vm_compute)) as H.
  split; [by vm_compute | exact (proj1 H)].
Defined.

(** ** The window *)

(** What the comment describes: walk back from the newest share until the weights
    add up to [N]; the share that crosses the line is included whole. *)
Fixpoint take_until (N : Z) (l : list share) : list share :=
  match l with
  | [] => []
  | s :: l' => if N <=? 0 then [] else s :: take_until (N - sh_weight s) l'
  end.

Section window.
Definition heavy (l : list share) : Prop := Forall (fun s => 1 <= sh_weight s) l.

Lemma window_rows_done N cum l : heavy l -> N <= cum -> window_rows N cum l = [].
Proof.
  intros Hl. revert cum. induction Hl as [|s l Hs _ IH]; intros cum Hc; [done|].
  cbn [window_rows]. cbv zeta. replace (cum + sh_weight s - sh_weight s) with cum by lia.
  destruct (Z.ltb_spec cum N); [lia|]. cbn [app]. apply IH. lia.
Qed.

(** The running-total filter is the walk. *)
Lemma window_rows_take N cum l : heavy l -> window_rows N cum l = take_until (N - cum) l.
Proof.
  intros Hl. revert cum. induction Hl as [|s l Hs Hl IH]; intros cum; [done|].
  cbn [window_rows take_until]. cbv zeta. replace (cum + sh_weight s - sh_weight s) with cum by lia.
  destruct (Z.ltb_spec cum N), (Z.leb_spec (N - cum) 0); try lia; cbn [app].
  - rewrite IH. do 2 f_equal. lia.
  - apply window_rows_done; [done|lia].
Qed.

Lemma take_until_done N l : N <= 0 -> take_until N l = [].
Proof. intros H. destruct l; [done|]. cbn. destruct (Z.leb_spec N 0); [done|lia]. Qed.

(** Rows beyond the ones that outweigh [N] are not in the window. *)
Lemma take_until_prefix N n l :
  N <= zsum (sh_weight <$> take n l) -> take_until N (take n l) = take_until N l.
Proof.
  revert N n. induction l as [|s l IH]; intros N [|n] H; try done; cbn [take fmap list_fmap] in *.
  - cbn in H. by rewrite !take_until_done.
  - cbn [take_until]. destruct (Z.leb_spec N 0); [done|]. f_equal. apply IH.
    cbn [zsum foldr] in H. unfold zsum in *. cbn in H. lia.
Qed.

Lemma take_until_heavy N l : heavy l -> heavy (take_until N l).
Proof.
  intros Hl. revert N. induction Hl as [|s l Hs _ IH]; intros N; cbn; [constructor|].
  destruct (N <=? 0); [constructor|]. constructor; [done|apply IH].
Qed.

Lemma zsum_weights l : zsum (sh_weight <$> l) = zsum_by sh_weight l.
Proof. done. Qed.

(** The window outweighs [N] or is everything, and without its oldest share it does not. *)
Lemma take_until_weight N l : heavy l ->
  (N <= zsum_by sh_weight (take_until N l) \/ take_until N l = l) /\
  (forall h s, take_until N l = h ++ [s] -> zsum_by sh_weight h < N).
Proof.
  intros Hl. revert N. induction Hl as [|s l Hs Hl IH]; intros N; cbn [take_until].
  - split; [by right|]. intros [|? ?] ? H; discriminate H.
  - destruct (Z.leb_spec N 0) as [Hn|Hn].
    + split; [left; rewrite zsum_by_nil; lia|]. intros [|? ?] ? H; discriminate H.
    + destruct (IH (N - sh_weight s)) as [H1 H2]. rewrite zsum_by_cons. split.
      * destruct H1 as [H1|H1]; [left; lia | right; by rewrite H1].
      * intros [|x h] s' H; [rewrite zsum_by_nil; lia|]. cbn in H. injection H as -> H.
        rewrite zsum_by_cons. specialize (H2 h s' H). lia.
Qed.

Lemma newest_heavy last d : shares_ok d -> heavy (newest last d).
Proof.
  intros Hok. unfold newest. apply Forall_reverse, Forall_forall. intros s Hs.
  apply list_elem_of_filter in Hs as [_ Hs].
  apply (proj1 (Forall_forall _ _) (sok_weights d Hok)) in Hs. lia.
Qed.

(** Shares recorded later do not reach a window that ends before them. *)
Lemma newest_insert last a wt d :
  shares_ok d -> last <= share_seq d -> newest last (insert_share a wt d) = newest last d.
Proof.
  intros Hok Hlast. unfold newest, insert_share. destruct (find_share _ d); [done|].
  cbn [shares]. f_equal. rewrite filter_app, filter_cons_False, filter_nil, app_nil_r; [done|].
  cbn. lia.
Qed.
End window.

Section pplns.
Lemma group_miners_names l :
  (fun we => e_miner (we_entry we)) <$> group_miners l = remove_dups (sh_miner <$> l).
Proof. unfold group_miners. rewrite <- list_fmap_compose. apply list_fmap_id. Qed.

(** Grouping keeps every unit of weight, one entry per miner. *)
Lemma group_miners_sum l :
  zsum_by (fun we => e_weight (we_entry we)) (group_miners l) = zsum_by sh_weight l.
Proof.
  unfold group_miners. rewrite zsum_by_fmap.
  apply (zsum_by_groups sh_miner sh_weight); [apply NoDup_remove_dups|].
  intros s Hs. apply elem_of_remove_dups, list_elem_of_fmap. eauto.
Qed.

Lemma group_miners_positive l we : heavy l -> we ∈ group_miners l -> 1 <= e_weight (we_entry we).
Proof.
  intros Hl Hin. apply list_elem_of_fmap in Hin as (m & -> & Hm).
  apply elem_of_remove_dups, list_elem_of_fmap in Hm as (s & -> & Hs). cbn.
  assert (forall x, x ∈ filter (fun s0 => sh_miner s0 = sh_miner s) l -> 1 <= sh_weight x) as Hpos.
  { intros x Hx. apply list_elem_of_filter in Hx as [_ Hx]. by apply (proj1 (Forall_forall _ _) Hl). }
  transitivity (sh_weight s); [by apply (proj1 (Forall_forall _ _) Hl)|].
  apply (zsum_by_elem sh_weight); [intros x Hx; specialize (Hpos x Hx); lia|].
  by apply list_elem_of_filter.
Qed.

Lemma find_limit_Ok fuel last N limit w n w' :
  1 <= limit -> find_limit fuel last N limit w = (Ok n, w') ->
  w_db w' = w_db w /\ 1 <= n /\
  (N <= zsum (sh_weight <$> take (Z.to_nat n) (newest last (w_db w))) \/
   (length (newest last (w_db w)) <= Z.to_nat n)%nat).
Proof.
  revert limit w. induction fuel as [|fuel IH]; intros limit w Hlim H; cbn [find_limit] in H; [done|].
  apply io_bind_Ok in H as (x & w1 & [_ ->]%lift_Ok & H).
  apply io_bind_Ok in H as (y & w1 & [_ ->]%lift_Ok & H).
  apply io_bind_Ok in H as (covered & w1 & (Hc & Hd1 & _)%select_Ok & H).
  unfold sql_sum in Hc. cbv zeta in Hc. destruct (_ && _) in Hc; [|done]. injection Hc as <-.
  destruct (Z.leb_spec N (zsum (sh_weight <$> take (Z.to_nat limit) (newest last (w_db w))))) as [HN|HN].
  { injection H as -> <-. auto. }
  apply io_bind_Ok in H as (have & w2 & (Hh & Hd2 & _)%select_Ok & H).
  injection Hh as Hh. rewrite Hd1 in Hh, Hd2. destruct (Z.leb_spec have limit).
  - injection H as Hn <-. split; [done|].
    destruct (Z.eqb_spec have 0); split; try lia; right; lia.
  - apply IH in H as (Hdb & Hn & Hor); [|lia]. rewrite Hd2 in *. auto.
Qed.

(** The rows the query groups are the walk. *)
Lemma pplnsWindow_walk mult last hex w win w' :
  shares_ok (w_db w) -> pplnsWindow mult last hex w = (Ok win, w') ->
  let walk := take_until (win_N win) (newest last (w_db w)) in
  w_db w' = w_db w /\ targetWeight (big_of_buf (hex_decode hex)) = Ok (win_blockWork win) /\
  win_N win = win_blockWork win * mult /\ win_entries win ≡ₚ group_miners walk /\ heavy walk.
Proof.
  intros Hok H walk. unfold pplnsWindow in H.
  apply io_bind_Ok in H as (bw & w1 & [Hbw%lift_err_Ok ->]%lift_Ok & H).
  apply io_bind_Ok in H as (limit & w1 & (Hdb & Hn & Hor)%find_limit_Ok & H); [|lia].
  do 3 apply io_bind_Ok in H as (? & ? & [_ ->]%lift_Ok & H).
  apply io_bind_Ok in H as (es & w2 & (Hq & Hdb2 & _)%select_Ok & H). injection H as <- <-.
  cbn [win_N win_blockWork win_entries] in *. rewrite Hdb in *.
  apply bind_Ok in Hq as (? & _ & Hq). injection Hq as <-.
  pose proof (newest_heavy last (w_db w) Hok) as Hh.
  assert (window_rows (bw * mult) 0 (take (Z.to_nat limit) (newest last (w_db w))) = walk) as Hwalk.
  { rewrite window_rows_take by (by apply Forall_take). rewrite Z.sub_0_r. unfold walk. cbn [win_N].
    destruct Hor as [Hor|Hor]; [by apply take_until_prefix|]. by rewrite take_ge. }
  rewrite Hwalk.
  assert (heavy walk) as Hhw by (by apply take_until_heavy).
  do 3 (split; [done|]). split; [|done]. apply merge_sort_Permutation.
Qed.

(** What a split needs of a window. *)
Lemma pplnsWindow_facts mult last hex w win w' :
  shares_ok (w_db w) -> pplnsWindow mult last hex w = (Ok win, w') ->
  w_db w' = w_db w /\ NoDup (e_miner <$> (we_entry <$> win_entries win)) /\
  Forall (fun e => 1 <= e_weight e) (we_entry <$> win_entries win).
Proof.
  intros Hok H. destruct (pplnsWindow_walk _ _ _ _ _ _ Hok H) as (Hdb & _ & _ & Hperm & Hh).
  split; [done|]. rewrite <- list_fmap_compose, Forall_fmap, Hperm. split.
  - change (NoDup ((fun we => e_miner (we_entry we))
      <$> group_miners (take_until (win_N win) (newest last (w_db w))))).
    rewrite group_miners_names. apply NoDup_remove_dups.
  - apply Forall_forall. intros we Hwe. by apply (group_miners_positive _ we Hh).
Qed.

(** C22: the bounded scan is the whole window. Whatever the table holds, a window that
    is returned is the walk back from the last share until the weights add up to
    [N = windowMultiplier * blockWork]: one entry per miner with all of its weight in
    the walk, a walk that outweighs [N] or is every share there is, and that would
    not without its oldest share. The tables are only read. *)
Theorem pplnsWindow_exact mult last hex w win w' :
  shares_ok (w_db w) -> pplnsWindow mult last hex w = (Ok win, w') ->
  let walk := take_until (win_N win) (newest last (w_db w)) in
  w_db w' = w_db w /\
  targetWeight (big_of_buf (hex_decode hex)) = Ok (win_blockWork win) /\
  win_N win = win_blockWork win * mult /\
  win_entries win ≡ₚ group_miners walk /\
  NoDup ((fun we => e_miner (we_entry we)) <$> win_entries win) /\
  Forall (fun we => 1 <= e_weight (we_entry we)) (win_entries win) /\
  zsum_by (fun we => e_weight (we_entry we)) (win_entries win) = zsum_by sh_weight walk /\
  (win_N win <= zsum_by sh_weight walk \/ walk = newest last (w_db w)) /\
  (forall h s, walk = h ++ [s] -> zsum_by sh_weight h < win_N win).
Proof.
  intros Hok H walk. destruct (pplnsWindow_walk _ _ _ _ _ _ Hok H) as (Hdb & Hbw & HN & Hperm & Hh).
  do 4 (split; [done|]). fold walk in Hperm, Hh.
  rewrite Hperm, group_miners_names, group_miners_sum.
  split; [apply NoDup_remove_dups|]. split; [|split; [done|]].
  - apply Forall_forall. intros we Hwe. by apply (group_miners_positive walk).
  - by apply take_until_weight, newest_heavy.
Qed.

Lemma find_limit_reads fuel last N limit : reads (find_limit fuel last N limit).
Proof. revert limit. induction fuel as [|fuel IH]; intros limit; cbn [find_limit]; walk. Qed.

Lemma pplnsWindow_reads mult last hex : reads (pplnsWindow mult last hex).
Proof. unfold pplnsWindow. pose proof (find_limit_reads limit_turns last). walk. Qed.

Lemma currentWindow_reads mult hex : reads (currentWindow mult hex).
Proof. unfold currentWindow. pose proof (pplnsWindow_reads mult). walk. Qed.

(** One entry per miner. *)
Lemma group_names_nodup l : NoDup (e_miner ∘ we_entry <$> group_miners l).
Proof. rewrite group_miners_names. apply NoDup_remove_dups. Qed.

Lemma currentWindow_distinct mult hex w win w' : currentWindow mult hex w = (Ok win, w') ->
  NoDup (e_miner <$> (we_entry <$> win_entries win)).
Proof.
  unfold currentWindow, pplnsWindow. intros H. io_inv. destruct (_ =? 0) in H; io_inv; [constructor|].
  cbn [win_entries]. apply bind_Ok in Hq0 as (? & _ & Hq0). injection Hq0 as <-.
  rewrite <- list_fmap_compose. rewrite (merge_sort_Permutation heavier). apply group_names_nodup.
Qed.

Lemma shareSummary_reads since : reads (shareSummary since).
Proof. unfold shareSummary. walk. Qed.

#[local] Hint Resolve find_limit_reads : calls.

(** *** Termination *)

Definition window_fits (mult last : Z) (hex : string) (d : db) : Prop :=
  exists bw, targetWeight (big_of_buf (hex_decode hex)) = Ok bw /\
    - 2 ^ 62 < bw * mult < 2 ^ 62 /\ - 2 ^ 62 < last < 2 ^ 62 /\
    zsum_by sh_weight (shares d) < 2 ^ 63 /\ Z.of_nat (length (shares d)) < 2 ^ 61.

Lemma zsum_take_le n l : heavy l -> 0 <= zsum (sh_weight <$> take n l) <= zsum_by sh_weight l.
Proof.
  intros Hl. rewrite zsum_weights.
  assert (forall k, heavy k -> 0 <= zsum_by sh_weight k) as Hnn.
  { intros k Hk. apply zsum_by_nonneg. intros s Hs. apply (proj1 (Forall_forall _ _) Hk) in Hs. lia. }
  assert (zsum_by sh_weight l = zsum_by sh_weight (take n l) + zsum_by sh_weight (drop n l)) as ->
    by (by rewrite <- zsum_by_app, take_drop).
  pose proof (Hnn (take n l) (Forall_take _ _ _ Hl)).
  pose proof (Hnn (drop n l) (Forall_drop _ _ _ Hl)). lia.
Qed.

Lemma newest_bounds last d : shares_ok d ->
  zsum_by sh_weight (newest last d) <= zsum_by sh_weight (shares d) /\
  (length (newest last d) <= length (shares d))%nat.
Proof.
  intros Hok. unfold newest. rewrite reverse_Permutation. split; [|apply length_filter].
  apply zsum_by_filter_le. intros s Hs. apply (proj1 (Forall_forall _ _) (sok_weights d Hok)) in Hs. lia.
Qed.

Lemma sql_sum_fits last d n : shares_ok d -> zsum_by sh_weight (shares d) < 2 ^ 63 ->
  sql_sum (sh_weight <$> take n (newest last d)) = Ok (zsum (sh_weight <$> take n (newest last d))).
Proof.
  intros Hok Hs. unfold sql_sum. cbv zeta.
  pose proof (zsum_take_le n (newest last d) (newest_heavy last d Hok)).
  destruct (newest_bounds last d Hok).
  rewrite (proj2 (Z.leb_le _ _)), (proj2 (Z.ltb_lt _ _)) by lia. done.
Qed.

Lemma num_fits v : - 2 ^ 62 < v < 2 ^ 62 -> num v = Ok v.
Proof.
  intros H. unfold num. rewrite (proj2 (Z.leb_gt _ _)), (proj2 (Z.leb_gt _ _)) by lia. done.
Qed.

(** One turn of the search when the store answers. *)
Lemma find_limit_turn fuel last N limit d :
  shares_ok d -> - 2 ^ 62 < last < 2 ^ 62 -> zsum_by sh_weight (shares d) < 2 ^ 63 ->
  1 <= limit < 2 ^ 62 ->
  let w := {| w_db := d; w_faults := [] |} in
  let have := Z.of_nat (length (newest last d)) in
  find_limit (S fuel) last N limit w =
  if N <=? zsum (sh_weight <$> take (Z.to_nat limit) (newest last d)) then (Ok limit, w)
  else if have <=? limit then (Ok (if have =? 0 then 1 else have), w)
  else find_limit fuel last N (limit * 2) w.
Proof.
  intros Hok Hlast Hsum Hlim w have. cbn [find_limit]. unfold mbind, io_bind, lift.
  rewrite !num_fits by lia. unfold select, w. rewrite run_fine. cbn [apply_all foldl].
  rewrite sql_sum_fits by done. destruct (N <=? _); [done|].
  rewrite run_fine. cbn [apply_all foldl]. fold have. by destruct (have <=? limit).
Qed.

Lemma find_limit_total fuel last N limit d :
  shares_ok d -> - 2 ^ 62 < last < 2 ^ 62 -> zsum_by sh_weight (shares d) < 2 ^ 63 ->
  Z.of_nat (length (shares d)) < 2 ^ 61 -> 1 <= limit < 2 ^ 62 ->
  Z.of_nat (length (shares d)) <= limit * 2 ^ Z.of_nat fuel ->
  exists n, find_limit (S fuel) last N limit {| w_db := d; w_faults := [] |}
              = (Ok n, {| w_db := d; w_faults := [] |}) /\ 1 <= n < 2 ^ 62.
Proof.
  intros Hok Hlast Hsum Hlen. destruct (newest_bounds last d Hok) as [_ Hb].
  revert limit. induction fuel as [|fuel IH]; intros limit Hlim Hbound.
  all: rewrite find_limit_turn by done; cbv zeta.
  all: destruct (Z.leb_spec N (zsum (sh_weight <$> take (Z.to_nat limit) (newest last d))));
    [by exists limit|].
  all: destruct (Z.leb_spec (Z.of_nat (length (newest last d))) limit).
  1, 3: eexists; split; [reflexivity|];
    destruct (Z.eqb_spec (Z.of_nat (length (newest last d))) 0); lia.
  - cbn in Hbound. lia.
  - apply IH; [lia|]. rewrite Nat2Z.inj_succ, Z.pow_succ_r in Hbound; lia.
Qed.

(** the window search always ends. On a table whose weights fit SQLite's integers,
    a window is returned when the store answers: the doubling stops within 64 turns. *)
Theorem pplnsWindow_total mult last hex d :
  shares_ok d -> window_fits mult last hex d ->
  exists win, pplnsWindow mult last hex {| w_db := d; w_faults := [] |}
                = (Ok win, {| w_db := d; w_faults := [] |}).
Proof.
  intros Hok (bw & Hbw & HN & Hlast & Hsum & Hlen).
  destruct (find_limit_total 63 last (bw * mult) 65536 d) as (n & Hn & Hrange); try done; [lia|].
  unfold pplnsWindow, mbind, io_bind. rewrite Hbw. unfold lift. cbn [lift_err].
  change limit_turns with 64%nat. rewrite Hn, !num_fits by lia.
  unfold select. rewrite run_fine. cbn [apply_all foldl]. rewrite sql_sum_fits by done.
  eexists. reflexivity.
Qed.
End pplns.

#[export] Hint Resolve pplnsWindow_reads currentWindow_reads shareSummary_reads : calls.

(** ** A concrete table *)

Definition example_target : string := "00000fffffffffffffffffffffffffffffffffffffffffffffffffffffffffff".
Definition example_net : string := "000001ffffffffffffffffffffffffffffffffffffffffffffffffffffffffff".

Definition example_row (id : Z) (miner nonce : string) : share := {|
  sh_id := id; sh_at := 1770000000000 + id; sh_miner := miner; sh_session := "s";
  sh_job := "job1"; sh_nonce := nonce; sh_height := 12789; sh_weight := 2 ^ 20;
  sh_target := example_target; sh_is_block := false |}.

(** Twenty shares: alice has every third one. *)
Definition example_db : db := {|
  shares := (fun i => example_row (Z.of_nat i) (if (i mod 3 =? 0)%nat then "alice" else "bob")
                        (String (Ascii.ascii_of_nat (64 + i)) "")) <$> seq 1 20;
  share_seq := 20; blocks := []; payouts := []; pool_fees := [] |}.

Lemma example_shares_ok : shares_ok example_db.
Proof.
  split.
  - apply (bool_decide_unpack (StronglySorted _ _)). by vm_compute.
  - apply (bool_decide_unpack (Forall _ _)). by vm_compute.
  - by vm_compute.
  - apply (bool_decide_unpack (NoDup _)). by vm_compute.
  - apply (bool_decide_unpack (Forall _ _)). by vm_compute.
Qed.

Lemma pplnsWindow_exact_witness :
  exists win w',
    pplnsWindow 2 20 example_net {| w_db := example_db; w_faults := [] |} = (Ok win, w') /\
    win_entries win ≡ₚ group_miners (take_until (win_N win) (newest 20 example_db)) /\
    (fun we => (e_miner (we_entry we), we_shares we)) <$> win_entries win
      = [("bob"%string, 11); ("alice"%string, 5)].
Proof.
  eexists _, _. split; [vm_compute; reflexivity|]. split; [|by vm_compute].
  eapply (pplnsWindow_exact 2 20 example_net {| w_db := example_db; w_faults := [] |});
    [apply example_shares_ok | vm_compute; reflexivity].
Defined.

Lemma pplnsWindow_total_witness :
  exists win, pplnsWindow 2 20 example_net {| w_db := example_db; w_faults := [] |}
                = (Ok win, {| w_db := example_db; w_faults := [] |}).
Proof.
  apply pplnsWindow_total; [apply example_shares_ok|].
  exists (2 ^ 23). split; [by vm_compute|]. by vm_compute.
Defined.
