(* ===== verification/Ledger.v ===== *)
(** * Blocks and payouts in the ledger (contrib/pool/store.mjs)

    Recording a block whose coinbase already paid everyone, recording a block and
    computing what it owes, reconciling the rows against the chain, and following
    a block to maturity or off the chain. *)

From S2P Require Import Prelude JsInt Bytes Target PoolMath StoreDb Shares.
Local Open Scope Z_scope.

(** ** Statements *)

Definition with_blocks (l : list block) (d : db) : db := {|
  shares := shares d; share_seq := share_seq d; blocks := l;
  payouts := payouts d; pool_fees := pool_fees d |}.
Definition with_payouts (l : list payout) (d : db) : db := {|
  shares := shares d; share_seq := share_seq d; blocks := blocks d;
  payouts := l; pool_fees := pool_fees d |}.
Definition with_fees (l : list pool_fee) (d : db) : db := {|
  shares := shares d; share_seq := share_seq d; blocks := blocks d;
  payouts := payouts d; pool_fees := l |}.

(** [INSERT OR IGNORE] under each table's primary key. *)
Definition insert_block (b : block) (d : db) : db :=
  if decide (b_hash b ∈ b_hash <$> blocks d) then d else with_blocks (blocks d ++ [b]) d.

Definition payout_key (p : payout) : Z * string := (p_height p, p_miner p).
Definition insert_payout (p : payout) (d : db) : db :=
  if decide (payout_key p ∈ payout_key <$> payouts d) then d else with_payouts (payouts d ++ [p]) d.
Definition insert_payouts (l : list payout) (d : db) : db := foldl (fun d p => insert_payout p d) d l.

Definition insert_fee (f : pool_fee) (d : db) : db :=
  if decide (f_height f ∈ f_height <$> pool_fees d) then d else with_fees (pool_fees d ++ [f]) d.

Definition payouts_at (height : Z) (d : db) : list payout :=
  filter (fun p => p_height p = height) (payouts d).

(** [SELECT COUNT( * ), IFNULL(SUM(amount),0) FROM payouts WHERE block_height=...] *)
Definition count_and_sum (height : Z) (d : db) : result store_err (Z * Z) :=
  s ← sql_sum (p_amount <$> payouts_at height d);
  Ok (Z.of_nat (length (payouts_at height d)), s).

Definition new_block (hash : string) (height at_ value : Z) (finder : string) (shareId : Z) : block := {|
  b_hash := hash; b_height := height; b_found_at := at_; b_value := value; b_finder := finder;
  b_share_id := shareId; b_state := Pending; b_state_at := at_; b_confirmations := None;
  b_orphan_strikes := 0; b_alarm := None |}.

(** The values of the [blocks] row, in the order the template literal evaluates them. *)
Definition block_values (hash : string) (height at_ value : Z) (finder : string) (shareId : Z)
    : result store_err unit :=
  _ ← lit hash; _ ← num height; _ ← num at_; _ ← num value; _ ← lit finder;
  _ ← num shareId; _ ← num at_; Ok tt.

(** ** A block whose coinbase paid *)

Record paid_args := {
  ba_hash : string; ba_height : Z; ba_value : Z; ba_finder : string; ba_shareId : Z; ba_at : Z;
  ba_coinbaseTxid : string; ba_outputs : list payout_output; ba_fee : Z; ba_windowWeight : Z
}.

Record paid_result := {
  pr_height : Z; pr_hash : string; pr_value : Z; pr_fee : Z; pr_miners : Z; pr_paid : Z
}.

(** [outputs.filter((o) => o.miner)]: an output with a miner that is not empty. *)
Definition miner_of (o : payout_output) : option string :=
  match o_miner o with Some (String c s) => Some (String c s) | _ => None end.
Definition paid_outputs (l : list payout_output) : list (string * payout_output) :=
  omap (fun o => m ← miner_of o; Some (m, o)) l.

Definition paid_row (a : paid_args) (mo : string * payout_output) : result store_err payout :=
  let '(m, o) := mo in
  let weight := default 0 (o_weight o) in
  _ ← num (ba_height a); _ ← lit m; _ ← lit (ba_hash a); _ ← num (o_value o); _ ← num weight;
  _ ← num (ba_windowWeight a); _ ← num (ba_value a - ba_fee a); _ ← num (ba_at a);
  _ ← lit (ba_coinbaseTxid a);
  Ok {| p_height := ba_height a; p_miner := m; p_hash := ba_hash a; p_amount := o_value o;
        p_weight := weight; p_window_weight := ba_windowWeight a;
        p_pot := ba_value a - ba_fee a; p_computed_at := ba_at a;
        p_sent_txid := Some (ba_coinbaseTxid a) |}.

Definition fee_values (height : Z) (hash : string) (value fee dust : Z) : result store_err pool_fee :=
  _ ← num height; _ ← lit hash; _ ← num value; _ ← num fee; _ ← num dust;
  Ok {| f_height := height; f_hash := hash; f_value := value; f_fee := fee; f_dust := dust |}.

Definition recordBlockPaidByCoinbase (a : paid_args) : io paid_result :=
  let V := ba_value a in
  _ ← lift (block_values (ba_hash a) (ba_height a) (ba_at a) V (ba_finder a) (ba_shareId a));
  _ ← run [insert_block (new_block (ba_hash a) (ba_height a) (ba_at a) V (ba_finder a) (ba_shareId a))]
          (fun _ _ => Ok tt);
  rows ← lift (mapM (paid_row a) (paid_outputs (ba_outputs a)));
  fee ← lift (fee_values (ba_height a) (ba_hash a) V (ba_fee a) 0);
  _ ← match rows with
      | [] => run [insert_fee fee] (fun _ _ => Ok tt)
      | _ => run [fun d => insert_fee fee (insert_payouts rows d)] (fun _ _ => Ok tt)  (* BEGIN ... COMMIT *)
      end;
  _ ← lift (num (ba_height a));
  check ← select (count_and_sum (ba_height a));
  mret {| pr_height := ba_height a; pr_hash := ba_hash a; pr_value := V; pr_fee := ba_fee a;
          pr_miners := check.1; pr_paid := check.2 |}.

(** ** Reconciling against the chain *)

Record problem := { pb_miner : string; pb_ledger : Z; pb_block : option Z }.

Definition reconcile_row (actual : gmap string Z) (p : payout) : list problem :=
  match actual !! p_miner p with
  | None => [{| pb_miner := p_miner p; pb_ledger := p_amount p; pb_block := None |}]
  | Some got => if got =? p_amount p then []
                else [{| pb_miner := p_miner p; pb_ledger := p_amount p; pb_block := Some got |}]
  end.

Definition reconcileAgainstChain (height : Z) (hash : string) (actualOutputs : gmap string Z)
    : io (list problem) :=
  _ ← lift (num height); _ ← lift (lit hash);
  rows ← select (fun d => Ok (filter (fun p => p_hash p = hash) (payouts_at height d)));
  mret (rows ≫= reconcile_row actualOutputs).

(** ** A block, and what it owes *)

Record compute_args := {
  ca_hash : string; ca_blockHeight : Z; ca_blockValue : Z; ca_finder : string; ca_shareId : Z;
  ca_netTargetHex : string; ca_at : Z
}.

Inductive compute_result :=
  | AlreadyComputed
  | HeightCollision
  | Computed (fee dust pot : Z) (amounts : list amount) (w : window).

Definition computed_row (a : compute_args) (pot windowWeight : Z) (x : amount) : result store_err payout :=
  _ ← num (ca_blockHeight a); _ ← lit (a_miner x); _ ← lit (ca_hash a); _ ← num (a_amount x);
  _ ← num (a_weight x); _ ← num windowWeight; _ ← num pot; _ ← num (ca_at a);
  Ok {| p_height := ca_blockHeight a; p_miner := a_miner x; p_hash := ca_hash a;
        p_amount := a_amount x; p_weight := a_weight x; p_window_weight := windowWeight;
        p_pot := pot; p_computed_at := ca_at a; p_sent_txid := None |}.

Definition state_of (hash : string) (d : db) : option block_state :=
  b_state <$> head (filter (fun b => b_hash b = hash) (blocks d)).

Definition delete_payouts (height : Z) (d : db) : db :=
  with_payouts (filter (fun p => p_height p <> height) (payouts d)) d.
Definition delete_fees (height : Z) (d : db) : db :=
  with_fees (filter (fun f => f_height f <> height) (pool_fees d)) d.

Section compute.
Context (feeBp windowMultiplier : Z).

(** After the guards on the height: split the pot and store it. *)
Definition compute_payouts (a : compute_args) : io compute_result :=
  let V := ca_blockValue a in
  w ← pplnsWindow windowMultiplier (ca_shareId a) (ca_netTargetHex a);
  match win_entries w with
  | [] => throw EmptyWindow
  | _ =>
      fee ← lift (lift_err Money (feeOf V feeBp));
      let pot := V - fee in
      r ← lift (lift_err Money (splitPot pot (we_entry <$> win_entries w)));
      let paid := foldl (fun s x => s + a_amount x) 0 (s_amounts r) in
      if negb (paid + s_dust r + fee =? V) then throw PayoutNotReconciled else
      rows ← lift (mapM (computed_row a pot (s_windowWeight r)) (s_amounts r));
      f ← lift (fee_values (ca_blockHeight a) (ca_hash a) V fee (s_dust r));
      _ ← run [fun d => insert_fee f (insert_payouts rows d)] (fun _ _ => Ok tt);  (* BEGIN ... COMMIT *)
      check ← select (count_and_sum (ca_blockHeight a));
      if negb (check.1 =? Z.of_nat (length (s_amounts r))) || negb (check.2 =? paid)
      then throw PayoutsNotStored
      else mret (Computed fee (s_dust r) pot (s_amounts r) w)
  end.

(** The idempotency guard: rows of this block are final, rows of another block at
    the height stand until the chain has orphaned it. *)
Definition resolve_height (a : compute_args) : io compute_result :=
  existing ← select (fun d => Ok (remove_dups (p_hash <$> payouts_at (ca_blockHeight a) d)));
  match existing with
  | [] => compute_payouts a
  | other :: _ =>
      if (other =? ca_hash a)%string then mret AlreadyComputed else
      _ ← lift (lit other);
      st ← select (fun d => Ok (state_of other d));
      if decide (st = Some Orphaned) then
        _ ← run [delete_payouts (ca_blockHeight a); delete_fees (ca_blockHeight a)] (fun _ _ => Ok tt);
        compute_payouts a
      else mret HeightCollision
  end.

Definition recordBlockAndComputePayouts (a : compute_args) : io compute_result :=
  let V := ca_blockValue a in
  if V <=? 0 then throw (Money (ValueNotPositive V)) else
  _ ← lift (block_values (ca_hash a) (ca_blockHeight a) (ca_at a) V (ca_finder a) (ca_shareId a));
  _ ← run [insert_block (new_block (ca_hash a) (ca_blockHeight a) (ca_at a) V (ca_finder a) (ca_shareId a))]
          (fun _ _ => Ok tt);
  resolve_height a.
End compute.

(** ** Lemmas *)

(** The primary keys of the three tables. *)
Record ledger_ok (d : db) : Prop := {
  lok_blocks : NoDup (b_hash <$> blocks d);
  lok_payouts : NoDup (payout_key <$> payouts d);
  lok_fees : NoDup (f_height <$> pool_fees d)
}.

Definition db_ok (d : db) : Prop := shares_ok d /\ ledger_ok d.

Section keys.
Lemma NoDup_fmap_snoc {A B} (f : A -> B) l x : NoDup (f <$> l) -> f x ∉ f <$> l -> NoDup (f <$> l ++ [x]).
Proof.
  intros Hl Hx. rewrite fmap_app. apply NoDup_app. split; [done|]. split; [|apply NoDup_singleton].
  intros y Hy Hy'. apply list_elem_of_singleton in Hy' as ->. done.
Qed.

Lemma NoDup_fmap_filter {A B} (f : A -> B) (P : A -> Prop) `{!forall a, Decision (P a)} l :
  NoDup (f <$> l) -> NoDup (f <$> filter P l).
Proof.
  induction l as [|a l IH]; [done|]. rewrite fmap_cons, NoDup_cons, filter_cons.
  intros [Hn Hd]. case_decide; [|by apply IH]. rewrite fmap_cons, NoDup_cons. split; [|by apply IH].
  intros Hin. apply Hn. apply list_elem_of_fmap in Hin as (x & Hx & Hxl).
  apply list_elem_of_filter in Hxl as [_ Hxl]. apply list_elem_of_fmap. eauto.
Qed.

Lemma empty_db_ok : db_ok empty_db.
Proof. split; [apply empty_shares_ok|]. split; constructor. Qed.

Lemma with_blocks_shares l d : shares_ok d -> shares_ok (with_blocks l d).
Proof. by intros []. Qed.
Lemma with_payouts_shares l d : shares_ok d -> shares_ok (with_payouts l d).
Proof. by intros []. Qed.
Lemma with_fees_shares l d : shares_ok d -> shares_ok (with_fees l d).
Proof. by intros []. Qed.

Lemma insert_block_ok b d : db_ok d -> db_ok (insert_block b d).
Proof.
  intros [Hs [Hb Hp Hf]]. unfold insert_block. case_decide as Hin; [done|].
  split; [by apply with_blocks_shares|]. split; cbn; try done. by apply NoDup_fmap_snoc.
Qed.

Lemma insert_payout_ok p d : db_ok d -> db_ok (insert_payout p d).
Proof.
  intros [Hs [Hb Hp Hf]]. unfold insert_payout. case_decide as Hin; [done|].
  split; [by apply with_payouts_shares|]. split; cbn; try done. by apply NoDup_fmap_snoc.
Qed.

Lemma insert_payouts_ok l d : db_ok d -> db_ok (insert_payouts l d).
Proof. revert d. induction l as [|p l IH]; intros d Hd; [done|]. by apply IH, insert_payout_ok. Qed.

Lemma insert_fee_ok f d : db_ok d -> db_ok (insert_fee f d).
Proof.
  intros [Hs [Hb Hp Hf]]. unfold insert_fee. case_decide as Hin; [done|].
  split; [by apply with_fees_shares|]. split; cbn; try done. by apply NoDup_fmap_snoc.
Qed.

Lemma delete_payouts_ok h d : db_ok d -> db_ok (delete_payouts h d).
Proof.
  intros [Hs [Hb Hp Hf]]. split; [by apply with_payouts_shares|]. split; cbn; try done.
  by apply NoDup_fmap_filter.
Qed.

Lemma delete_fees_ok h d : db_ok d -> db_ok (delete_fees h d).
Proof.
  intros [Hs [Hb Hp Hf]]. split; [by apply with_fees_shares|]. split; cbn; try done.
  by apply NoDup_fmap_filter.
Qed.

Lemma insert_share_db_ok a wt d : 1 <= wt < 2 ^ 62 -> db_ok d -> db_ok (insert_share a wt d).
Proof.
  intros Hw [Hs [Hb Hp Hf]]. split; [by apply insert_share_ok|].
  destruct (insert_share_rest a wt d) as (E1 & E2 & E3). split; by rewrite ?E1, ?E2, ?E3.
Qed.

Lemma mark_block_ok id d : db_ok d -> db_ok (mark_block id d).
Proof.
  intros [[H1 H2 H3 H4 H5] [Hb Hp Hf]].
  assert (forall B (f : share -> B), (forall s, f (if decide (sh_id s = id) then
      {| sh_id := sh_id s; sh_at := sh_at s; sh_miner := sh_miner s; sh_session := sh_session s;
         sh_job := sh_job s; sh_nonce := sh_nonce s; sh_height := sh_height s;
         sh_weight := sh_weight s; sh_target := sh_target s; sh_is_block := true |} else s) = f s) ->
      f <$> shares (mark_block id d) = f <$> shares d) as Hsame.
  { intros B f Hf'. cbn. rewrite <- list_fmap_compose. apply list_fmap_ext. intros i s _. apply Hf'. }
  split; [|by split]. split; cbn [share_seq mark_block].
  - rewrite Hsame; [done|]. intros s. by case_decide.
  - apply Forall_fmap. eapply Forall_impl; [exact H2|]. intros s. cbn. by case_decide.
  - done.
  - rewrite Hsame; [done|]. intros s. by case_decide.
  - apply Forall_fmap. eapply Forall_impl; [exact H5|]. intros s. cbn. by case_decide.
Qed.
End keys.

#[export] Hint Resolve empty_db_ok insert_block_ok insert_payout_ok insert_payouts_ok insert_fee_ok
  delete_payouts_ok delete_fees_ok mark_block_ok : pcoin.

Section keeping.
Lemma recordShare_keeps a :
  big_of_buf (hex_decode (sa_targetHex a)) < 2 ^ 256 -> keeps db_ok (recordShare a).
Proof.
  intros Ht. unfold recordShare. destruct (targetWeight _) as [wt|e] eqn:Hw; [|by intros w Hw'].
  apply targetWeight_range in Hw; [|done]. intros w Hok.
  unfold mbind, io_bind, lift. cbn [lift_err]. destruct (share_values a wt); [|done].
  apply keeps_run; [|exact Hok]. repeat constructor; by apply insert_share_db_ok.
Qed.

Lemma markShareIsBlock_keeps id : keeps db_ok (markShareIsBlock id).
Proof. unfold markShareIsBlock. walk. Qed.

Lemma recordBlockPaidByCoinbase_keeps a : keeps db_ok (recordBlockPaidByCoinbase a).
Proof. unfold recordBlockPaidByCoinbase. walk. Qed.

Lemma reconcileAgainstChain_reads h hash m : reads (reconcileAgainstChain h hash m).
Proof. unfold reconcileAgainstChain. walk. Qed.

Lemma compute_payouts_keeps bp mult a : keeps db_ok (compute_payouts bp mult a).
Proof. unfold compute_payouts. walk. Qed.
#[local] Hint Resolve compute_payouts_keeps : calls.

Lemma recordBlockAndComputePayouts_keeps bp mult a : keeps db_ok (recordBlockAndComputePayouts bp mult a).
Proof. unfold recordBlockAndComputePayouts, resolve_height. walk. Qed.
End keeping.

(** ** What a computed block leaves in the ledger *)

Section insertion.
Lemma insert_payouts_fresh rows d :
  NoDup (payout_key <$> rows) -> (forall p, p ∈ rows -> payout_key p ∉ payout_key <$> payouts d) ->
  insert_payouts rows d = with_payouts (payouts d ++ rows) d.
Proof.
  revert d. induction rows as [|p rows IH]; intros d Hnd Hfresh.
  { destruct d. cbn. by rewrite app_nil_r. }
  rewrite fmap_cons, NoDup_cons in Hnd. destruct Hnd as [Hp Hnd].
  cbn [insert_payouts foldl]. unfold insert_payout at 2.
  rewrite decide_False by (apply Hfresh; by left).
  change (foldl (fun d p => insert_payout p d)) with (fun d l => insert_payouts l d).
  cbv beta. rewrite IH; [|done|].
  - destruct d. cbn. by rewrite <- app_assoc.
  - intros q Hq. cbn [payouts with_payouts]. rewrite fmap_app. intros Hin.
    apply elem_of_app in Hin as [Hin|Hin]; [by apply (Hfresh q); [right|]|].
    apply list_elem_of_singleton in Hin. apply Hp. rewrite <- Hin. by apply list_elem_of_fmap_2.
Qed.

Lemma insert_fee_fresh f d :
  f_height f ∉ f_height <$> pool_fees d -> insert_fee f d = with_fees (pool_fees d ++ [f]) d.
Proof. intros H. unfold insert_fee. by rewrite decide_False. Qed.

Lemma payouts_at_none h d p : payouts_at h d = [] -> p ∈ payouts d -> p_height p <> h.
Proof.
  intros Hn Hp Hh. assert (p ∈ payouts_at h d) as Hin by by apply list_elem_of_filter.
  rewrite Hn in Hin. by apply elem_of_nil in Hin.
Qed.

Lemma payouts_at_app h d rows :
  Forall (fun p => p_height p = h) rows -> payouts_at h d = [] ->
  payouts_at h (with_payouts (payouts d ++ rows) d) = rows.
Proof.
  intros Hr Hn. unfold payouts_at in *. cbn [payouts with_payouts].
  rewrite filter_app, Hn. cbn. by apply filter_all.
Qed.
End insertion.

Section compute_spec.
Context (bp mult : Z).

(** Rows and a fee that account for every satoshi of one block. *)
Record complete (a : compute_args) (rows : list payout) (f : pool_fee) : Prop := {
  cp_miners : NoDup (p_miner <$> rows);
  cp_rows : Forall (fun p => p_height p = ca_blockHeight a /\ p_hash p = ca_hash a /\
    p_sent_txid p = None /\ p_pot p = ca_blockValue a - f_fee f /\
    p_amount p = p_pot p * p_weight p / p_window_weight p) rows;
  cp_fee : f_height f = ca_blockHeight a /\ f_hash f = ca_hash a /\ f_value f = ca_blockValue a /\
    f_fee f = ca_blockValue a * bp / 10000;
  cp_sum : zsum_by p_amount rows + f_dust f + f_fee f = ca_blockValue a;
  cp_dust : 0 <= f_dust f < Z.of_nat (length rows)
}.

Definition stored (rows : list payout) (f : pool_fee) (d : db) : db :=
  insert_fee f (insert_payouts rows d).

Lemma computed_row_Ok a pot W x p : computed_row a pot W x = Ok p ->
  p = {| p_height := ca_blockHeight a; p_miner := a_miner x; p_hash := ca_hash a;
         p_amount := a_amount x; p_weight := a_weight x; p_window_weight := W;
         p_pot := pot; p_computed_at := ca_at a; p_sent_txid := None |}.
Proof. unfold computed_row. intros H. by res_inv. Qed.

Lemma fee_values_Ok h hash v fee dust f : fee_values h hash v fee dust = Ok f ->
  f = {| f_height := h; f_hash := hash; f_value := v; f_fee := fee; f_dust := dust |}.
Proof. unfold fee_values. intros H. by res_inv. Qed.

Lemma fee_values_fields h hash v fee dust f : fee_values h hash v fee dust = Ok f ->
  f_height f = h /\ f_hash f = hash /\ f_value f = v /\ f_fee f = fee /\ f_dust f = dust.
Proof. by intros ->%fee_values_Ok. Qed.

(** The rows of a split of the pot over a window are complete. *)
Lemma split_complete a win rows f fee r :
  0 < ca_blockValue a -> win <> [] ->
  NoDup (e_miner <$> win) -> Forall (fun e => 1 <= e_weight e) win ->
  feeOf (ca_blockValue a) bp = Ok fee ->
  splitPot (ca_blockValue a - fee) win = Ok r ->
  mapM (computed_row a (ca_blockValue a - fee) (s_windowWeight r)) (s_amounts r) = Ok rows ->
  fee_values (ca_blockHeight a) (ca_hash a) (ca_blockValue a) fee (s_dust r) = Ok f ->
  complete a rows f /\ zsum_by p_amount rows = zsum_by a_amount (s_amounts r) /\
  length rows = length (s_amounts r).
Proof.
  intros HV Hne Hnd Hw Hfee Hr Hrows Hf.
  assert (0 <= bp <= 10000) as Hbp by (unfold feeOf in Hfee; res_inv; bool_to_prop; lia).
  destruct (feeOf_Ok (ca_blockValue a) bp) as [Hfee' Hrange]; [lia..|].
  rewrite Hfee' in Hfee. injection Hfee as <-. apply fee_values_Ok in Hf as ->.
  set (pot := ca_blockValue a - ca_blockValue a * bp / 10000) in *.
  assert (positive win) as Hpos by (eapply Forall_impl; [exact Hw|]; cbn; lia).
  pose proof (positive_ok _ Hpos) as Hwok. pose proof (positive_weight _ Hpos Hne) as HW.
  destruct (due_sum_bounds pot win) as [Hd0 Hd1]; [lia|done|done|]. specialize (Hd1 Hne).
  rewrite splitPot_eq in Hr by (done || lia). injection Hr as <-. cbn [s_amounts s_windowWeight s_dust] in *.
  assert (rows = (fun x => {| p_height := ca_blockHeight a; p_miner := a_miner x; p_hash := ca_hash a;
      p_amount := a_amount x; p_weight := a_weight x; p_window_weight := weight_of win;
      p_pot := pot; p_computed_at := ca_at a; p_sent_txid := None |}) <$> (amount_of pot (weight_of win) <$> win)) as ->.
  { apply mapM_Ok in Hrows. clear -Hrows. induction Hrows as [|x p l k Hx _ IH]; [done|].
    apply computed_row_Ok in Hx as ->. by rewrite IH. }
  rewrite !zsum_by_fmap, !length_fmap. split; [|done]. split.
  - by rewrite <- !list_fmap_compose.
  - apply Forall_fmap, Forall_fmap, Forall_true. intros e. cbn. done.
  - cbn. done.
  - rewrite !zsum_by_fmap. cbn [f_dust f_fee].
    change (zsum_by _ win) with (zsum_by (due pot (weight_of win)) win). unfold pot. lia.
  - rewrite !length_fmap. cbn [f_dust]. lia.
Qed.

(** Whatever fails, a computation writes nothing or the complete rows of its block. *)
Lemma compute_payouts_db a w : shares_ok (w_db w) -> 0 < ca_blockValue a ->
  let '(r, w') := compute_payouts bp mult a w in
  (w_db w' = w_db w \/
   exists rows f, complete a rows f /\ w_db w' = stored rows f (w_db w)) /\
  (forall fee dust pot amounts win, r = Ok (Computed fee dust pot amounts win) ->
     exists rows f, complete a rows f /\ w_db w' = stored rows f (w_db w) /\
       fee = f_fee f /\ dust = f_dust f /\ pot = ca_blockValue a - fee /\
       length amounts = length rows /\ zsum_by a_amount amounts = zsum_by p_amount rows).
Proof.
  intros Hok HV. unfold compute_payouts. rewrite io_bind_eq.
  destruct (pplnsWindow mult (ca_shareId a) (ca_netTargetHex a) w) as [[win|e] w1] eqn:Hwin.
  2:{ pose proof (pplnsWindow_reads mult (ca_shareId a) (ca_netTargetHex a) w) as Hr.
      rewrite Hwin in Hr. split; [by left|done]. }
  apply pplnsWindow_facts in Hwin as (Hdb & Hnd & Hpos); [|done].
  destruct (win_entries win) as [|e0 es] eqn:Hwe; [split; [by left|done]|]. rewrite <- Hwe in *.
  assert (we_entry <$> win_entries win <> []) as Hne by (rewrite Hwe; done).
  unfold lift, throw, mbind, io_bind.
  destruct (feeOf (ca_blockValue a) bp) as [fee|] eqn:Hfee; cbn [lift_err]; [|split; [by left|done]].
  destruct (splitPot _ _) as [sp|] eqn:Hsp; cbn [lift_err]; [|split; [by left|done]].
  destruct (negb _); [split; [by left|done]|].
  destruct (mapM _ _) as [rows|] eqn:Hrows; [|split; [by left|done]].
  destruct (fee_values _ _ _ _ _) as [f|] eqn:Hf; [|split; [by left|done]].
  destruct (split_complete a _ rows f fee sp HV Hne Hnd Hpos Hfee Hsp Hrows Hf) as (Hc & Hsum & Hlen).
  destruct (run _ _ w1) as [[[]|e] w2] eqn:Hrun.
  all: apply run_one in Hrun as [Hk Hdone]; rewrite Hdb in Hk, Hdone.
  - destruct (Hdone tt eq_refl) as [Hk1 _].
    change (w_db w2 = stored rows f (w_db w)) in Hk1. rename Hk1 into Hw2.
    pose proof (reads_select (count_and_sum (ca_blockHeight a)) w2) as Hsel.
    destruct (select _ w2) as [[chk|e] w3]; cbn [snd] in Hsel; rewrite Hw2 in Hsel.
    2:{ split; [right; by exists rows, f|done]. }
    destruct (_ || _).
    { split; [right; by exists rows, f|done]. }
    split; [right; by exists rows, f|]. intros ? ? ? ? ? [= <- <- <- <- <-].
    exists rows, f. destruct (fee_values_fields _ _ _ _ _ _ Hf) as (_ & _ & _ & <- & <-). auto 8.
  - split; [|done]. destruct Hk as [Hk|Hk]; [by left|]. right. by exists rows, f.
Qed.

Lemma insert_block_rest b d :
  payouts (insert_block b d) = payouts d /\ pool_fees (insert_block b d) = pool_fees d /\
  shares (insert_block b d) = shares d.
Proof. unfold insert_block. by case_decide. Qed.

(** The first call of either operation: the block's row is there, or nothing is. *)
Lemma insert_block_call b w :
  let '(r, w') := run [insert_block b] (fun _ _ => Ok tt) w in
  (w_db w' = w_db w \/ w_db w' = insert_block b (w_db w)) /\
  (is_ok r = true -> w_db w' = insert_block b (w_db w)).
Proof.
  destruct (run _ _ w) as [r w'] eqn:Hrun. apply run_one in Hrun as [Hw Hd].
  split; [done|]. intros [u ->]%is_ok_true. by destruct (Hd u eq_refl).
Qed.

Lemma stored_at a rows f d :
  complete a rows f -> payouts_at (ca_blockHeight a) d = [] ->
  f_height f ∉ f_height <$> pool_fees d ->
  payouts_at (ca_blockHeight a) (stored rows f d) = rows /\ f ∈ pool_fees (stored rows f d) /\
  payouts (stored rows f d) = payouts d ++ rows.
Proof.
  intros [Hm Hr Hf _ _] Hnone Hfresh. unfold stored.
  assert (Forall (fun p => p_height p = ca_blockHeight a) rows) as Hh
    by (eapply Forall_impl; [exact Hr|]; cbn; tauto).
  rewrite insert_payouts_fresh.
  - rewrite insert_fee_fresh by done. split; [|split; [|done]].
    + by apply payouts_at_app.
    + cbn. apply elem_of_app. right. by apply list_elem_of_singleton.
  - rewrite Forall_forall in Hh. clear -Hm Hh. induction rows as [|p rows IH]; [constructor|].
    apply NoDup_cons in Hm as [Hn Hm]. apply NoDup_cons. split.
    + intros Hin. apply Hn. apply list_elem_of_fmap in Hin as (q & Hq & Hin).
      injection Hq as _ Hq. rewrite Hq. by apply list_elem_of_fmap_2.
    + apply IH; [done|]. intros q Hq. apply Hh. by right.
  - intros p Hp Hin. apply list_elem_of_fmap in Hin as (q & Hq & Hin). injection Hq as Hq _.
    apply (payouts_at_none _ _ _ Hnone Hin). rewrite <- Hq.
    by apply (proj1 (Forall_forall _ _) Hh).
Qed.

(** A call that does not get past the [blocks] row, or the rest of the function
    with that row in place. *)
Lemma recordBlockAndComputePayouts_cases a w :
  let b := new_block (ca_hash a) (ca_blockHeight a) (ca_at a) (ca_blockValue a) (ca_finder a) (ca_shareId a) in
  (exists e w', recordBlockAndComputePayouts bp mult a w = (Err e, w') /\
     (w_db w' = w_db w \/ w_db w' = insert_block b (w_db w))) \/
  (0 < ca_blockValue a /\ exists w1, recordBlockAndComputePayouts bp mult a w = resolve_height bp mult a w1 /\
     w_db w1 = insert_block b (w_db w)).
Proof.
  intros b. unfold recordBlockAndComputePayouts.
  destruct (Z.leb_spec (ca_blockValue a) 0) as [|HV]; [left; eexists _, _; split; [done|by left]|].
  unfold lift, mbind, io_bind. destruct (block_values _ _ _ _ _ _) as [[]|e].
  2:{ left. eexists _, _. split; [done|by left]. }
  fold b. pose proof (insert_block_call b w) as Hcall.
  destruct (run [insert_block b] (fun _ _ => Ok tt) w) as [[[]|e] w1]; destruct Hcall as [Hw1 Hw1'].
  - right. split; [done|]. exists w1. auto.
  - left. eexists _, _. split; [done|]. done.
Qed.

(** On a height without rows the rest is the computation. *)
Lemma resolve_height_fresh a w : payouts_at (ca_blockHeight a) (w_db w) = [] ->
  (exists e w', resolve_height bp mult a w = (Err e, w') /\ w_db w' = w_db w) \/
  (exists w1, resolve_height bp mult a w = compute_payouts bp mult a w1 /\ w_db w1 = w_db w).
Proof.
  intros Hn. unfold resolve_height. rewrite io_bind_eq.
  destruct (select _ w) as [[ex|e] w1] eqn:Hsel.
  - right. apply select_Ok in Hsel as (Hex & Hdb & _). rewrite Hn in Hex. injection Hex as <-.
    by exists w1.
  - left. eexists _, _. split; [done|].
    pose proof (reads_select (fun d => Ok (remove_dups (p_hash <$> payouts_at (ca_blockHeight a) d))) w) as Hr.
    by rewrite Hsel in Hr.
Qed.

(** what a block owes is written whole or not at all, and accounts for every satoshi.
    On a height that has no rows, whatever fails, the height ends with no rows, or
    with one row per miner, unsent, each the floor share of the pot by weight, that
    with the fee and the dust of the height's fee row add up to the coinbase value;
    when the call returns the amounts it is the second, and no other height changed. *)
Theorem recordBlockAndComputePayouts_conserves a w :
  db_ok (w_db w) -> payouts_at (ca_blockHeight a) (w_db w) = [] ->
  ca_blockHeight a ∉ f_height <$> pool_fees (w_db w) ->
  let '(r, w') := recordBlockAndComputePayouts bp mult a w in
  ((payouts (w_db w') = payouts (w_db w) /\ pool_fees (w_db w') = pool_fees (w_db w)) \/
   exists f, f ∈ pool_fees (w_db w') /\
     complete a (payouts_at (ca_blockHeight a) (w_db w')) f /\
     payouts (w_db w') = payouts (w_db w) ++ payouts_at (ca_blockHeight a) (w_db w')) /\
  (forall fee dust pot amounts win, r = Ok (Computed fee dust pot amounts win) ->
     exists f, f ∈ pool_fees (w_db w') /\ f_fee f = fee /\ f_dust f = dust /\
       complete a (payouts_at (ca_blockHeight a) (w_db w')) f /\
       zsum_by a_amount amounts + dust + fee = ca_blockValue a).
Proof.
  intros Hok Hnone Hfresh.
  set (b := new_block (ca_hash a) (ca_blockHeight a) (ca_at a) (ca_blockValue a) (ca_finder a) (ca_shareId a)).
  destruct (insert_block_rest b (w_db w)) as (Ep & Ef & _).
  destruct (recordBlockAndComputePayouts_cases a w) as [(e & w' & -> & Hw')|(HV & w1 & -> & Hw1)].
  { split; [|done]. left. fold b in Hw'. destruct Hw' as [->| ->]; auto. }
  fold b in Hw1.
  assert (payouts_at (ca_blockHeight a) (w_db w1) = []) as Hnone1
    by (rewrite Hw1; unfold payouts_at; by rewrite Ep).
  destruct (resolve_height_fresh a w1 Hnone1) as [(e & w' & -> & Hw')|(w2 & -> & Hw2)].
  { split; [|done]. left. rewrite Hw', Hw1. auto. }
  assert (w_db w2 = insert_block b (w_db w)) as Hd2 by congruence.
  assert (shares_ok (w_db w2)) as Hsok by (rewrite Hd2; by apply insert_block_ok).
  rewrite <- Hw2 in Hnone1. rewrite <- Ep, <- Ef, <- Hd2 in *. clear Hw1 Hw2 Hnone.
  pose proof (compute_payouts_db a w2 Hsok HV) as Hc.
  destruct (compute_payouts bp mult a w2) as [r w'].
  assert (forall rows f, complete a rows f -> w_db w' = stored rows f (w_db w2) ->
    payouts_at (ca_blockHeight a) (w_db w') = rows /\ f ∈ pool_fees (w_db w') /\
    payouts (w_db w') = payouts (w_db w2) ++ rows) as Hst.
  { intros rows f Hcp ->. apply (stored_at a); [done|done|].
    by destruct (cp_fee a rows f Hcp) as (-> & _). }
  destruct Hc as [Hc1 Hc2]. split.
  - destruct Hc1 as [Hw'|(rows & f & Hcp & Hw')]; [left; by rewrite Hw'|].
    right. exists f. destruct (Hst rows f Hcp Hw') as (-> & Hf & Hp). auto.
  - intros fee dust pot amounts win Hr.
    destruct (Hc2 _ _ _ _ _ Hr) as (rows & f & Hcp & Hw' & -> & -> & _ & _ & Hsum).
    exists f. destruct (Hst rows f Hcp Hw') as (-> & Hf & Hp). rewrite Hsum.
    repeat split; try done; apply (cp_sum a rows f Hcp) || apply Hcp.
Qed.

Lemma state_of_insert b d other : b_hash b <> other -> state_of other (insert_block b d) = state_of other d.
Proof.
  intros Hne. unfold insert_block. case_decide; [done|]. unfold state_of. cbn.
  rewrite filter_app, filter_cons_False by done. by rewrite filter_nil, app_nil_r.
Qed.

(** a height that has been paid for is final. Recording a block again, or a second
    block at a height whose rows belong to a block the chain has not orphaned,
    changes no payout and no fee and never reports a computation. *)
Theorem settled_height_stands a w :
  payouts_at (ca_blockHeight a) (w_db w) <> [] ->
  (forall p, p ∈ payouts_at (ca_blockHeight a) (w_db w) ->
     p_hash p = ca_hash a \/ state_of (p_hash p) (w_db w) <> Some Orphaned) ->
  let '(r, w') := recordBlockAndComputePayouts bp mult a w in
  payouts (w_db w') = payouts (w_db w) /\ pool_fees (w_db w') = pool_fees (w_db w) /\
  (forall fee dust pot amounts win, r <> Ok (Computed fee dust pot amounts win)).
Proof.
  intros Hne Hold.
  set (b := new_block (ca_hash a) (ca_blockHeight a) (ca_at a) (ca_blockValue a) (ca_finder a) (ca_shareId a)).
  destruct (insert_block_rest b (w_db w)) as (Ep & Ef & _).
  destruct (recordBlockAndComputePayouts_cases a w) as [(e & w' & -> & Hw')|(HV & w1 & -> & Hw1)].
  { fold b in Hw'. destruct Hw' as [->| ->]; auto. }
  fold b in Hw1. rewrite <- Ep, <- Ef, <- Hw1.
  assert (payouts_at (ca_blockHeight a) (w_db w1) = payouts_at (ca_blockHeight a) (w_db w)) as Hat
    by (unfold payouts_at; by rewrite Hw1, Ep).
  unfold resolve_height. rewrite io_bind_eq.
  destruct (select _ w1) as [[ex|e] w2] eqn:Hsel.
  2:{ pose proof (reads_select (fun d => Ok (remove_dups (p_hash <$> payouts_at (ca_blockHeight a) d))) w1) as Hr.
      rewrite Hsel in Hr. cbn in Hr. rewrite Hr. auto. }
  apply select_Ok in Hsel as (Hex & Hdb & _). injection Hex as Hex. rewrite Hat in Hex.
  destruct ex as [|other ex].
  { exfalso. destruct (payouts_at _ (w_db w)) as [|p l] eqn:E; [done|].
    assert (p_hash p ∈ remove_dups (p_hash <$> p :: l)) as Hin by (apply elem_of_remove_dups; by left).
    rewrite Hex in Hin. by apply elem_of_nil in Hin. }
  destruct (String.eqb_spec other (ca_hash a)) as [|Hother]; [cbn; by rewrite Hdb|].
  assert (state_of other (w_db w1) <> Some Orphaned) as Hst.
  { rewrite Hw1, state_of_insert by (cbn; congruence).
    assert (other ∈ p_hash <$> payouts_at (ca_blockHeight a) (w_db w)) as Hin
      by (apply elem_of_remove_dups; rewrite Hex; by left).
    apply list_elem_of_fmap in Hin as (p & -> & Hp). by destruct (Hold p Hp). }
  rewrite io_bind_eq. unfold lift. destruct (lit other); [|by rewrite Hdb].
  rewrite io_bind_eq. destruct (select _ w2) as [[st|e] w3] eqn:Hsel.
  - apply select_Ok in Hsel as (Hq & Hd3 & _). injection Hq as <-. rewrite Hdb in *.
    rewrite decide_False by done. cbn. by rewrite Hd3.
  - pose proof (reads_select (fun d => Ok (state_of other d)) w2) as Hr. rewrite Hsel in Hr.
    cbn in Hr. by rewrite Hr, Hdb.
Qed.
End compute_spec.

(** ** Concrete computations *)

Definition example_compute (hash : string) : compute_args := {|
  ca_hash := hash; ca_blockHeight := 12789; ca_blockValue := 5000000007; ca_finder := "alice";
  ca_shareId := 20; ca_netTargetHex := example_net; ca_at := 1770000000000 |}.

Definition example_world : world := {| w_db := example_db; w_faults := [] |}.

Lemma example_db_ok : db_ok example_db.
Proof. split; [apply example_shares_ok|]. split; constructor. Qed.

Lemma recordBlockAndComputePayouts_conserves_witness :
  exists f, f ∈ pool_fees (w_db (recordBlockAndComputePayouts 200 2 (example_compute "b1") example_world).2) /\
    f_fee f = 100000000 /\ f_dust f = 1 /\
    complete 200 (example_compute "b1") (payouts_at 12789
      (w_db (recordBlockAndComputePayouts 200 2 (example_compute "b1") example_world).2)) f.
Proof.
  pose proof (recordBlockAndComputePayouts_conserves 200 2 (example_compute "b1") example_world
    example_db_ok eq_refl (not_elem_of_nil _)) as H.
  destruct (recordBlockAndComputePayouts 200 2 (example_compute "b1") example_world) as [r w'] eqn:E.
  destruct H as [_ H]. apply (f_equal fst) in E. cbn [fst] in E.
  assert (exists amounts win, r = Ok (Computed 100000000 1 4900000007 amounts win)) as (amounts & win & Hr).
  { rewrite <- E. eexists _, _. vm_compute. reflexivity. }
  destruct (H _ _ _ _ _ Hr) as (f & Hf & H1 & H2 & H3 & _).
  exists f. exact (conj Hf (conj H1 (conj H2 H3))).
Defined.

(** The second of two blocks at one height computes nothing. *)
Lemma settled_height_stands_witness :
  let w := {| w_db := w_db (recordBlockAndComputePayouts 200 2 (example_compute "b1") example_world).2;
              w_faults := [] |} in
  let '(r, w') := recordBlockAndComputePayouts 200 2 (example_compute "b2") w in
  payouts (w_db w') = payouts (w_db w) /\ pool_fees (w_db w') = pool_fees (w_db w) /\
  (forall fee dust pot amounts win, r <> Ok (Computed fee dust pot amounts win)).
Proof.
  intros w. apply settled_height_stands.
  - intros H. apply (f_equal length) in H. vm_compute in H. discriminate H.
  - intros p Hp. right.
    assert (forallb (fun p => negb (bool_decide (state_of (p_hash p) (w_db w) = Some Orphaned)))
              (payouts_at 12789 (w_db w)) = true) as Hall by (vm_compute; reflexivity).
    rewrite forallb_forall in Hall. apply list_elem_of_In in Hp. specialize (Hall p Hp).
    by apply negb_true_iff, bool_decide_eq_false_1 in Hall.
Defined.

(** The two DELETEs that make way for a second block are not in a transaction: torn
    after the first, a retry stores the new block's payouts next to the fee row of
    the orphaned one. *)
Definition orphan_b1 (d : db) : db :=
  with_blocks ((fun b => {| b_hash := b_hash b; b_height := b_height b; b_found_at := b_found_at b;
    b_value := b_value b; b_finder := b_finder b; b_share_id := b_share_id b; b_state := Orphaned;
    b_state_at := b_state_at b; b_confirmations := b_confirmations b;
    b_orphan_strikes := b_orphan_strikes b; b_alarm := b_alarm b |}) <$> blocks d) d.

Lemma torn_delete_keeps_old_fee :
  let d1 := orphan_b1 (w_db (recordBlockAndComputePayouts 200 2 (example_compute "b1") example_world).2) in
  let w2 := (recordBlockAndComputePayouts 200 2 (example_compute "b2")
               {| w_db := d1; w_faults := [Fine; Fine; Fine; Torn [true]] |}).2 in
  let w3 := (recordBlockAndComputePayouts 200 2 (example_compute "b2")
               {| w_db := w_db w2; w_faults := [] |}).2 in
  remove_dups (p_hash <$> payouts_at 12789 (w_db w3)) = ["b2"%string] /\
  f_hash <$> pool_fees (w_db w3) = ["b1"%string].
Proof. by vm_compute. Qed.
