(* ===== verification/CoinbaseLedger.v ===== *)
(** * Blocks whose coinbase paid: the ledger against the chain

    Theorems on [recordBlockPaidByCoinbase] and [reconcileAgainstChain] of
    contrib/pool/store.mjs: the rows are written whole or not at all, recording
    again changes nothing, and a block recorded on a free height reconciles with
    the coinbase it was built with. *)

From S2P Require Import Prelude JsInt Bytes PoolMath StoreDb Shares Ledger.
Local Open Scope Z_scope.


Section paid.
Implicit Types a : paid_args.






(** *** A free height *)




(** *** Recording again *)









(** *** Reconciling *)



End paid.

(** ** Concrete blocks *)

Definition example_block (hash : string) (outs : list payout_output) : paid_args := {|
  ba_hash := hash; ba_height := 12789; ba_value := 5000000000; ba_finder := "alice"; ba_shareId := 7;
  ba_at := 1770000000000; ba_coinbaseTxid := "c0ffee"; ba_outputs := outs; ba_fee := 100000000;
  ba_windowWeight := 778901232 |}.

Definition example_outputs : list payout_output := ps_outputs example_ps.
Definition fresh_world : world := {| w_db := empty_db; w_faults := [] |}.


(** Two blocks of ours at one height: the second block's rows are ignored, and
    reconciling it, whatever its coinbase paid, reports nothing.  The comment on
    [recordBlockPaidByCoinbase] relies on that report. *)
Lemma second_block_not_reconciled :
  let w1 := (recordBlockPaidByCoinbase (example_block "b1" example_outputs) fresh_world).2 in
  let w2 := (recordBlockPaidByCoinbase (example_block "b2" example_outputs) w1).2 in
  payouts (w_db w2) = payouts (w_db w1) /\
  b_hash <$> blocks (w_db w2) = ["b1"%string; "b2"%string] /\
  forall actual, (reconcileAgainstChain 12789 "b2" actual w2).1 = Ok [].
Proof. split; [by vm_compute|]. split; [by vm_compute|]. intros actual. by vm_compute. Qed.
