(* ===== verification/Maturity.v ===== *)
(** * Maturity, orphans and balances (contrib/pool/store.mjs)

    [evaluateBlocks] follows every pending or mature block against the active
    chain; the operator's reads ([stats], [balances], [blocks]) report what it left.
    The theorems give the effect of a pass row by row, and over any number of
    passes when a block is orphaned. *)

From stdpp Require Import pretty.
From S2P Require Import Prelude JsInt Bytes PoolMath StoreDb Shares Ledger.
Local Open Scope Z_scope.

(** ** One pass *)

Record evaluation := {
  ev_matured : list string; ev_dematured : list string; ev_orphaned : list (string * bool);
  ev_alarms : list (string * string); ev_pending : Z; ev_unreadable : Z
}.
Definition no_evaluation : evaluation := {|
  ev_matured := []; ev_dematured := []; ev_orphaned := []; ev_alarms := [];
  ev_pending := 0; ev_unreadable := 0 |}.

Definition add_matured (h : string) (e : evaluation) := {| ev_matured := ev_matured e ++ [h];
  ev_dematured := ev_dematured e; ev_orphaned := ev_orphaned e; ev_alarms := ev_alarms e;
  ev_pending := ev_pending e; ev_unreadable := ev_unreadable e |}.
Definition add_dematured (h : string) (e : evaluation) := {| ev_matured := ev_matured e;
  ev_dematured := ev_dematured e ++ [h]; ev_orphaned := ev_orphaned e; ev_alarms := ev_alarms e;
  ev_pending := ev_pending e; ev_unreadable := ev_unreadable e |}.
Definition add_orphaned (h : string) (wasMature : bool) (e : evaluation) := {| ev_matured := ev_matured e;
  ev_dematured := ev_dematured e; ev_orphaned := ev_orphaned e ++ [(h, wasMature)];
  ev_alarms := ev_alarms e; ev_pending := ev_pending e; ev_unreadable := ev_unreadable e |}.
Definition add_alarm (h msg : string) (e : evaluation) := {| ev_matured := ev_matured e;
  ev_dematured := ev_dematured e; ev_orphaned := ev_orphaned e; ev_alarms := ev_alarms e ++ [(h, msg)];
  ev_pending := ev_pending e; ev_unreadable := ev_unreadable e |}.
Definition add_pending (e : evaluation) := {| ev_matured := ev_matured e;
  ev_dematured := ev_dematured e; ev_orphaned := ev_orphaned e; ev_alarms := ev_alarms e;
  ev_pending := ev_pending e + 1; ev_unreadable := ev_unreadable e |}.
Definition add_unreadable (e : evaluation) := {| ev_matured := ev_matured e;
  ev_dematured := ev_dematured e; ev_orphaned := ev_orphaned e; ev_alarms := ev_alarms e;
  ev_pending := ev_pending e; ev_unreadable := ev_unreadable e + 1 |}.

(** The four UPDATEs. *)
Definition set_strikes (n : Z) (b : block) : block := {|
  b_hash := b_hash b; b_height := b_height b; b_found_at := b_found_at b; b_value := b_value b;
  b_finder := b_finder b; b_share_id := b_share_id b; b_state := b_state b;
  b_state_at := b_state_at b; b_confirmations := b_confirmations b; b_orphan_strikes := n;
  b_alarm := b_alarm b |}.
Definition set_alarm (msg : string) (b : block) : block := {|
  b_hash := b_hash b; b_height := b_height b; b_found_at := b_found_at b; b_value := b_value b;
  b_finder := b_finder b; b_share_id := b_share_id b; b_state := b_state b;
  b_state_at := b_state_at b; b_confirmations := b_confirmations b;
  b_orphan_strikes := b_orphan_strikes b; b_alarm := Some msg |}.
Definition set_orphaned (now confs : Z) (b : block) : block := {|
  b_hash := b_hash b; b_height := b_height b; b_found_at := b_found_at b; b_value := b_value b;
  b_finder := b_finder b; b_share_id := b_share_id b; b_state := Orphaned;
  b_state_at := now; b_confirmations := Some confs;
  b_orphan_strikes := b_orphan_strikes b; b_alarm := b_alarm b |}.
Definition set_mature (now confs : Z) (b : block) : block := {|
  b_hash := b_hash b; b_height := b_height b; b_found_at := b_found_at b; b_value := b_value b;
  b_finder := b_finder b; b_share_id := b_share_id b; b_state := Mature;
  b_state_at := now; b_confirmations := Some confs; b_orphan_strikes := 0; b_alarm := None |}.
Definition set_pending (confs : Z) (b : block) : block := {|
  b_hash := b_hash b; b_height := b_height b; b_found_at := b_found_at b; b_value := b_value b;
  b_finder := b_finder b; b_share_id := b_share_id b; b_state := Pending;
  b_state_at := b_state_at b; b_confirmations := Some confs; b_orphan_strikes := 0; b_alarm := None |}.

(** [UPDATE blocks SET ... WHERE hash=...] *)
Definition update_block (hash : string) (f : block -> block) (d : db) : db :=
  with_blocks ((fun b => if decide (b_hash b = hash) then f b else b) <$> blocks d) d.

(** Payouts of a block that were sent. *)
Definition sent_count (hash : string) (d : db) : Z :=
  Z.of_nat (length (filter (fun p => p_hash p = hash /\ p_sent_txid p <> None) (payouts d))).

(** [ORDER BY height] *)
Definition lower (a b : block) : Prop := b_height a <= b_height b.
#[export] Instance lower_dec : RelDecision lower.
Proof. intros a b. unfold lower. apply _. Defined.

Definition live_blocks (d : db) : list block :=
  merge_sort lower (filter (fun b => b_state b = Pending \/ b_state b = Mature) (blocks d)).

(** The sentence an operator reads; it carries no live counter. *)
Definition alarm_text (height sent : Z) : string :=
  ("height " ++ pretty height ++ " was replaced at its height by a rival block"
   ++ " after " ++ pretty sent ++ " payout(s) were recorded against its coinbase"
   ++ " -- that coinbase is not on the chain, ledger left alone, decide by hand")%string.

Section evaluate.
Context (maturity : Z).

Definition evaluate_block (tip : Z) (hashAt : Z -> option string) (now : Z) (row : block)
    (out : evaluation) : io evaluation :=
  let hash := b_hash row in
  let confs := tip - b_height row + 1 in
  match hashAt (b_height row) with
  | None => mret (add_unreadable out)
  | Some actual =>
      if negb (actual =? hash)%string then
        let strikes := b_orphan_strikes row in
        if strikes + 1 <? 2 then
          _ ← lift (num (strikes + 1)); _ ← lift (lit hash);
          _ ← run [update_block hash (set_strikes (strikes + 1))] (fun _ _ => Ok tt);
          mret (add_pending out)
        else
          _ ← lift (lit hash);
          sent ← select (fun d => Ok (sent_count hash d));
          if 0 <? sent then
            let msg := alarm_text (b_height row) sent in
            _ ← lift (lit msg); _ ← lift (lit hash);
            _ ← run [update_block hash (set_alarm msg)] (fun _ _ => Ok tt);
            mret (add_alarm hash msg out)
          else
            _ ← lift (num now); _ ← lift (num confs); _ ← lift (lit hash);
            _ ← run [update_block hash (set_orphaned now confs)] (fun _ _ => Ok tt);
            mret (add_orphaned hash (bool_decide (b_state row = Mature)) out)
      else if maturity <=? confs then
        _ ← lift (num now); _ ← lift (num confs); _ ← lift (lit hash);
        _ ← run [update_block hash (set_mature now confs)] (fun _ _ => Ok tt);
        mret (if decide (b_state row = Mature) then out else add_matured hash out)
      else
        let out := if decide (b_state row = Mature) then add_dematured hash out else out in
        _ ← lift (num confs); _ ← lift (lit hash);
        _ ← run [update_block hash (set_pending confs)] (fun _ _ => Ok tt);
        mret (add_pending out)
  end.

Fixpoint evaluate_rows (tip : Z) (hashAt : Z -> option string) (now : Z) (rows : list block)
    (out : evaluation) : io evaluation :=
  match rows with
  | [] => mret out
  | row :: rows' =>
      out ← evaluate_block tip hashAt now row out;
      evaluate_rows tip hashAt now rows' out
  end.

(** [null] for the tip: nothing is looked at. *)
Definition evaluateBlocks (tipHeight : option Z) (hashAt : Z -> option string) (now : Z)
    : io (option evaluation) :=
  match tipHeight with
  | None => mret None
  | Some tip =>
      rows ← select (fun d => Ok (live_blocks d));
      out ← evaluate_rows tip hashAt now rows no_evaluation;
      mret (Some out)
  end.
End evaluate.

(** ** The operator's reads *)

Record store_stats := {
  st_shares : Z; st_blocks : Z; st_pending : Z; st_mature : Z; st_orphaned : Z; st_computed : Z
}.

Definition count_state (s : block_state) (d : db) : Z :=
  Z.of_nat (length (filter (fun b => b_state b = s) (blocks d))).

Definition stats : io store_stats :=
  select (fun d =>
    computed ← sql_sum (p_amount <$> payouts d);
    Ok {| st_shares := Z.of_nat (length (shares d)); st_blocks := Z.of_nat (length (blocks d));
          st_pending := count_state Pending d; st_mature := count_state Mature d;
          st_orphaned := count_state Orphaned d; st_computed := computed |}).

Record balance := {
  bal_miner : string; bal_pending : Z; bal_payable : Z; bal_sent : Z; bal_void : Z
}.

(** [payouts p JOIN blocks b ON b.hash = p.block_hash] *)
Definition joined (d : db) : list (payout * block) :=
  p ← payouts d; b ← filter (fun b => b_hash b = p_hash p) (blocks d); [(p, b)].

(** The groups: miner, state, and whether it was sent. *)
Definition group_key (pb : payout * block) : string * block_state * bool :=
  (p_miner pb.1, b_state pb.2, bool_decide (p_sent_txid pb.1 = None)).

Definition add_amount (state : block_state) (amt : Z) (e : balance) : balance :=
  match state with
  | Orphaned => {| bal_miner := bal_miner e; bal_pending := bal_pending e; bal_payable := bal_payable e;
                   bal_sent := bal_sent e; bal_void := bal_void e + amt |}
  | Mature => {| bal_miner := bal_miner e; bal_pending := bal_pending e; bal_payable := bal_payable e;
                 bal_sent := bal_sent e + amt; bal_void := bal_void e |}
  | Pending => {| bal_miner := bal_miner e; bal_pending := bal_pending e + amt; bal_payable := bal_payable e;
                  bal_sent := bal_sent e; bal_void := bal_void e |}
  end.

Definition new_balance (m : string) : balance :=
  {| bal_miner := m; bal_pending := 0; bal_payable := 0; bal_sent := 0; bal_void := 0 |}.

(** The Map keyed by miner, in insertion order. *)
Fixpoint credit (m : string) (state : block_state) (amt : Z) (l : list balance) : list balance :=
  match l with
  | [] => [add_amount state amt (new_balance m)]
  | e :: l' => if (bal_miner e =? m)%string then add_amount state amt e :: l'
               else e :: credit m state amt l'
  end.

Definition group_rows (d : db) : list (string * block_state * bool) :=
  remove_dups (group_key <$> joined d).
Definition group_amount (k : string * block_state * bool) (d : db) : Z :=
  zsum_by (fun pb => p_amount pb.1) (filter (fun pb => group_key pb = k) (joined d)).

Definition balances : io (list balance) :=
  select (fun d =>
    _ ← mapM (fun k => sql_sum (p_amount ∘ fst <$> filter (fun pb => group_key pb = k) (joined d))) (group_rows d);
    Ok (foldl (fun l k => credit k.1.1 k.1.2 (group_amount k d) l) []
          (sort_by (fun k => k.1.1) (group_rows d)))).

Record block_line := {
  bl_height : Z; bl_hash : string; bl_state : block_state; bl_confirmations : option Z;
  bl_value : Z; bl_finder : string; bl_foundAt : Z; bl_paid : Z; bl_fee : Z; bl_dust : Z;
  bl_miners : Z; bl_alarm : option string
}.

Definition payouts_of_block (b : block) (d : db) : list payout :=
  filter (fun p => p_height p = b_height b /\ p_hash p = b_hash b) (payouts d).
Definition fee_at (height : Z) (d : db) : option pool_fee :=
  head (filter (fun f => f_height f = height) (pool_fees d)).

(** [IFNULL(confirmations,-1)], and a negative count is reported as unknown. *)
Definition confirmations_read (c : option Z) : option Z :=
  let v := default (-1) c in if v <? 0 then None else Some v.

Definition line_of (d : db) (b : block) : result store_err block_line :=
  paid ← sql_sum (p_amount <$> payouts_of_block b d);
  Ok {| bl_height := b_height b; bl_hash := b_hash b; bl_state := b_state b;
        bl_confirmations := confirmations_read (b_confirmations b);
        bl_value := b_value b; bl_finder := b_finder b; bl_foundAt := b_found_at b; bl_paid := paid;
        bl_fee := default 0 (f_fee <$> fee_at (b_height b) d);
        bl_dust := default 0 (f_dust <$> fee_at (b_height b) d);
        bl_miners := Z.of_nat (length (payouts_of_block b d));
        bl_alarm := match b_alarm b with Some (String c s) => Some (String c s) | _ => None end |}.

Definition blocks_listing : io (list block_line) :=
  select (fun d => mapM (line_of d) (merge_sort lower (blocks d))).

(** ** What a pass does to one row *)

Section eval_spec.
Context (maturity : Z).

(** One look at the chain. *)
Record look := { lk_tip : Z; lk_hashAt : Z -> option string; lk_now : Z }.

Definition eval_block (l : look) (sent : Z) (b : block) : block :=
  if decide (b_state b = Orphaned) then b else
  let confs := lk_tip l - b_height b + 1 in
  match lk_hashAt l (b_height b) with
  | None => b
  | Some actual =>
      if negb (actual =? b_hash b)%string then
        if b_orphan_strikes b + 1 <? 2 then set_strikes (b_orphan_strikes b + 1) b
        else if 0 <? sent then set_alarm (alarm_text (b_height b) sent) b
        else set_orphaned (lk_now l) confs b
      else if maturity <=? confs then set_mature (lk_now l) confs b
      else set_pending confs b
  end.

Lemma update_call hash f w :
  let '(r, w') := run [update_block hash f] (fun _ _ => Ok tt) w in
  (w_db w' = w_db w \/ w_db w' = update_block hash f (w_db w)) /\
  (is_ok r = true -> w_db w' = update_block hash f (w_db w)).
Proof.
  destruct (run _ _ w) as [r w'] eqn:Hrun. apply run_one in Hrun as [Hw Hd].
  split; [done|]. intros [u ->]%is_ok_true. by destruct (Hd u eq_refl).
Qed.

(** What a row's turn can leave: the tables as they were, or one update that is the
    row's evaluation; and the second when it returns, unless they are the same. *)
Definition turn_ok (l : look) (sent : Z) (row : block) (w : world) (r : result store_err evaluation)
    (w' : world) : Prop :=
  let updated := exists f, w_db w' = update_block (b_hash row) f (w_db w) /\ f row = eval_block l sent row in
  (w_db w' = w_db w \/ updated) /\
  (is_ok r = true -> (w_db w' = w_db w /\ eval_block l sent row = row) \/ updated).

Lemma turn_update l sent row w f (out : evaluation) :
  f row = eval_block l sent row ->
  let '(r, w') := (_ ← run [update_block (b_hash row) f] (fun _ _ => Ok tt); mret out) w in
  turn_ok l sent row w r w'.
Proof.
  intros Hf. rewrite io_bind_eq. pose proof (update_call (b_hash row) f w) as Hu.
  destruct (run _ _ w) as [[u|e] w']; destruct Hu as [H1 H2]; cbn; unfold turn_ok; cbv zeta.
  - specialize (H2 eq_refl). split; right; eauto.
  - split; [|done]. destruct H1; eauto.
Qed.

Lemma turn_same l sent row w (r : result store_err evaluation) w' :
  w_db w' = w_db w -> (is_ok r = true -> eval_block l sent row = row) -> turn_ok l sent row w r w'.
Proof. intros Hd Hr. split; [by left|]. intros Hok. left. auto. Qed.

Lemma lift_turn {A} l sent row w (g : result store_err A) (k : A -> io evaluation) :
  (forall a, g = Ok a -> let '(r, w') := k a w in turn_ok l sent row w r w') ->
  let '(r, w') := (lift g ≫= k) w in turn_ok l sent row w r w'.
Proof.
  intros H. rewrite io_bind_eq. unfold lift. destruct g as [a|e]; [by apply H|]. by apply turn_same.
Qed.

Lemma evaluate_block_turn l row out w :
  b_state row <> Orphaned ->
  let '(r, w') := evaluate_block maturity (lk_tip l) (lk_hashAt l) (lk_now l) row out w in
  turn_ok l (sent_count (b_hash row) (w_db w)) row w r w'.
Proof.
  intros Hlive. unfold evaluate_block.
  destruct (lk_hashAt l (b_height row)) as [actual|] eqn:Hat.
  2:{ apply turn_same; [done|]. unfold eval_block. by rewrite decide_False, Hat. }
  destruct (negb (actual =? b_hash row)%string) eqn:Hneq.
  - destruct (b_orphan_strikes row + 1 <? 2) eqn:Hstr.
    + do 2 (apply lift_turn; intros ? _). apply turn_update.
      unfold eval_block. by rewrite decide_False, Hat, Hneq, Hstr.
    + apply lift_turn; intros ? _. rewrite io_bind_eq.
      destruct (select _ w) as [[sent|e] w1] eqn:Hsel.
      2:{ pose proof (reads_select (fun d => Ok (sent_count (b_hash row) d)) w) as Hr.
          rewrite Hsel in Hr. by apply turn_same. }
      apply select_Ok in Hsel as (Hq & Hd & _). injection Hq as <-.
      assert (forall r w', turn_ok l (sent_count (b_hash row) (w_db w)) row w1 r w' ->
                turn_ok l (sent_count (b_hash row) (w_db w)) row w r w') as Hmove
        by (intros r w'; unfold turn_ok; by rewrite Hd).
      destruct (0 <? sent_count (b_hash row) (w_db w)) eqn:Hs.
      * match goal with |- context [match ?m with pair _ _ => _ end] =>
          enough (let '(r, w') := m in turn_ok l (sent_count (b_hash row) (w_db w)) row w1 r w') as He
            by (destruct m as [r w']; by apply Hmove) end.
        do 2 (apply lift_turn; intros ? _). apply turn_update.
        unfold eval_block. by rewrite decide_False, Hat, Hneq, Hstr, Hs.
      * match goal with |- context [match ?m with pair _ _ => _ end] =>
          enough (let '(r, w') := m in turn_ok l (sent_count (b_hash row) (w_db w)) row w1 r w') as He
            by (destruct m as [r w']; by apply Hmove) end.
        do 3 (apply lift_turn; intros ? _). apply turn_update.
        unfold eval_block. by rewrite decide_False, Hat, Hneq, Hstr, Hs.
  - destruct (maturity <=? lk_tip l - b_height row + 1) eqn:Hm.
    + do 3 (apply lift_turn; intros ? _). apply turn_update.
      unfold eval_block. by rewrite decide_False, Hat, Hneq, Hm.
    + do 2 (apply lift_turn; intros ? _). apply turn_update.
      unfold eval_block. by rewrite decide_False, Hat, Hneq, Hm.
Qed.
End eval_spec.

(** ** What a pass does to the ledger *)

Section pass.
Context (maturity : Z).
Abbreviation ev l d := (fun b => eval_block maturity l (sent_count (b_hash b) d) b).

(** The rows of the hashes in [done] evaluated, the others as they were. *)
Definition partly (l : look) (d : db) (done : list string) : list block :=
  (fun b => if decide (b_hash b ∈ done) then ev l d b else b) <$> blocks d.

Lemma partly_ext l d done done' : (forall h, h ∈ done <-> h ∈ done') -> partly l d done = partly l d done'.
Proof.
  intros H. apply list_fmap_ext. intros i b _. cbn.
  destruct (decide (b_hash b ∈ done)) as [Hd|Hd];
    [rewrite decide_True by (by apply H) | rewrite decide_False by (by rewrite <- H)]; done.
Qed.

Lemma eval_block_hash l sent b : b_hash (eval_block maturity l sent b) = b_hash b.
Proof. unfold eval_block. repeat case_match; done. Qed.

Lemma block_eq d b b' : NoDup (b_hash <$> blocks d) -> b ∈ blocks d -> b' ∈ blocks d ->
  b_hash b = b_hash b' -> b = b'.
Proof.
  intros Hnd Hb Hb' Heq. apply list_elem_of_lookup in Hb as [i Hi], Hb' as [j Hj].
  assert (i = j) as <-; [|congruence].
  eapply NoDup_lookup; [exact Hnd| |]; rewrite list_lookup_fmap; [by rewrite Hi|].
  rewrite Hj. cbn. by rewrite Heq.
Qed.

Lemma partly_update l d done row f :
  NoDup (b_hash <$> blocks d) -> row ∈ blocks d -> b_hash row ∉ done -> f row = ev l d row ->
  (fun b => if decide (b_hash b = b_hash row) then f b else b) <$> partly l d done
  = partly l d (b_hash row :: done).
Proof.
  intros Hnd Hrow Hn Hf. unfold partly. rewrite <- list_fmap_compose.
  apply list_fmap_ext. intros i b Hb. apply list_elem_of_lookup_2 in Hb. cbn.
  destruct (decide (b_hash b = b_hash row)) as [Heq|Hne].
  - assert (b = row) as -> by by eapply block_eq.
    rewrite (decide_False (P := b_hash row ∈ done)) by done.
    rewrite decide_True by done. by rewrite decide_True by (by left).
  - rewrite decide_False.
    + destruct (decide (b_hash b ∈ done)); [rewrite decide_True by (by right)|
        rewrite decide_False by (rewrite elem_of_cons; tauto)]; done.
    + case_decide; [by rewrite eval_block_hash|done].
Qed.

(** Rows are looked at one by one, and each is left as it was or evaluated. *)
Lemma evaluate_rows_pass l d rows out w done :
  NoDup (b_hash <$> blocks d) -> NoDup (b_hash <$> rows) ->
  (forall b, b ∈ rows -> b ∈ blocks d /\ b_state b <> Orphaned /\ b_hash b ∉ done) ->
  w_db w = with_blocks (partly l d done) d ->
  let '(r, w') := evaluate_rows maturity (lk_tip l) (lk_hashAt l) (lk_now l) rows out w in
  exists done', w_db w' = with_blocks (partly l d done') d /\
    (is_ok r = true -> partly l d done' = partly l d ((b_hash <$> rows) ++ done)).
Proof.
  intros Hnd. revert out w done. induction rows as [|row rows IH]; intros out w done Hr Hrows Hw.
  { exists done. done. }
  cbn [evaluate_rows]. rewrite io_bind_eq. rewrite fmap_cons, NoDup_cons in Hr.
  destruct Hr as [Hrow Hr]. destruct (Hrows row) as (Hin & Hlive & Hnew); [by left|].
  pose proof (evaluate_block_turn maturity l row out w Hlive) as Ht.
  assert (sent_count (b_hash row) (w_db w) = sent_count (b_hash row) d) as Hsent by by rewrite Hw.
  rewrite Hsent in Ht.
  assert (forall f, f row = ev l d row ->
    update_block (b_hash row) f (w_db w) = with_blocks (partly l d (b_hash row :: done)) d) as Hup.
  { intros f Hf. rewrite Hw. unfold update_block. cbn [blocks with_blocks].
    rewrite (partly_update l d done row f) by done. done. }
  destruct (evaluate_block _ _ _ _ row out w) as [[out'|e] w1]; destruct Ht as [H1 H2].
  - assert (w_db w1 = with_blocks (partly l d (b_hash row :: done)) d) as Hw1.
    { destruct (H2 eq_refl) as [[Hs He]|(f & Hf & He)]; [|by rewrite Hf, Hup].
      rewrite Hs, Hw, <- (partly_update l d done row id) by done.
      f_equal. symmetry. etransitivity; [|apply list_fmap_id].
      apply list_fmap_ext. intros i x _. by case_decide. }
    specialize (IH out' w1 (b_hash row :: done) Hr).
    destruct (evaluate_rows _ _ _ _ rows out' w1) as [r w'].
    destruct IH as (done' & Hd & Hok); [|done|].
    + intros b Hb. destruct (Hrows b) as (? & ? & ?); [by right|]. split; [done|]. split; [done|].
      intros [Heq|?]%elem_of_cons; [|done]. apply Hrow. rewrite <- Heq. by apply list_elem_of_fmap_2.
    + exists done'. split; [done|]. intros Hr'. rewrite (Hok Hr'). apply partly_ext.
      intros h. rewrite fmap_cons, !elem_of_app, !elem_of_cons. tauto.
  - destruct H1 as [Hs|(f & Hf & He)].
    + exists done. split; [congruence|done].
    + exists (b_hash row :: done). split; [by rewrite Hf, Hup|done].
Qed.

Lemma partly_none l d : partly l d [] = blocks d.
Proof.
  unfold partly. etransitivity; [|apply list_fmap_id]. apply list_fmap_ext.
  intros i b _. rewrite decide_False; [done|]. apply not_elem_of_nil.
Qed.

Lemma partly_live l d : NoDup (b_hash <$> blocks d) ->
  partly l d (b_hash <$> live_blocks d) = ev l d <$> blocks d.
Proof.
  intros Hnd. apply list_fmap_ext. intros i b Hb. apply list_elem_of_lookup_2 in Hb. cbn.
  case_decide as Hin; [done|]. unfold eval_block. rewrite decide_True; [done|].
  destruct (decide (b_state b = Orphaned)) as [|Hlive]; [done|]. exfalso. apply Hin.
  apply list_elem_of_fmap_2. unfold live_blocks. rewrite merge_sort_Permutation.
  apply list_elem_of_filter. split; [|done]. destruct (b_state b); [by left|by right|done].
Qed.

(** a pass touches nothing but the blocks' own rows, and each of them only as the
    chain says. Whatever fails, every row is as it was or is its evaluation - unread:
    unchanged; replaced once: one strike; replaced again: an alarm if any payout was
    sent, orphaned if none was; on the chain: mature or pending by depth, strikes
    cleared - and when the pass returns every row is its evaluation. No payout, fee
    or share changes, and an unreadable tip changes nothing. *)
Theorem evaluateBlocks_pass l w :
  ledger_ok (w_db w) ->
  w_db (evaluateBlocks maturity None (lk_hashAt l) (lk_now l) w).2 = w_db w /\
  let '(r, w') := evaluateBlocks maturity (Some (lk_tip l)) (lk_hashAt l) (lk_now l) w in
  payouts (w_db w') = payouts (w_db w) /\ pool_fees (w_db w') = pool_fees (w_db w) /\
  shares (w_db w') = shares (w_db w) /\
  Forall2 (fun b b' => b' = b \/ b' = ev l (w_db w) b) (blocks (w_db w)) (blocks (w_db w')) /\
  (is_ok r = true -> blocks (w_db w') = ev l (w_db w) <$> blocks (w_db w)).
Proof.
  intros [Hnd _ _]. split; [done|]. set (d := w_db w) in *.
  assert (forall (done : list string) b, b ∈ blocks d ->
    (fun b b' => b' = b \/ b' = ev l d b) b (if decide (b_hash b ∈ done) then ev l d b else b)) as Hpt
    by (intros done b _; cbv beta; destruct (decide (b_hash b ∈ done)); auto).
  assert (forall (done : list string), Forall2 (fun b b' => b' = b \/ b' = ev l d b) (blocks d) (partly l d done)) as Hf2.
  { intros done. apply Forall2_fmap_r, Forall_Forall2_diag, Forall_forall. auto. }
  cbn [evaluateBlocks]. rewrite io_bind_eq. destruct (select _ w) as [[rows|e] w1] eqn:Hsel.
  2:{ pose proof (reads_select (fun d => Ok (live_blocks d)) w) as Hr. rewrite Hsel in Hr. cbn in Hr.
      rewrite Hr. do 3 (split; [done|]). split; [|done]. fold d. rewrite <- (partly_none l d) at 2. apply Hf2. }
  apply select_Ok in Hsel as (Hq & Hd & _). injection Hq as <-. fold d in Hd |- *.
  pose proof (evaluate_rows_pass l d (live_blocks d) no_evaluation w1 [] Hnd) as Hpass.
  rewrite io_bind_eq. destruct (evaluate_rows _ _ _ _ _ _ w1) as [r w2].
  destruct Hpass as (done' & Hw2 & Hok).
  - unfold live_blocks. rewrite merge_sort_Permutation. by apply NoDup_fmap_filter.
  - intros b Hb. unfold live_blocks in Hb. rewrite merge_sort_Permutation in Hb.
    apply list_elem_of_filter in Hb as [Hs Hb]. split; [done|]. split; [|apply not_elem_of_nil].
    intros E. rewrite E in Hs. naive_solver.
  - rewrite Hd, partly_none. by destruct d.
  - rewrite app_nil_r, partly_live in Hok by done.
    destruct r as [out|e]; cbn; rewrite Hw2; do 3 (split; [done|]); cbn [blocks with_blocks].
    + split; [apply Hf2|]. intros _. by apply Hok.
    + split; [apply Hf2|done].
Qed.
End pass.

(** ** Any number of passes *)

Section strikes.
Context (maturity : Z).

Inductive view := Unreadable | Same | Other.
#[export] Instance view_eq_dec : EqDecision view.
Proof. solve_decision. Defined.

Definition view_of (b : block) (l : look) : view :=
  match lk_hashAt l (b_height b) with
  | None => Unreadable
  | Some actual => if (actual =? b_hash b)%string then Same else Other
  end.

Definition watch (sent : Z) (b : block) (ls : list look) : block :=
  foldl (fun b l => eval_block maturity l sent b) b ls.

Definition readings (b : block) (ls : list look) : list view :=
  filter (fun v => v <> Unreadable) (view_of b <$> ls).

Lemma eval_block_view l sent b l' : view_of (eval_block maturity l sent b) l' = view_of b l'.
Proof. unfold eval_block. repeat case_match; done. Qed.

Lemma readings_eval l sent b ls : readings (eval_block maturity l sent b) ls = readings b ls.
Proof.
  unfold readings. f_equal. apply list_fmap_ext. intros i l' _. apply eval_block_view.
Qed.

Lemma watch_orphaned sent b ls : b_state b = Orphaned -> watch sent b ls = b.
Proof.
  revert b. induction ls as [|l ls IH]; intros b Hb; [done|]. cbn [watch foldl].
  assert (eval_block maturity l sent b = b) as -> by (unfold eval_block; by rewrite decide_True).
  by apply IH.
Qed.

Lemma view_cases l sent b : b_state b <> Orphaned ->
  match view_of b l with
  | Unreadable => eval_block maturity l sent b = b
  | Same => b_state (eval_block maturity l sent b) <> Orphaned /\
            b_orphan_strikes (eval_block maturity l sent b) = 0
  | Other =>
      if b_orphan_strikes b + 1 <? 2 then
        b_state (eval_block maturity l sent b) <> Orphaned /\
        b_orphan_strikes (eval_block maturity l sent b) = b_orphan_strikes b + 1
      else if 0 <? sent then
        b_state (eval_block maturity l sent b) <> Orphaned /\
        b_orphan_strikes (eval_block maturity l sent b) = b_orphan_strikes b
      else b_state (eval_block maturity l sent b) = Orphaned
  end.
Proof.
  intros Hb. unfold eval_block, view_of. rewrite decide_False by done.
  destruct (lk_hashAt l (b_height b)) as [actual|]; [|done].
  destruct (actual =? b_hash b)%string; cbn [negb].
  - by destruct (maturity <=? _).
  - destruct (b_orphan_strikes b + 1 <? 2); [done|]. by destruct (0 <? sent).
Qed.

(** Two readings in a row, the first possibly already on the row as a strike. *)
Definition twice (struck : bool) (vs : list view) : Prop :=
  (struck = true /\ exists vs', vs = Other :: vs') \/ exists h t, vs = h ++ Other :: Other :: t.

Lemma twice_same vs : twice false (Same :: vs) <-> twice false vs.
Proof.
  unfold twice. split; intros [[? _]|(h & t & E)]; try done; right.
  - destruct h as [|v h]; [done|]. injection E as _ ->. eauto.
  - exists (Same :: h), t. by rewrite E.
Qed.

Lemma twice_struck_same vs : twice true (Same :: vs) <-> twice false vs.
Proof.
  rewrite <- twice_same. unfold twice. split; intros [[? H]|H]; try done; auto.
  destruct H as (vs' & [=]).
Qed.

Lemma twice_other vs : twice false (Other :: vs) <-> twice true vs.
Proof.
  unfold twice. split.
  - intros [[? _]|(h & t & E)]; [done|]. destruct h as [|v h]; injection E as E; subst.
    + left. eauto.
    + right. eauto.
  - intros [[_ (vs' & ->)]|(h & t & ->)]; right; [by exists [], vs'|by exists (Other :: h), t].
Qed.

Lemma twice_struck_other vs : twice true (Other :: vs).
Proof. left. eauto. Qed.

Lemma watch_spec sent b ls : b_state b <> Orphaned -> 0 <= b_orphan_strikes b ->
  (b_state (watch sent b ls) = Orphaned <->
   sent <= 0 /\ twice (1 <=? b_orphan_strikes b) (readings b ls)).
Proof.
  revert b. induction ls as [|l ls IH]; intros b Hb Hs; cbn [watch foldl].
  { split; [done|]. intros [_ [[_ (? & [=])]|([] & ? & [=])]]. }
  change (foldl _ (eval_block maturity l sent b) ls) with (watch sent (eval_block maturity l sent b) ls).
  pose proof (view_cases l sent b Hb) as Hv. unfold readings. rewrite fmap_cons, filter_cons.
  fold (readings b ls). rewrite <- (readings_eval l sent b ls).
  destruct (view_of b l); cbn [negb].
  - rewrite decide_False by naive_solver. rewrite !Hv. by apply IH.
  - destruct Hv as [Hv Hz]. rewrite decide_True by done. rewrite IH, Hz by (done || lia).
    change (1 <=? 0) with false.
    destruct (1 <=? b_orphan_strikes b); [rewrite twice_struck_same | rewrite twice_same]; done.
  - rewrite decide_True by done. destruct (Z.ltb_spec (b_orphan_strikes b + 1) 2) as [H2|H2].
    + destruct Hv as [Hv Hz]. rewrite IH, Hz by (done || lia).
      replace (b_orphan_strikes b) with 0 by lia. cbn [Z.add]. change (1 <=? 1) with true.
      change (1 <=? 0) with false. by rewrite twice_other.
    + rewrite (proj2 (Z.leb_le 1 (b_orphan_strikes b))) by lia.
      destruct (Z.ltb_spec 0 sent) as [Hpos|Hnone].
      * destruct Hv as [Hv Hz]. rewrite IH by (done || lia). split; intros [? _]; lia.
      * rewrite watch_orphaned by done. rewrite Hv. split; [|done]. intros _.
        split; [lia|]. apply twice_struck_other.
Qed.

(** a block is voided on two looks in a row, never on one, and never once anything
    was sent. Over any sequence of looks, a block that starts live and unstruck ends
    orphaned exactly when none of its payouts was sent and, with the looks at which
    the node could not be read left out, two successive ones found another hash at
    its height. *)
Theorem orphaned_on_two_looks sent b ls :
  b_state b <> Orphaned -> b_orphan_strikes b = 0 ->
  (b_state (watch sent b ls) = Orphaned <->
   sent <= 0 /\ exists before after, readings b ls = before ++ Other :: Other :: after).
Proof.
  intros Hb Hs. rewrite watch_spec, Hs by (done || lia). change (1 <=? 0) with false.
  unfold twice. split; intros [? H]; (split; [done|]); [destruct H as [[? _]|H]; done|by right].
Qed.
End strikes.

(** ** Balances *)

Section balances.
Definition field (s : block_state) (e : balance) : Z :=
  match s with Pending => bal_pending e | Mature => bal_sent e | Orphaned => bal_void e end.
Definition field_in (l : list balance) (m : string) (s : block_state) : Z :=
  zsum_by (field s) (filter (fun e => bal_miner e = m) l).
Definition matches (m : string) (s : block_state) (amt : Z) (m' : string) (s' : block_state) : Z :=
  if decide (m = m' /\ s = s') then amt else 0.

Lemma add_amount_field s amt e s' :
  field s' (add_amount s amt e) = field s' e + matches (bal_miner e) s amt (bal_miner e) s' /\
  bal_miner (add_amount s amt e) = bal_miner e.
Proof.
  split; [|by destruct s]. unfold matches. destruct (decide _) as [[_ ->]|Hn].
  - destruct s'; cbn; lia.
  - destruct s, s'; cbn; solve [lia | destruct Hn; done].
Qed.

Lemma credit_field m s amt l m' s' :
  field_in (credit m s amt l) m' s' = field_in l m' s' + matches m s amt m' s'.
Proof.
  unfold field_in. induction l as [|e l IH]; cbn [credit].
  - rewrite filter_cons, filter_nil. destruct (add_amount_field s amt (new_balance m) s') as [Hf Hm].
    rewrite Hm. cbn [bal_miner new_balance] in *. case_decide as Hd.
    + rewrite zsum_by_cons, zsum_by_nil, Hf, Hd. destruct s'; cbn; lia.
    + unfold matches. rewrite decide_False by tauto. rewrite zsum_by_nil. lia.
  - destruct (String.eqb_spec (bal_miner e) m) as [Heq|Hne].
    + subst m. destruct (add_amount_field s amt e s') as [Hf Hm]. rewrite !filter_cons, Hm. case_decide as Hd.
      * subst m'. rewrite !zsum_by_cons, Hf. lia.
      * unfold matches. rewrite decide_False by tauto. lia.
    + rewrite !filter_cons. case_decide as Hd; rewrite ?zsum_by_cons, IH; lia.
Qed.

Lemma credit_miners m s amt l :
  NoDup (bal_miner <$> l) -> NoDup (bal_miner <$> credit m s amt l) /\
  (forall x, x ∈ bal_miner <$> credit m s amt l <-> x = m \/ x ∈ bal_miner <$> l).
Proof.
  induction l as [|e l IH]; intros Hnd; cbn [credit].
  - assert (bal_miner (add_amount s amt (new_balance m)) = m) as Hm by by destruct s.
    rewrite fmap_cons, Hm. split; [apply NoDup_singleton|]. intros x.
    rewrite elem_of_cons. cbn. rewrite elem_of_nil. tauto.
  - rewrite fmap_cons, NoDup_cons in Hnd. destruct Hnd as [Hn Hnd].
    destruct (String.eqb_spec (bal_miner e) m) as [<-|Hne].
    + assert (bal_miner (add_amount s amt e) = bal_miner e) as Hm by by destruct s.
      rewrite !fmap_cons, Hm, NoDup_cons. split; [done|]. intros x. rewrite elem_of_cons. tauto.
    + destruct (IH Hnd) as [H1 H2]. rewrite !fmap_cons, NoDup_cons, H2. split; [split; [|done]; tauto|].
      intros x. rewrite !elem_of_cons, H2. tauto.
Qed.

Definition credit_all (d : db) (ks : list (string * block_state * bool)) (l : list balance) : list balance :=
  foldl (fun l k => credit k.1.1 k.1.2 (group_amount k d) l) l ks.

Lemma credit_all_spec d ks l m s : NoDup (bal_miner <$> l) ->
  NoDup (bal_miner <$> credit_all d ks l) /\
  field_in (credit_all d ks l) m s =
    field_in l m s + zsum_by (fun k => matches k.1.1 k.1.2 (group_amount k d) m s) ks.
Proof.
  revert l. induction ks as [|k ks IH]; intros l Hnd; cbn [credit_all foldl].
  - rewrite zsum_by_nil. split; [done|lia].
  - destruct (credit_miners k.1.1 k.1.2 (group_amount k d) l Hnd) as [Hnd' _].
    destruct (IH _ Hnd') as [H1 H2]. split; [done|].
    change (foldl _ ?x ks) with (credit_all d ks x). rewrite H2, credit_field, zsum_by_cons. lia.
Qed.

Lemma groups_total d m s :
  zsum_by (fun k => matches k.1.1 k.1.2 (group_amount k d) m s) (group_rows d) =
  zsum_by (fun pb => p_amount pb.1)
    (filter (fun pb => p_miner pb.1 = m /\ b_state pb.2 = s) (joined d)).
Proof.
  set (f := fun pb : payout * block => matches (p_miner pb.1) (b_state pb.2) (p_amount pb.1) m s).
  transitivity (zsum_by f (joined d)).
  - rewrite <- (zsum_by_groups group_key f (group_rows d)).
    + apply zsum_by_ext. intros k _. unfold group_amount, matches, f.
      destruct (decide (k.1.1 = m /\ k.1.2 = s)) as [Hk|Hk].
      * apply zsum_by_ext. intros pb Hpb. apply list_elem_of_filter in Hpb as [<- _].
        unfold matches. by rewrite decide_True.
      * symmetry. apply zsum_by_zero. intros pb Hpb.
        apply list_elem_of_filter in Hpb as [<- _]. unfold matches. by rewrite decide_False.
    + apply NoDup_remove_dups.
    + intros pb Hpb. by apply elem_of_remove_dups, list_elem_of_fmap_2.
  - unfold f. induction (joined d) as [|pb l IH]; [done|]. rewrite zsum_by_cons, filter_cons, IH.
    unfold matches. case_decide; [by rewrite zsum_by_cons | done].
Qed.

(** a miner's balance is its payouts by the state of their blocks. The report has one
    line per miner; what it calls pending, sent and void is exactly the sum of that
    miner's payouts from blocks that are pending, mature and orphaned; and nothing is
    called payable, since the coinbase paid. *)
Theorem balances_exact w l w' : balances w = (Ok l, w') ->
  NoDup (bal_miner <$> l) /\
  forall e s, e ∈ l ->
    field s e = zsum_by (fun pb => p_amount pb.1)
      (filter (fun pb => p_miner pb.1 = bal_miner e /\ b_state pb.2 = s) (joined (w_db w))).
Proof.
  intros H. apply select_Ok in H as (Hq & _ & _). apply bind_Ok in Hq as (x & _ & Hq).
  injection Hq as Hq. set (d := w_db w) in *.
  assert (forall m s, NoDup (bal_miner <$> l) /\ field_in l m s =
    zsum_by (fun pb => p_amount pb.1)
      (filter (fun pb => p_miner pb.1 = m /\ b_state pb.2 = s) (joined d))) as Hall.
  { intros m s. destruct (credit_all_spec d (sort_by (fun k => k.1.1) (group_rows d)) [] m s) as [H1 H2];
      [constructor|]. unfold credit_all in H1, H2. rewrite Hq in H1, H2. split; [done|].
    rewrite H2, (zsum_by_perm _ _ _ (sort_by_perm _ _)), groups_total. done. }
  split; [by apply (Hall "" Pending)|]. intros e s He.
  destruct (Hall (bal_miner e) s) as [Hnd <-]. unfold field_in. clear -Hnd He.
  induction l as [|x l IH]; [by apply elem_of_nil in He|].
  rewrite fmap_cons, NoDup_cons in Hnd. destruct Hnd as [Hn Hnd]. rewrite filter_cons.
  apply elem_of_cons in He as [->|He].
  - rewrite decide_True, zsum_by_cons, filter_none, zsum_by_nil by
      (done || (apply Forall_forall; intros y Hy Heq; apply Hn; rewrite <- Heq; by apply list_elem_of_fmap_2)).
    lia.
  - rewrite decide_False; [by apply IH|]. intros Heq. apply Hn. rewrite Heq. by apply list_elem_of_fmap_2.
Qed.
End balances.

(** ** A concrete chain *)

Definition example_paid_block (hash : string) (height : Z) : block :=
  new_block hash height 1770000000000 5000000000 "alice" 7.

Definition example_ledger : db := {|
  shares := []; share_seq := 0;
  blocks := [example_paid_block "b1" 100; example_paid_block "b2" 101; example_paid_block "b3" 150];
  payouts := [{| p_height := 100; p_miner := "alice"; p_hash := "b1"; p_amount := 4900000000;
                 p_weight := 1; p_window_weight := 1; p_pot := 4900000000; p_computed_at := 0;
                 p_sent_txid := Some "c0ffee"%string |};
              {| p_height := 101; p_miner := "alice"; p_hash := "b2"; p_amount := 4900000000;
                 p_weight := 1; p_window_weight := 1; p_pot := 4900000000; p_computed_at := 0;
                 p_sent_txid := None |}];
  pool_fees := [] |}.

Definition rival_look : look := {|
  lk_tip := 205; lk_hashAt := fun h => if h =? 100 then Some "rival"%string
    else if h =? 101 then Some "rival"%string else if h =? 150 then Some "b3"%string else None;
  lk_now := 1770000100000 |}.

Lemma example_ledger_ok : ledger_ok example_ledger.
Proof. split; apply (bool_decide_unpack (NoDup _)); by vm_compute. Qed.

Definition example_ledger_world : world := {| w_db := example_ledger; w_faults := [] |}.

Lemma evaluateBlocks_pass_witness :
  let '(r, w') := evaluateBlocks 100 (Some 205) (lk_hashAt rival_look) (lk_now rival_look) example_ledger_world in
  is_ok r = true /\ payouts (w_db w') = payouts example_ledger /\
  (is_ok r = true -> blocks (w_db w') =
     (fun b => eval_block 100 rival_look (sent_count (b_hash b) example_ledger) b) <$> blocks example_ledger).
Proof.
  pose proof (evaluateBlocks_pass 100 rival_look example_ledger_world example_ledger_ok) as [_ H].
  change (Some (lk_tip rival_look)) with (Some 205) in H.
  assert (is_ok (evaluateBlocks 100 (Some 205) (lk_hashAt rival_look) (lk_now rival_look)
            example_ledger_world).1 = true) as Hok by (vm_compute; reflexivity).
  destruct (evaluateBlocks 100 (Some 205) _ _ _) as [r w'].
  destruct H as (H1 & _ & _ & _ & H5). exact (conj Hok (conj H1 H5)).
Defined.

Lemma orphaned_on_two_looks_witness :
  b_state (watch 100 0 (example_paid_block "b2" 101) [rival_look; rival_look]) = Orphaned <->
  0 <= 0 /\ exists before after,
    readings (example_paid_block "b2" 101) [rival_look; rival_look] = before ++ Other :: Other :: after.
Proof. apply orphaned_on_two_looks; [discriminate | reflexivity]. Defined.

Lemma balances_exact_witness :
  let l := ok_or [] (balances example_ledger_world).1 in
  NoDup (bal_miner <$> l) /\
  forall e s, e ∈ l -> field s e = zsum_by (fun pb => p_amount pb.1)
    (filter (fun pb => p_miner pb.1 = bal_miner e /\ b_state pb.2 = s) (joined example_ledger)).
Proof.
  intros l. apply (balances_exact example_ledger_world l example_ledger_world). vm_compute. reflexivity.
Defined.

(** A block recorded with its coinbase's txid on every row alarms and is never voided,
    so the report's "void" column stays empty for it. *)
Lemma sent_block_never_orphaned ls :
  b_state (watch 100 (sent_count "b1" example_ledger) (example_paid_block "b1" 100) ls) <> Orphaned.
Proof.
  assert (forall b, b_state b <> Orphaned -> b_state (watch 100 1 b ls) <> Orphaned) as H;
    [|by apply H].
  induction ls as [|l ls IH]; intros b Hb; [done|]. cbn [watch foldl]. apply IH.
  pose proof (view_cases 100 l 1 b Hb) as Hv. destruct (view_of b l).
  - by rewrite Hv.
  - by destruct Hv.
  - destruct (b_orphan_strikes b + 1 <? 2); by destruct Hv.
Qed.
