(* ===== verification/Pipes.v ===== *)
(** * The two child processes behind a pipe

    The clients of the sqlite3 process ([Sqlite], contrib/pool/store.mjs) and of the
    RandomX validator ([Validator], contrib/pool/pool.mjs): requests are written to a
    child that answers in order, and each answer is given to the oldest waiter.
    The theorems say when an answer belongs to the request that gets it. *)

From S2P Require Import Prelude.
Local Open Scope Z_scope.

(** ** The validator *)

Module Validator.
(** What the child prints for a request. *)
Record answer := { an_ok : bool; an_err : bool; an_hash : option string }.
Definition gone : answer := {| an_ok := false; an_err := true; an_hash := Some "validator"%string |}.

Record client := {
  q : list nat;                        (* waiting checks, oldest first *)
  shed : Z;
  alive : bool;
  resolved : list (nat * answer)
}.
Definition maxQueue : nat := 2000.
Definition initial : client := {| q := []; shed := 0; alive := true; resolved := [] |}.

Inductive outcome := Dead | Busy | Queued.

(** [check(headerHex, targetHex, force)]: the answer to the caller, or a place in the queue. *)
Definition check (ticket : nat) (force : bool) (c : client) : outcome * client :=
  if negb (alive c) then (Dead, c)
  else if negb force && bool_decide (maxQueue <= length (q c))%nat then
    (Busy, {| q := q c; shed := shed c + 1; alive := alive c; resolved := resolved c |})
  else (Queued, {| q := q c ++ [ticket]; shed := shed c; alive := alive c; resolved := resolved c |}).

(** A line on stdout goes to the oldest waiter. *)
Definition on_line (a : answer) (c : client) : client :=
  match q c with
  | [] => c
  | t :: q' => {| q := q'; shed := shed c; alive := alive c; resolved := resolved c ++ [(t, a)] |}
  end.

(** The child exits: everything waiting is told [err validator gone]. *)
Definition on_exit (c : client) : client :=
  {| q := []; shed := shed c; alive := false;
     resolved := resolved c ++ ((fun t => (t, gone)) <$> q c) |}.

(** The child reads the requests in order and prints one line for each. *)
Record system := { cl : client; pipe : list nat }.

Section runs.
Context (verdict : nat -> answer).

Inductive step : system -> system -> Prop :=
  | s_check s t force c' :
      t ∉ q (cl s) -> t ∉ (resolved (cl s)).*1 ->
      check t force (cl s) = (Queued, c') ->
      step s {| cl := c'; pipe := pipe s ++ [t] |}
  | s_refused s t force r c' :
      check t force (cl s) = (r, c') -> r <> Queued ->
      step s {| cl := c'; pipe := pipe s |}
  | s_line s t p :
      alive (cl s) = true -> pipe s = t :: p ->
      step s {| cl := on_line (verdict t) (cl s); pipe := p |}
  | s_exit s :
      alive (cl s) = true -> step s {| cl := on_exit (cl s); pipe := [] |}.

Definition invariant (s : system) : Prop :=
  (alive (cl s) = true -> q (cl s) = pipe s) /\ (alive (cl s) = false -> q (cl s) = []) /\
  NoDup (q (cl s) ++ (resolved (cl s)).*1) /\
  (forall t a, (t, a) ∈ resolved (cl s) -> a = verdict t \/ (a = gone /\ alive (cl s) = false)).

Lemma v_invariant_step s s' : invariant s -> step s s' -> invariant s'.
Proof.
  intros (Hq & Hdead & Hnd & Hr) Hstep. destruct Hstep as [s t force c' Hn Hn' Hc|s t force r c' Hc Hne|s t p Ha Hp|s Ha].
  - unfold check in Hc. destruct (alive (cl s)) eqn:Ea; [|done]. cbn [negb] in Hc.
    destruct (_ && _) in Hc; [done|]. injection Hc as <-. unfold invariant. cbn.
    split; [intros _; by rewrite Hq|]. split; [done|]. split.
    + rewrite <- app_assoc. apply NoDup_app in Hnd as (H1 & H2 & H3). apply NoDup_app. split; [done|].
      split; [|by apply NoDup_cons]. intros x Hx [->|Hin]%elem_of_cons; [done|]. by apply (H2 x).
    + intros x a Hin. destruct (Hr x a Hin) as [|[_ ?]]; [by left|congruence].
  - assert (q c' = q (cl s) /\ alive c' = alive (cl s) /\ resolved c' = resolved (cl s)) as (E1 & E2 & E3).
    { unfold check in Hc. destruct (negb (alive (cl s))); [by injection Hc as <- <-|].
      destruct (_ && _) in Hc; injection Hc as <- <-; done. }
    unfold invariant. cbn. rewrite E1, E2, E3. auto.
  - unfold invariant, on_line. cbn. rewrite Hq, Hp in * by done. cbn [q alive resolved].
    split; [done|]. split; [congruence|]. split.
    + rewrite fmap_app, app_assoc, (Permutation_app_comm _ [t]). done.
    + intros x a [Hin|Hin]%elem_of_app; [destruct (Hr x a Hin) as [|[_ ?]]; [by left|congruence]|].
      apply list_elem_of_singleton in Hin. injection Hin as -> ->. by left.
  - unfold invariant, on_exit. cbn. split; [done|]. split; [done|]. split.
    + rewrite fmap_app, <- list_fmap_compose. change (fst ∘ _) with (fun x : nat => x).
      rewrite list_fmap_id, Permutation_app_comm. done.
    + intros x a [Hin|Hin]%elem_of_app.
      * destruct (Hr x a Hin) as [|[_ ?]]; [by left|congruence].
      * apply list_elem_of_fmap in Hin as (y & [= -> ->] & _). by right.
Qed.

(** a verdict is given to the share it is about. In every run of the pool and its
    validator, however checks, answers, refusals and the child's death interleave,
    each check is answered at most once and with the verdict on its own header -
    or with an error, and then only after the child is gone. *)
Theorem verdicts_match s : rtc step {| cl := initial; pipe := [] |} s ->
  NoDup ((resolved (cl s)).*1) /\
  forall t a, (t, a) ∈ resolved (cl s) -> a = verdict t \/ (a = gone /\ alive (cl s) = false).
Proof.
  intros Hrun. assert (invariant s) as (_ & _ & Hnd & Hr).
  { eapply (rtc_invariant step invariant); [exact v_invariant_step| |exact Hrun].
    do 2 (split; [done|]). split; [constructor|]. intros t a Hin. by apply elem_of_nil in Hin. }
  split; [|done]. by apply NoDup_app in Hnd as (_ & _ & ?).
Qed.

(** Backpressure: a check that is not forced is queued only below the bound. *)
Lemma queue_bounded t c c' : check t false c = (Queued, c') -> (length (q c') <= maxQueue)%nat.
Proof.
  unfold check. destruct (negb (alive c)); [done|]. cbn [negb andb].
  destruct (bool_decide (maxQueue <= length (q c))%nat) eqn:Hb; [done|]. intros [= <-].
  apply bool_decide_eq_false_1 in Hb. cbn. rewrite length_app. cbn. lia.
Qed.
End runs.

Lemma verdicts_match_witness :
  let verdict t := {| an_ok := Nat.even t; an_err := false; an_hash := None |} in
  let s := {| cl := {| q := [8%nat]; shed := 0; alive := true; resolved := [(7%nat, verdict 7%nat)] |};
              pipe := [8%nat] |} in
  NoDup ((resolved (cl s)).*1) /\
  forall t a, (t, a) ∈ resolved (cl s) -> a = verdict t \/ (a = gone /\ alive (cl s) = false).
Proof.
  intros verdict s. apply (verdicts_match verdict s).
  eapply rtc_l; [eapply (s_check _ _ 7%nat false); [apply not_elem_of_nil|apply not_elem_of_nil|reflexivity]|].
  eapply rtc_l; [eapply (s_check _ _ 8%nat false); [apply (bool_decide_unpack _); by vm_compute|apply not_elem_of_nil|reflexivity]|].
  eapply rtc_l; [eapply s_line; reflexivity|]. apply rtc_refl.
Defined.
End Validator.

(** ** The sqlite3 process *)

Module Sqlite.
Inductive outcome :=
  | Resolve (rows : list string) (totalChanges changed : Z)
  | Reject (e : string).

Record client := {
  q : list nat;                        (* waiting requests, oldest first *)
  rows : list string;                  (* lines since the last sentinel *)
  errBuf : list string;                (* stderr since the last sentinel *)
  lastTotal : Z;
  alive : bool;
  resolved : list (nat * outcome)
}.
Definition initial : client :=
  {| q := []; rows := []; errBuf := []; lastTotal := 0; alive := true; resolved := [] |}.

Definition with_q (l : list nat) (c : client) : client := {| q := l; rows := rows c;
  errBuf := errBuf c; lastTotal := lastTotal c; alive := alive c; resolved := resolved c |}.
Definition resolve (t : nat) (o : outcome) (c : client) : client := {| q := q c; rows := rows c;
  errBuf := errBuf c; lastTotal := lastTotal c; alive := alive c; resolved := resolved c ++ [(t, o)] |}.

(** [run(sql, ms)] *)
Definition request (t : nat) (c : client) : client :=
  if alive c then with_q (q c ++ [t]) c else resolve t (Reject "store is not running") c.

(** The timer of a request fires while it waits. *)
Definition on_timeout (t : nat) (c : client) : client :=
  resolve t (Reject "store timed out") (with_q (filter (fun x => x <> t) (q c)) c).

Definition on_stderr (e : string) (c : client) : client := {| q := q c; rows := rows c;
  errBuf := errBuf c ++ [e]; lastTotal := lastTotal c; alive := alive c; resolved := resolved c |}.

(** A line on stdout that is not the sentinel. *)
Definition on_row (line : string) (c : client) : client := {| q := q c; rows := rows c ++ [line];
  errBuf := errBuf c; lastTotal := lastTotal c; alive := alive c; resolved := resolved c |}.

(** The sentinel with [total_changes()]: the oldest waiter gets what was collected. *)
Definition on_sentinel (total : Z) (c : client) : client :=
  match q c with
  | [] => {| q := []; rows := []; errBuf := []; lastTotal := lastTotal c; alive := alive c;
             resolved := resolved c |}
  | t :: q' =>
      {| q := q'; rows := []; errBuf := []; lastTotal := total; alive := alive c;
         resolved := resolved c ++ [(t, match errBuf c with
                                        | e :: _ => Reject e
                                        | [] => Resolve (rows c) total (total - lastTotal c)
                                        end)] |}
  end.

Definition on_exit (c : client) : client := {| q := []; rows := rows c; errBuf := errBuf c;
  lastTotal := lastTotal c; alive := false;
  resolved := resolved c ++ ((fun t => (t, Reject "sqlite3 exited")) <$> q c) |}.

(** The process answers requests in order, row by row. *)
Record system := { cl : client; pending : list (nat * list string) }.

Section runs.
Context (reply : nat -> list string).

Inductive step : system -> system -> Prop :=
  | s_run s t : alive (cl s) = true -> t ∉ q (cl s) ->
      step s {| cl := request t (cl s); pending := pending s ++ [(t, reply t)] |}
  | s_row s t line ls p : alive (cl s) = true -> pending s = (t, line :: ls) :: p ->
      step s {| cl := on_row line (cl s); pending := (t, ls) :: p |}
  | s_stderr s e : step s {| cl := on_stderr e (cl s); pending := pending s |}
  | s_sentinel s t total p : alive (cl s) = true -> pending s = (t, []) :: p ->
      step s {| cl := on_sentinel total (cl s); pending := p |}
  | s_exit s : alive (cl s) = true -> step s {| cl := on_exit (cl s); pending := [] |}.

(** The timer of a request that still waits. *)
Inductive timed_step : system -> system -> Prop :=
  | t_step s s' : step s s' -> timed_step s s'
  | t_timeout s t : t ∈ q (cl s) ->
      timed_step s {| cl := on_timeout t (cl s); pending := pending s |}.

Definition invariant (s : system) : Prop :=
  (alive (cl s) = true ->
     q (cl s) = (pending s).*1 /\
     match pending s with
     | [] => rows (cl s) = []
     | (t, ls) :: p => rows (cl s) ++ ls = reply t /\ Forall (fun r => r.2 = reply r.1) p
     end) /\
  (forall t rs total changed, (t, Resolve rs total changed) ∈ resolved (cl s) -> rs = reply t).

Lemma s_invariant_step s s' : invariant s -> step s s' -> invariant s'.
Proof.
  intros [Hq Hr] Hstep. destruct Hstep as [s t Ha Hn|s t line ls p Ha Hp|s e|s t total p Ha Hp|s Ha];
    unfold invariant; cbn [cl pending].
  - destruct (Hq Ha) as [Hq1 Hq2]. unfold request. rewrite Ha. cbn. split; [|done]. intros _.
    rewrite fmap_app, Hq1. split; [done|].
    destruct (pending s) as [|[t' ls] p]; cbn; [by rewrite Hq2|]. destruct Hq2 as [H1 H2].
    split; [done|]. apply Forall_app. split; [done|]. by constructor.
  - destruct (Hq Ha) as [Hq1 Hq2]. rewrite Hp in *. cbn in *. split; [|done]. intros _.
    split; [done|]. destruct Hq2 as [H1 H2]. split; [|done]. by rewrite <- app_assoc.
  - cbn. split; [|done]. intros Ha. destruct (Hq Ha) as [Hq1 Hq2]. split; [done|].
    destruct (pending s) as [|[t ls] p]; done.
  - destruct (Hq Ha) as [Hq1 Hq2]. rewrite Hp in *. cbn in Hq1, Hq2. destruct Hq2 as [H1 H2].
    rewrite app_nil_r in H1. unfold on_sentinel. rewrite Hq1. cbn. split.
    + intros _. split; [done|]. destruct p as [|[t' ls] p]; [done|]. by inversion H2; subst.
    + intros x rs tot ch [Hin|Hin]%elem_of_app; [by eapply Hr|].
      apply list_elem_of_singleton in Hin. destruct (errBuf (cl s)); [|done]. by injection Hin as -> -> _ _.
  - cbn. split; [done|]. intros x rs tot ch [Hin|Hin]%elem_of_app; [by eapply Hr|].
    apply list_elem_of_fmap in Hin as (y & Hy & _). done.
Qed.

(** rows are given to the query they answer - as long as no request times out. In every
    run of requests, rows, errors, sentinels and the process's death, a request that
    resolves resolves with exactly the rows of its own query. *)
Theorem rows_match s : rtc step {| cl := initial; pending := [] |} s ->
  forall t rs total changed, (t, Resolve rs total changed) ∈ resolved (cl s) -> rs = reply t.
Proof.
  intros Hrun. assert (invariant s) as [_ Hr]; [|done].
  eapply (rtc_invariant step invariant); [exact s_invariant_step| |exact Hrun].
  split; [done|]. cbn. intros t rs total changed Hin. by apply elem_of_nil in Hin.
Qed.
End runs.

Definition example_reply (t : nat) : list string := match t with 1%nat => ["one"] | _ => ["two"] end.

Definition example_run : system :=
  {| cl := {| q := [2%nat]; rows := []; errBuf := []; lastTotal := 5; alive := true;
              resolved := [(1%nat, Resolve ["one"%string] 5 5)] |};
     pending := [(2%nat, ["two"%string])] |}.

Lemma rows_match_witness :
  (1%nat, Resolve ["one"%string] 5 5) ∈ resolved (cl example_run) /\ ["one"%string] = example_reply 1.
Proof.
  split; [by left|]. refine (rows_match example_reply example_run _ 1%nat ["one"%string] 5 5 _); [|by left].
  eapply rtc_l; [eapply (s_run _ _ 1%nat); [done|apply not_elem_of_nil]|].
  eapply rtc_l; [eapply (s_run _ _ 2%nat); [done|apply (bool_decide_unpack _); by vm_compute]|].
  eapply rtc_l; [eapply s_row; reflexivity|].
  eapply rtc_l; [eapply (s_sentinel _ _ 1%nat 5); reflexivity|]. apply rtc_refl.
Defined.

(** With a timeout they are not: request 1 times out and leaves the queue, its rows
    arrive late, and the sentinel hands them to request 2. *)
Lemma timeout_misdelivers : exists s,
  rtc (timed_step example_reply) {| cl := initial; pending := [] |} s /\
  (2%nat, Resolve ["one"%string] 0 0) ∈ resolved (cl s) /\ example_reply 2 = ["two"%string].
Proof.
  eexists. split; [|split; [|done]].
  - eapply rtc_l; [apply t_step; eapply (s_run _ _ 1%nat); [done|apply not_elem_of_nil]|].
    eapply rtc_l; [apply t_step; eapply (s_run _ _ 2%nat);
                   [done|apply (bool_decide_unpack _); by vm_compute]|].
    eapply rtc_l; [apply (t_timeout _ _ 1%nat); apply (bool_decide_unpack _); by vm_compute|].
    eapply rtc_l; [apply t_step; eapply s_row; reflexivity|].
    eapply rtc_l; [apply t_step; eapply (s_sentinel _ _ 1%nat 0); reflexivity|]. apply rtc_refl.
  - vm_compute. apply elem_of_cons. right. by left.
Qed.
End Sqlite.
