(* ===== verification/PoolState.v ===== *)
(** * Jobs (contrib/pool/pool.mjs, first half)

    The process state of the pool, [makeJob], [pushJobs] and [retune].  Miners and
    jobs are JavaScript objects that a Map and the frames of running handlers share:
    they live in two heaps, and the Maps hold their keys in insertion order. *)

From Stdlib Require Import SpecFloat.
From S2P Require Import Prelude JsInt Bytes PoolAddress Block Target PoolMath JsNum Vardiff.
Local Open Scope Z_scope.

(** ** Data *)

(** The fields of getblocktemplate the pool reads. *)
Record template := {
  t_height : Z; t_coinbasevalue : Z; t_previousblockhash : string; t_bits : string;
  t_version : Z; t_curtime : Z; t_commitment : option string;
  t_transactions : list (string * string)          (* txid, data *)
}.

Record job := {
  j_id : string; j_header : bytes; j_coinbase : coinbase; j_height : Z; j_bits : string;
  j_prevhash : string; j_txs : list string; j_target : bytes; j_netTarget : bytes;
  j_value : Z; j_payout : option payout_set; j_seen : list string; j_miner : string
}.

Inductive nonce_order := Standard | Legacy.
#[export] Instance nonce_order_eq_dec : EqDecision nonce_order.
Proof. solve_decision. Defined.

Record miner := {
  m_id : string; m_login : string; m_extranonce : string; m_jobCounter : Z;
  m_diffFactor : js_num; m_accepted : Z; m_rejected : Z; m_window : vwindow;
  m_nonceOrder : option nonce_order
}.

Record job_msg := {
  jm_job_id : string; jm_blob : string; jm_target : string; jm_height : Z
}.

(** What is written to a miner's socket on the pool's own initiative. *)
Record push := { pu_miner : string; pu_job : job_msg }.

Record pool_state := {
  s_tpl : option template; s_script : bytes; s_netTarget : option bytes;
  s_jobs : list string;                    (* keys of the jobs Map *)
  s_jobheap : gmap string job;
  s_jobSeq : Z;
  s_live : list string;                    (* keys of the miners Map *)
  s_miners : gmap string miner;
  s_payout : option payout_set; s_payoutHeld : bool;
  s_accepted : Z; s_blocksFound : Z; s_storeDown : bool;
  s_pushed : list push
}.

Record config := {
  cfg_hrp : string; cfg_feeBasisPoints : Z; cfg_dustLimit : Z; cfg_vardiff : vardiff;
  cfg_windowMultiplier : Z; cfg_allowlist : list string
}.

Inductive pool_err :=
  | NoMiner
  | BadBlock (e : block_err)
  | FactorNotInteger
  | NoTarget.

(** An operation: it changes the state, and returns or throws. *)
Definition act (A : Type) : Type := pool_state -> result pool_err A * pool_state.
#[export] Instance act_ret : MRet act := fun A a s => (Ok a, s).
#[export] Instance act_bind : MBind act := fun A B f m s =>
  match m s with (Ok a, s') => f a s' | (Err e, s') => (Err e, s') end.
Definition get : act pool_state := fun s => (Ok s, s).
Definition modify (f : pool_state -> pool_state) : act unit := fun s => (Ok tt, f s).
Definition try_ {A} (r : result pool_err A) : act A := fun s => (r, s).

(** ** Field updates *)

Definition set_template (t : template) (net : bytes) (s : pool_state) : pool_state := {|
  s_tpl := Some t; s_script := s_script s; s_netTarget := Some net; s_jobs := s_jobs s;
  s_jobheap := s_jobheap s; s_jobSeq := s_jobSeq s; s_live := s_live s; s_miners := s_miners s;
  s_payout := s_payout s; s_payoutHeld := s_payoutHeld s; s_accepted := s_accepted s;
  s_blocksFound := s_blocksFound s; s_storeDown := s_storeDown s; s_pushed := s_pushed s |}.
Definition set_payout (p : option payout_set) (held : bool) (s : pool_state) : pool_state := {|
  s_tpl := s_tpl s; s_script := s_script s; s_netTarget := s_netTarget s; s_jobs := s_jobs s;
  s_jobheap := s_jobheap s; s_jobSeq := s_jobSeq s; s_live := s_live s; s_miners := s_miners s;
  s_payout := p; s_payoutHeld := held; s_accepted := s_accepted s;
  s_blocksFound := s_blocksFound s; s_storeDown := s_storeDown s; s_pushed := s_pushed s |}.
Definition set_jobs (l : list string) (h : gmap string job) (n : Z) (s : pool_state) : pool_state := {|
  s_tpl := s_tpl s; s_script := s_script s; s_netTarget := s_netTarget s; s_jobs := l;
  s_jobheap := h; s_jobSeq := n; s_live := s_live s; s_miners := s_miners s;
  s_payout := s_payout s; s_payoutHeld := s_payoutHeld s; s_accepted := s_accepted s;
  s_blocksFound := s_blocksFound s; s_storeDown := s_storeDown s; s_pushed := s_pushed s |}.
Definition set_miners (l : list string) (h : gmap string miner) (s : pool_state) : pool_state := {|
  s_tpl := s_tpl s; s_script := s_script s; s_netTarget := s_netTarget s; s_jobs := s_jobs s;
  s_jobheap := s_jobheap s; s_jobSeq := s_jobSeq s; s_live := l; s_miners := h;
  s_payout := s_payout s; s_payoutHeld := s_payoutHeld s; s_accepted := s_accepted s;
  s_blocksFound := s_blocksFound s; s_storeDown := s_storeDown s; s_pushed := s_pushed s |}.
Definition set_counters (accepted blocks : Z) (down : bool) (s : pool_state) : pool_state := {|
  s_tpl := s_tpl s; s_script := s_script s; s_netTarget := s_netTarget s; s_jobs := s_jobs s;
  s_jobheap := s_jobheap s; s_jobSeq := s_jobSeq s; s_live := s_live s; s_miners := s_miners s;
  s_payout := s_payout s; s_payoutHeld := s_payoutHeld s; s_accepted := accepted;
  s_blocksFound := blocks; s_storeDown := down; s_pushed := s_pushed s |}.
Definition add_push (m : string) (j : job_msg) (s : pool_state) : pool_state := {|
  s_tpl := s_tpl s; s_script := s_script s; s_netTarget := s_netTarget s; s_jobs := s_jobs s;
  s_jobheap := s_jobheap s; s_jobSeq := s_jobSeq s; s_live := s_live s; s_miners := s_miners s;
  s_payout := s_payout s; s_payoutHeld := s_payoutHeld s; s_accepted := s_accepted s;
  s_blocksFound := s_blocksFound s; s_storeDown := s_storeDown s;
  s_pushed := s_pushed s ++ [{| pu_miner := m; pu_job := j |}] |}.

Definition set_job_counter (n : Z) (m : miner) : miner := {| m_id := m_id m; m_login := m_login m;
  m_extranonce := m_extranonce m; m_jobCounter := n; m_diffFactor := m_diffFactor m;
  m_accepted := m_accepted m; m_rejected := m_rejected m; m_window := m_window m;
  m_nonceOrder := m_nonceOrder m |}.
Definition set_factor (f : js_num) (m : miner) : miner := {| m_id := m_id m; m_login := m_login m;
  m_extranonce := m_extranonce m; m_jobCounter := m_jobCounter m; m_diffFactor := f;
  m_accepted := m_accepted m; m_rejected := m_rejected m; m_window := m_window m;
  m_nonceOrder := m_nonceOrder m |}.
Definition set_window (w : vwindow) (m : miner) : miner := {| m_id := m_id m; m_login := m_login m;
  m_extranonce := m_extranonce m; m_jobCounter := m_jobCounter m; m_diffFactor := m_diffFactor m;
  m_accepted := m_accepted m; m_rejected := m_rejected m; m_window := w;
  m_nonceOrder := m_nonceOrder m |}.
Definition set_tally (accepted rejected : Z) (m : miner) : miner := {| m_id := m_id m;
  m_login := m_login m; m_extranonce := m_extranonce m; m_jobCounter := m_jobCounter m;
  m_diffFactor := m_diffFactor m; m_accepted := accepted; m_rejected := rejected;
  m_window := m_window m; m_nonceOrder := m_nonceOrder m |}.
Definition set_order (o : nonce_order) (m : miner) : miner := {| m_id := m_id m; m_login := m_login m;
  m_extranonce := m_extranonce m; m_jobCounter := m_jobCounter m; m_diffFactor := m_diffFactor m;
  m_accepted := m_accepted m; m_rejected := m_rejected m; m_window := m_window m;
  m_nonceOrder := Some o |}.

(** Mutating a miner object through any reference to it. *)
Definition update_miner (id : string) (f : miner -> miner) (s : pool_state) : pool_state :=
  set_miners (s_live s) (alter f id (s_miners s)) s.

(** ** Jobs *)

Definition pay_of (o : payout_output) : pay := {| pay_script := o_script o; pay_value := o_value o |}.

Definition shareTargetFor (net : option bytes) (factor : js_num) : result pool_err bytes :=
  n ← of_option FactorNotInteger (Z_of_num factor);
  t ← of_option NoTarget net;
  Ok (scaleTarget t n).

(** [miner.extranonce + (miner.jobCounter++ & 0xffff).toString(16).padStart(4, '0')] *)
Definition job_extranonce (m : miner) : string :=
  (m_extranonce m ++ pad_start 4 (big_to_hex (js_and (m_jobCounter m) 0xffff)))%string.

Definition max_jobs : nat := 500.

(** [jobs.set(id, job)], and the oldest key goes when there are more than 500. *)
Definition add_job (j : job) (s : pool_state) : pool_state :=
  let keys := filter (fun k => k <> j_id j) (s_jobs s) ++ [j_id j] in
  let keys := if bool_decide (max_jobs < length keys)%nat then tail keys else keys in
  set_jobs keys (<[j_id j := j]> (s_jobheap s)) (s_jobSeq s) s.

Section jobs.
Context {SHA : Sha256}.

Definition coinbase_for (t : template) (script : bytes) (payout : option payout_set) (extranonce : string)
    : coinbase_args := {|
  ca_height := t_height t; ca_value := Some (t_coinbasevalue t); ca_script := script;
  ca_pays := (fun p => pay_of <$> ps_outputs p) <$> payout;
  ca_extranonce := extranonce; ca_witnessCommitment := t_commitment t |}.

(** The coinbase and the header of a job, before it has an id. *)
Definition job_parts (t : template) (script : bytes) (payout : option payout_set) (extranonce : string)
    : result pool_err (coinbase * bytes) :=
  cb ← lift_err BadBlock (buildCoinbase (coinbase_for t script payout extranonce));
  root ← lift_err BadBlock (merkleRoot (cb_txid cb :: (hexToLE ∘ fst <$> t_transactions t)));
  header ← lift_err BadBlock (buildHeader {| ha_version := t_version t;
    ha_prevhash := t_previousblockhash t; ha_merkle := root; ha_time := t_curtime t;
    ha_bits := t_bits t; ha_nonce := 0 |});
  Ok (cb, header).

Definition makeJob (mid : string) : act (option job_msg) :=
  s ← get;
  let payout := s_payout s in
  match s_tpl s with
  | None => mret None
  | Some t =>
      if s_payoutHeld s then mret None else
      m ← try_ (of_option NoMiner (s_miners s !! mid));
      let extranonce := job_extranonce m in
      _ ← modify (update_miner mid (set_job_counter (m_jobCounter m + 1)));
      parts ← try_ (job_parts t (s_script s) payout extranonce);
      let '(cb, header) := parts in
      s ← get;
      let seq := s_jobSeq s + 1 in
      let id := big_to_hex seq in
      _ ← modify (fun s => set_jobs (s_jobs s) (s_jobheap s) seq s);
      target ← try_ (shareTargetFor (s_netTarget s) (m_diffFactor m));
      _ ← modify (add_job {|
        j_id := id; j_header := header; j_coinbase := cb; j_height := t_height t; j_bits := t_bits t;
        j_prevhash := t_previousblockhash t; j_txs := snd <$> t_transactions t; j_target := target;
        j_netTarget := bitsToTarget (t_bits t); j_value := t_coinbasevalue t; j_payout := payout;
        j_seen := []; j_miner := mid |});
      mret (Some {| jm_job_id := id; jm_blob := hex_encode header; jm_target := hex_encode target;
                    jm_height := t_height t |})
  end.

(** [const j = makeJob(m); if (j) send(...)] *)
Definition push_job (mid : string) : act unit :=
  j ← makeJob mid;
  match j with
  | Some j => modify (add_push mid j)
  | None => mret tt
  end.

Fixpoint push_all (ids : list string) : act unit :=
  match ids with
  | [] => mret tt
  | id :: ids' => _ ← push_job id; push_all ids'
  end.

Definition pushJobs : act unit := s ← get; push_all (s_live s).

(** ** Vardiff on a miner of the pool *)

Definition retune_miner (c : config) (now : Z) (mid : string) : act unit :=
  s ← get;
  m ← try_ (of_option NoMiner (s_miners s !! mid));
  match retune (cfg_vardiff c) (s_netTarget s) now (m_diffFactor m) (m_window m) with
  | Keep => mret tt
  | NewWindow => modify (update_miner mid (set_window (fresh_vwindow now)))
  | Change next =>
      _ ← modify (update_miner mid (set_factor next));
      _ ← push_job mid;
      modify (update_miner mid (set_window (fresh_vwindow now)))
  end.

Fixpoint retune_all (c : config) (now : Z) (ids : list string) : act unit :=
  match ids with
  | [] => mret tt
  | id :: ids' => _ ← retune_miner c now id; retune_all c now ids'
  end.

(** ** Publishing a template *)

(** What the kept set pays, a missing one nothing. *)
Definition owed (p : option payout_set) : Z :=
  match p with Some p => zsum_by o_value (ps_outputs p) | None => 0 end.

(** The synchronous half of [refreshTemplate]: the template and the payout set are
    published together, or the set is kept and jobs are held when it does not fit. *)
Definition publish (c : config) (now : Z) (t : template) (changed : bool)
    (payout : option payout_set) : act unit :=
  _ ← modify (set_template t (bitsToTarget (t_bits t)));
  s ← get;
  _ ← match payout with
      | Some p => modify (set_payout (Some p) false)
      | None =>
          if t_coinbasevalue t <? owed (s_payout s) then modify (set_payout (s_payout s) true) else mret tt
      end;
  _ ← retune_all c now (s_live s);
  if changed then
    _ ← modify (fun s => set_jobs [] (s_jobheap s) (s_jobSeq s) s);
    pushJobs
  else mret tt.
End jobs.
