(* ===== verification/PoolInv.v ===== *)
(** * The pool's state stays consistent (contrib/pool/pool.mjs)

    The invariant of [pool_state], and that [makeJob], [pushJobs], [retune] and
    [publish] keep it and return: with it in force nothing they call throws. *)

From Stdlib Require Import SpecFloat Ascii.
From S2P Require Import Prelude JsInt Bytes PoolAddress Block BlockSpec Target PoolMath JsNum Vardiff.
From S2P Require Import PoolState.
Local Open Scope Z_scope.

(** ** What the node answers *)

(** A well-formed getblocktemplate: the ranges of the RPC's own fields. *)
Record template_ok (t : template) : Prop := {
  tok_version : - 2 ^ 31 <= t_version t < 2 ^ 31;
  tok_time : 0 <= t_curtime t < 2 ^ 32;
  tok_prev : length (hex_decode (t_previousblockhash t)) = 32%nat;
  tok_bits : exists b, parse_hex (t_bits t) = Some b /\ 0 <= b < 2 ^ 32;
  tok_value : 0 <= t_coinbasevalue t < 2 ^ 64;
  tok_txids : Forall (fun tx => length (hex_decode tx.1) = 32%nat) (t_transactions t);
  tok_commitment : forall c, t_commitment t = Some c -> Z.of_nat (length (hex_decode c)) < 2 ^ 64
}.

(** ** The invariant *)

(** No miner is named twice, and a named output pays the script of that address. *)
Definition named_once (l : list payout_output) : Prop :=
  NoDup (omap o_miner l) /\
  exists hrp, Forall (fun o => forall m, o_miner o = Some m -> addressToScript m hrp = Ok (o_script o)) l.

Definition outputs_ok (l : list payout_output) : Prop :=
  l <> [] /\ Forall (fun o => 0 <= o_value o /\ length (o_script o) = 22%nat) l /\ named_once l.

Definition miner_ok (m : miner) : Prop :=
  factor_like (m_diffFactor m) /\ length (hex_decode (m_extranonce m)) = 2%nat /\
  String.length (m_extranonce m) = 4%nat.

Section inv.
Context {SHA : Sha256}.
Context (script : bytes).

Definition payable (t : template) (payout : option payout_set) : Prop :=
  owed payout <= t_coinbasevalue t /\ (forall ps, payout = Some ps -> outputs_ok (ps_outputs ps)).

(** A job and the template it was built from. *)
Definition job_of (t : template) (j : job) : Prop :=
  template_ok t /\ payable t (j_payout j) /\
  (exists en, (length (hex_decode en) <= 92)%nat /\
     job_parts t script (j_payout j) en = Ok (j_coinbase j, j_header j)) /\
  j_value j = t_coinbasevalue t /\ j_height j = t_height t /\ j_bits j = t_bits t /\
  j_txs j = snd <$> t_transactions t /\ j_netTarget j = bitsToTarget (t_bits t) /\
  exists n, 0 <= n /\ j_target j = scaleTarget (j_netTarget j) n.

Record state_inv (s : pool_state) : Prop := {
  si_script : s_script s = script;
  si_tpl : forall t, s_tpl s = Some t -> template_ok t /\ s_netTarget s = Some (bitsToTarget (t_bits t));
  si_fit : forall t, s_tpl s = Some t -> s_payoutHeld s = false -> owed (s_payout s) <= t_coinbasevalue t;
  si_pays : forall ps, s_payout s = Some ps -> outputs_ok (ps_outputs ps);
  si_live : Forall (fun m => is_Some (s_miners s !! m)) (s_live s);
  si_miners : forall id m, s_miners s !! id = Some m -> miner_ok m;
  si_heap : forall id j, s_jobheap s !! id = Some j -> j_id j = id /\ (exists t, job_of t j) /\
              exists k, 1 <= k <= s_jobSeq s /\ id = big_to_hex k;
  si_owner : forall id j, s_jobheap s !! id = Some j -> is_Some (s_miners s !! j_miner j);
  si_seq : 0 <= s_jobSeq s;
  si_jobs : Forall (fun id => is_Some (s_jobheap s !! id)) (s_jobs s);
  si_len : (length (s_jobs s) <= max_jobs)%nat
}.

(** Miner objects stay, under the same login. *)
Definition miners_le (s s' : pool_state) : Prop :=
  forall id m, s_miners s !! id = Some m -> exists m', s_miners s' !! id = Some m' /\ m_login m' = m_login m.

Lemma miners_le_is_Some s s' id : miners_le s s' -> is_Some (s_miners s !! id) -> is_Some (s_miners s' !! id).
Proof. intros H [m Hm]. apply H in Hm as (m' & Hm & _). by eexists. Qed.

Lemma miners_le_trans s1 s2 s3 : miners_le s1 s2 -> miners_le s2 s3 -> miners_le s1 s3.
Proof.
  intros H1 H2 id m Hm. apply H1 in Hm as (m' & Hm & E). apply H2 in Hm as (m'' & Hm & E').
  exists m''. split; [done|congruence].
Qed.

Lemma miners_le_same s s' : s_miners s' = s_miners s -> miners_le s s'.
Proof. intros E id m Hm. rewrite E. eauto. Qed.

(** What miners are offered work from. *)
Definition offered (s : pool_state) : option template * option payout_set * bool :=
  (s_tpl s, s_payout s, s_payoutHeld s).

(** What an operation of this file leaves alone: objects stay on the heaps, jobs do
    not change, nobody leaves, the counters stay. *)
Record grows (s s' : pool_state) : Prop := {
  gr_heap : s_jobheap s ⊆ s_jobheap s';
  gr_miners : miners_le s s';
  gr_live : s_live s' = s_live s;
  gr_accepted : s_accepted s' = s_accepted s;
  gr_payout : s_payout s' = s_payout s;
  gr_tpl : s_tpl s' = s_tpl s;
  gr_held : s_payoutHeld s' = s_payoutHeld s
}.
#[export] Instance grows_preorder : PreOrder grows.
Proof.
  split; [split; try done; by apply miners_le_same|].
  intros s1 s2 s3 [] []. split; try congruence; [by etrans|by eapply miners_le_trans].
Qed.

Lemma grows_intro s s' : s_jobheap s ⊆ s_jobheap s' -> s_miners s' = s_miners s ->
  s_live s' = s_live s -> s_accepted s' = s_accepted s -> offered s' = offered s -> grows s s'.
Proof. intros Hh Hm Hl Ha [= E1 E2 E3]. split; try done. by apply miners_le_same. Qed.

(** The operation returns from this state, and what holds then. *)
Definition safe_at {A} (s : pool_state) (m : act A) : Prop :=
  exists a s', m s = (Ok a, s') /\ state_inv s' /\ grows s s'.

Lemma safe_ret {A} s (a : A) : state_inv s -> safe_at s (mret a).
Proof. intros H. exists a, s. split; [done|]. split; [done|reflexivity]. Qed.

Lemma safe_bind {A B} s (m : act A) (f : A -> act B) :
  safe_at s m -> (forall a s', m s = (Ok a, s') -> state_inv s' -> grows s s' -> safe_at s' (f a)) ->
  safe_at s (m ≫= f).
Proof.
  intros (a & s' & Hm & Hi & Hg) Hf. destruct (Hf a s' Hm Hi Hg) as (b & s'' & Hb & Hi' & Hg').
  exists b, s''. split; [|split; [done|by etrans]]. unfold mbind, act_bind. by rewrite Hm.
Qed.

Lemma safe_modify s f : state_inv (f s) -> grows s (f s) -> safe_at s (modify f).
Proof. intros H1 H2. by exists tt, (f s). Qed.

(** ** Field updates *)

Definition miner_update (f : miner -> miner) : Prop :=
  forall m, miner_ok m -> miner_ok (f m) /\ m_login (f m) = m_login m.

Lemma update_miners_le s id f : state_inv s -> miner_update f -> miners_le s (update_miner id f s).
Proof.
  intros Hs Hf k m Hm. cbn. destruct (decide (k = id)) as [->|Hne].
  - rewrite lookup_alter_eq, Hm. exists (f m). split; [done|]. by apply Hf, (si_miners s Hs _ _ Hm).
  - rewrite lookup_alter_ne by done. eauto.
Qed.

Lemma update_miner_inv s id f : state_inv s -> miner_update f ->
  state_inv (update_miner id f s) /\ grows s (update_miner id f s).
Proof.
  intros Hs Hf. pose proof (update_miners_le s id f Hs Hf) as Hle. destruct Hs.
  assert (forall k, is_Some (s_miners s !! k) -> is_Some (alter f id (s_miners s) !! k)) as Hk.
  { intros k. rewrite lookup_alter_is_Some. done. }
  split; [|by split]. split; try done.
  - eapply Forall_impl; [exact si_live0|]. apply Hk.
  - intros k m. cbn. rewrite lookup_alter_Some. intros [(_ & m0 & Hm & ->)|[_ Hm]]; [apply Hf|]; eauto.
  - intros k j Hj. by apply Hk, (si_owner0 k).
Qed.

Lemma set_window_ok w : miner_update (set_window w).
Proof. done. Qed.
Lemma set_job_counter_ok n : miner_update (set_job_counter n).
Proof. done. Qed.
Lemma set_order_ok o : miner_update (set_order o).
Proof. done. Qed.
Lemma set_factor_ok f : factor_like f -> miner_update (set_factor f).
Proof. intros H m [_ H2]. done. Qed.
#[local] Hint Resolve set_window_ok set_job_counter_ok set_order_ok set_factor_ok : pcoin.

Lemma safe_update s id f : state_inv s -> miner_update f ->
  safe_at s (modify (update_miner id f)).
Proof. intros Hs Hf. by apply safe_modify; apply update_miner_inv. Qed.

(** ** Building a job *)

Lemma hex_decode_app a b : Nat.even (String.length a) = true ->
  length (hex_decode a) = Nat.div2 (String.length a) ->
  hex_decode (a ++ b) = hex_decode a ++ hex_decode b.
Proof.
  assert (forall n a, (String.length a <= n)%nat -> Nat.even (String.length a) = true ->
    length (hex_decode a) = Nat.div2 (String.length a) ->
    hex_decode (a ++ b) = hex_decode a ++ hex_decode b) as H; [|by eapply H].
  clear a. intros n. induction n as [|n IH]; intros [|x [|y a]] Hn He Hl; cbn in Hn, He; try done; try lia.
  rewrite !string_cons_app. cbn [hex_decode] in Hl |- *.
  destruct (hex_val x), (hex_val y); cbn in Hl; try discriminate Hl.
  rewrite <- app_comm_cons. f_equal. apply IH; [lia|done|congruence].
Qed.

Lemma job_extranonce_spec m : miner_ok m ->
  hex_decode (job_extranonce m) = hex_decode (m_extranonce m) ++ be_bytes 2 (m_jobCounter m mod 2 ^ 16).
Proof.
  intros (_ & Hl & Hs). unfold job_extranonce.
  rewrite hex_decode_app by (rewrite Hs, ?Hl; done). f_equal.
  rewrite (js_and_ones (m_jobCounter m) 16 ltac:(lia) : js_and _ 0xffff = _).
  apply (hex_out 2); [lia|]. apply Z.mod_pos_bound. done.
Qed.

Lemma big_to_hex_inj a b : 0 <= a -> 0 <= b -> big_to_hex a = big_to_hex b -> a = b.
Proof.
  intros Ha Hb H. set (n := S (Z.to_nat (Z.max a b))).
  assert (Z.max a b < 256 ^ Z.of_nat n) as Hn.
  { pose proof (Z.pow_gt_lin_r 256 (Z.of_nat n)). lia. }
  rewrite <- (be_value_bytes_small n a), <- (be_value_bytes_small n b) by lia.
  f_equal. rewrite <- !hex_out by lia. by rewrite H.
Qed.

Lemma job_parts_total t payout en :
  template_ok t -> payable t payout -> (length (hex_decode en) <= 92)%nat ->
  exists cb h, job_parts t script payout en = Ok (cb, h).
Proof.
  intros Ht [Hfit Hps] Hen. unfold job_parts.
  destruct (buildCoinbase_total (coinbase_for t script payout en)
    match payout with
    | Some ps => pay_of <$> ps_outputs ps
    | None => [{| pay_script := script; pay_value := t_coinbasevalue t |}]
    end (t_coinbasevalue t)) as [cb Hcb]; try done.
  - destruct payout as [ps|]; [|done]. destruct (Hps ps eq_refl) as [Hne _].
    unfold spend_of. cbn. by destruct (ps_outputs ps).
  - by apply tok_value.
  - destruct payout as [ps|]; [|constructor; [apply (tok_value t Ht)|done]].
    destruct (Hps ps eq_refl) as (_ & Hall & _). apply Forall_fmap. eapply Forall_impl; [exact Hall|]. by intros o [].
  - destruct payout as [ps|]; [|unfold pays_total; rewrite zsum_by_cons, zsum_by_nil; cbn; lia].
    unfold pays_total. by rewrite zsum_by_fmap.
  - rewrite Hcb. cbn [lift_err mbind result_bind].
    destruct (merkleRoot_total (cb_txid cb :: (hexToLE ∘ fst <$> t_transactions t))) as (r & Hr & Hlen); [done| |].
    { constructor.
      - apply buildCoinbase_Ok in Hcb as (? & _ & _ & _ & _ & _ & _ & ->). apply sha256d_length.
      - apply Forall_fmap. eapply Forall_impl; [apply (tok_txids t Ht)|]. intros tx Htx.
        cbn. unfold hexToLE. by rewrite length_reverse. }
    rewrite Hr. cbn [lift_err mbind result_bind]. destruct (tok_bits t Ht) as (b & Hb & Hbr).
    rewrite (buildHeader_layout _ b); cbn [ha_version ha_prevhash ha_merkle ha_time ha_bits]; try done;
      [by eexists _, _|apply (tok_version t Ht)|apply (tok_prev t Ht)|apply (tok_time t Ht)].
Qed.


Lemma add_job_inv s j :
  state_inv s -> 0 < s_jobSeq s -> j_id j = big_to_hex (s_jobSeq s) -> (exists t, job_of t j) ->
  is_Some (s_miners s !! j_miner j) -> s_jobheap s !! j_id j = None ->
  state_inv (add_job j s) /\ grows s (add_job j s).
Proof.
  intros [] Hpos Hid Hj Hown Hfresh.
  assert (s_jobheap s ⊆ <[j_id j:=j]> (s_jobheap s)) as Hsub by by apply insert_subseteq.
  split; [|by apply grows_intro]. split; try done.
  - intros id j'. cbn. rewrite lookup_insert_Some. intros [[<- <-]|[_ H]]; [|by apply si_heap0].
    split; [done|]. split; [done|]. exists (s_jobSeq s). split; [lia|done].
  - intros id j'. cbn. rewrite lookup_insert_Some. intros [[<- <-]|[_ H]]; [done|by apply (si_owner0 id)].
  - cbn. set (keys := filter _ (s_jobs s) ++ [j_id j]).
    assert (Forall (fun id => is_Some (<[j_id j:=j]> (s_jobheap s) !! id)) keys) as Hk.
    { apply Forall_app. split.
      - apply Forall_forall. intros id Hin. apply list_elem_of_filter in Hin as [_ Hin].
        apply (proj1 (Forall_forall _ _) si_jobs0) in Hin as [x Hx]. exists x. by eapply lookup_weaken.
      - constructor; [|done]. rewrite lookup_insert_eq. by eexists. }
    case_bool_decide; [|done]. destruct keys; [done|]. by inversion Hk.
  - cbn. set (keys := filter _ (s_jobs s) ++ [j_id j]).
    assert (length keys <= S max_jobs)%nat as Hlen.
    { unfold keys. rewrite length_app. cbn [length]. pose proof (length_filter (fun k => k <> j_id j) (s_jobs s)). lia. }
    case_bool_decide; [|lia]. destruct keys; cbn in *; lia.
Qed.

Lemma safe_add_job s j :
  state_inv s -> 0 < s_jobSeq s -> j_id j = big_to_hex (s_jobSeq s) -> (exists t, job_of t j) ->
  is_Some (s_miners s !! j_miner j) -> s_jobheap s !! j_id j = None -> safe_at s (modify (add_job j)).
Proof. intros. apply safe_modify; by apply add_job_inv. Qed.

Lemma seq_inv s n : state_inv s -> s_jobSeq s <= n ->
  state_inv (set_jobs (s_jobs s) (s_jobheap s) n s) /\ grows s (set_jobs (s_jobs s) (s_jobheap s) n s).
Proof.
  intros [] Hn. split; [|by apply grows_intro]. split; try done; [|cbn; lia].
  intros id j H. destruct (si_heap0 id j H) as (? & ? & k & Hk & ->). split; [done|]. split; [done|].
  exists k. cbn. split; [lia|done].
Qed.

Lemma add_push_inv s m j : state_inv s -> state_inv (add_push m j s) /\ grows s (add_push m j s).
Proof. intros []. split; [by split|by apply grows_intro]. Qed.

(** [makeJob] returns whenever the miner object exists. *)
Lemma makeJob_safe s mid : state_inv s -> is_Some (s_miners s !! mid) -> safe_at s (makeJob mid).
Proof.
  intros Hs [m Hm]. unfold makeJob. apply safe_bind; [by apply safe_ret|].
  intros ? ? [= <- <-] _ _. destruct (s_tpl s) as [t|] eqn:Ht; [|by apply safe_ret].
  destruct (s_payoutHeld s) eqn:Hheld; [by apply safe_ret|]. destruct (si_tpl s Hs t Ht) as [Htok Hnet].
  assert (payable t (s_payout s)) as Hpay by (split; [by apply si_fit|by apply si_pays]).
  pose proof (si_miners s Hs mid m Hm) as Hmok.
  apply safe_bind; [rewrite Hm; by apply safe_ret|]. intros ? ? E _ _. rewrite Hm in E. injection E as <- <-.
  apply safe_bind; [apply safe_update; auto with pcoin|].
  intros ? ? [= <- <-] Hs1 _. set (s1 := update_miner mid _ s) in *.
  assert (length (hex_decode (job_extranonce m)) <= 92)%nat as Hen.
  { rewrite job_extranonce_spec, length_app, be_bytes_length by done. destruct Hmok as (_ & -> & _). lia. }
  destruct (job_parts_total t (s_payout s) (job_extranonce m)) as (cb & h & Hparts); [done..|].
  change (s_script s) with (s_script s1). rewrite (si_script s1 Hs1), Hparts.
  apply safe_bind; [by apply safe_ret|]. intros ? ? [= <- <-] _ _. cbv beta iota.
  apply safe_bind; [by apply safe_ret|]. intros ? ? [= <- <-] _ _. cbv zeta.
  apply safe_bind; [apply safe_modify; apply seq_inv; done || lia|]. intros ? ? [= <- <-] Hs2 Hg2.
  set (s2 := set_jobs _ _ _ s1) in *.
  destruct (Z_of_num_int (m_diffFactor m)) as (n & Hn & Hn0); [by apply Hmok|].
  assert (shareTargetFor (s_netTarget s1) (m_diffFactor m) = Ok (scaleTarget (bitsToTarget (t_bits t)) n)) as Htgt.
  { unfold shareTargetFor. rewrite Hn. change (s_netTarget s1) with (s_netTarget s). by rewrite Hnet. }
  rewrite Htgt. apply safe_bind; [by apply safe_ret|]. intros ? ? [= <- <-] _ _.
  pose proof (si_seq s Hs) as Hseq.
  apply safe_bind; [|intros _ ? _ Hs3 _; by apply safe_ret]. apply safe_add_job; [done|cbn; lia|done| | |].
  - exists t. split; [done|]. split; [done|]. split; [by exists (job_extranonce m)|].
    do 5 (split; [done|]). by exists n.
  - cbn. rewrite lookup_alter_eq, Hm. by eexists.
  - apply eq_None_not_Some. intros [j Hj]. destruct (si_heap s Hs _ _ Hj) as (_ & _ & k' & Hk' & E').
    cbn in E'. apply big_to_hex_inj in E'; lia.
Qed.

(** ** The operations built on it *)

Lemma push_job_safe s mid : state_inv s -> is_Some (s_miners s !! mid) -> safe_at s (push_job mid).
Proof.
  intros Hs Hm. apply safe_bind; [by apply makeJob_safe|]. intros [j|] s' _ Hs' _; [|by apply safe_ret].
  apply safe_modify; by apply add_push_inv.
Qed.

Lemma all_alive s s' ids : grows s s' ->
  Forall (fun m => is_Some (s_miners s !! m)) ids -> Forall (fun m => is_Some (s_miners s' !! m)) ids.
Proof. intros Hg H. eapply Forall_impl; [exact H|]. intros id. by apply miners_le_is_Some, Hg. Qed.

Lemma push_all_safe ids s : state_inv s -> Forall (fun m => is_Some (s_miners s !! m)) ids ->
  safe_at s (push_all ids).
Proof.
  revert s. induction ids as [|id ids IH]; intros s Hs Hids; [by apply safe_ret|].
  inversion Hids as [|? ? H1 H2]; subst.
  apply safe_bind; [by apply push_job_safe|]. intros _ s' _ Hs' Hg. apply IH; [done|]. by eapply all_alive.
Qed.

Lemma pushJobs_safe s : state_inv s -> safe_at s pushJobs.
Proof.
  intros Hs. apply safe_bind; [by apply safe_ret|]. intros ? ? [= <- <-] _ _.
  apply push_all_safe; [done|]. by apply si_live.
Qed.

Context (cfg : config) (Hcfg : vardiff_ok (cfg_vardiff cfg)).

Lemma retune_miner_safe now mid s : state_inv s -> is_Some (s_miners s !! mid) ->
  safe_at s (retune_miner cfg now mid).
Proof.
  intros Hs [m Hm]. apply safe_bind; [by apply safe_ret|]. intros ? ? [= <- <-] _ _.
  apply safe_bind; [rewrite Hm; by apply safe_ret|]. intros ? ? E _ _. rewrite Hm in E. injection E as <- <-.
  pose proof (si_miners s Hs mid m Hm) as Hmok.
  destruct (retune _ _ _ _ _) as [| |next] eqn:Hr.
  - by apply safe_ret.
  - apply safe_update; auto with pcoin.
  - assert (factor_like next) as Hnext by (eapply retune_int; [exact Hcfg|apply Hmok|exact Hr]).
    apply safe_bind; [apply safe_update; auto with pcoin|].
    intros ? s1 _ Hs1 Hg1. apply safe_bind; [apply push_job_safe; [done|]; apply (miners_le_is_Some s); [apply Hg1|by eexists]|].
    intros ? s2 _ Hs2 _. apply safe_update; auto with pcoin.
Qed.

Lemma retune_all_safe now ids s : state_inv s -> Forall (fun m => is_Some (s_miners s !! m)) ids ->
  safe_at s (retune_all cfg now ids).
Proof.
  revert s. induction ids as [|id ids IH]; intros s Hs Hids; [by apply safe_ret|].
  inversion Hids as [|? ? H1 H2]; subst.
  apply safe_bind; [by apply retune_miner_safe|]. intros _ s' _ Hs' Hg. apply IH; [done|]. by eapply all_alive.
Qed.

(** ** Publishing *)

(** Objects stay where they are; what is served may change. *)
Record extends (s s' : pool_state) : Prop := {
  ex_heap : s_jobheap s ⊆ s_jobheap s';
  ex_miners : miners_le s s';
  ex_live : s_live s' = s_live s;
  ex_accepted : s_accepted s' = s_accepted s
}.

Lemma grows_extends s s' : grows s s' -> extends s s'.
Proof. intros []. by split. Qed.

(** What is served after a refresh: a new set, or the kept one, held when it does not fit. *)
Definition served_after (t : template) (payout : option payout_set) (s : pool_state)
    : option payout_set * bool :=
  match payout with
  | Some p => (Some p, false)
  | None => (s_payout s, bool_decide (t_coinbasevalue t < owed (s_payout s)) || s_payoutHeld s)
  end.

Definition published (t : template) (payout : option payout_set) (s : pool_state) : pool_state :=
  let '(p, held) := served_after t payout s in set_payout p held (set_template t (bitsToTarget (t_bits t)) s).

Lemma published_inv t payout s : state_inv s -> template_ok t ->
  (forall ps, payout = Some ps -> outputs_ok (ps_outputs ps) /\ owed payout = t_coinbasevalue t) ->
  state_inv (published t payout s).
Proof.
  intros [] Ht Hp. unfold published, served_after. destruct payout as [p|].
  - destruct (Hp p eq_refl) as [Hok Hv]. split; try done; cbn.
    + intros ? [= <-]. done.
    + intros ? [= <-] _. cbn in Hv. lia.
    + intros ? [= <-]. done.
  - split; try done; cbn.
    + intros ? [= <-]. done.
    + intros ? [= <-] Hh. apply orb_false_iff in Hh as [Hh _]. apply bool_decide_eq_false in Hh. lia.
Qed.

Lemma publish_eq now t changed payout s :
  publish cfg now t changed payout s =
    (_ ← retune_all cfg now (s_live s);
     if changed then _ ← modify (fun s => set_jobs [] (s_jobheap s) (s_jobSeq s) s); pushJobs else mret tt)
    (published t payout s).
Proof.
  unfold publish, published, served_after. destruct payout as [p|]; [done|].
  cbn. unfold mbind, act_bind, modify, get. cbn.
  destruct (Z.ltb_spec (t_coinbasevalue t) (owed (s_payout s))).
  - by rewrite bool_decide_eq_true_2.
  - rewrite bool_decide_eq_false_2 by lia. by destruct s.
Qed.

Lemma clear_jobs_inv s : state_inv s ->
  state_inv (set_jobs [] (s_jobheap s) (s_jobSeq s) s) /\ grows s (set_jobs [] (s_jobheap s) (s_jobSeq s) s).
Proof. intros []. split; [|by apply grows_intro]. split; try done. cbn. unfold max_jobs. lia. Qed.

(** [publish] returns, and serves exactly the new template with the new set. *)
Lemma publish_safe now t changed payout s :
  state_inv s -> template_ok t ->
  (forall ps, payout = Some ps -> outputs_ok (ps_outputs ps) /\ owed payout = t_coinbasevalue t) ->
  exists s', publish cfg now t changed payout s = (Ok tt, s') /\ state_inv s' /\ extends s s' /\
    offered s' = (Some t, (served_after t payout s).1, (served_after t payout s).2).
Proof.
  intros Hs Ht Hp. pose proof (published_inv t payout s Hs Ht Hp) as Hpub.
  assert (extends s (published t payout s) /\
    offered (published t payout s) = (Some t, (served_after t payout s).1, (served_after t payout s).2)) as [Hex Hoff].
  { unfold published. destruct (served_after t payout s). split; [|done]. split; try done. by apply miners_le_same. }
  assert (safe_at (published t payout s)
    (_ ← retune_all cfg now (s_live s);
     if changed then _ ← modify (fun s => set_jobs [] (s_jobheap s) (s_jobSeq s) s); pushJobs else mret tt))
    as ([] & s' & Hm & Hs' & Hg).
  { apply safe_bind.
    - apply retune_all_safe; [done|]. rewrite <- (ex_live _ _ Hex). by apply si_live.
    - intros _ s1 _ Hs1 _. destruct changed; [|by apply safe_ret].
      apply safe_bind; [by apply safe_modify; apply clear_jobs_inv|]. intros _ s2 _ Hs2 _.
      by apply pushJobs_safe. }
  exists s'. rewrite publish_eq. split; [done|]. split; [done|]. split.
  - destruct Hex, (grows_extends _ _ Hg). split; try congruence; [by etrans|by eapply miners_le_trans].
  - rewrite <- Hoff. destruct Hg. unfold offered. congruence.
Qed.
End inv.
#[export] Hint Resolve set_window_ok set_job_counter_ok set_order_ok set_factor_ok : pcoin.
