(* ===== verification/PoolServer.v ===== *)
(** * Submissions and template refreshes (contrib/pool/pool.mjs, second half)

    [login], [handleSubmit], [recordBlock] and [refreshTemplate] as the atomic
    segments between their [await]s.  An event resumes one suspended segment with
    the answer it waited for; a run of the pool is any list of events, so every
    interleaving the single thread allows is one. *)

From Stdlib Require Import SpecFloat Ascii.
From S2P Require Import Prelude JsInt JsText Bytes PoolAddress Block Target PoolMath JsNum Vardiff.
From S2P Require Import StoreDb Shares Ledger PoolState.
Local Open Scope Z_scope.

(** ** What arrives, what is awaited, and what is answered *)

(** A field of a miner's message where the code makes a string of it, [String(x || '')]
    or a template literal: the string that gives, or an exception. JSON can spell values
    that have none, [{"toString":0}] for one. *)
Inductive wire := Said (s : string) | Unprintable.

(** [validator.check]: gone, backlogged, malformed, or a verdict with the hash. *)
Inductive verdict := VDead | VBusy | VErr | VOk (hash : option string) | VNo.

(** [submitblock]: accepted, refused by the node, or no answer. *)
Inductive submitted := Accepted | Refused | Threw.

Inductive phase :=
  | Verifying (cand : nonce_order * bytes) (rest : list (nonce_order * bytes))
  | Recording (order : nonce_order) (header : bytes) (hash : option string)
  | Confirming (header : bytes) (rec : recorded)
  | Submitting (header : bytes) (rec : recorded)
  | Marking (header : bytes) (rec : recorded)       (* [markShareIsBlock] *)
  | Booking (header : bytes) (rec : recorded)       (* [recordBlock] *)
  | Refreshing.

#[export] Instance wire_eq_dec : EqDecision wire.
Proof. solve_decision. Defined.

Record submission := { su_miner : string; su_job : string; su_nonce : string; su_phase : phase }.

(** A refresh waits for the template, then for the window. *)
Inductive refreshing := WaitTemplate | WaitWindow (t : template) (changed : bool).

Inductive reply :=
  | ROk
  | RError (code : string).

#[export] Instance reply_eq_dec : EqDecision reply.
Proof. solve_decision. Defined.

(** An answer written to a miner's socket, with the submission it answers. *)
Record answered := { an_k : nat; an_miner : string; an_job : string; an_nonce : string; an_reply : reply }.

Record pool := {
  p_state : pool_state;
  p_world : world;                               (* the ledger *)
  p_subs : gmap nat submission;
  p_refreshes : gmap nat refreshing;
  p_replies : list answered;
  p_crashed : bool                               (* an exception nothing catches *)
}.

Definition put_state (s : pool_state) (p : pool) : pool := {|
  p_state := s; p_world := p_world p; p_subs := p_subs p; p_refreshes := p_refreshes p;
  p_replies := p_replies p; p_crashed := p_crashed p |}.
Definition put_world (w : world) (p : pool) : pool := {|
  p_state := p_state p; p_world := w; p_subs := p_subs p; p_refreshes := p_refreshes p;
  p_replies := p_replies p; p_crashed := p_crashed p |}.
Definition put_subs (m : gmap nat submission) (p : pool) : pool := {|
  p_state := p_state p; p_world := p_world p; p_subs := m; p_refreshes := p_refreshes p;
  p_replies := p_replies p; p_crashed := p_crashed p |}.
Definition put_refreshes (m : gmap nat refreshing) (p : pool) : pool := {|
  p_state := p_state p; p_world := p_world p; p_subs := p_subs p; p_refreshes := m;
  p_replies := p_replies p; p_crashed := p_crashed p |}.
Definition crash (p : pool) : pool := {|
  p_state := p_state p; p_world := p_world p; p_subs := p_subs p; p_refreshes := p_refreshes p;
  p_replies := p_replies p; p_crashed := true |}.

(** Suspend a submission in a phase; answer it and forget it. *)
Definition suspend (k : nat) (su : submission) (ph : phase) (p : pool) : pool :=
  put_subs (<[k := {| su_miner := su_miner su; su_job := su_job su; su_nonce := su_nonce su;
                      su_phase := ph |}]> (p_subs p)) p.
Definition answer (k : nat) (mid job nonce : string) (r : reply) (p : pool) : pool := {|
  p_state := p_state p; p_world := p_world p; p_subs := delete k (p_subs p);
  p_refreshes := p_refreshes p;
  p_replies := p_replies p ++
    [{| an_k := k; an_miner := mid; an_job := job; an_nonce := nonce; an_reply := r |}];
  p_crashed := p_crashed p |}.
Definition answer_sub (k : nat) (su : submission) (r : reply) (p : pool) : pool :=
  answer k (su_miner su) (su_job su) (su_nonce su) r p.

(** ** Helpers *)

Definition set_seen (l : list string) (j : job) : job := {|
  j_id := j_id j; j_header := j_header j; j_coinbase := j_coinbase j; j_height := j_height j;
  j_bits := j_bits j; j_prevhash := j_prevhash j; j_txs := j_txs j; j_target := j_target j;
  j_netTarget := j_netTarget j; j_value := j_value j; j_payout := j_payout j; j_seen := l;
  j_miner := j_miner j |}.

Definition update_job (id : string) (f : job -> job) (s : pool_state) : pool_state :=
  set_jobs (s_jobs s) (alter f id (s_jobheap s)) (s_jobSeq s) s.
Definition see (id nonce : string) (s : pool_state) : pool_state :=
  update_job id (fun j => set_seen (nonce :: j_seen j) j) s.
Definition unsee (id nonce : string) (s : pool_state) : pool_state :=
  update_job id (fun j => set_seen (filter (fun n => n <> nonce) (j_seen j)) j) s.

Definition offer (w : vwindow) : vwindow :=
  {| vw_start := vw_start w; vw_shares := vw_shares w; vw_offered := vw_offered w + 1 |}.
Definition count_share (w : vwindow) : vwindow :=
  {| vw_start := vw_start w; vw_shares := vw_shares w + 1; vw_offered := vw_offered w |}.

(** [/^[0-9a-fA-F]{8}$/], and [toLowerCase]. *)
Fixpoint all_hex (s : string) : bool :=
  match s with
  | EmptyString => true
  | String c s' => match hex_val c with Some _ => all_hex s' | None => false end
  end.
Definition is_nonce (s : string) : bool := bool_decide (String.length s = 8%nat) && all_hex s.

(** [/^[0-9a-f]{64}$/] *)
Definition is_lower_hex (s : string) : bool :=
  all_hex s && bool_decide (lower_string s = s).
Definition usable_hash (h : option string) : option string :=
  match h with
  | Some s => if bool_decide (String.length s = 64%nat) && is_lower_hex s then Some s else None
  | None => None
  end.

(** The byte orders to try: the miner's last one first, a palindrome once. *)
Definition orders_for (nonce : string) (last : option nonce_order) : list (nonce_order * bytes) :=
  let standard := hex_decode nonce in
  let legacy := reverse standard in
  let orders := if decide (last = Some Legacy) then [(Legacy, legacy); (Standard, standard)]
                else [(Standard, standard); (Legacy, legacy)] in
  if bool_decide (legacy = standard) then take 1 orders else orders.

(** The job's header with the nonce written at offset 76. *)
Definition with_nonce (header nonce : bytes) : bytes := buf_copy nonce 76 header.

(** The filter in front of the second check: could this hash be a block? *)
Definition might_be_block (netTarget : bytes) (hash : option string) : bool :=
  match usable_hash hash with
  | Some h => match buf_compare (hex_decode h) netTarget with Gt => false | _ => true end
  | None => true
  end.

Definition display_hash (b : bytes) : string := hex_encode (reverse b).

(** ** Segments *)

Section server.
Context {SHA : Sha256}.
Context (cfg : config).

(** Run a synchronous operation; an exception in a listener takes the process down. *)
Definition perform (f : act unit) (p : pool) : pool :=
  match f (p_state p) with
  | (Ok _, s) => put_state s p
  | (Err _, s) => crash (put_state s p)
  end.

(** [login]: the address is checked at the door, then the miner gets a job.  Session
    ids are eight random bytes: one that is already taken does not come up.  The listener
    is an async function nothing awaits: what is thrown in it ends the process. *)
Definition new_miner (mid login extranonce : string) (now : Z) : miner := {|
  m_id := mid; m_login := login; m_extranonce := extranonce; m_jobCounter := 0;
  m_diffFactor := vc_startFactor (cfg_vardiff cfg); m_accepted := 0; m_rejected := 0;
  m_window := fresh_vwindow now; m_nonceOrder := None |}.

Definition may_login (login : string) : bool :=
  (bool_decide (cfg_allowlist cfg = []) || bool_decide (login ∈ cfg_allowlist cfg))
  && is_ok (login_address login (cfg_hrp cfg)).

Definition on_login (mid : string) (sent : wire) (extranonce : string) (now : Z) (p : pool) : pool :=
  match sent with
  | Unprintable => crash p
  | Said sent =>
  let login := js_trim sent in
  if may_login login && bool_decide (s_miners (p_state p) !! mid = None) then
    let s := p_state p in
    let s := set_miners (filter (fun k => k <> mid) (s_live s) ++ [mid])
               (<[mid := new_miner mid login extranonce now]> (s_miners s)) s in
    perform (push_job mid) (put_state s p)
  else p
  end.

Definition on_bye (mid : string) (p : pool) : pool :=
  put_state (set_miners (filter (fun k => k <> mid) (s_live (p_state p))) (s_miners (p_state p)) (p_state p)) p.

(** [handleSubmit] up to its first await. The job is looked up as it was sent, so an id
    that is no string is not found; the nonce is made a string once the job is the
    session's own. *)
Definition on_submit (k : nat) (mid jobId : string) (sent : wire) (p : pool) : pool :=
  let s := p_state p in
  let nonceHex := match sent with Said n => n | Unprintable => "" end in
  if s_storeDown s then answer k mid jobId nonceHex (RError "pool ledger unavailable; not accepting shares") p else
  if bool_decide (jobId ∈ s_jobs s) then
    match s_jobheap s !! jobId with
    | None => answer k mid jobId nonceHex (RError "job not found or stale") p
    | Some j =>
        if bool_decide (j_miner j <> mid) then answer k mid jobId nonceHex (RError "job belongs to another session") p else
        if bool_decide (sent = Unprintable) then crash p else
        if negb (is_nonce nonceHex) then answer k mid jobId nonceHex (RError "nonce must be 8 hex chars") p else
        let nonce := lower_string nonceHex in
        if bool_decide (nonce ∈ j_seen j) then answer k mid jobId nonceHex (RError "duplicate share") p else
        let s := see jobId nonce s in
        let s := update_miner mid (fun m => set_window (offer (m_window m)) m) s in
        match orders_for nonce ((s_miners s !! mid ≫= m_nonceOrder)) with
        | [] => crash p
        | cand :: rest =>
            suspend k {| su_miner := mid; su_job := jobId; su_nonce := nonce; su_phase := Refreshing |}
              (Verifying cand rest) (put_state s p)
        end
    end
  else answer k mid jobId nonceHex (RError "job not found or stale") p.

(** After the validator's answer on a share. *)
Definition on_verdict (k : nat) (su : submission) (cand : nonce_order * bytes)
    (rest : list (nonce_order * bytes)) (v : verdict) (p : pool) : pool :=
  let s := p_state p in
  match s_jobheap s !! su_job su with
  | None => crash p
  | Some j =>
      match v with
      | VDead => answer_sub k su (RError "pool validator unavailable") (put_state (unsee (su_job su) (su_nonce su) s) p)
      | VBusy => answer_sub k su (RError "pool is behind; retry this share") (put_state (unsee (su_job su) (su_nonce su) s) p)
      | VErr => answer_sub k su (RError "malformed share") p
      | VOk hash =>
          let s := update_miner (su_miner su) (set_order cand.1) s in
          suspend k su (Recording cand.1 (with_nonce (j_header j) cand.2) hash) (put_state s p)
      | VNo =>
          match rest with
          | cand' :: rest' => suspend k su (Verifying cand' rest') p
          | [] =>
              let s := update_miner (su_miner su) (fun m => set_tally (m_accepted m) (m_rejected m + 1) m) s in
              answer_sub k su (RError "share above target") (put_state s p)
          end
      end
  end.

(** The end of [handleSubmit]: retune, answer OK. *)
Definition finish (k : nat) (su : submission) (now : Z) (p : pool) : pool :=
  match retune_miner cfg now (su_miner su) (p_state p) with
  | (Ok _, s) => answer_sub k su ROk (put_state s p)
  | (Err _, s) => crash (put_state s p)
  end.

(** The share is stored before it is acknowledged. *)
Definition record_args (j : job) (su : submission) (login : string) (now : Z) : share_args := {|
  sa_at := now; sa_miner := login; sa_session := su_miner su; sa_jobId := j_id j;
  sa_nonce := su_nonce su; sa_height := j_height j; sa_targetHex := hex_encode (j_target j) |}.

Definition on_record (k : nat) (su : submission) (header : bytes) (hash : option string) (now : Z)
    (p : pool) : pool :=
  let s := p_state p in
  match s_jobheap s !! su_job su, s_miners s !! su_miner su with
  | Some j, Some m =>
      match recordShare (record_args j su (m_login m) now) (p_world p) with
      | (Err _, w) =>
          answer_sub k su (RError "pool could not record the share; retry")
            (put_world w (put_state (unsee (su_job su) (su_nonce su) s) p))
      | (Ok rec, w) =>
          let s := if r_fresh rec then
              set_counters (s_accepted s + 1) (s_blocksFound s) (s_storeDown s)
                (update_miner (su_miner su)
                   (fun m => set_window (count_share (m_window m)) (set_tally (m_accepted m + 1) (m_rejected m) m)) s)
            else s in
          let p := put_world w (put_state s p) in
          if might_be_block (j_netTarget j) hash then suspend k su (Confirming header rec) p
          else finish k su now p
      end
  | _, _ => crash p
  end.

(** After the forced check against the network target. *)
Definition on_confirm (k : nat) (su : submission) (header : bytes) (rec : recorded) (v : verdict)
    (now : Z) (p : pool) : pool :=
  match v with
  | VOk _ => suspend k su (Submitting header rec) p
  | _ => finish k su now p
  end.

(** [recordBlock]: what this job's coinbase pays; a failure to write it is logged. *)
Definition block_args (j : job) (blockId login : string) (shareId now : Z) : paid_args := {|
  ba_hash := blockId; ba_height := j_height j; ba_value := j_value j; ba_finder := login;
  ba_shareId := shareId; ba_at := now; ba_coinbaseTxid := display_hash (cb_txid (j_coinbase j));
  ba_outputs := match j_payout j with Some ps => ps_outputs ps | None => [] end;
  ba_fee := match j_payout j with Some ps => ps_fee ps | None => 0 end;
  ba_windowWeight := match j_payout j with Some ps => ps_windowWeight ps | None => 0 end |}.

Definition recordBlock (j : job) (blockId login : string) (shareId now : Z) (w : world) : world :=
  (recordBlockPaidByCoinbase (block_args j blockId login shareId now) w).2.

(** [await refreshTemplate()] at the end of [handleSubmit]. *)
Definition refresh_then_finish (k : nat) (su : submission) (p : pool) : pool :=
  put_refreshes (<[k := WaitTemplate]> (p_refreshes p)) (suspend k su Refreshing p).

(** After [submitblock]: the ledger is written only when the node took the block; then
    the template is refreshed either way. *)
Definition on_node (k : nat) (su : submission) (header : bytes) (rec : recorded) (r : submitted)
    (p : pool) : pool :=
  let s := p_state p in
  match r with
  | Accepted =>
      suspend k su (Marking header rec)
        (put_state (set_counters (s_accepted s) (s_blocksFound s + 1) (s_storeDown s) s) p)
  | _ => refresh_then_finish k su p
  end.

(** After [markShareIsBlock], whose failure is swallowed. *)
Definition on_mark (k : nat) (su : submission) (header : bytes) (rec : recorded) (p : pool) : pool :=
  suspend k su (Booking header rec) (put_world (markShareIsBlock (r_id rec) (p_world p)).2 p).

(** After [recordBlock]. Its calls to the store are one segment: between them another
    [recordBlock] could only [INSERT OR IGNORE] its own rows, and the maturity pass
    updates block rows that are there. *)
Definition on_book (k : nat) (su : submission) (header : bytes) (rec : recorded) (now : Z)
    (p : pool) : pool :=
  let s := p_state p in
  match s_jobheap s !! su_job su, s_miners s !! su_miner su with
  | Some j, Some m =>
      let blockId := display_hash (sha256d header) in
      refresh_then_finish k su
        (put_world (recordBlock j blockId (m_login m) (r_id rec) now (p_world p)) p)
  | _, _ => crash p
  end.

(** [refreshTemplate] after getblocktemplate: whether the tip moved is decided here. *)
Definition end_refresh (k : nat) (now : Z) (p : pool) : pool :=
  let p := put_refreshes (delete k (p_refreshes p)) p in
  match p_subs p !! k with
  | Some su => match su_phase su with Refreshing => finish k su now p | _ => p end
  | None => p
  end.

Definition on_template (k : nat) (t : option template) (now : Z) (p : pool) : pool :=
  match t with
  | None => end_refresh k now p
  | Some t =>
      let changed := match s_tpl (p_state p) with
        | None => true
        | Some t0 => negb (bool_decide (t_previousblockhash t0 = t_previousblockhash t))
        end in
      put_refreshes (<[k := WaitWindow t changed]> (p_refreshes p)) p
  end.

(** The payout set of a template, from the window as the ledger has it. *)
Definition payout_for (t : template) (script : bytes) (w : window) : result money_err payout_set :=
  buildPayoutOutputs {|
    pa_value := t_coinbasevalue t; pa_feeBasisPoints := cfg_feeBasisPoints cfg;
    pa_entries := we_entry <$> win_entries w;
    pa_scriptOf := fun addr => addressToScript addr (cfg_hrp cfg);
    pa_poolScript := script; pa_dustLimit := cfg_dustLimit cfg |}.

(** After the window: publish. What throws inside [refreshTemplate] is caught there. *)
Definition on_window (k : nat) (t : template) (changed : bool) (now : Z) (p : pool) : pool :=
  let '(r, w) := currentWindow (cfg_windowMultiplier cfg) (hex_encode (bitsToTarget (t_bits t))) (p_world p) in
  let payout := match r with
    | Ok win => match payout_for t (s_script (p_state p)) win with Ok ps => Some ps | Err _ => None end
    | Err _ => None
    end in
  let s := (publish cfg now t changed payout (p_state p)).2 in
  end_refresh k now (put_world w (put_state s p)).

(** ** Events *)

Inductive event :=
  | ELogin (mid : string) (login : wire) (extranonce : string) (now : Z)
  | EBye (mid : string)
  | ESubmit (k : nat) (mid jobId : string) (nonce : wire)
  | EVerdict (k : nat) (v : verdict) (now : Z)
  | EStore (k : nat) (now : Z)
  | ENode (k : nat) (r : submitted)
  | ERefresh (k : nat)                              (* the poll timer *)
  | ETemplate (k : nat) (t : option template) (now : Z)
  | EWindow (k : nat) (now : Z)
  | EGetJob (mid : string)
  | EOther (method : wire)                          (* unknown method ${msg.method} *)
  | EStoreDown.

Definition resume (k : nat) (f : submission -> phase -> pool -> pool) (p : pool) : pool :=
  match p_subs p !! k with Some su => f su (su_phase su) p | None => p end.

Definition handle (e : event) (p : pool) : pool :=
  if p_crashed p then p else
  match e with
  | ELogin mid login extranonce now => on_login mid login extranonce now p
  | EBye mid => on_bye mid p
  | ESubmit k mid jobId nonce =>
      match p_subs p !! k, p_refreshes p !! k with
      | None, None => on_submit k mid jobId nonce p
      | _, _ => p
      end
  | EVerdict k v now =>
      resume k (fun su ph p => match ph with
        | Verifying cand rest => on_verdict k su cand rest v p
        | Confirming header rec => on_confirm k su header rec v now p
        | _ => p
        end) p
  | EStore k now =>
      resume k (fun su ph p => match ph with
        | Recording _ header hash => on_record k su header hash now p
        | Marking header rec => on_mark k su header rec p
        | Booking header rec => on_book k su header rec now p
        | _ => p
        end) p
  | ENode k r =>
      resume k (fun su ph p => match ph with
        | Submitting header rec => on_node k su header rec r p
        | _ => p
        end) p
  | ERefresh k =>
      match p_subs p !! k, p_refreshes p !! k with
      | None, None => put_refreshes (<[k := WaitTemplate]> (p_refreshes p)) p
      | _, _ => p
      end
  | ETemplate k t now =>
      match p_refreshes p !! k with Some WaitTemplate => on_template k t now p | _ => p end
  | EWindow k now =>
      match p_refreshes p !! k with Some (WaitWindow t changed) => on_window k t changed now p | _ => p end
  | EGetJob mid => if bool_decide (mid ∈ s_live (p_state p)) then perform (push_job mid) p else p
  | EOther method => if bool_decide (method = Unprintable) then crash p else p
  | EStoreDown => put_state (set_counters (s_accepted (p_state p)) (s_blocksFound (p_state p)) true (p_state p)) p
  end.

(** An event whose field has no string, at the place where the code makes one: at a
    login and in the answer to an unknown method always, at a submission on a job of the
    sender's own. *)
Definition lethal (p : pool) (e : event) : bool :=
  match e with
  | ELogin _ Unprintable _ _ | EOther Unprintable => true
  | ESubmit k mid jobId Unprintable =>
      bool_decide (p_subs p !! k = None /\ p_refreshes p !! k = None) &&
      negb (s_storeDown (p_state p)) && bool_decide (jobId ∈ s_jobs (p_state p)) &&
      bool_decide (j_miner <$> s_jobheap (p_state p) !! jobId = Some mid)
  | _ => false
  end.

Definition run_events (p : pool) (es : list event) : pool := foldl (fun p e => handle e p) p es.
End server.

(** The state at startup, after the pool's own address was decoded. *)
Definition initial_state (script : bytes) : pool_state := {|
  s_tpl := None; s_script := script; s_netTarget := None; s_jobs := []; s_jobheap := ∅;
  s_jobSeq := 0; s_live := []; s_miners := ∅; s_payout := None; s_payoutHeld := false;
  s_accepted := 0; s_blocksFound := 0; s_storeDown := false; s_pushed := [] |}.
Definition initial_pool (script : bytes) (w : world) : pool := {|
  p_state := initial_state script; p_world := w; p_subs := ∅; p_refreshes := ∅;
  p_replies := []; p_crashed := false |}.
