(* ===== verification/PoolProofs.v ===== *)
(** * What every run of the pool keeps (contrib/pool/pool.mjs)

    The invariant of the whole server, and that every event keeps it. *)

From Stdlib Require Import SpecFloat Ascii.
From S2P Require Import Prelude JsInt JsText Bytes PoolAddress Block BlockSpec Target PoolMath JsNum Vardiff.
From S2P Require Import StoreDb Shares Ledger PoolState PoolInv PoolServer.
Local Open Scope Z_scope.

(** What the node and the random source answer. *)
Definition event_ok (e : event) : Prop :=
  match e with
  | ELogin _ _ en _ => String.length en = 4%nat /\ length (hex_decode en) = 2%nat
  | ETemplate _ (Some t) _ => template_ok t
  | _ => True
  end.

(** A row that was in the ledger before, up to the flag [is_block]. *)
Definition unflag (r : share) : share := {|
  sh_id := sh_id r; sh_at := sh_at r; sh_miner := sh_miner r; sh_session := sh_session r;
  sh_job := sh_job r; sh_nonce := sh_nonce r; sh_height := sh_height r; sh_weight := sh_weight r;
  sh_target := sh_target r; sh_is_block := false |}.
Definition old_row (base : db) (r : share) : Prop := unflag r ∈ unflag <$> shares base.

(** A row of this run: the miner that holds the job, the job's target, its weight. *)
Definition row_ok (s : pool_state) (r : share) : Prop :=
  exists j m, s_jobheap s !! sh_job r = Some j /\ s_miners s !! j_miner j = Some m /\
    sh_miner r = m_login m /\ sh_session r = j_miner j /\ sh_target r = hex_encode (j_target j) /\
    targetWeight (be_value (j_target j)) = Ok (sh_weight r).

Definition sub_key (su : submission) : string * string := (su_job su, su_nonce su).
Definition ack_key (a : answered) : string * string := (an_job a, an_nonce a).
Definition acks (l : list answered) : list answered := filter (fun a => an_reply a = ROk) l.

(** The job is held by that miner, and the nonce is marked as seen on it. *)
Definition seen_on (s : pool_state) (key : string * string) (mid : string) : Prop :=
  exists j, s_jobheap s !! key.1 = Some j /\ key.2 ∈ j_seen j /\ j_miner j = mid.

(** The share is already recorded in these phases. *)
Definition is_recorded (ph : phase) : bool :=
  match ph with Verifying _ _ | Recording _ _ _ => false | _ => true end.

Section run.
Context {SHA : Sha256}.
(** [base]: the ledger at startup. *)
Context (cfg : config) (script : bytes) (base : db).
#[local] Notation old := (old_row base).
#[local] Notation rows := (Z.of_nat (length (shares base))).

Record pool_inv (p : pool) : Prop := {
  pi_state : state_inv script (p_state p);
  pi_alive : p_crashed p = false;
  pi_seen : forall k su, p_subs p !! k = Some su -> seen_on (p_state p) (sub_key su) (su_miner su);
  pi_stored : forall k su, p_subs p !! k = Some su -> is_recorded (su_phase su) = true ->
                is_Some (find_share (sub_key su) (w_db (p_world p)));
  pi_apart : forall k k' su su', p_subs p !! k = Some su -> p_subs p !! k' = Some su' ->
               sub_key su = sub_key su' -> k = k';
  pi_refreshes : forall k t c, p_refreshes p !! k = Some (WaitWindow t c) -> template_ok t;
  pi_acks : Forall (fun a => seen_on (p_state p) (ack_key a) (an_miner a) /\
              is_Some (find_share (ack_key a) (w_db (p_world p)))) (acks (p_replies p));
  pi_once : NoDup (ack_key <$> acks (p_replies p));
  pi_pending : forall k su, p_subs p !! k = Some su -> sub_key su ∉ ack_key <$> acks (p_replies p);
  pi_rows : Forall (fun r => old r \/ row_ok (p_state p) r) (shares (w_db (p_world p)));
  pi_keys : NoDup (share_key <$> shares base) -> NoDup (share_key <$> shares (w_db (p_world p)));
  pi_count : rows + s_accepted (p_state p) <= Z.of_nat (length (shares (w_db (p_world p))))
}.

(** ** Changing one part *)

Lemma seen_on_heap s s' key mid : s_jobheap s ⊆ s_jobheap s' -> seen_on s key mid -> seen_on s' key mid.
Proof. intros H (j & Hj & Hn & Hm). exists j. split; [by eapply lookup_weaken|done]. Qed.

Lemma row_ok_heap s s' r : s_jobheap s ⊆ s_jobheap s' -> miners_le s s' -> row_ok s r -> row_ok s' r.
Proof.
  intros H Hle (j & m & Hj & Hm & Hl & Hrest). apply Hle in Hm as (m' & Hm & E).
  exists j, m'. split; [by eapply lookup_weaken|]. split; [done|]. split; [congruence|done].
Qed.

Lemma rows_heap s s' l : s_jobheap s ⊆ s_jobheap s' -> miners_le s s' ->
  Forall (fun r => old r \/ row_ok s r) l -> Forall (fun r => old r \/ row_ok s' r) l.
Proof.
  intros H Hle Hl. eapply Forall_impl; [exact Hl|]. intros r [|Hr]; [by left|right]. by eapply row_ok_heap.
Qed.

(** The process state moves on. *)
Lemma put_state_inv p s : pool_inv p -> state_inv script s -> extends (p_state p) s ->
  pool_inv (put_state s p).
Proof.
  intros [] Hs [Hh Hm Hl Ha]. split; try done; cbn.
  - intros k su Hk. eapply seen_on_heap; [exact Hh|eauto].
  - eapply Forall_impl; [exact pi_acks0|]. intros a [H1 H2]. split; [by eapply seen_on_heap|done].
  - by eapply rows_heap.
  - by rewrite Ha.
Qed.

Lemma perform_inv p f : pool_inv p -> safe_at script (p_state p) f -> pool_inv (perform f p).
Proof.
  intros Hp ([] & s & Hf & Hs & Hg). unfold perform. rewrite Hf. apply put_state_inv; [done|done|].
  by apply grows_extends.
Qed.

(** The ledger moves on: rows stay. *)
Definition ledger_le (d d' : db) : Prop :=
  (forall key, is_Some (find_share key d) -> is_Some (find_share key d')) /\
  (NoDup (share_key <$> shares d) -> NoDup (share_key <$> shares d')) /\
  (length (shares d) <= length (shares d'))%nat.

Lemma put_world_inv p w : pool_inv p -> ledger_le (w_db (p_world p)) (w_db w) ->
  Forall (fun r => old r \/ row_ok (p_state p) r) (shares (w_db w)) -> pool_inv (put_world w p).
Proof.
  intros [] (Hk & Hn & Hl) Hr. split; try done; cbn; [eauto| |eauto|lia].
  eapply Forall_impl; [exact pi_acks0|]. intros a [H1 H2]. eauto.
Qed.

(** Another wait of the same submission. *)
Lemma suspend_inv p k su ph : pool_inv p -> p_subs p !! k = Some su ->
  (is_recorded ph = true -> is_Some (find_share (sub_key su) (w_db (p_world p)))) ->
  pool_inv (suspend k su ph p).
Proof.
  intros [] Hk Hph. split; try done; cbn.
  - intros k' su'. rewrite lookup_insert_Some. intros [[<- <-]|[_ H]]; [exact (pi_seen0 k su Hk)|eauto].
  - intros k' su'. rewrite lookup_insert_Some. intros [[<- <-]|[_ H]]; [done|eauto].
  - intros k1 k2 s1 s2. rewrite !lookup_insert_Some.
    intros [[<- <-]|[Hn1 H1]] [[<- <-]|[Hn2 H2]] E; [done| | |eauto].
    + by apply (pi_apart0 k k2 su s2).
    + by apply (pi_apart0 k1 k s1 su).
  - intros k' su'. rewrite lookup_insert_Some. intros [[<- <-]|[_ H]]; [exact (pi_pending0 k su Hk)|eauto].
Qed.

Lemma put_refreshes_inv p m : pool_inv p -> (forall k t c, m !! k = Some (WaitWindow t c) -> template_ok t) ->
  pool_inv (put_refreshes m p).
Proof. intros [] Hm. by split. Qed.

Lemma acks_app l a : acks (l ++ [a]) = acks l ++ (if decide (an_reply a = ROk) then [a] else []).
Proof. unfold acks. rewrite filter_app. f_equal. Qed.

(** An answer that is not OK. *)
Lemma refuse_inv p k mid job nonce e : pool_inv p -> pool_inv (answer k mid job nonce (RError e) p).
Proof.
  intros []. split; cbn; rewrite ?acks_app, ?app_nil_r; try done.
  - intros k' su'. rewrite lookup_delete_Some. intros [_ H]. eauto.
  - intros k' su'. rewrite lookup_delete_Some. intros [_ H]. eauto.
  - intros k1 k2 s1 s2. rewrite !lookup_delete_Some. intros [_ H1] [_ H2]. eauto.
  - intros k' su'. rewrite lookup_delete_Some. intros [_ H]. eauto.
Qed.

(** OK, to a submission whose share is stored. *)
Lemma accept_inv p k su : pool_inv p -> p_subs p !! k = Some su ->
  is_Some (find_share (sub_key su) (w_db (p_world p))) -> pool_inv (answer_sub k su ROk p).
Proof.
  intros [] Hk Hf. split; cbn; rewrite ?acks_app; try done.
  - intros k' su'. rewrite lookup_delete_Some. intros [_ H]. eauto.
  - intros k' su'. rewrite lookup_delete_Some. intros [_ H]. eauto.
  - intros k1 k2 s1 s2. rewrite !lookup_delete_Some. intros [_ H1] [_ H2]. eauto.
  - cbn. apply Forall_app. split; [done|]. constructor; [|done]. split; [|done]. by apply (pi_seen0 k).
  - cbn. rewrite fmap_app. apply NoDup_app. split; [done|]. split; [|apply NoDup_singleton].
    intros x Hx Hin. apply list_elem_of_singleton in Hin as ->. by apply (pi_pending0 k su).
  - cbn. intros k' su'. rewrite lookup_delete_Some, fmap_app, elem_of_app. intros [Hne H] [Hin|Hin].
    + by apply (pi_pending0 k' su').
    + apply list_elem_of_singleton in Hin. by apply Hne, (pi_apart0 k k' su su').
Qed.

(** ** The seen sets *)

Definition seen_update (id : string) (g : list string -> list string) (s : pool_state) : pool_state :=
  update_job id (fun j => set_seen (g (j_seen j)) j) s.

Lemma seen_update_lookup id g s k j' : s_jobheap (seen_update id g s) !! k = Some j' ->
  exists j, s_jobheap s !! k = Some j /\ j' = set_seen (if decide (k = id) then g (j_seen j) else j_seen j) j.
Proof.
  cbn. rewrite lookup_alter_Some. intros [(-> & j & Hj & ->)|[Hne Hj]].
  - exists j. by rewrite decide_True.
  - exists j'. rewrite decide_False by done. split; [done|]. by destruct j'.
Qed.

Lemma seen_update_lookup' id g s k j : s_jobheap s !! k = Some j ->
  s_jobheap (seen_update id g s) !! k = Some (set_seen (if decide (k = id) then g (j_seen j) else j_seen j) j).
Proof.
  intros Hj. cbn. case_decide; [subst; by rewrite lookup_alter_eq, Hj|].
  rewrite lookup_alter_ne, Hj by done. by destruct j.
Qed.

Lemma seen_update_inv id g s : state_inv script s -> state_inv script (seen_update id g s).
Proof.
  intros []. split; try done.
  - intros k j' H. apply seen_update_lookup in H as (j & Hj & ->). by apply si_heap in Hj.
  - intros k j' H. apply seen_update_lookup in H as (j & Hj & ->). by apply si_owner in Hj.
  - eapply Forall_impl; [exact si_jobs|]. intros k [j Hj]. eexists. by apply seen_update_lookup'.
Qed.

Lemma seen_update_row id g s r : row_ok s r -> row_ok (seen_update id g s) r.
Proof.
  intros (j & m & Hj & Hrest). eexists _, m. split; [by apply seen_update_lookup'|]. done.
Qed.

Lemma seen_update_rows id g s l : Forall (fun r => old r \/ row_ok s r) l ->
  Forall (fun r => old r \/ row_ok (seen_update id g s) r) l.
Proof. intros H. eapply Forall_impl; [exact H|]. intros r [|Hr]; [by left|right; by apply seen_update_row]. Qed.

Lemma seen_update_on id g s key mid : seen_on s key mid ->
  (forall l, key.1 = id -> key.2 ∈ l -> key.2 ∈ g l) -> seen_on (seen_update id g s) key mid.
Proof.
  intros (j & Hj & Hn & Hm) Hg. eexists. split; [by apply seen_update_lookup'|]. split; [|done].
  cbn. case_decide; [by apply Hg|done].
Qed.

(** A nonce goes in: a new submission. *)
Lemma submit_inv p k mid jobId nonce j f cand rest :
  pool_inv p -> p_subs p !! k = None -> s_jobheap (p_state p) !! jobId = Some j -> j_miner j = mid ->
  nonce ∉ j_seen j -> miner_update f ->
  pool_inv (suspend k {| su_miner := mid; su_job := jobId; su_nonce := nonce; su_phase := Refreshing |}
    (Verifying cand rest) (put_state (update_miner mid f (see jobId nonce (p_state p))) p)).
Proof.
  intros [] Hk Hj Hmid Hnew Hf. set (s1 := see jobId nonce (p_state p)).
  assert (state_inv script s1) as Hs1 by by apply seen_update_inv.
  assert (forall key m, seen_on (p_state p) key m -> seen_on (update_miner mid f s1) key m) as Hon.
  { intros key m H. apply (seen_on_heap s1); [done|]. apply seen_update_on; [done|]. intros l _ Hl. by right. }
  assert (seen_on (update_miner mid f s1) (jobId, nonce) mid) as Hself.
  { eexists. split; [cbn; by apply (seen_update_lookup' jobId (cons nonce))|]. cbn. rewrite decide_True by done.
    split; [by left|done]. }
  assert (forall key m, seen_on (p_state p) key m -> key <> (jobId, nonce)) as Hne.
  { intros key m (j' & Hj' & Hn & _) ->. cbn in Hj', Hn. rewrite Hj in Hj'. by injection Hj' as <-. }
  split; try done; cbn.
  - by apply update_miner_inv.
  - intros k' su'. rewrite lookup_insert_Some. intros [[<- <-]|[_ H]]; [done|eauto].
  - intros k' su'. rewrite lookup_insert_Some. intros [[<- <-]|[_ H]]; [done|eauto].
  - intros k1 k2 t1 t2. rewrite !lookup_insert_Some.
    intros [[<- <-]|[_ H1]] [[<- <-]|[_ H2]] E; [done| | |eauto].
    + by destruct (Hne _ _ (pi_seen0 _ _ H2)).
    + by destruct (Hne _ _ (pi_seen0 _ _ H1)).
  - eapply Forall_impl; [exact pi_acks0|]. intros a [H1 H2]. auto.
  - intros k' su'. rewrite lookup_insert_Some. intros [[<- <-]|[_ H]] Hin; [|by apply (pi_pending0 k' su')].
    apply list_elem_of_fmap in Hin as (a & E & Ha). apply (proj1 (Forall_forall _ _) pi_acks0) in Ha as [Ha _].
    by apply (Hne _ _ Ha).
  - eapply rows_heap; [| |by apply (seen_update_rows jobId (cons nonce))]; [done|].
    by eapply update_miners_le.
Qed.

(** A nonce comes out: the submission is refused and the miner may send it again. *)
Lemma give_back_inv p k su e : pool_inv p -> p_subs p !! k = Some su ->
  pool_inv (answer_sub k su (RError e) (put_state (unsee (su_job su) (su_nonce su) (p_state p)) p)).
Proof.
  intros [] Hk.
  set (g := fun l : list string => filter (fun n => n <> su_nonce su) l).
  assert (forall key m, key <> sub_key su -> seen_on (p_state p) key m ->
    seen_on (seen_update (su_job su) g (p_state p)) key m) as Hon.
  { intros key m Hne H. apply seen_update_on; [done|]. intros l E Hl. apply list_elem_of_filter.
    split; [|done]. intros E'. apply Hne. destruct key. cbn in *. by subst. }
  split; cbn; rewrite ?acks_app, ?app_nil_r; try done.
  - by apply seen_update_inv.
  - intros k' su'. rewrite lookup_delete_Some. intros [Hne H]. apply Hon; [|eauto].
    intros E. by apply Hne, (pi_apart0 k k' su su').
  - intros k' su'. rewrite lookup_delete_Some. intros [_ H]. eauto.
  - intros k1 k2 s1 s2. rewrite !lookup_delete_Some. intros [_ H1] [_ H2]. eauto.
  - apply Forall_forall. intros a Ha. pose proof Ha as Ha'.
    apply (proj1 (Forall_forall _ _) pi_acks0) in Ha' as [H1 H2]. split; [|done]. apply Hon; [|done].
    intros E. apply (pi_pending0 k su Hk). rewrite <- E. by apply list_elem_of_fmap_2.
  - intros k' su'. rewrite lookup_delete_Some. intros [_ H]. eauto.
  - by apply (seen_update_rows (su_job su) g).
Qed.

(** ** The ledger under a block's records *)

Lemma find_share_key key d : is_Some (find_share key d) <-> key ∈ share_key <$> shares d.
Proof.
  split.
  - intros [r Hr]. apply find_share_Some in Hr as [Hin <-]. by apply list_elem_of_fmap_2.
  - intros Hin. apply list_elem_of_fmap in Hin as (r & -> & Hr).
    destruct (find_share (share_key r) d) eqn:E; [by eexists|].
    by destruct (proj1 (find_share_None _ _) E r Hr).
Qed.

(** The same shares up to the block flag, all satisfying [R]. *)
Definition same_shares (R : share -> Prop) (keys : list (string * string)) (d : db) : Prop :=
  share_key <$> shares d = keys /\ Forall R (shares d).

Section same.
Context (R : share -> Prop) (keys : list (string * string)).
Hypothesis R_flag : forall r d id, r ∈ shares (mark_block id d) -> Forall R (shares d) -> R r.

Lemma same_eq d d' : shares d' = shares d -> same_shares R keys d -> same_shares R keys d'.
Proof. unfold same_shares. by intros ->. Qed.
Lemma same_insert_block b d : same_shares R keys d -> same_shares R keys (insert_block b d).
Proof. apply same_eq, insert_block_rest. Qed.
Lemma same_insert_fee f d : same_shares R keys d -> same_shares R keys (insert_fee f d).
Proof. apply same_eq. unfold insert_fee. by case_decide. Qed.
Lemma same_insert_payouts l d : same_shares R keys d -> same_shares R keys (insert_payouts l d).
Proof.
  revert d. induction l as [|x l IH]; intros d H; [done|]. apply IH. revert H. apply same_eq.
  unfold insert_payout. by case_decide.
Qed.
Lemma same_mark_block id d : same_shares R keys d -> same_shares R keys (mark_block id d).
Proof.
  intros [Hk Hr]. split.
  - rewrite <- Hk. cbn. rewrite <- list_fmap_compose. apply list_fmap_ext. intros i r _. cbn. by case_decide.
  - apply Forall_forall. intros r Hin. by eapply R_flag.
Qed.
#[local] Hint Resolve same_insert_block same_insert_fee same_insert_payouts same_mark_block : pcoin.

Lemma markShareIsBlock_same id : keeps (same_shares R keys) (markShareIsBlock id).
Proof. unfold markShareIsBlock. walk. Qed.
Lemma recordBlockPaidByCoinbase_same a : keeps (same_shares R keys) (recordBlockPaidByCoinbase a).
Proof. unfold recordBlockPaidByCoinbase. walk. Qed.
End same.

Lemma rows_flag s r d id : r ∈ shares (mark_block id d) ->
  Forall (fun r => old r \/ row_ok s r) (shares d) -> old r \/ row_ok s r.
Proof.
  intros Hin Hd. cbn in Hin. apply list_elem_of_fmap in Hin as (x & -> & Hx).
  apply (proj1 (Forall_forall _ _) Hd) in Hx as [Hx|Hx].
  - left. revert Hx. unfold old_row. by case_decide.
  - right. by case_decide.
Qed.

Lemma same_ledger_le R d d' : same_shares R (share_key <$> shares d) d' -> ledger_le d d'.
Proof.
  intros [Hk _]. split.
  - intros key. by rewrite !find_share_key, Hk.
  - split; [by rewrite Hk|]. apply (f_equal length) in Hk. rewrite !length_fmap in Hk. lia.
Qed.

(** The two ledger calls of a found block. *)
Lemma same_shares_inv p w : pool_inv p ->
  (forall R keys, (forall r d id, r ∈ shares (mark_block id d) -> Forall R (shares d) -> R r) ->
     same_shares R keys (w_db (p_world p)) -> same_shares R keys (w_db w)) ->
  pool_inv (put_world w p).
Proof.
  intros Hp Hw. set (R := fun r => old r \/ row_ok (p_state p) r).
  assert (same_shares R (share_key <$> shares (w_db (p_world p))) (w_db w)) as Hsame.
  { apply Hw; [intros r d id; apply rows_flag|]. split; [done|]. apply pi_rows, Hp. }
  apply put_world_inv; [done|by eapply same_ledger_le|apply Hsame].
Qed.

Lemma marked_inv p id : pool_inv p -> pool_inv (put_world (markShareIsBlock id (p_world p)).2 p).
Proof. intros Hp. apply same_shares_inv; [done|]. intros R keys HR. by apply markShareIsBlock_same. Qed.

Lemma booked_inv p j blockId login id now : pool_inv p ->
  pool_inv (put_world (recordBlock j blockId login id now (p_world p)) p).
Proof. intros Hp. apply same_shares_inv; [done|]. intros R keys HR. by apply recordBlockPaidByCoinbase_same. Qed.

(** *** Recording the share *)

Lemma share_row_ok s j m su mid now id wt : s_jobheap s !! su_job su = Some j -> j_id j = su_job su ->
  j_miner j = mid -> s_miners s !! mid = Some m -> su_miner su = mid -> bytes_ok (j_target j) ->
  targetWeight (big_of_buf (hex_decode (hex_encode (j_target j)))) = Ok wt ->
  row_ok s (new_share (record_args j su (m_login m) now) id wt).
Proof.
  intros Hj Hid Hm Hmid Hsu Hb Hw. rewrite hex_decode_encode in Hw by done.
  exists j, m. cbn. rewrite Hid, Hm, Hsu. done.
Qed.

Lemma insert_share_le a wt d : ledger_le d (insert_share a wt d).
Proof.
  unfold insert_share. destruct (find_share _ d) eqn:E; [done|]. split; [|split]; cbn.
  - intros key. rewrite !find_share_key. cbn. rewrite fmap_app, elem_of_app. by left.
  - intros Hn. rewrite fmap_app. apply NoDup_app. split; [done|]. split; [|apply NoDup_singleton].
    intros k Hin Hin'. apply list_elem_of_singleton in Hin' as ->.
    apply list_elem_of_fmap in Hin as (s & Hs & Hin). by apply (proj1 (find_share_None _ _) E s Hin).
  - rewrite length_app. lia.
Qed.

Lemma record_step p k su j m now :
  pool_inv p -> p_subs p !! k = Some su -> s_jobheap (p_state p) !! su_job su = Some j ->
  s_miners (p_state p) !! su_miner su = Some m ->
  let '(r, w') := recordShare (record_args j su (m_login m) now) (p_world p) in
  pool_inv (put_world w' p) /\
  forall rec, r = Ok rec -> is_Some (find_share (sub_key su) (w_db w')) /\
    rows + s_accepted (p_state p) + (if r_fresh rec then 1 else 0) <= Z.of_nat (length (shares (w_db w'))).
Proof.
  intros Hp Hk Hj Hm. set (a := record_args j su (m_login m) now).
  destruct (si_heap script _ (pi_state p Hp) _ _ Hj) as (Hid & (t & Ht) & _).
  destruct (pi_seen p Hp k su Hk) as (j' & Hj' & _ & Hown). cbn in Hj'. rewrite Hj in Hj'. injection Hj' as <-.
  assert ((sa_jobId a, sa_nonce a) = sub_key su) as Hkey by (cbn; by rewrite Hid).
  destruct (recordShare_cases a) as [[e He]|(wt & Hwt & Heq)].
  { rewrite He. split; [|done]. apply put_world_inv; [done|by split|apply pi_rows, Hp]. }
  rewrite Heq. destruct (record_call a wt (p_world p)) as [r w'] eqn:Hrun.
  unfold record_call in Hrun. apply run_one in Hrun as [Hcase Hok].
  split.
  - destruct Hcase as [E|E]; (apply put_world_inv; [done| |]); rewrite E.
    + by split.
    + apply (pi_rows p Hp).
    + apply insert_share_le.
    + unfold insert_share. destruct (find_share (sa_jobId a, sa_nonce a) (w_db (p_world p))); [apply (pi_rows p Hp)|]. apply Forall_app.
      split; [apply (pi_rows p Hp)|]. constructor; [|done]. right.
      apply (share_row_ok _ _ _ _ (su_miner su)); try done.
      destruct Ht as (_ & _ & _ & _ & _ & _ & _ & _ & f & _ & ->). apply hex_decode_ok.
  - intros rec ->. destruct (Hok rec eq_refl) as [_ Hq]. rewrite Hkey in Hq.
    destruct (find_share (sub_key su) (w_db w')) as [row|] eqn:Hrow; [|discriminate Hq].
    split; [by eexists|]. injection Hq as <-. cbn [r_fresh]. pose proof (pi_count p Hp).
    case_bool_decide as Hlt; [lia|]. destruct Hcase as [->| ->]; [lia|].
    pose proof (insert_share_le a wt (w_db (p_world p))) as (_ & _ & Hle). lia.
Qed.

(** ** The segments *)

Context (Hcfg : vardiff_ok (cfg_vardiff cfg)).

Lemma finish_inv p k su now : pool_inv p -> p_subs p !! k = Some su ->
  is_Some (find_share (sub_key su) (w_db (p_world p))) -> pool_inv (finish cfg k su now p).
Proof.
  intros Hp Hk Hf. unfold finish. destruct (pi_seen p Hp k su Hk) as (j & Hj & _ & Hown).
  pose proof (si_owner script _ (pi_state p Hp) _ _ Hj) as Hm. rewrite Hown in Hm.
  destruct (retune_miner_safe script cfg Hcfg now (su_miner su) (p_state p) (pi_state p Hp) Hm)
    as ([] & s & Hr & Hs & Hg).
  rewrite Hr. apply accept_inv; [|done|done]. apply put_state_inv; [done|done|by apply grows_extends].
Qed.

Lemma on_login_inv p mid sent en now : pool_inv p -> event_ok (ELogin mid (Said sent) en now) ->
  pool_inv (on_login cfg mid (Said sent) en now p).
Proof.
  intros Hp [Hl Hd]. cbn [on_login]. set (login := js_trim sent). destruct (may_login _ _); [|done]. case_bool_decide as Hnew; [|done].
  cbn [andb]. set (s := set_miners _ _ (p_state p)).
  assert (miners_le (p_state p) s) as Hle.
  { intros id m Hm. exists m. split; [|done]. cbn. rewrite lookup_insert_ne; [done|congruence]. }
  assert (miner_ok (new_miner cfg mid login en now)) as Hnm by (split; [apply Hcfg|done]).
  pose proof (pi_state p Hp) as Hps. destruct Hps.
  assert (state_inv script s) as Hs.
  { split; try done; cbn.
    - apply Forall_app. split.
      + apply Forall_forall. intros id Hin. apply list_elem_of_filter in Hin as [_ Hin].
        apply (miners_le_is_Some (p_state p) s); [done|]. by apply (proj1 (Forall_forall _ _) si_live).
      + constructor; [|done]. rewrite lookup_insert_eq. by eexists.
    - intros id m. rewrite lookup_insert_Some. intros [[<- <-]|[_ H]]; [done|eauto].
    - intros id j Hj. apply (miners_le_is_Some (p_state p) s); [done|]. by eapply si_owner. }
  apply perform_inv.
  - destruct Hp. split; try done. cbn. eapply rows_heap; [| |exact pi_rows0]; done.
  - apply push_job_safe; [done|]. cbn. rewrite lookup_insert_eq. by eexists.
Qed.

Lemma on_bye_inv p mid : pool_inv p -> pool_inv (on_bye mid p).
Proof.
  intros Hp. pose proof (pi_state p Hp) as []. unfold on_bye. destruct Hp. split; try done. split; try done. cbn.
  apply Forall_forall. intros id Hin. apply list_elem_of_filter in Hin as [_ Hin].
  by apply (proj1 (Forall_forall _ _) si_live).
Qed.

Lemma on_submit_inv p k mid jobId sent : pool_inv p -> p_subs p !! k = None -> p_refreshes p !! k = None ->
  lethal p (ESubmit k mid jobId sent) = false -> pool_inv (on_submit k mid jobId sent p).
Proof.
  intros Hp Hk Hr Hsafe. unfold on_submit. set (nonce := match sent with Said n => n | Unprintable => "" end).
  destruct (s_storeDown _) eqn:Hdown; [by apply refuse_inv|]. case_bool_decide as Hin; [|by apply refuse_inv].
  destruct (s_jobheap (p_state p) !! jobId) as [j|] eqn:Hj; [|by apply refuse_inv].
  case_bool_decide as Hmid; [by apply refuse_inv|].
  rewrite bool_decide_eq_false_2.
  2:{ intros ->. revert Hsafe. cbn. rewrite Hdown, Hj, !bool_decide_eq_true_2; [done|..]; try done.
      cbn. by rewrite Hmid. }
  destruct (is_nonce nonce); [|by apply refuse_inv]. cbn [negb].
  case_bool_decide as Hseen; [by apply refuse_inv|].
  destruct (orders_for _ _) as [|cand rest] eqn:Ho.
  - exfalso. revert Ho. unfold orders_for. by destruct (decide _), (bool_decide _).
  - by apply (submit_inv p k mid jobId _ j).
Qed.

Lemma sub_objects p k su : pool_inv p -> p_subs p !! k = Some su ->
  exists j m, s_jobheap (p_state p) !! su_job su = Some j /\ s_miners (p_state p) !! su_miner su = Some m.
Proof.
  intros Hp Hk. destruct (pi_seen p Hp k su Hk) as (j & Hj & _ & Hown).
  destruct (si_owner script _ (pi_state p Hp) _ _ Hj) as [m Hm]. rewrite Hown in Hm. by exists j, m.
Qed.

Lemma update_put_inv p id f : pool_inv p -> miner_update f ->
  pool_inv (put_state (update_miner id f (p_state p)) p).
Proof.
  intros Hp Hf. destruct (update_miner_inv script (p_state p) id f (pi_state p Hp) Hf) as [H1 H2].
  apply put_state_inv; [done|done|by apply grows_extends].
Qed.

Lemma on_verdict_inv p k su cand rest v : pool_inv p -> p_subs p !! k = Some su ->
  pool_inv (on_verdict k su cand rest v p).
Proof.
  intros Hp Hk. destruct (sub_objects p k su Hp Hk) as (j & m & Hj & Hm). unfold on_verdict. rewrite Hj.
  destruct v as [| | |hash|]; [by apply give_back_inv|by apply give_back_inv|by apply refuse_inv| |].
  - by apply suspend_inv; [apply update_put_inv; [done|apply set_order_ok]| |].
  - destruct rest as [|cand' rest']; [|by apply suspend_inv].
    apply refuse_inv. by apply update_put_inv.
Qed.

(** The share counters move only with a fresh row. *)
Lemma count_inv p id f : pool_inv p -> miner_update f ->
  rows + s_accepted (p_state p) + 1 <= Z.of_nat (length (shares (w_db (p_world p)))) ->
  pool_inv (put_state (set_counters (s_accepted (p_state p) + 1) (s_blocksFound (p_state p))
    (s_storeDown (p_state p)) (update_miner id f (p_state p))) p).
Proof.
  intros Hp Hf Hc. pose proof (update_put_inv p id f Hp Hf) as []. cbn in *.
  split; try done; cbn; [|lia]. by destruct pi_state0.
Qed.

Lemma on_record_inv p k su header hash now : pool_inv p -> p_subs p !! k = Some su ->
  pool_inv (on_record cfg k su header hash now p).
Proof.
  intros Hp Hk. destruct (sub_objects p k su Hp Hk) as (j & m & Hj & Hm). unfold on_record. rewrite Hj, Hm.
  pose proof (record_step p k su j m now Hp Hk Hj Hm) as Hstep.
  destruct (recordShare _ _) as [[rec|e] w'] eqn:Hrec; destruct Hstep as [Hw Hok].
  - destruct (Hok rec eq_refl) as [Hf Hc].
    set (p1 := put_world w' (put_state _ p)).
    assert (pool_inv p1 /\ p_subs p1 !! k = Some su /\ w_db (p_world p1) = w_db w') as (H1 & H2 & H3).
    { split; [|done]. unfold p1. destruct (r_fresh rec); [|by destruct Hw].
      refine (count_inv (put_world w' p) (su_miner su)
        (fun m => set_window (count_share (m_window m)) (set_tally (m_accepted m + 1) (m_rejected m) m)) Hw _ _);
        [done|cbn; lia]. }
    destruct (might_be_block _ _); [by apply suspend_inv; [|done|intros _; by rewrite H3]|].
    apply finish_inv; [done|done|by rewrite H3].
  - exact (give_back_inv (put_world w' p) k su _ Hw Hk).
Qed.

Lemma on_confirm_inv p k su header rec v now : pool_inv p -> p_subs p !! k = Some su ->
  is_recorded (su_phase su) = true -> pool_inv (on_confirm cfg k su header rec v now p).
Proof.
  intros Hp Hk Hr. pose proof (pi_stored p Hp k su Hk Hr) as Hf. unfold on_confirm.
  destruct v; try (by apply finish_inv). by apply suspend_inv.
Qed.

Lemma refresh_then_finish_inv p k su : pool_inv p -> p_subs p !! k = Some su ->
  is_Some (find_share (sub_key su) (w_db (p_world p))) -> pool_inv (refresh_then_finish k su p).
Proof.
  intros Hp Hk Hf. apply put_refreshes_inv; [by apply suspend_inv|].
  intros k' t c. rewrite lookup_insert_Some. intros [[_ E]|[_ H]]; [discriminate E|].
  by apply (pi_refreshes p Hp k' t c).
Qed.

Lemma on_node_inv p k su header rec r : pool_inv p -> p_subs p !! k = Some su ->
  is_recorded (su_phase su) = true -> pool_inv (on_node k su header rec r p).
Proof.
  intros Hp Hk Hr. pose proof (pi_stored p Hp k su Hk Hr) as Hf. unfold on_node.
  destruct r; [|by apply refresh_then_finish_inv..].
  apply suspend_inv; [|done|done]. pose proof Hp as []. split; try done. by destruct pi_state0.
Qed.

Lemma on_mark_inv p k su header rec : pool_inv p -> p_subs p !! k = Some su ->
  is_recorded (su_phase su) = true -> pool_inv (on_mark k su header rec p).
Proof.
  intros Hp Hk Hr. pose proof (marked_inv p (r_id rec) Hp) as Hw.
  apply suspend_inv; [done|done|]. intros _. by apply (pi_stored _ Hw k).
Qed.

Lemma on_book_inv p k su header rec now : pool_inv p -> p_subs p !! k = Some su ->
  is_recorded (su_phase su) = true -> pool_inv (on_book k su header rec now p).
Proof.
  intros Hp Hk Hr. destruct (sub_objects p k su Hp Hk) as (j & m & Hj & Hm). unfold on_book. rewrite Hj, Hm.
  pose proof (booked_inv p j (display_hash (sha256d header)) (m_login m) (r_id rec) now Hp) as Hw.
  apply refresh_then_finish_inv; [done|done|]. by apply (pi_stored _ Hw k).
Qed.

Lemma delete_refresh_inv p k : pool_inv p -> pool_inv (put_refreshes (delete k (p_refreshes p)) p).
Proof.
  intros Hp. apply put_refreshes_inv; [done|]. intros k' t c. rewrite lookup_delete_Some. intros [_ H].
  by apply (pi_refreshes p Hp k' t c).
Qed.

Lemma end_refresh_inv p k now : pool_inv p -> pool_inv (end_refresh cfg k now p).
Proof.
  intros Hp. pose proof (delete_refresh_inv p k Hp) as Hp'. unfold end_refresh.
  destruct (p_subs _ !! k) as [su|] eqn:Hk; [|done]. destruct (su_phase su) eqn:Hph; try done.
  apply finish_inv; [done|done|]. apply (pi_stored _ Hp' k su Hk). by rewrite Hph.
Qed.

Lemma on_template_inv p k t now : pool_inv p -> (forall x, t = Some x -> template_ok x) ->
  pool_inv (on_template cfg k t now p).
Proof.
  intros Hp Ht. unfold on_template. destruct t as [t|]; [|by apply end_refresh_inv].
  apply put_refreshes_inv; [done|]. intros k' t' c. rewrite lookup_insert_Some.
  intros [[_ [= <- _]]|[_ H]]; [by apply Ht|]. by apply (pi_refreshes p Hp k' t' c).
Qed.

(** *** The payout set of a refresh *)

Context (Hscript : length script = 22%nat).

Lemma payout_for_ok t win ps : NoDup (e_miner <$> (we_entry <$> win_entries win)) ->
  payout_for cfg t script win = Ok ps ->
  outputs_ok (ps_outputs ps) /\ owed (Some ps) = t_coinbasevalue t.
Proof.
  intros Hnd H. pose proof (buildPayoutOutputs_named _ _ H Hnd) as [Hone Hnamed].
  apply buildPayoutOutputs_sound in H as (Hsum & Hall & Hne). split; [|exact Hsum].
  split; [done|]. split; [|split; [done|by exists (cfg_hrp cfg)]]. eapply Forall_impl; [exact Hall|]. intros o [Hv Hs]. split; [done|].
  destruct Hs as [->|[m Hm]]; [exact Hscript|]. cbn in Hm.
  apply addressToScript_Ok in Hm as (tail & data & groups & sum & _ & _ & _ & _ & _ & Hlen & ->).
  rewrite length_app, Hlen. done.
Qed.

Lemma refreshed_ok t mult hex w ps :
  match (currentWindow mult hex w).1 with
  | Ok win => match payout_for cfg t script win with Ok ps => Some ps | Err _ => None end
  | Err _ => None
  end = Some ps -> outputs_ok (ps_outputs ps) /\ owed (Some ps) = t_coinbasevalue t.
Proof.
  destruct (currentWindow mult hex w) as [[win|] w'] eqn:Hwin; [|done]. cbn [fst].
  destruct (payout_for _ _ _ _) as [ps'|] eqn:E; [|done].
  intros [= <-]. apply payout_for_ok in E; [done|]. by eapply currentWindow_distinct.
Qed.

Lemma on_window_inv p k t changed now : pool_inv p -> template_ok t ->
  pool_inv (on_window cfg k t changed now p).
Proof.
  intros Hp Ht. unfold on_window.
  pose proof (currentWindow_reads (cfg_windowMultiplier cfg) (hex_encode (bitsToTarget (t_bits t))) (p_world p)) as Hread.
  pose proof (refreshed_ok t (cfg_windowMultiplier cfg) (hex_encode (bitsToTarget (t_bits t))) (p_world p)) as Hset.
  destruct (currentWindow _ _ _) as [r w]. cbn [fst snd] in Hread, Hset. rewrite (si_script script _ (pi_state p Hp)).
  set (payout := match r with Ok _ => _ | Err _ => None end) in *.
  destruct (publish_safe script cfg Hcfg now t changed payout (p_state p) (pi_state p Hp) Ht)
    as (s & -> & Hs & Hex & _).
  { intros ps Hps. rewrite Hps. by apply Hset. }
  apply end_refresh_inv. cbn [snd]. apply put_world_inv.
  - by apply put_state_inv.
  - cbn. by rewrite Hread.
  - cbn. rewrite Hread. destruct Hex. eapply rows_heap; [done|done|]. apply (pi_rows p Hp).
Qed.

Lemma handle_inv p e : pool_inv p -> event_ok e -> lethal p e = false -> pool_inv (handle cfg e p).
Proof.
  intros Hp He Hsafe. unfold handle, resume. rewrite (pi_alive p Hp). destruct e.
  - destruct login; [by apply on_login_inv|discriminate Hsafe].
  - by apply on_bye_inv.
  - destruct (p_subs p !! k) eqn:Hk; [done|]. destruct (p_refreshes p !! k) eqn:Hr; [done|]. by apply on_submit_inv.
  - destruct (p_subs p !! k) as [su|] eqn:Hk; [|done]. destruct (su_phase su) eqn:Hph; try done.
    + by apply on_verdict_inv.
    + apply on_confirm_inv; [done|done|]. by rewrite Hph.
  - destruct (p_subs p !! k) as [su|] eqn:Hk; [|done]. destruct (su_phase su) eqn:Hph; try done.
    + by apply on_record_inv.
    + apply on_mark_inv; [done|done|]. by rewrite Hph.
    + apply on_book_inv; [done|done|]. by rewrite Hph.
  - destruct (p_subs p !! k) as [su|] eqn:Hk; [|done]. destruct (su_phase su) eqn:Hph; try done.
    apply on_node_inv; [done|done|]. by rewrite Hph.
  - destruct (p_subs p !! k) eqn:Hk; [done|]. destruct (p_refreshes p !! k); [done|].
    apply put_refreshes_inv; [done|]. intros k' t c. rewrite lookup_insert_Some.
    intros [[_ [=]]|[_ H]]. by apply (pi_refreshes p Hp k' t c).
  - destruct (p_refreshes p !! k) as [[|]|]; try done. apply on_template_inv; [done|]. by intros x ->.
  - destruct (p_refreshes p !! k) as [[|t c]|] eqn:Hk; try done. apply on_window_inv; [done|].
    by apply (pi_refreshes p Hp k t c).
  - case_bool_decide as Hin; [|done]. apply perform_inv; [done|]. apply push_job_safe; [apply Hp|].
    apply (proj1 (Forall_forall _ _) (si_live script _ (pi_state p Hp)) _ Hin).
  - by destruct method.
  - destruct Hp. split; try done. by destruct pi_state0.
Qed.

(** What is thrown at such a field ends the process there and then. *)
Lemma handle_lethal p e : p_crashed p = false -> lethal p e = true -> handle cfg e p = crash p.
Proof.
  intros Ha Hl. unfold handle. rewrite Ha. destruct e as [? []| |k mid jobId []| | | | | | | |[]|]; try discriminate Hl;
    try reflexivity.
  cbn in Hl. apply andb_true_iff in Hl as [Hl Hown]. apply andb_true_iff in Hl as [Hl Hjob].
  apply andb_true_iff in Hl as [Hfree Hup]. apply bool_decide_eq_true in Hfree as [-> ->].
  unfold on_submit. rewrite (proj1 (negb_true_iff _) Hup), Hjob. apply bool_decide_eq_true in Hown.
  destruct (s_jobheap (p_state p) !! jobId) as [j|]; [|discriminate Hown]. injection Hown as ->.
  by rewrite bool_decide_eq_false_2 by auto.
Qed.

Lemma run_crashed es p : p_crashed p = true -> run_events cfg p es = p.
Proof. intros H. induction es as [|e es IH]; [done|]. cbn. unfold handle at 2. by rewrite H. Qed.

(** A run keeps the invariant, or kept it until a lethal event. *)
Lemma run_events_inv es p : pool_inv p -> Forall event_ok es ->
  pool_inv (run_events cfg p es) /\ (forall es1 e es2, es = es1 ++ e :: es2 -> lethal (run_events cfg p es1) e = false) \/
  exists es1 e es2, es = es1 ++ e :: es2 /\ lethal (run_events cfg p es1) e = true /\
    pool_inv (run_events cfg p es1) /\ run_events cfg p es = crash (run_events cfg p es1).
Proof.
  revert p. induction es as [|e es IH]; intros p Hp Hes.
  { left. split; [done|]. by intros [|] ? ? [=]. }
  inversion Hes as [|? ? He Hes']; subst. destruct (lethal p e) eqn:Hl.
  - right. exists [], e, es. split; [done|]. split; [done|]. split; [done|]. cbn.
    rewrite (handle_lethal p e (pi_alive p Hp) Hl). by apply run_crashed.
  - destruct (IH (handle cfg e p) (handle_inv p e Hp He Hl) Hes') as [[Hi Hsafe]|(es1 & x & es2 & -> & Hx & Hi & E)].
    + left. split; [done|]. intros [|y es1] x es2 E; injection E as <- E; [by subst|]. by eapply Hsafe.
    + right. by exists (e :: es1), x, es2.
Qed.

Lemma initial_inv w : shares (w_db w) = shares base -> pool_inv (initial_pool script w).
Proof.
  intros E. split; cbn; rewrite ?E; try done; [|constructor| |lia].
  - split; try done; cbn; unfold max_jobs; lia.
  - apply Forall_forall. intros r Hr. left. by apply list_elem_of_fmap_2.
Qed.
End run.
