(* ===== verification/PoolTheorems.v ===== *)
(** * What holds in every run of the pool (contrib/pool/pool.mjs)

    Consequences of the invariant, from startup through any list of events:
    only a message's field that has no string takes the process down, a served job
    pays exactly what the ledger is told it pays, an acknowledged share is in the
    ledger once, under the miner that sent it, and a template is published with
    the set it can pay. *)

From Stdlib Require Import SpecFloat Ascii.
From S2P Require Import Prelude JsInt Bytes PoolAddress Block BlockSpec Target PoolMath JsNum Vardiff.
From S2P Require Import StoreDb Shares Ledger CoinbaseLedger PoolState PoolInv PoolServer PoolProofs.
Local Open Scope Z_scope.

(** ** Consequences for every run *)

(** What startup checks: the pool's own address, as a login's. *)
Definition started (cfg : config) (script : bytes) : Prop :=
  exists addr, login_address addr (cfg_hrp cfg) = Ok script.

Section reachable.
Context {SHA : Sha256}.

Lemma started_length cfg script : started cfg script -> length script = 22%nat.
Proof.
  intros [addr H]. apply login_address_Ok in H as [H _].
  apply addressToScript_Ok in H as (tail & data & groups & sum & _ & _ & _ & _ & _ & Hlen & ->).
  by rewrite length_app, Hlen.
Qed.

(** The invariant holds in every run, or held until a field without a string came. *)
Lemma reach cfg script w es : vardiff_ok (cfg_vardiff cfg) -> started cfg script -> Forall event_ok es ->
  let run := run_events cfg (initial_pool script w) in
  pool_inv script (w_db w) (run es) /\
    (forall es1 e es2, es = es1 ++ e :: es2 -> lethal (run es1) e = false) \/
  exists es1 e es2, es = es1 ++ e :: es2 /\ lethal (run es1) e = true /\
    pool_inv script (w_db w) (run es1) /\ run es = crash (run es1).
Proof.
  intros Hv Hs He. apply (run_events_inv cfg script (w_db w)); [done|by apply (started_length cfg)| |done];
    by (apply initial_inv; [apply (started_length cfg)|]).
Qed.

Lemma reach_alive cfg script w es : vardiff_ok (cfg_vardiff cfg) -> started cfg script -> Forall event_ok es ->
  p_crashed (run_events cfg (initial_pool script w) es) = false ->
  pool_inv script (w_db w) (run_events cfg (initial_pool script w) es).
Proof.
  intros Hv Hs He Ha. destruct (reach cfg script w es Hv Hs He) as [[? _]|(es1 & e & es2 & _ & _ & _ & E)]; [done|].
  rewrite E in Ha. discriminate Ha.
Qed.




(** ** What a job pays *)












(** ** What an acknowledgement means *)



(** a replay costs nothing. While a nonce is being checked, and ever after it was
    acknowledged, the same nonce on the same job, in any spelling and from any session,
    is answered with an error at once: no hash is computed, nothing is recorded and no
    counter moves. *)
Theorem replay_is_refused cfg script w es job nonce k mid sent :
  vardiff_ok (cfg_vardiff cfg) -> started cfg script -> Forall event_ok es ->
  let p := run_events cfg (initial_pool script w) es in
  ((exists k' su, p_subs p !! k' = Some su /\ sub_key su = (job, nonce)) \/
   (job, nonce) ∈ ack_key <$> acks (p_replies p)) ->
  p_crashed p = false -> p_subs p !! k = None -> p_refreshes p !! k = None -> lower_string sent = nonce ->
  exists e, handle cfg (ESubmit k mid job (Said sent)) p = answer k mid job sent (RError e) p.
Proof.
  intros Hv Hs He p Hkey Halive Hk Hr Hsent.
  pose proof (reach_alive cfg script w es Hv Hs He Halive) as Hp. fold p in Hp.
  assert (exists m, seen_on (p_state p) (job, nonce) m) as (m & j & Hj & Hseen & _).
  { destruct Hkey as [(k' & su & Hsu & E)|Hin].
    - exists (su_miner su). rewrite <- E. by apply (pi_seen _ _ _ Hp k').
    - apply list_elem_of_fmap in Hin as (a & -> & Ha). exists (an_miner a).
      by apply (proj1 (Forall_forall _ _) (pi_acks _ _ _ Hp)) in Ha as [? _]. }
  unfold handle. rewrite (pi_alive _ _ _ Hp), Hk, Hr. unfold on_submit. cbn in Hj, Hseen.
  destruct (s_storeDown _); [by eexists|]. case_bool_decide; [|by eexists]. rewrite Hj.
  case_bool_decide; [by eexists|]. rewrite bool_decide_eq_false_2 by done. destruct (is_nonce sent); [|by eexists]. cbn [negb].
  rewrite Hsent, bool_decide_eq_true_2 by done. by eexists.
Qed.

(** What is the pool's own fault: no validator, a backlog, a ledger that does not answer. *)
Definition pool_fault (p : pool) (k : nat) (su : submission) (e : event) : Prop :=
  (exists cand rest now v, su_phase su = Verifying cand rest /\ e = EVerdict k v now /\ (v = VDead \/ v = VBusy)) \/
  (exists o header hash now j m, su_phase su = Recording o header hash /\ e = EStore k now /\
     s_jobheap (p_state p) !! su_job su = Some j /\ s_miners (p_state p) !! su_miner su = Some m /\
     is_ok (recordShare (record_args j su (m_login m) now) (p_world p)).1 = false).

Lemma pool_fault_step cfg p k su e : p_crashed p = false -> p_subs p !! k = Some su ->
  is_Some (s_jobheap (p_state p) !! su_job su) -> pool_fault p k su e ->
  exists msg w', handle cfg e p =
    answer_sub k su (RError msg) (put_world w' (put_state (unsee (su_job su) (su_nonce su) (p_state p)) p)).
Proof.
  intros Ha Hk [j Hj]. unfold handle, resume. rewrite Ha.
  intros [(cand & rest & now & v & Hph & -> & Hv)|(o & h & hash & now & j' & m & Hph & -> & Hj' & Hm & Hbad)];
    rewrite Hk, Hph.
  - unfold on_verdict. rewrite Hj. destruct Hv as [->| ->]; by eexists _, (p_world p).
  - unfold on_record. rewrite Hj', Hm. destruct (recordShare _ _) as [[|] w']; [discriminate Hbad|].
    by eexists _, w'.
Qed.

Lemma on_submit_takes p k mid job sent j :
  s_storeDown (p_state p) = false -> job ∈ s_jobs (p_state p) -> s_jobheap (p_state p) !! job = Some j ->
  j_miner j = mid -> is_nonce sent = true -> lower_string sent ∉ j_seen j ->
  exists cand rest, p_subs (on_submit k mid job (Said sent) p) !! k =
    Some {| su_miner := mid; su_job := job; su_nonce := lower_string sent; su_phase := Verifying cand rest |}.
Proof.
  intros Hup Hjob Hj Hmid Hsent Hnew. unfold on_submit. rewrite Hup, bool_decide_eq_true_2, Hj by done.
  rewrite bool_decide_eq_false_2 by congruence. rewrite bool_decide_eq_false_2 by done. rewrite Hsent. cbn [negb]. rewrite bool_decide_eq_false_2 by done.
  destruct (orders_for _ _) as [|cand rest] eqn:Ho.
  - exfalso. revert Ho. unfold orders_for. by destruct (decide _), (bool_decide _).
  - exists cand, rest. cbn. by rewrite lookup_insert_eq.
Qed.

(** what is the pool's fault costs the miner nothing. When the validator is gone or
    backlogged, or the ledger does not record the share, the miner is told to retry,
    neither its rejected count nor the pool's accepted count moves, and while the job is
    held the same nonce sent again is taken: it goes to the validator. *)
Theorem pool_fault_allows_retry cfg script w es k su e k' sent :
  vardiff_ok (cfg_vardiff cfg) -> started cfg script -> Forall event_ok es ->
  let p := run_events cfg (initial_pool script w) es in
  p_crashed p = false -> p_subs p !! k = Some su -> pool_fault p k su e ->
  is_nonce sent = true -> lower_string sent = su_nonce su ->
  su_job su ∈ s_jobs (p_state p) -> s_storeDown (p_state p) = false ->
  p_subs p !! k' = None -> p_refreshes p !! k' = None ->
  let p' := handle cfg e p in
  (exists msg, p_replies p' = p_replies p ++
     [{| an_k := k; an_miner := su_miner su; an_job := su_job su; an_nonce := su_nonce su; an_reply := RError msg |}]) /\
  s_accepted (p_state p') = s_accepted (p_state p) /\ s_miners (p_state p') = s_miners (p_state p) /\
  exists cand rest, p_subs (handle cfg (ESubmit k' (su_miner su) (su_job su) (Said sent)) p') !! k' =
    Some {| su_miner := su_miner su; su_job := su_job su; su_nonce := su_nonce su;
            su_phase := Verifying cand rest |}.
Proof.
  intros Hv Hs He p Halive Hk Hfault Hsent Hlow Hjob Hup Hk' Hr' p'.
  pose proof (reach_alive cfg script w es Hv Hs He Halive) as Hp. fold p in Hp.
  destruct (pi_seen _ _ _ Hp k su Hk) as (j & Hj & _ & Hown). cbn in Hj.
  destruct (pool_fault_step cfg p k su e (pi_alive _ _ _ Hp) Hk ltac:(by eexists) Hfault) as (msg & w' & E).
  unfold p'. rewrite E. split; [by exists msg|]. split; [done|]. split; [done|].
  unfold handle. cbn [p_crashed answer_sub answer put_world put_state]. rewrite (pi_alive _ _ _ Hp).
  cbn [p_subs p_refreshes put_state put_world answer answer_sub].
  rewrite lookup_delete_ne by (intros ->; congruence). rewrite Hk', Hr', <- Hlow.
  apply (on_submit_takes _ _ _ _ _ (set_seen (filter (fun n => n <> lower_string sent) (j_seen j)) j)); try done.
  - cbn. rewrite lookup_alter_eq, Hj. reflexivity.
  - cbn. intros Hin. by apply list_elem_of_filter in Hin as [? _].
Qed.

(** ** What a refresh serves *)

Lemma finish_offered cfg script base k su now p : vardiff_ok (cfg_vardiff cfg) ->
  pool_inv script base p -> p_subs p !! k = Some su ->
  offered (p_state (finish cfg k su now p)) = offered (p_state p) /\
  p_world (finish cfg k su now p) = p_world p.
Proof.
  intros Hv Hp Hk. unfold finish. destruct (pi_seen _ _ _ Hp k su Hk) as (j & Hj & _ & Hown).
  pose proof (si_owner script _ (pi_state _ _ _ Hp) _ _ Hj) as Hm. rewrite Hown in Hm.
  destruct (retune_miner_safe script cfg Hv now (su_miner su) (p_state p) (pi_state _ _ _ Hp) Hm)
    as ([] & s & -> & _ & []).
  split; [|done]. unfold offered. cbn. congruence.
Qed.

(** The set the window gives, if it can be read. *)
Definition rebuilt cfg script (t : template) (r : result store_err window) : option payout_set :=
  match r with
  | Ok win => match payout_for cfg t script win with Ok ps => Some ps | Err _ => None end
  | Err _ => None
  end.

(** a template is published with a set it can pay, or jobs are held. When a refresh
    gets its window, the new template is served with the set built from it; when the
    window cannot be read or split, the previous set stays, and if it pays more than the
    new template has, jobs are held until a set is built again. In neither case does a
    job pay more than its template's value, and the ledger is only read. *)
Theorem refresh_serves cfg script w es k t changed now :
  vardiff_ok (cfg_vardiff cfg) -> started cfg script -> Forall event_ok es ->
  let p := run_events cfg (initial_pool script w) es in
  p_crashed p = false -> p_refreshes p !! k = Some (WaitWindow t changed) ->
  let p' := handle cfg (EWindow k now) p in
  let read := currentWindow (cfg_windowMultiplier cfg) (hex_encode (bitsToTarget (t_bits t))) (p_world p) in
  offered (p_state p') =
    match rebuilt cfg script t read.1 with
    | Some ps => (Some t, Some ps, false)
    | None => (Some t, s_payout (p_state p),
               bool_decide (t_coinbasevalue t < owed (s_payout (p_state p))) || s_payoutHeld (p_state p))
    end /\
  (s_payoutHeld (p_state p') = false -> owed (s_payout (p_state p')) <= t_coinbasevalue t) /\
  w_db (p_world p') = w_db (p_world p).
Proof.
  intros Hv Hs He p Halive Hk p' read. pose proof (reach_alive cfg script w es Hv Hs He Halive) as Hp. fold p in Hp.
  pose proof (started_length cfg script Hs) as Hlen.
  assert (pool_inv script (w_db w) p') as Hp'
    by (apply handle_inv; done).
  pose proof (pi_refreshes _ _ _ Hp k t changed Hk) as Ht.
  assert (offered (p_state p') = match rebuilt cfg script t read.1 with
    | Some ps => (Some t, Some ps, false)
    | None => (Some t, s_payout (p_state p),
               bool_decide (t_coinbasevalue t < owed (s_payout (p_state p))) || s_payoutHeld (p_state p))
    end /\ w_db (p_world p') = w_db (p_world p)) as [Hoff Hdb].
  { unfold p', handle. rewrite (pi_alive _ _ _ Hp), Hk. unfold on_window. fold read.
    pose proof (currentWindow_reads (cfg_windowMultiplier cfg) (hex_encode (bitsToTarget (t_bits t))) (p_world p)) as Hread.
    pose proof (refreshed_ok cfg script Hlen t (cfg_windowMultiplier cfg)
      (hex_encode (bitsToTarget (t_bits t))) (p_world p)) as Hset.
    fold read in Hread, Hset. destruct read as [r w']. cbn [fst snd] in *.
    rewrite (si_script script _ (pi_state _ _ _ Hp)). fold (rebuilt cfg script t r).
    destruct (publish_safe script cfg Hv now t changed (rebuilt cfg script t r) (p_state p) (pi_state _ _ _ Hp) Ht)
      as (s & Hpub & Hsi & Hex & Hof).
    { intros ps Hps. rewrite Hps. by apply Hset. }
    rewrite Hpub. cbn [snd]. unfold end_refresh. set (q := put_refreshes _ _).
    assert (offered (p_state q) = offered s /\ w_db (p_world q) = w_db (p_world p)) as [Hq1 Hq2] by by split.
    assert (match rebuilt cfg script t r with
      | Some ps => (Some t, Some ps, false) | None => _ end = offered s) as ->
      by (rewrite Hof; unfold served_after; by destruct (rebuilt cfg script t r)).
    destruct (p_subs q !! k) as [su|] eqn:Hsu; [|done]. destruct (su_phase su); try done.
    assert (pool_inv script (w_db w) q) as Hq.
    { apply delete_refresh_inv. apply put_world_inv; [by apply put_state_inv| |].
      - cbn. by rewrite Hread.
      - cbn. rewrite Hread. destruct Hex. eapply rows_heap; [done|done|]. apply (pi_rows _ _ _ Hp). }
    destruct (finish_offered cfg script _ k su now q Hv Hq Hsu) as [-> ->]. done. }
  split; [done|]. split; [|done]. intros Hheld. apply (si_fit script _ (pi_state _ _ _ Hp')); [|done].
  unfold offered in Hoff. destruct (rebuilt cfg script t read.1); by injection Hoff.
Qed.
End reachable.

(** ** A concrete run

    A pool, its first refresh, a miner that logs in and sends one share. *)

Definition example_address : string := "pc1qrgase7g8zvvrepxmh8kgnmf09freyqual7y7c6".
Definition example_config : config := {|
  cfg_hrp := "pc"; cfg_feeBasisPoints := 200; cfg_dustLimit := 294;
  cfg_vardiff := {| vc_startFactor := num_of_Z 1000; vc_minFactor := num_of_Z 1;
    vc_maxFactor := num_of_Z 100000000; vc_targetSeconds := num_of_Z 15; vc_retuneSeconds := num_of_Z 60 |};
  cfg_windowMultiplier := 2; cfg_allowlist := [] |}.
Definition example_script : bytes := ok_or [] (login_address example_address "pc").
Definition example_template : template := {|
  t_height := 12790; t_coinbasevalue := 5000000141;
  t_previousblockhash := "000000000000000000000000000000000000000000000000000000000000beef";
  t_bits := "2000ffff"; t_version := 536870912; t_curtime := 1770000000;
  t_commitment := Some "6a24aa21a9ed"%string;
  t_transactions := [("00000000000000000000000000000000000000000000000000000000000000aa", "0200")]%string |}.
Definition example_high_hash : string := "ff00000000000000000000000000000000000000000000000000000000000000".
Definition example_low_hash : string := "0000000000000000000000000000000000000000000000000000000000000001".

Definition refresh_events : list event :=
  [ERefresh 0; ETemplate 0 (Some example_template) 0; EWindow 0 0].
Definition example_login : event := ELogin "s1" (Said example_address) "abcd" 1000.
Definition example_events : list event :=
  refresh_events ++ [example_login; ESubmit 1 "s1" "1" (Said "000000AB"); EVerdict 1 (VOk (Some example_high_hash)) 2000].

Definition empty_world : world := {| w_db := empty_db; w_faults := [] |}.

#[local] Existing Instance example_sha256.
Definition example_pool (w : world) (es : list event) : pool :=
  run_events example_config (initial_pool example_script w) es.

Lemma example_vardiff_ok : vardiff_ok (cfg_vardiff example_config).
Proof.
  split; vm_compute; [right; by exists 1000|right; by exists 1|right; by exists 100000000|done].
Qed.

Lemma example_started : started example_config example_script.
Proof. exists example_address. by vm_compute. Qed.

Lemma example_template_ok : template_ok example_template.
Proof.
  split.
  - cbn. lia.
  - cbn. lia.
  - vm_compute. reflexivity.
  - exists 0x2000ffff. split; [vm_compute; reflexivity|lia].
  - cbn. lia.
  - constructor; [vm_compute; reflexivity|constructor].
  - intros c [= <-]. vm_compute. reflexivity.
Qed.

Lemma example_events_ok es : Forall event_ok es -> Forall event_ok (refresh_events ++ example_login :: es).
Proof.
  intros H. repeat (apply Forall_cons; split); try done. exact example_template_ok.
Qed.

Definition stored_events : list event := example_events ++ [EStore 1 3000].
Lemma stored_events_ok : Forall event_ok stored_events.
Proof. apply example_events_ok. repeat constructor. Qed.
Lemma submitted_events_ok : Forall event_ok example_events.
Proof. apply example_events_ok. repeat constructor. Qed.







(** The nonce comes back in upper case, from a second socket. *)
Lemma replay_is_refused_witness :
  exists e, handle example_config (ESubmit 2 "s2" "1" (Said "000000AB")) (example_pool empty_world stored_events) =
    answer 2 "s2" "1" "000000AB" (RError e) (example_pool empty_world stored_events).
Proof.
  refine (replay_is_refused example_config example_script empty_world stored_events "1" "000000ab" 2 "s2"
    "000000AB" example_vardiff_ok example_started stored_events_ok _ _ _ _ _).
  - right. apply (bool_decide_unpack _). vm_compute. exact I.
  - vm_compute. reflexivity.
  - vm_compute. reflexivity.
  - vm_compute. reflexivity.
  - vm_compute. reflexivity.
Defined.

Definition waiting_events : list event := refresh_events ++ [example_login; ESubmit 1 "s1" "1" (Said "000000AB")].
Lemma waiting_events_ok : Forall event_ok waiting_events.
Proof. apply example_events_ok. repeat constructor. Qed.

Definition waiting_sub : submission := {|
  su_miner := "s1"; su_job := "1"; su_nonce := "000000ab";
  su_phase := Verifying (Standard, [0; 0; 0; 171]) [(Legacy, [171; 0; 0; 0])] |}.

Definition waiting_pool : pool := run_events example_config (initial_pool example_script empty_world) waiting_events.
Lemma waiting_pool_sub : p_subs waiting_pool !! 1%nat = Some waiting_sub.
Proof. vm_compute. reflexivity. Qed.
Lemma waiting_pool_job : su_job waiting_sub ∈ s_jobs (p_state waiting_pool).
Proof. apply (bool_decide_unpack _). vm_compute. exact I. Qed.
Lemma waiting_pool_free : s_storeDown (p_state waiting_pool) = false /\
  p_subs waiting_pool !! 2%nat = None /\ p_refreshes waiting_pool !! 2%nat = None /\
  p_crashed waiting_pool = false.
Proof. split; [|split; [|split]]; vm_compute; reflexivity. Qed.
Lemma waiting_pool_busy : pool_fault waiting_pool 1 waiting_sub (EVerdict 1 VBusy 2000).
Proof. left. exists (Standard, [0; 0; 0; 171]), [(Legacy, [171; 0; 0; 0])], 2000, VBusy. auto. Qed.

Lemma pool_fault_allows_retry_witness :
  let p' := handle example_config (EVerdict 1 VBusy 2000) waiting_pool in
  (exists msg, p_replies p' = p_replies waiting_pool ++
     [{| an_k := 1; an_miner := su_miner waiting_sub; an_job := su_job waiting_sub;
         an_nonce := su_nonce waiting_sub; an_reply := RError msg |}]) /\
  s_accepted (p_state p') = s_accepted (p_state waiting_pool) /\
  s_miners (p_state p') = s_miners (p_state waiting_pool) /\
  exists cand rest,
    p_subs (handle example_config (ESubmit 2 (su_miner waiting_sub) (su_job waiting_sub) (Said "000000ab")) p') !! 2%nat =
    Some {| su_miner := su_miner waiting_sub; su_job := su_job waiting_sub; su_nonce := su_nonce waiting_sub;
            su_phase := Verifying cand rest |}.
Proof.
  destruct waiting_pool_free as (H1 & H2 & H3 & H0). pose proof waiting_pool_sub as H4.
  pose proof waiting_pool_job as H5. pose proof waiting_pool_busy as H6.
  assert (is_nonce "000000ab" = true) as H7 by (vm_compute; reflexivity).
  assert (lower_string "000000ab" = su_nonce waiting_sub) as H8 by (vm_compute; reflexivity).
  unfold waiting_pool in *.
  exact (pool_fault_allows_retry example_config example_script empty_world waiting_events 1 waiting_sub
    (EVerdict 1 VBusy 2000) 2 "000000ab" example_vardiff_ok example_started waiting_events_ok
    H0 H4 H6 H7 H8 H5 H1 H2 H3).
Defined.

(** The first refresh of the run, answered from a ledger that holds twenty shares. *)
Definition before_window : list event := [ERefresh 0; ETemplate 0 (Some example_template) 0].
Lemma before_window_ok : Forall event_ok before_window.
Proof. repeat (apply Forall_cons; split); try done. exact example_template_ok. Qed.

Definition window_pool : pool := run_events example_config (initial_pool example_script example_world) before_window.
Lemma window_pool_alive : p_crashed window_pool = false.
Proof. vm_compute. reflexivity. Qed.
Lemma window_pool_waits : p_refreshes window_pool !! 0%nat = Some (WaitWindow example_template true).
Proof. vm_compute. reflexivity. Qed.

Lemma refresh_serves_witness :
  let p' := handle example_config (EWindow 0 0) window_pool in
  let read := currentWindow (cfg_windowMultiplier example_config)
                (hex_encode (bitsToTarget (t_bits example_template))) (p_world window_pool) in
  offered (p_state p') =
    match rebuilt example_config example_script example_template read.1 with
    | Some ps => (Some example_template, Some ps, false)
    | None => (Some example_template, s_payout (p_state window_pool),
               bool_decide (t_coinbasevalue example_template < owed (s_payout (p_state window_pool)))
               || s_payoutHeld (p_state window_pool))
    end /\
  (s_payoutHeld (p_state p') = false -> owed (s_payout (p_state p')) <= t_coinbasevalue example_template) /\
  w_db (p_world p') = w_db (p_world window_pool).
Proof.
  pose proof window_pool_waits as H. pose proof window_pool_alive as Ha. unfold window_pool in *.
  exact (refresh_serves example_config example_script example_world before_window 0 example_template true 0
    example_vardiff_ok example_started before_window_ok Ha H).
Defined.

(** ** What the runs below show of the code *)

(** A whole block: the share is also a block, the node takes it, the ledger has it. *)
Example block_found :
  let p := example_pool empty_world (refresh_events ++ [example_login; ESubmit 1 "s1" "1" (Said "000000ab");
    EVerdict 1 (VOk (Some example_low_hash)) 2000; EStore 1 3000; EVerdict 1 (VOk (Some example_low_hash)) 3000;
    ENode 1 Accepted; EStore 1 3500; EStore 1 3500; ETemplate 1 None 4000]) in
  (an_reply <$> p_replies p, s_blocksFound (p_state p),
   (fun b => (b_height b, b_value b)) <$> blocks (w_db (p_world p)), sh_is_block <$> shares (w_db (p_world p))) =
  ([ROk], 1, [(12790, 5000000141)], [true]).
Proof. vm_compute. reflexivity. Qed.

(** The first refresh cannot read the window: nothing is held, there is no set, and the
    job pays the pool's own script everything although the ledger holds other shares. *)
Example first_window_unreadable :
  let w := {| w_db := example_db; w_faults := [Torn []] |} in
  let p := example_pool w (refresh_events ++ [example_login]) in
  (s_payout (p_state p), s_payoutHeld (p_state p), length (shares (w_db (p_world p))),
   j ← s_jobheap (p_state p) !! "1"; tx ← read_legacy (cb_legacy (j_coinbase j)); head (tr_outputs tx)) =
  (None, false, 20%nat, Some (5000000141, example_script)).
Proof. vm_compute. reflexivity. Qed.

(** One line from a stranger's socket, before any login. *)
Example a_login_without_a_string :
  p_crashed (example_pool empty_world [ELogin "s1" Unprintable "abcd" 1000]) = true.
Proof. vm_compute. reflexivity. Qed.

(** The validator dies while a share waits: [Validator] answers [err], the miner is told
    its share is malformed, and the same nonce is a duplicate ever after. *)
Example validator_gone :
  let p := example_pool empty_world (waiting_events ++ [EVerdict 1 VErr 2000; ESubmit 2 "s1" "1" (Said "000000ab")]) in
  an_reply <$> p_replies p = [RError "malformed share"; RError "duplicate share"].
Proof. vm_compute. reflexivity. Qed.

(** Job ids start at 1 in every process and the table outlives it: a share on a job id and
    nonce of an earlier run is answered OK and credited to nobody new. *)
Example job_id_of_an_earlier_run :
  let earlier := {| sh_id := 1; sh_at := 0; sh_miner := "somebody else"; sh_session := "s0"; sh_job := "1";
    sh_nonce := "000000ab"; sh_height := 12000; sh_weight := 1; sh_target := ""; sh_is_block := false |} in
  let d := {| shares := [earlier]; share_seq := 1; blocks := []; payouts := []; pool_fees := [] |} in
  let p := example_pool {| w_db := d; w_faults := [] |} stored_events in
  (an_reply <$> p_replies p, shares (w_db (p_world p)), s_accepted (p_state p)) = ([ROk], [earlier], 0).
Proof. vm_compute. reflexivity. Qed.
