(* ===== verification/BotMoney.v ===== *)
(** * The bot's money arithmetic (contrib/pcnaibot/lib/money.mjs)

    Exact integers (BigInt): decimal strings read and written at a fixed number
    of places, deposits priced in nano-USD with a carried remainder, and the
    rounded-up price of a turn. *)

From stdpp Require Import pretty.
From Stdlib Require Import Ascii SpecFloat.
From S2P Require Import Prelude JsInt JsNum.
Local Open Scope Z_scope.

Inductive money_err := TypeError (what : string) | RangeError (what : string).

Definition SATS_PER_PCN : Z := 100000000.
Definition NANO_PER_MICRO : Z := 1000.

(** ** Decimal strings *)

Definition is_digit (c : ascii) : bool :=
  let n := Z.of_nat (nat_of_ascii c) in (48 <=? n) && (n <=? 57).
Definition digit_value (c : ascii) : Z := Z.of_nat (nat_of_ascii c) - 48.

(** The longest prefix of digits ([\d*]), and what follows it. *)
Fixpoint span_digits (s : string) : string * string :=
  match s with
  | EmptyString => ("", "")
  | String c s' =>
      if is_digit c then let '(a, b) := span_digits s' in (String c a, b) else ("", s)
  end%string.

(** [BigInt(digits)] *)
Fixpoint digits_from (acc : Z) (s : string) : Z :=
  match s with EmptyString => acc | String c s' => digits_from (10 * acc + digit_value c) s' end.
Definition digits_value (s : string) : Z := digits_from 0 s.

(** [frac.padEnd(dp, '0').slice(0, dp)] *)
Fixpoint pad_slice (dp : nat) (s : string) : string :=
  match dp, s with
  | O, _ => EmptyString
  | S n, EmptyString => String "0"%char (pad_slice n EmptyString)
  | S n, String c s' => String c (pad_slice n s')
  end.

(** What [trim] removes, among one-byte characters. *)
Definition is_space (c : ascii) : bool :=
  let n := Z.of_nat (nat_of_ascii c) in ((9 <=? n) && (n <=? 13)) || (n =? 32) || (n =? 160).
Fixpoint trim_left (s : string) : string :=
  match s with String c s' => if is_space c then trim_left s' else s | EmptyString => s end.
Fixpoint trim_right (s : string) : string :=
  match s with
  | EmptyString => EmptyString
  | String c s' =>
      match trim_right s' with
      | EmptyString => if is_space c then EmptyString else String c EmptyString
      | t => String c t
      end
  end.
Definition trim (s : string) : string := trim_right (trim_left s).

(** The pattern of [parseScaled]: the sign, the whole part, the fraction if any. *)
Definition match_decimal (s : string) : option (Z * string * option string) :=
  let '(sign, s1) := match s with String "-"%char s' => (-1, s') | _ => (1, s) end in
  let '(whole, s2) := span_digits s1 in
  match s2 with
  | EmptyString => Some (sign, whole, None)
  | String "."%char s3 =>
      let '(frac, s4) := span_digits s3 in
      match s4 with EmptyString => Some (sign, whole, Some frac) | _ => None end
  | _ => None
  end.

Definition parseScaled (value : string) (dp : nat) : result money_err Z :=
  match match_decimal (trim value) with
  | None => Err (TypeError "not a decimal")
  | Some (sign, whole, frac) =>
      if bool_decide (whole = "") && bool_decide (default "" frac = "")
      then Err (TypeError "not a decimal")
      else Ok (sign * (digits_value whole * 10 ^ Z.of_nat dp + digits_value (pad_slice dp (default "" frac))))
  end%string.

(** The price of a coin, quantised once: floor(rate * 1e12). *)
Definition rateToE12 (rate : string) : result money_err Z :=
  e12 ← parseScaled rate 12;
  require (0 <? e12) orelse RangeError "rate must be positive";
  Ok e12.

Definition satsToNanoUsd (amountSat rateE12 : Z) : result money_err Z :=
  require (negb (amountSat <? 0)) orelse RangeError "negative amount";
  Ok (big_div (amountSat * rateE12) 100000000000).

(** [{ micro, remainder }] *)
Definition splitNano (n : Z) : result money_err (Z * Z) :=
  require (negb (n <? 0)) orelse RangeError "negative";
  Ok (big_div n NANO_PER_MICRO, big_rem n NANO_PER_MICRO).

Definition ceilDiv (a b : Z) : Z :=
  let q := big_div a b in if big_rem a b =? 0 then q else q + 1.

Definition tokensToMicroUsd (tokens pricePerMe9 marginE6 : Z) : result money_err Z :=
  require (negb (tokens <? 0)) orelse RangeError "negative tokens";
  require (negb (pricePerMe9 <? 0)) orelse RangeError "negative price";
  Ok (ceilDiv (tokens * pricePerMe9 * marginE6) 1000000000000000).

(** billing.mjs [quoteTurn]: the worst case of a turn. *)
Definition quoteTurn (inputTokens maxTokens inputPrice outputPrice marginE6 : Z) : result money_err Z :=
  inMicro ← tokensToMicroUsd inputTokens inputPrice marginE6;
  outMicro ← tokensToMicroUsd maxTokens outputPrice marginE6;
  Ok (inMicro + outMicro).

(** [padStart(8, '0')] *)
Fixpoint zeros_string (n : nat) : string :=
  match n with O => EmptyString | S m => String "0"%char (zeros_string m) end.
Definition pad_start (n : nat) (s : string) : string :=
  (zeros_string (n - String.length s) ++ s)%string.

(** [slice(0, n)] *)
Definition slice_to (n : nat) (s : string) : string := String.substring 0 n s.

(** A whole number of units of 10^-dp in decimal notation. *)
Definition decimal_string (dp : nat) (n : Z) : string :=
  (pretty (n / 10 ^ Z.of_nat dp) ++ "." ++ pad_start dp (pretty (n mod 10 ^ Z.of_nat dp)))%string.

Definition pcnToSats (pcn : string) : result money_err Z := parseScaled pcn 8.

Definition satsToPcnString (s : Z) : string :=
  let abs := if s <? 0 then - s else s in
  ((if (s <? 0)%Z then "-" else "") ++ decimal_string 8 abs)%string.

Definition microUsdToString (m : Z) (dp : nat) : string :=
  let abs := if m <? 0 then - m else m in
  let frac := slice_to dp (pad_start 6 (pretty (big_rem abs 1000000))) in
  ((if (m <? 0)%Z then "-" else "") ++ pretty (big_div abs 1000000)
   ++ (if (0 <? dp)%nat then "." ++ frac else ""))%string.

Definition usdToPcnString (usdMicro rateE12 : Z) : string :=
  if usdMicro <=? 0 then "0.00000000"%string
  else satsToPcnString (ceilDiv (usdMicro * 100000000000000) rateE12).

(** [Number.prototype.toFixed(f)]: the nearest multiple of 10^-f, halves up;
    from 1e21 on the result is in exponent form, which no decimal pattern takes. *)
Definition fixed_units (x : js_num) (f : nat) : option Z :=
  match x with
  | S754_zero _ => Some 0
  | S754_finite false m e =>
      let n := if 0 <=? e then Z.pos m * 2 ^ e * 10 ^ Z.of_nat f
               else (2 * (Z.pos m * 10 ^ Z.of_nat f) + 2 ^ (- e)) / (2 * 2 ^ (- e)) in
      if n <? 10 ^ (21 + Z.of_nat f) then Some n else None
  | _ => None
  end.
Definition toFixed (x : js_num) (f : nat) : string :=
  match fixed_units x f with Some n => decimal_string f n | None => "1e+21"%string end.

Definition creditsToMicroUsd (credits : js_num) (marginE6 : Z) : result money_err Z :=
  if negb (is_finite credits) || num_ltb credits (S754_zero false)
  then Err (TypeError "unusable credits value")
  else
    creditsE6 ← parseScaled (toFixed credits 6) 6;
    Ok (ceilDiv (creditsE6 * 1000 * marginE6) (1000000 * 1000000)).

(** ** Rounding *)

Lemma splitNano_spec n micro rem :
  splitNano n = Ok (micro, rem) -> n = 1000 * micro + rem /\ 0 <= rem < 1000 /\ 0 <= n.
Proof.
  unfold splitNano. destruct (Z.ltb_spec n 0) as [|Hn]; cbn; [discriminate|].
  unfold big_div, big_rem, NANO_PER_MICRO. intros [= <- <-].
  pose proof (Z.quot_rem' n 1000). pose proof (Z.rem_bound_pos n 1000 Hn ltac:(lia)). lia.
Qed.

Lemma splitNano_Ok n : 0 <= n -> splitNano n = Ok (n / 1000, n mod 1000).
Proof.
  intros Hn. unfold splitNano, big_div, big_rem, NANO_PER_MICRO.
  destruct (Z.ltb_spec n 0); [lia|]. cbn. by rewrite Z.quot_div_nonneg, Z.rem_mod_nonneg by lia.
Qed.

Lemma satsToNanoUsd_Ok sat rate :
  0 <= sat -> 0 <= rate -> satsToNanoUsd sat rate = Ok (sat * rate / 100000000000).
Proof.
  intros Hs Hr. unfold satsToNanoUsd, big_div. destruct (Z.ltb_spec sat 0); [lia|]. cbn.
  by rewrite Z.quot_div_nonneg by lia.
Qed.

(** [ceilDiv] is the least quotient that covers the whole. *)
Lemma ceilDiv_spec a b : 0 <= a -> 0 < b -> a <= b * ceilDiv a b < a + b.
Proof.
  intros Ha Hb. unfold ceilDiv, big_div, big_rem.
  pose proof (Z.quot_rem' a b). pose proof (Z.rem_bound_pos a b Ha Hb).
  destruct (Z.eqb_spec (Z.rem a b) 0); nia.
Qed.

Lemma ceilDiv_nonneg a b : 0 <= a -> 0 < b -> 0 <= ceilDiv a b.
Proof. intros Ha Hb. pose proof (ceilDiv_spec a b Ha Hb). nia. Qed.

(** ** Decimal strings, character by character *)

Fixpoint all_chars (P : ascii -> bool) (s : string) : bool :=
  match s with EmptyString => true | String c s' => P c && all_chars P s' end.

Lemma all_chars_app P a b : all_chars P (a ++ b) = all_chars P a && all_chars P b.
Proof. induction a as [|c a IH]; [done|]. rewrite string_cons_app. cbn. by rewrite IH, andb_assoc. Qed.

Lemma all_chars_impl (P Q : ascii -> bool) s :
  (forall c, P c = true -> Q c = true) -> all_chars P s = true -> all_chars Q s = true.
Proof.
  intros H. induction s as [|c s IH]; cbn; [done|]. rewrite !andb_true_iff. intros [Hc Hs]. auto.
Qed.

Lemma digit_char x : is_digit (pretty_N_char (x `mod` 10)%N) = true
  /\ digit_value (pretty_N_char (x `mod` 10)%N) = Z.of_N (x `mod` 10)%N.
Proof.
  assert (x `mod` 10 < 10)%N as H by (by apply N.mod_lt).
  revert H. generalize (x `mod` 10)%N as y. intros y H.
  assert (y = 0 \/ y = 1 \/ y = 2 \/ y = 3 \/ y = 4 \/ y = 5 \/ y = 6 \/ y = 7 \/ y = 8 \/ y = 9)%N
    as Hy by lia.
  repeat (destruct Hy as [->|Hy]; [done|]). by subst.
Qed.

Lemma digits_from_go x s : digits_from 0 (pretty_N_go x s) = digits_from (Z.of_N x) s.
Proof.
  revert s. induction (N.lt_wf_0 x) as [x _ IH]; intros s.
  assert (x = 0 \/ 0 < x)%N as [->|Hx] by lia; [done|].
  rewrite pretty_N_go_step, IH by (done || by apply N.div_lt).
  cbn [digits_from]. rewrite (proj2 (digit_char x)). f_equal.
  pose proof (N.div_mod x 10 ltac:(done)). lia.
Qed.

Lemma all_digits_go x s :
  all_chars is_digit s = true -> all_chars is_digit (pretty_N_go x s) = true.
Proof.
  revert s. induction (N.lt_wf_0 x) as [x _ IH]; intros s Hs.
  assert (x = 0 \/ 0 < x)%N as [->|Hx] by lia; [done|].
  rewrite pretty_N_go_step by done. apply IH; [by apply N.div_lt|].
  cbn [all_chars]. by rewrite (proj1 (digit_char x)), Hs.
Qed.

Lemma length_go x k s :
  (x < 10 ^ N.of_nat k)%N -> (String.length (pretty_N_go x s) <= k + String.length s)%nat.
Proof.
  revert x s. induction k as [|k IH]; intros x s Hx.
  - assert (x = 0)%N as -> by (cbn in Hx; lia). done.
  - assert (x = 0 \/ 0 < x)%N as [->|Hp] by lia; [rewrite pretty_N_go_0; lia|].
    rewrite pretty_N_go_step by done.
    assert (x `div` 10 < 10 ^ N.of_nat k)%N as Hd.
    { apply N.Div0.div_lt_upper_bound. rewrite Nat2N.inj_succ, N.pow_succ_r' in Hx. lia. }
    specialize (IH _ (String (pretty_N_char (x `mod` 10)) s) Hd). cbn [String.length] in IH. lia.
Qed.

Lemma show_nonneg n : 0 <= n -> (pretty n : string) = pretty (Z.to_N n).
Proof. by destruct n. Qed.

Lemma digits_show n : 0 <= n -> digits_value (pretty n) = n.
Proof.
  intros Hn. rewrite show_nonneg by done. unfold digits_value, pretty, pretty_N.
  case_decide as H0; [assert (n = 0) as -> by lia; done|].
  rewrite digits_from_go. cbn [digits_from]. lia.
Qed.

Lemma all_digits_show n : 0 <= n -> all_chars is_digit (pretty n) = true.
Proof.
  intros Hn. rewrite show_nonneg by done. unfold pretty, pretty_N.
  case_decide; [done|]. by apply all_digits_go.
Qed.

Lemma length_show n k :
  0 <= n < 10 ^ Z.of_nat (S k) -> (String.length (pretty n) <= S k)%nat.
Proof.
  intros Hn. rewrite show_nonneg by lia. unfold pretty, pretty_N.
  case_decide; [cbn; lia|].
  etrans; [apply (length_go _ (S k))|cbn [String.length]; lia].
  apply N2Z.inj_lt. rewrite Z2N.id by lia. rewrite N2Z.inj_pow, nat_N_Z. apply Hn.
Qed.

Lemma show_nonempty n : 0 <= n -> pretty n <> ""%string.
Proof.
  intros Hn He. pose proof (digits_show n Hn) as H. rewrite He in H. cbn in H. subst. done.
Qed.

Lemma span_digits_app a b :
  all_chars is_digit a = true ->
  match b with String c _ => is_digit c = false | EmptyString => True end ->
  span_digits (a ++ b) = (a, b).
Proof.
  intros Ha Hb. induction a as [|c a IH].
  - destruct b as [|c b]; [done|]. rewrite string_nil_app. cbn. by rewrite Hb.
  - cbn in Ha. apply andb_true_iff in Ha as [Hc Ha]. rewrite string_cons_app. cbn.
    by rewrite Hc, IH.
Qed.

Lemma digits_from_app acc a b : digits_from acc (a ++ b) = digits_from (digits_from acc a) b.
Proof. revert acc. induction a as [|c a IH]; intros acc; [done|]. rewrite string_cons_app. apply IH. Qed.

Lemma digits_zeros n : digits_from 0 (zeros_string n) = 0.
Proof. induction n as [|n IH]; [done|exact IH]. Qed.

Lemma digits_pad_start n s : digits_value (pad_start n s) = digits_value s.
Proof. unfold pad_start, digits_value. by rewrite digits_from_app, digits_zeros. Qed.

Lemma length_zeros n : String.length (zeros_string n) = n.
Proof. induction n as [|n IH]; [done|exact (f_equal S IH)]. Qed.

Lemma length_pad_start n s : (String.length s <= n)%nat -> String.length (pad_start n s) = n.
Proof. intros H. unfold pad_start. rewrite string_app_length, length_zeros. lia. Qed.

Lemma all_digits_pad_start n s :
  all_chars is_digit s = true -> all_chars is_digit (pad_start n s) = true.
Proof.
  intros Hs. unfold pad_start. rewrite all_chars_app, Hs, andb_true_r.
  induction (n - String.length s)%nat as [|k IH]; [done|exact IH].
Qed.

Lemma pad_slice_exact n s : String.length s = n -> pad_slice n s = s.
Proof.
  revert n. induction s as [|c s IH]; intros n <-; [done|]. cbn. by rewrite IH.
Qed.

Lemma trim_id s : all_chars (fun c => negb (is_space c)) s = true -> trim s = s.
Proof.
  intros Hs. unfold trim.
  assert (trim_left s = s) as ->.
  { destruct s as [|c s]; [done|]. cbn in *. apply andb_true_iff in Hs as [Hc _].
    by destruct (is_space c). }
  induction s as [|c s IH]; [done|]. cbn in *. apply andb_true_iff in Hs as [Hc Hs].
  rewrite IH by done. destruct s; [|done]. by destruct (is_space c).
Qed.

Lemma digit_not_space c : is_digit c = true -> negb (is_space c) = true.
Proof.
  unfold is_digit, is_space. generalize (Z.of_nat (nat_of_ascii c)) as n. intros n H.
  apply andb_true_iff in H as [H1 H2]. apply Z.leb_le in H1, H2.
  destruct (Z.leb_spec 9 n), (Z.leb_spec n 13), (Z.eqb_spec n 32), (Z.eqb_spec n 160); done || lia.
Qed.

(** ** What is printed parses back *)

Definition sign_string (neg : bool) : string := if neg then "-" else "".

Lemma show_first n : 0 <= n ->
  exists c s, pretty n = String c s /\ is_digit c = true.
Proof.
  intros Hn. pose proof (all_digits_show n Hn) as Ha. pose proof (show_nonempty n Hn) as He.
  destruct (pretty n) as [|c s] eqn:E; [done|]. exists c, s. split; [done|].
  cbn in Ha. by apply andb_true_iff in Ha as [? _].
Qed.

Lemma decimal_parts dp n (neg : bool) : 0 <= n -> (0 < dp)%nat ->
  match_decimal (sign_string neg ++ decimal_string dp n)
  = Some (if neg then -1 else 1, pretty (n / 10 ^ Z.of_nat dp),
          Some (pad_start dp (pretty (n mod 10 ^ Z.of_nat dp)))).
Proof.
  intros Hn Hdp. set (w := n / _). set (f := n mod _).
  assert (0 < 10 ^ Z.of_nat dp) as Hp by lia.
  assert (0 <= w) as Hw by (apply Z.div_pos; lia).
  assert (0 <= f) as Hf by (apply Z.mod_pos_bound; lia).
  unfold match_decimal, decimal_string. fold w f.
  assert ((match (sign_string neg ++ pretty w ++ "." ++ pad_start dp (pretty f))%string with
           | String "-"%char s' => (-1, s') | _ => (1, (sign_string neg ++ pretty w ++ "." ++ pad_start dp (pretty f))%string) end)
          = (if neg then -1 else 1, (pretty w ++ "." ++ pad_start dp (pretty f))%string)) as ->.
  { destruct neg; [done|]. destruct (show_first w Hw) as (c & s & -> & Hc).
    cbn [sign_string]. rewrite string_nil_app, string_cons_app.
    destruct (ascii_dec c "-"%char) as [->|Hne]; [discriminate|].
    destruct c as [[] [] [] [] [] [] [] []]; try done. }
  rewrite (span_digits_app (pretty w)) by (reflexivity || by apply all_digits_show).
  rewrite string_cons_app, string_nil_app.
  rewrite <- (string_app_nil_r (pad_start dp (pretty f))) at 1.
  rewrite span_digits_app; [done| |done]. by apply all_digits_pad_start, all_digits_show.
Qed.

Lemma parse_decimal dp n (neg : bool) : 0 <= n -> (0 < dp)%nat ->
  parseScaled (sign_string neg ++ decimal_string dp n) dp = Ok (if neg then - n else n).
Proof.
  intros Hn Hdp. assert (0 < 10 ^ Z.of_nat dp) as Hp by lia.
  pose proof (Z.mod_pos_bound n _ Hp) as Hf. pose proof (Z.div_pos n (10 ^ Z.of_nat dp) Hn ltac:(lia)) as Hw.
  unfold parseScaled. rewrite trim_id.
  - rewrite decimal_parts by done.
    rewrite bool_decide_eq_false_2 by (by apply show_nonempty). cbn [andb default from_option id].
    assert (le (String.length (pretty (n mod 10 ^ Z.of_nat dp))) dp) as Hl.
    { destruct dp as [|k]; [lia|]. by apply length_show. }
    rewrite pad_slice_exact by (by apply length_pad_start).
    rewrite digits_pad_start, !digits_show by lia.
    pose proof (Z.div_mod n (10 ^ Z.of_nat dp) ltac:(lia)). f_equal. destruct neg; lia.
  - unfold decimal_string. rewrite !all_chars_app.
    rewrite (all_chars_impl is_digit _ (pretty _)) by (apply digit_not_space || by apply all_digits_show).
    rewrite (all_chars_impl is_digit _ (pad_start _ _))
      by (apply digit_not_space || by apply all_digits_pad_start, all_digits_show; lia).
    by destruct neg.
Qed.

Lemma satsToPcnString_parses s : pcnToSats (satsToPcnString s) = Ok s.
Proof.
  unfold pcnToSats, satsToPcnString. destruct (Z.ltb_spec s 0) as [Hs|Hs].
  - pose proof (parse_decimal 8 (- s) true ltac:(lia) ltac:(lia)) as H.
    cbn [sign_string] in H. rewrite H. f_equal. lia.
  - exact (parse_decimal 8 s false ltac:(lia) ltac:(lia)).
Qed.

Lemma fixed_units_nonneg x f n : fixed_units x f = Some n -> 0 <= n.
Proof.
  destruct x as [s|s| |[] m e]; cbn [fixed_units]; try discriminate; [by intros [= <-]|].
  assert (0 < 10 ^ Z.of_nat f) as Hf by lia.
  destruct (Z.leb_spec 0 e) as [He|He].
  - assert (0 < 2 ^ e) by (apply Z.pow_pos_nonneg; lia).
    destruct (_ <? _); [|discriminate]. intros [= <-]. nia.
  - assert (0 < 2 ^ (- e)) by (apply Z.pow_pos_nonneg; lia).
    destruct (_ <? _); [|discriminate]. intros [= <-]. apply Z.div_pos; nia.
Qed.

(** Credits become micro-dollars through their six decimals, rounded up. *)
Lemma creditsToMicroUsd_Ok c margin m :
  creditsToMicroUsd c margin = Ok m ->
  exists n, fixed_units c 6 = Some n /\ 0 <= n /\ m = ceilDiv (n * 1000 * margin) 1000000000000.
Proof.
  unfold creditsToMicroUsd. destruct (_ || _); [discriminate|]. unfold toFixed.
  destruct (fixed_units c 6) as [n|] eqn:Hn; [|discriminate].
  pose proof (fixed_units_nonneg _ _ _ Hn) as H0.
  pose proof (parse_decimal 6 n false H0 ltac:(lia)) as Hp. cbn [sign_string] in Hp.
  rewrite string_nil_app in Hp. rewrite Hp. cbn. intros [= <-]. eauto.
Qed.

Lemma creditsToMicroUsd_nonneg c margin m : 0 <= margin -> creditsToMicroUsd c margin = Ok m -> 0 <= m.
Proof. intros Hm (n & _ & Hn & ->)%creditsToMicroUsd_Ok. apply ceilDiv_nonneg; nia. Qed.

(** ** Properties *)

Section prices.
Context (usdMicro rateE12 : Z).

(** the minimum shown on the deposit screen is the right number of coins: the printed string
    reads back as a whole number of satoshis, sending exactly that many is worth at least the
    amount asked at the same rate, and one satoshi less is not. *)
Theorem quoted_pcn_covers : 0 < usdMicro -> 0 < rateE12 ->
  exists sat nano less,
    pcnToSats (usdToPcnString usdMicro rateE12) = Ok sat /\
    satsToNanoUsd sat rateE12 = Ok nano /\ 1000 * usdMicro <= nano /\
    satsToNanoUsd (sat - 1) rateE12 = Ok less /\ less < 1000 * usdMicro.
Proof.
  intros Hu Hr. unfold usdToPcnString. destruct (Z.leb_spec usdMicro 0); [lia|].
  set (sat := ceilDiv (usdMicro * 100000000000000) rateE12).
  pose proof (ceilDiv_spec (usdMicro * 100000000000000) rateE12 ltac:(lia) Hr) as Hc. fold sat in Hc.
  assert (0 < sat) as Hs by nia.
  exists sat, (sat * rateE12 / 100000000000), ((sat - 1) * rateE12 / 100000000000).
  rewrite satsToPcnString_parses, !satsToNanoUsd_Ok by lia. repeat split.
  - apply Z.div_le_lower_bound; lia.
  - apply Z.div_lt_upper_bound; lia.
Qed.
End prices.

Lemma quoted_pcn_covers_witness :
  (0 < 1000000 /\ 0 < 35902421473) /\
  exists sat nano less,
    pcnToSats (usdToPcnString 1000000 35902421473) = Ok sat /\
    satsToNanoUsd sat 35902421473 = Ok nano /\ 1000 * 1000000 <= nano /\
    satsToNanoUsd (sat - 1) 35902421473 = Ok less /\ less < 1000 * 1000000.
Proof. split; [lia|]. apply (quoted_pcn_covers 1000000 35902421473); lia. Defined.

Example quoted_min : usdToPcnString 1000000 35902421473 = "27.85327449"%string.
Proof. vm_compute. reflexivity. Qed.
