(* ===== verification/BotDb.v ===== *)
(** * The bot's database (contrib/pcnaibot/lib/db.mjs, migrations/)

    Every table the bot's code reads or writes, with the columns of the last
    migration; statements are functions on the database and an operation is a
    state transformer that may throw. A row of an INTEGER PRIMARY KEY
    AUTOINCREMENT table sits in a map from its id; the CHECK constraints on
    states and kinds are the inductive types. Amounts are integers: the code
    keeps them in doubles, exact below 2^53. *)

From stdpp Require Import pretty.
From Stdlib Require Import Ascii.
From S2P Require Import Prelude.
Local Open Scope Z_scope.

(** ** Rows *)

Record user := {
  balance_micro_usd : Z; reserved_micro_usd : Z; u_model : string; busy_at : option Z;
  u_created_at : Z; u_lang : option string; wpcn_remainder_nano_usd : Z }.

Inductive resv_state := Open | Settled | Released | Expired | Held.
#[export] Instance resv_state_eq_dec : EqDecision resv_state.
Proof. solve_decision. Defined.

Record reservation := {
  r_chat_id : Z; r_update_id : option Z; r_req_key : option string; r_model : string;
  r_micro_usd : Z; r_state : resv_state; r_created_at : Z; r_closed_at : option Z;
  r_note : option string }.

Inductive kind :=
  | deposit_pcn | deposit_wpcn | deposit_stars | ai_turn | grant | adjust | gift | referral_row.
#[export] Instance kind_eq_dec : EqDecision kind.
Proof. solve_decision. Defined.

Record ledger_row := {
  l_chat_id : Z; l_delta : Z; l_kind : kind; l_idem_key : option string;
  l_rate_e12 : option Z; l_note : option string; l_created_at : Z }.

Record pcn_address := {
  a_index : Z; a_address : string; a_chat_id : option Z; a_assigned_at : option Z;
  a_remainder : Z; a_last : option (Z * Z) }.

Inductive dep_status := Seen | Confirming | Credited | Rejected | Dropped | DepHeld.
#[export] Instance dep_status_eq_dec : EqDecision dep_status.
Proof. solve_decision. Defined.

Record deposit := {
  d_txid : string; d_address : string; d_chat_id : option Z; d_status : dep_status;
  d_amount_sat : Z; d_block_height : option Z; d_block_hash : option string;
  d_is_coinbase : option bool; d_confirmations : option Z; d_credited_micro_usd : option Z;
  d_credited_rate_e12 : option Z; d_rate_text : option string; d_from_cache : option bool;
  d_rate_at : option Z; d_known_ticks : Z; d_reorg_flagged_at : option Z;
  d_flagged : option string; d_note : option string; d_first_seen_at : Z;
  d_credited_at : option Z }.

Record wpcn_claim := {
  w_chat_id : Z; w_wpcn_sat : Z; w_usd_micro : Z; w_rate_e12 : Z; w_bonus_pct : Z; w_created_at : Z }.

Inductive inv_state := InvPending | InvPaid | InvExpired.
#[export] Instance inv_state_eq_dec : EqDecision inv_state.
Proof. solve_decision. Defined.

Record invoice := {
  v_chat_id : Z; v_payload : string; v_stars : Z; v_micro_usd : Z; v_state : inv_state;
  v_created_at : Z; v_paid_at : option Z }.

Inductive refund_state := RefundPending | RefundDone.
#[export] Instance refund_state_eq_dec : EqDecision refund_state.
Proof. solve_decision. Defined.

Record payment := {
  p_chat_id : Z; p_invoice_id : Z; p_charge_id : string; p_stars : Z; p_micro_usd : Z;
  p_created_at : Z; p_refunded_at : option Z; p_refund_note : option string;
  p_refund_state : option refund_state; p_refund_started_at : option Z;
  p_refund_clawback : bool; p_notified_at : option Z }.

Inductive ref_status := RefPending | Rewarded | RefVoid.
#[export] Instance ref_status_eq_dec : EqDecision ref_status.
Proof. solve_decision. Defined.

Record referral := {
  f_referrer : Z; f_referred : Z; f_status : ref_status; f_reward : option Z;
  f_trigger_item : option Z; f_void_reason : option string; f_created_at : Z;
  f_rewarded_at : option Z; f_min_topup : option Z }.

Inductive media_kind := Image | Video.
#[export] Instance media_kind_eq_dec : EqDecision media_kind.
Proof. solve_decision. Defined.

Inductive job_state := Running | JobDone | JobFailed | JobUnknown.
#[export] Instance job_state_eq_dec : EqDecision job_state.
Proof. solve_decision. Defined.

Record media_job := {
  j_chat_id : Z; j_kind : media_kind; j_model : string; j_api_model : string; j_shape : string;
  j_reservation_id : option Z; j_remote_id : option string; j_state : job_state;
  j_credits : option string; j_result_url : option string; j_result_expires_at : option Z;
  j_status_message_id : option Z; j_error : option string; j_created_at : Z;
  j_finished_at : option Z; j_proposal_id : option Z; j_item_id : option Z }.

Inductive item_kind := Upload | Made (k : media_kind).
#[export] Instance item_kind_eq_dec : EqDecision item_kind.
Proof. solve_decision. Defined.

(** [sources] is a column of JSON text holding item ids; it is kept parsed. *)
Record item_row := {
  i_chat_id : Z; i_kind : item_kind; i_job_id : option Z; i_proposal_id : option Z;
  i_summary : string; i_prompt : string; i_sources : list Z; i_start_item_id : option Z;
  i_tg_file_id : option string; i_tg_message_id : option Z; i_result_url : option string;
  i_result_expires_at : option Z; i_delivered_at : option Z; i_delivery_attempts : Z;
  i_last_attempt_at : option Z; i_created_at : Z }.

Inductive card_state := CardOpen | Started | CardDone | CardFailed | Cancelled | Replaced | CardExpired.
#[export] Instance card_state_eq_dec : EqDecision card_state.
Proof. solve_decision. Defined.

Record proposal := {
  c_chat_id : Z; c_kind : media_kind; c_model : string; c_api_model : string; c_prompt : string;
  c_summary : string; c_shape : string; c_seconds : option Z; c_resolution : option string;
  c_sources : list Z; c_new_version_of : option Z; c_price_micro : Z; c_state : card_state;
  c_message_id : option Z; c_expires_at : Z; c_created_at : Z; c_decided_at : option Z }.

Inductive turn_state := Queued | TurnStarted | TurnDone | Lost.
#[export] Instance turn_state_eq_dec : EqDecision turn_state.
Proof. solve_decision. Defined.

(** A Telegram message: the chat it names, and its text. *)
Record message := { m_chat : option Z; m_text : string }.

Record tg_update := {
  t_claimed_at : Z; t_state : option turn_state; t_chat_id : option Z;
  t_body : option message; t_started_at : option Z }.

(** A Stars payment as Telegram reports it. *)
Record successful_payment := {
  sp_charge_id : string; sp_payload : string; sp_currency : string; sp_total_amount : Z }.

(** The value under the [kv] key [stars:parked:<update id>]. *)
Record parked := { k_chat_id : Z; k_payment : successful_payment; k_parked_at : Z; k_error : string }.

(** A pasted wPCN hash that has not had a final answer. *)
Record wpcn_check := {
  x_created_at : Z; x_checked_at : option Z; x_attempts : Z; x_last_state : option string;
  x_done_at : option Z }.

(** ** The database *)

Record db := {
  users : gmap Z user;
  ledger : list ledger_row;
  reservations : gmap Z reservation;
  pcn_addresses : gmap Z pcn_address;
  pcn_deposits : gmap Z deposit;
  wpcn_claims : gmap (string * Z) wpcn_claim;
  stars_invoices : gmap Z invoice;
  stars_payments : gmap Z payment;
  referrals : gmap Z referral;
  media_jobs : gmap Z media_job;
  items : gmap Z item_row;
  proposals : gmap Z proposal;
  free_usage : gmap (Z * Z) Z;
  tg_updates : gmap Z tg_update;
  kv_parked : gmap Z parked;
  wpcn_checks : gmap (Z * string) wpcn_check }.

Definition empty_db : db := {|
  users := ∅; ledger := []; reservations := ∅; pcn_addresses := ∅; pcn_deposits := ∅;
  wpcn_claims := ∅; stars_invoices := ∅; stars_payments := ∅; referrals := ∅; media_jobs := ∅;
  items := ∅; proposals := ∅; free_usage := ∅; tg_updates := ∅; kv_parked := ∅;
  wpcn_checks := ∅ |}.

Definition on_users (f : _ -> _) (d : db) : db := {|
  users := f (users d); ledger := ledger d; reservations := reservations d;
  pcn_addresses := pcn_addresses d; pcn_deposits := pcn_deposits d;
  wpcn_claims := wpcn_claims d; stars_invoices := stars_invoices d;
  stars_payments := stars_payments d; referrals := referrals d;
  media_jobs := media_jobs d; items := items d; proposals := proposals d;
  free_usage := free_usage d; tg_updates := tg_updates d; kv_parked := kv_parked d;
  wpcn_checks := wpcn_checks d |}.
Definition on_ledger (f : _ -> _) (d : db) : db := {|
  users := users d; ledger := f (ledger d); reservations := reservations d;
  pcn_addresses := pcn_addresses d; pcn_deposits := pcn_deposits d;
  wpcn_claims := wpcn_claims d; stars_invoices := stars_invoices d;
  stars_payments := stars_payments d; referrals := referrals d;
  media_jobs := media_jobs d; items := items d; proposals := proposals d;
  free_usage := free_usage d; tg_updates := tg_updates d; kv_parked := kv_parked d;
  wpcn_checks := wpcn_checks d |}.
Definition on_reservations (f : _ -> _) (d : db) : db := {|
  users := users d; ledger := ledger d; reservations := f (reservations d);
  pcn_addresses := pcn_addresses d; pcn_deposits := pcn_deposits d;
  wpcn_claims := wpcn_claims d; stars_invoices := stars_invoices d;
  stars_payments := stars_payments d; referrals := referrals d;
  media_jobs := media_jobs d; items := items d; proposals := proposals d;
  free_usage := free_usage d; tg_updates := tg_updates d; kv_parked := kv_parked d;
  wpcn_checks := wpcn_checks d |}.
Definition on_pcn_addresses (f : _ -> _) (d : db) : db := {|
  users := users d; ledger := ledger d; reservations := reservations d;
  pcn_addresses := f (pcn_addresses d); pcn_deposits := pcn_deposits d;
  wpcn_claims := wpcn_claims d; stars_invoices := stars_invoices d;
  stars_payments := stars_payments d; referrals := referrals d;
  media_jobs := media_jobs d; items := items d; proposals := proposals d;
  free_usage := free_usage d; tg_updates := tg_updates d; kv_parked := kv_parked d;
  wpcn_checks := wpcn_checks d |}.
Definition on_pcn_deposits (f : _ -> _) (d : db) : db := {|
  users := users d; ledger := ledger d; reservations := reservations d;
  pcn_addresses := pcn_addresses d; pcn_deposits := f (pcn_deposits d);
  wpcn_claims := wpcn_claims d; stars_invoices := stars_invoices d;
  stars_payments := stars_payments d; referrals := referrals d;
  media_jobs := media_jobs d; items := items d; proposals := proposals d;
  free_usage := free_usage d; tg_updates := tg_updates d; kv_parked := kv_parked d;
  wpcn_checks := wpcn_checks d |}.
Definition on_wpcn_claims (f : _ -> _) (d : db) : db := {|
  users := users d; ledger := ledger d; reservations := reservations d;
  pcn_addresses := pcn_addresses d; pcn_deposits := pcn_deposits d;
  wpcn_claims := f (wpcn_claims d); stars_invoices := stars_invoices d;
  stars_payments := stars_payments d; referrals := referrals d;
  media_jobs := media_jobs d; items := items d; proposals := proposals d;
  free_usage := free_usage d; tg_updates := tg_updates d; kv_parked := kv_parked d;
  wpcn_checks := wpcn_checks d |}.
Definition on_stars_invoices (f : _ -> _) (d : db) : db := {|
  users := users d; ledger := ledger d; reservations := reservations d;
  pcn_addresses := pcn_addresses d; pcn_deposits := pcn_deposits d;
  wpcn_claims := wpcn_claims d; stars_invoices := f (stars_invoices d);
  stars_payments := stars_payments d; referrals := referrals d;
  media_jobs := media_jobs d; items := items d; proposals := proposals d;
  free_usage := free_usage d; tg_updates := tg_updates d; kv_parked := kv_parked d;
  wpcn_checks := wpcn_checks d |}.
Definition on_stars_payments (f : _ -> _) (d : db) : db := {|
  users := users d; ledger := ledger d; reservations := reservations d;
  pcn_addresses := pcn_addresses d; pcn_deposits := pcn_deposits d;
  wpcn_claims := wpcn_claims d; stars_invoices := stars_invoices d;
  stars_payments := f (stars_payments d); referrals := referrals d;
  media_jobs := media_jobs d; items := items d; proposals := proposals d;
  free_usage := free_usage d; tg_updates := tg_updates d; kv_parked := kv_parked d;
  wpcn_checks := wpcn_checks d |}.
Definition on_referrals (f : _ -> _) (d : db) : db := {|
  users := users d; ledger := ledger d; reservations := reservations d;
  pcn_addresses := pcn_addresses d; pcn_deposits := pcn_deposits d;
  wpcn_claims := wpcn_claims d; stars_invoices := stars_invoices d;
  stars_payments := stars_payments d; referrals := f (referrals d);
  media_jobs := media_jobs d; items := items d; proposals := proposals d;
  free_usage := free_usage d; tg_updates := tg_updates d; kv_parked := kv_parked d;
  wpcn_checks := wpcn_checks d |}.
Definition on_media_jobs (f : _ -> _) (d : db) : db := {|
  users := users d; ledger := ledger d; reservations := reservations d;
  pcn_addresses := pcn_addresses d; pcn_deposits := pcn_deposits d;
  wpcn_claims := wpcn_claims d; stars_invoices := stars_invoices d;
  stars_payments := stars_payments d; referrals := referrals d;
  media_jobs := f (media_jobs d); items := items d; proposals := proposals d;
  free_usage := free_usage d; tg_updates := tg_updates d; kv_parked := kv_parked d;
  wpcn_checks := wpcn_checks d |}.
Definition on_items (f : _ -> _) (d : db) : db := {|
  users := users d; ledger := ledger d; reservations := reservations d;
  pcn_addresses := pcn_addresses d; pcn_deposits := pcn_deposits d;
  wpcn_claims := wpcn_claims d; stars_invoices := stars_invoices d;
  stars_payments := stars_payments d; referrals := referrals d;
  media_jobs := media_jobs d; items := f (items d); proposals := proposals d;
  free_usage := free_usage d; tg_updates := tg_updates d; kv_parked := kv_parked d;
  wpcn_checks := wpcn_checks d |}.
Definition on_proposals (f : _ -> _) (d : db) : db := {|
  users := users d; ledger := ledger d; reservations := reservations d;
  pcn_addresses := pcn_addresses d; pcn_deposits := pcn_deposits d;
  wpcn_claims := wpcn_claims d; stars_invoices := stars_invoices d;
  stars_payments := stars_payments d; referrals := referrals d;
  media_jobs := media_jobs d; items := items d; proposals := f (proposals d);
  free_usage := free_usage d; tg_updates := tg_updates d; kv_parked := kv_parked d;
  wpcn_checks := wpcn_checks d |}.
Definition on_free_usage (f : _ -> _) (d : db) : db := {|
  users := users d; ledger := ledger d; reservations := reservations d;
  pcn_addresses := pcn_addresses d; pcn_deposits := pcn_deposits d;
  wpcn_claims := wpcn_claims d; stars_invoices := stars_invoices d;
  stars_payments := stars_payments d; referrals := referrals d;
  media_jobs := media_jobs d; items := items d; proposals := proposals d;
  free_usage := f (free_usage d); tg_updates := tg_updates d; kv_parked := kv_parked d;
  wpcn_checks := wpcn_checks d |}.
Definition on_tg_updates (f : _ -> _) (d : db) : db := {|
  users := users d; ledger := ledger d; reservations := reservations d;
  pcn_addresses := pcn_addresses d; pcn_deposits := pcn_deposits d;
  wpcn_claims := wpcn_claims d; stars_invoices := stars_invoices d;
  stars_payments := stars_payments d; referrals := referrals d;
  media_jobs := media_jobs d; items := items d; proposals := proposals d;
  free_usage := free_usage d; tg_updates := f (tg_updates d); kv_parked := kv_parked d;
  wpcn_checks := wpcn_checks d |}.
Definition on_kv_parked (f : _ -> _) (d : db) : db := {|
  users := users d; ledger := ledger d; reservations := reservations d;
  pcn_addresses := pcn_addresses d; pcn_deposits := pcn_deposits d;
  wpcn_claims := wpcn_claims d; stars_invoices := stars_invoices d;
  stars_payments := stars_payments d; referrals := referrals d;
  media_jobs := media_jobs d; items := items d; proposals := proposals d;
  free_usage := free_usage d; tg_updates := tg_updates d; kv_parked := f (kv_parked d);
  wpcn_checks := wpcn_checks d |}.
Definition on_wpcn_checks (f : _ -> _) (d : db) : db := {|
  users := users d; ledger := ledger d; reservations := reservations d;
  pcn_addresses := pcn_addresses d; pcn_deposits := pcn_deposits d;
  wpcn_claims := wpcn_claims d; stars_invoices := stars_invoices d;
  stars_payments := stars_payments d; referrals := referrals d;
  media_jobs := media_jobs d; items := items d; proposals := proposals d;
  free_usage := free_usage d; tg_updates := tg_updates d; kv_parked := kv_parked d;
  wpcn_checks := f (wpcn_checks d) |}.

(** ** Errors and operations *)

(** What an operation throws: an error class of the code, a constraint the
    database refuses, or a plain [Error] with its text. *)
Inductive exn :=
  | InsufficientFunds (needed available : Z)
  | Busy
  | PoolEmpty
  | BudgetExhausted
  | Refused (why : string)
  | CreditRefused (why : string)
  | Duplicate
  | UniqueViolation (column : string)
  | NotNull (column : string)
  | Error (text : string).
#[export] Instance exn_eq_dec : EqDecision exn.
Proof. solve_decision. Defined.

(** A call against the database: what it returns or throws, and the database
    after it. Statements outside a transaction stay when a later one throws. *)
Definition op (A : Type) : Type := db -> result exn A * db.

#[export] Instance op_ret : MRet op := fun A a d => (Ok a, d).
#[export] Instance op_bind : MBind op := fun A B f m d =>
  match m d with (Ok a, d') => f a d' | (Err e, d') => (Err e, d') end.

Definition throw {A} (e : exn) : op A := fun d => (Err e, d).
Definition query {A} (f : db -> A) : op A := fun d => (Ok (f d), d).
Definition exec (f : db -> db) : op () := fun d => (Ok (), f d).
Definition try_catch {A} (m : op A) (h : exn -> op A) : op A := fun d =>
  match m d with (Ok a, d') => (Ok a, d') | (Err e, d') => h e d' end.

(** db.mjs [immediate]: COMMIT what [fn] did, or ROLLBACK and rethrow. *)
Definition immediate {A} (fn : op A) : op A := fun d =>
  match fn d with (Ok a, d') => (Ok a, d') | (Err e, _) => (Err e, d) end.

(** ** Statements shared by several files *)

(** The next AUTOINCREMENT id; rows of these tables are never deleted. *)
Definition fresh_id {A} (t : gmap Z A) : Z := 1 + foldr Z.max 0 (map_to_list t).*1.

Definition changes (b : bool) : Z := if b then 1 else 0.

(** [UPDATE users SET ... WHERE chat_id = ? AND guard]: the rows changed. *)
Definition update_user (chat : Z) (guard : user -> bool) (f : user -> user) : op Z := fun d =>
  match users d !! chat with
  | Some u => if guard u then (Ok 1, on_users <[chat := f u]> d) else (Ok 0, d)
  | None => (Ok 0, d)
  end.

Definition set_money (b r : Z) (u : user) : user := {|
  balance_micro_usd := b; reserved_micro_usd := r; u_model := u_model u; busy_at := busy_at u;
  u_created_at := u_created_at u; u_lang := u_lang u;
  wpcn_remainder_nano_usd := wpcn_remainder_nano_usd u |}.
Definition set_busy (b : option Z) (u : user) : user := {|
  balance_micro_usd := balance_micro_usd u; reserved_micro_usd := reserved_micro_usd u;
  u_model := u_model u; busy_at := b; u_created_at := u_created_at u; u_lang := u_lang u;
  wpcn_remainder_nano_usd := wpcn_remainder_nano_usd u |}.

(** [SET balance_micro_usd = balance_micro_usd + x] *)
Definition credit_balance (x : Z) (u : user) : user :=
  set_money (balance_micro_usd u + x) (reserved_micro_usd u) u.
(** [SET reserved = reserved - x, balance = balance + x] *)
Definition give_back (x : Z) (u : user) : user :=
  set_money (balance_micro_usd u + x) (reserved_micro_usd u - x) u.

Definition always {A} (_ : A) : bool := true.

Definition key_taken (k : string) (d : db) : bool :=
  existsb (fun l => bool_decide (l_idem_key l = Some k)) (ledger d).

(** [INSERT INTO ledger]: [idem_key] is UNIQUE, [chat_id] is NOT NULL. *)
Definition insert_ledger (chat : option Z) (delta : Z) (k : kind) (idem : string)
    (rate : option Z) (note : option string) (now : Z) : op () := fun d =>
  match chat with
  | None => (Err (NotNull "ledger.chat_id"), d)
  | Some c =>
      if key_taken idem d then (Err (UniqueViolation "ledger.idem_key"), d)
      else (Ok (), on_ledger (fun l => l ++ [{| l_chat_id := c; l_delta := delta; l_kind := k;
              l_idem_key := Some idem; l_rate_e12 := rate; l_note := note; l_created_at := now |}]) d)
  end.

(** [SELECT balance_micro_usd FROM users WHERE chat_id = ?] *)
Definition balance_of (chat : Z) (d : db) : option Z := balance_micro_usd <$> users d !! chat.

(** [SELECT COALESCE(SUM(delta_micro_usd), 0) FROM ledger WHERE ...] *)
Definition sum_ledger (P : ledger_row -> bool) (d : db) : Z :=
  zsum_by l_delta (filter (fun l => P l = true) (ledger d)).

(** A row of a map that satisfies a condition, as [.get()] returns one. *)
Definition find_row {A} (P : A -> bool) (t : gmap Z A) : option (Z * A) :=
  list_find (fun x => P x.2 = true) (map_to_list t) ≫= fun x => Some x.2.

Definition exists_row {A} (P : A -> bool) (t : gmap Z A) : bool := bool_decide (is_Some (find_row P t)).

(** [`${n}`] *)
Definition show (n : Z) : string := pretty n.

(** [UPDATE reservations SET state = ?, closed_at = ?, note = ?] *)
Definition close_reservation (s : resv_state) (closed : option Z) (note : option string)
    (r : reservation) : reservation := {|
  r_chat_id := r_chat_id r; r_update_id := r_update_id r; r_req_key := r_req_key r;
  r_model := r_model r; r_micro_usd := r_micro_usd r; r_state := s;
  r_created_at := r_created_at r; r_closed_at := closed; r_note := note |}.

(** [turn:${update_id}] or [turn:api:${req_key}] *)
Definition turn_key (r : reservation) : string :=
  match r_update_id r with
  | Some u => ("turn:" ++ show u)%string
  | None => ("turn:api:" ++ default "null" (r_req_key r))%string
  end.

(** [wpcn:${txhash}:${logIndex}] *)
Definition wpcn_key (txhash : string) (logIndex : Z) : string :=
  ("wpcn:" ++ txhash ++ ":" ++ show logIndex)%string.

(** ** Running operations *)

Lemma op_bind_Ok {A B} (m : op A) (f : A -> op B) d b d' :
  (m ≫= f) d = (Ok b, d') <-> exists a d1, m d = (Ok a, d1) /\ f a d1 = (Ok b, d').
Proof.
  unfold mbind, op_bind. split.
  - destruct (m d) as [[a|e] d1]; [eauto|discriminate].
  - by intros (a & d1 & -> & H).
Qed.

Lemma immediate_Ok {A} (m : op A) d a d' : immediate m d = (Ok a, d') -> m d = (Ok a, d').
Proof. unfold immediate. destruct (m d) as [[x|e] d1]; congruence. Qed.

(** A transaction that throws leaves the database as it was. *)
Lemma immediate_Err {A} (m : op A) d e d' : immediate m d = (Err e, d') -> d' = d.
Proof. unfold immediate. destruct (m d) as [[x|e'] d1]; congruence. Qed.

Lemma query_Ok {A} (f : db -> A) d a d' : query f d = (Ok a, d') <-> a = f d /\ d' = d.
Proof. unfold query. split; [intros [= <- <-]; done|by intros [-> ->]]. Qed.
Lemma exec_Ok f d u d' : exec f d = (Ok u, d') <-> d' = f d.
Proof. unfold exec. destruct u. split; [by intros [= <-]|by intros ->]. Qed.

Lemma update_user_Ok chat guard f d n d' :
  update_user chat guard f d = (Ok n, d') ->
  (exists u, users d !! chat = Some u /\ guard u = true /\ n = 1 /\ d' = on_users <[chat := f u]> d)
  \/ (n = 0 /\ d' = d /\ (users d !! chat = None \/ exists u, users d !! chat = Some u /\ guard u = false)).
Proof.
  unfold update_user. destruct (users d !! chat) as [u|] eqn:Hu.
  - destruct (guard u) eqn:Hg; intros [= <- <-]; [left; eauto|right; eauto 6].
  - intros [= <- <-]. right. eauto.
Qed.

Lemma insert_ledger_Ok chat delta k idem rate note now d u d' :
  insert_ledger chat delta k idem rate note now d = (Ok u, d') ->
  exists c, chat = Some c /\ key_taken idem d = false /\
    d' = on_ledger (fun l => l ++ [{| l_chat_id := c; l_delta := delta; l_kind := k;
           l_idem_key := Some idem; l_rate_e12 := rate; l_note := note; l_created_at := now |}]) d.
Proof.
  unfold insert_ledger. destruct chat as [c|]; [|discriminate].
  destruct (key_taken idem d) eqn:Hk; [discriminate|]. intros [= _ <-]. eauto.
Qed.

(** Takes apart every hypothesis that says an operation returned. *)
Ltac op_inv :=
  repeat match goal with
  | H : (_ ≫= _) _ = (Ok _, _) |- _ =>
      let a := fresh "a" in let d := fresh "d" in let H1 := fresh "Hs" in
      apply op_bind_Ok in H; destruct H as (a & d & H1 & H)
  | H : query _ _ = (Ok _, _) |- _ => apply query_Ok in H; destruct H as [-> ->]
  | H : exec _ _ = (Ok _, _) |- _ => apply exec_Ok in H; subst
  | H : throw _ _ = (Ok _, _) |- _ => discriminate H
  | H : mret _ _ = (Ok _, _) |- _ => injection H as H; subst
  | H : (Ok _, _) = (Ok _, _) |- _ => injection H as H; subst
  | H : (Err _, _) = (Ok _, _) |- _ => discriminate H
  | H : immediate _ _ = (Ok _, _) |- _ => apply immediate_Ok in H
  | H : (let _ := _ in _) _ = (Ok _, _) |- _ => cbv zeta in H
  end.

(** ** Rows of a table *)

Section table.
Context {A : Type}.
Implicit Types (t : gmap Z A).

Lemma foldr_max_ge (l : list Z) x : x ∈ l -> x <= foldr Z.max 0 l.
Proof. induction 1; cbn; lia. Qed.

(** A new id is not in use. *)
Lemma fresh_id_fresh t : t !! fresh_id t = None.
Proof.
  apply eq_None_not_Some. intros [a Ha]. apply elem_of_map_to_list in Ha.
  assert (fresh_id t ∈ (map_to_list t).*1) as Hin by (apply list_elem_of_fmap; by eexists (_, a)).
  apply foldr_max_ge in Hin. unfold fresh_id in Hin. lia.
Qed.

Lemma find_row_Some (P : A -> bool) t i a :
  find_row P t = Some (i, a) -> t !! i = Some a /\ P a = true.
Proof.
  unfold find_row. intros H. apply bind_Some in H as ([n [j b]] & Hf & [= -> ->]).
  apply list_find_Some in Hf as (Hl & HP & _).
  split; [|done]. apply elem_of_map_to_list. by eapply list_elem_of_lookup_2.
Qed.

Lemma find_row_None (P : A -> bool) t :
  find_row P t = None <-> forall i a, t !! i = Some a -> P a = false.
Proof.
  unfold find_row. split.
  - intros H i a Hi. destruct (P a) eqn:HP; [|done].
    apply elem_of_map_to_list, list_elem_of_lookup in Hi as [n Hn].
    destruct (list_find_elem_of (fun x => P x.2 = true) (map_to_list t) (i, a)) as [[m y] Hy].
    { by eapply list_elem_of_lookup_2. } { done. }
    rewrite Hy in H. by destruct y.
  - intros H. destruct (list_find _ _) as [[n [j b]]|] eqn:Hf; [|done].
    apply list_find_Some in Hf as (Hl & HP & _). cbn in HP.
    rewrite (H j b) in HP; [done|]. apply elem_of_map_to_list. by eapply list_elem_of_lookup_2.
Qed.

Lemma find_row_id (P : A -> bool) t i a :
  find_row P t = Some (i, a) -> is_Some (t !! i).
Proof. intros H. apply find_row_Some in H as [-> _]. eauto. Qed.
End table.

Lemma zsum_by_filter {A} (f : A -> Z) (P : A -> bool) l :
  zsum_by f (filter (fun a => P a = true) l) = zsum_by (fun a => if P a then f a else 0) l.
Proof.
  induction l as [|a l IH]; [done|]. rewrite filter_cons, zsum_by_cons.
  destruct (P a) eqn:HP; case_decide; try congruence; rewrite ?zsum_by_cons; lia.
Qed.

(** ** The books: what each account has against what the ledger says *)

Definition bal (d : db) (c : Z) : Z := from_option balance_micro_usd 0 (users d !! c).
Definition res (d : db) (c : Z) : Z := from_option reserved_micro_usd 0 (users d !! c).
Definition of_chat (c : Z) (l : ledger_row) : bool := l_chat_id l =? c.
Definition ledger_sum (d : db) (c : Z) : Z := sum_ledger (of_chat c) d.

(** A reservation that still holds money: open, or held. *)
Definition holds (s : resv_state) : bool := bool_decide (s = Open \/ s = Held).
Definition holding (c : Z) (r : reservation) : Z :=
  if (r_chat_id r =? c) && holds (r_state r) then r_micro_usd r else 0.
Definition open_sum (d : db) (c : Z) : Z := map_sum (holding c) (reservations d).

(** What reconcile() checks, for every chat that has ever had a row. *)
Definition books (d : db) : Prop := forall c,
  ledger_sum d c = bal d c + res d c /\ res d c = open_sum d c.

Lemma ledger_sum_add d l c :
  ledger_sum (on_ledger (fun k => k ++ [l]) d) c
  = ledger_sum d c + (if l_chat_id l =? c then l_delta l else 0).
Proof.
  unfold ledger_sum, sum_ledger. cbn. rewrite !zsum_by_filter, zsum_by_app, zsum_by_cons, zsum_by_nil.
  unfold of_chat at 2. lia.
Qed.

Lemma bal_put d c u c' :
  bal (on_users <[c := u]> d) c' = if c =? c' then balance_micro_usd u else bal d c'.
Proof.
  unfold bal. cbn. destruct (Z.eqb_spec c c') as [->|Hne].
  - by rewrite lookup_insert_eq.
  - by rewrite lookup_insert_ne.
Qed.
Lemma res_put d c u c' :
  res (on_users <[c := u]> d) c' = if c =? c' then reserved_micro_usd u else res d c'.
Proof.
  unfold res. cbn. destruct (Z.eqb_spec c c') as [->|Hne].
  - by rewrite lookup_insert_eq.
  - by rewrite lookup_insert_ne.
Qed.
Lemma bal_some d c u : users d !! c = Some u -> bal d c = balance_micro_usd u.
Proof. unfold bal. by intros ->. Qed.
Lemma res_some d c u : users d !! c = Some u -> res d c = reserved_micro_usd u.
Proof. unfold res. by intros ->. Qed.
Lemma bal_none d c : users d !! c = None -> bal d c = 0.
Proof. unfold bal. by intros ->. Qed.
Lemma res_none d c : users d !! c = None -> res d c = 0.
Proof. unfold res. by intros ->. Qed.

Lemma open_sum_new d i r c :
  reservations d !! i = None ->
  open_sum (on_reservations <[i := r]> d) c = open_sum d c + holding c r.
Proof. intros Hi. unfold open_sum. cbn. rewrite map_sum_insert by done. lia. Qed.
Lemma open_sum_put d i r0 r c :
  reservations d !! i = Some r0 ->
  open_sum (on_reservations <[i := r]> d) c = open_sum d c - holding c r0 + holding c r.
Proof. intros Hi. unfold open_sum. cbn. by rewrite (map_sum_update _ _ _ _ _ Hi). Qed.

Lemma alter_put {A} (f : A -> A) (t : gmap Z A) i a : t !! i = Some a -> alter f i t = <[i := f a]> t.
Proof.
  intros Hi. apply map_eq. intros j. destruct (decide (i = j)) as [->|Hne].
  - by rewrite lookup_alter_eq, lookup_insert_eq, Hi.
  - by rewrite lookup_alter_ne, lookup_insert_ne.
Qed.

Lemma resv_alter_put f d i r :
  reservations d !! i = Some r -> on_reservations (alter f i) d = on_reservations <[i := f r]> d.
Proof. intros Hi. unfold on_reservations. by rewrite (alter_put _ _ _ _ Hi). Qed.

(** [LIKE]: [%] is any text, [_] any character, letters match in either case. *)
Definition lower (c : Ascii.ascii) : Ascii.ascii :=
  let n := Z.of_nat (Ascii.nat_of_ascii c) in
  if (65 <=? n) && (n <=? 90) then Ascii.ascii_of_nat (Z.to_nat (n + 32)) else c.
Fixpoint sql_like (pat s : string) : bool :=
  match pat with
  | EmptyString => match s with EmptyString => true | _ => false end
  | String "%"%char pat' =>
      (fix any (s : string) : bool :=
         sql_like pat' s || match s with EmptyString => false | String _ s' => any s' end) s
  | String c pat' =>
      match s with
      | EmptyString => false
      | String c' s' => (Ascii.eqb c "_"%char || Ascii.eqb (lower c) (lower c')) && sql_like pat' s'
      end
  end.
