(* ===== verification/BotInv.v ===== *)
(** * What every operation of the bot keeps true

    The books balance for every chat, and the rows refer to each other: money is
    reserved, paid or owed only by accounts that exist, a ledger row of a turn
    belongs to a settled reservation, one of a wPCN transfer to its claim. *)

From S2P Require Import Prelude JsInt BotDb.
Local Open Scope Z_scope.

(** ** Keys *)

Lemma prefix_append p s : String.prefix p (p ++ s) = true.
Proof.
  induction p as [|c p IH]; [by destruct s|]. rewrite string_cons_app. cbn.
  by destruct (Ascii.ascii_dec c c).
Qed.

(** A ledger row that is neither a turn's nor a wPCN transfer's. *)
Definition plain_key (k : string) : Prop :=
  String.prefix "turn:" k = false /\ String.prefix "wpcn:" k = false.
Definition plain (l : ledger_row) : Prop :=
  match l_idem_key l with Some k => plain_key k | None => True end.

Definition user_exists (d : db) (c : Z) : Prop := is_Some (users d !! c).

Definition turn_row_ok (d : db) (l : ledger_row) : Prop :=
  forall k, l_idem_key l = Some k -> String.prefix "turn:" k = true ->
  exists i r, reservations d !! i = Some r /\ r_state r = Settled /\ k = turn_key r.

Definition wpcn_row_ok (d : db) (l : ledger_row) : Prop :=
  forall t i, l_idem_key l = Some (wpcn_key t i) -> is_Some (wpcn_claims d !! (t, i)).

Record links (d : db) : Prop := {
  lk_resv_user : forall i r, reservations d !! i = Some r -> user_exists d (r_chat_id r);
  lk_resv_double : forall i r, reservations d !! i = Some r -> round53 (r_micro_usd r) = r_micro_usd r;
  lk_resv_key : forall i j r s, reservations d !! i = Some r -> reservations d !! j = Some s ->
    turn_key r = turn_key s -> i = j;
  lk_resv_one : forall i r, reservations d !! i = Some r ->
    (exists u, r_update_id r = Some u /\ r_req_key r = None)
    \/ (exists k, r_update_id r = None /\ r_req_key r = Some k);
  lk_pay_user : forall i p, stars_payments d !! i = Some p -> user_exists d (p_chat_id p);
  lk_ref_user : forall i f, referrals d !! i = Some f -> user_exists d (f_referrer f);
  lk_turn_rows : forall l, l ∈ ledger d -> turn_row_ok d l;
  lk_wpcn_rows : forall l, l ∈ ledger d -> wpcn_row_ok d l }.

Definition bot_inv (d : db) : Prop := books d /\ links d.

(** ** Frames: an operation that leaves the linked tables alone *)

Section frames.
Context (d d' : db).

Lemma links_frame :
  links d ->
  (forall c, user_exists d c -> user_exists d' c) ->
  reservations d' = reservations d -> stars_payments d' = stars_payments d ->
  referrals d' = referrals d ->
  (forall k, is_Some (wpcn_claims d !! k) -> is_Some (wpcn_claims d' !! k)) ->
  (forall l, l ∈ ledger d' -> l ∈ ledger d \/ plain l) ->
  links d'.
Proof.
  intros [H1 H2 H3 H4 H5 H6 H7 H8] Hu Hr Hp Hf Hw Hl. split; rewrite ?Hr, ?Hp, ?Hf; eauto.
  - intros l [Hin|Hpl]%Hl k Hk Hpre; rewrite Hr; [by eapply H7|].
    unfold plain, plain_key in Hpl. rewrite Hk in Hpl. destruct Hpl; congruence.
  - intros l [Hin|Hpl]%Hl t i Hk; [by eapply Hw, H8|].
    unfold plain in Hpl. rewrite Hk in Hpl. destruct Hpl as [_ Hpl]. unfold wpcn_key in Hpl.
    by rewrite prefix_append in Hpl.
Qed.

(** An operation that moves no money. *)
Lemma books_frame :
  books d -> ledger d' = ledger d -> users d' = users d -> reservations d' = reservations d ->
  books d'.
Proof.
  intros Hb Hl Hu Hr c. destruct (Hb c) as [H1 H2].
  unfold ledger_sum, sum_ledger, bal, res, open_sum in *. by rewrite Hl, Hu, Hr.
Qed.
End frames.

Lemma links_same d d' :
  links d -> ledger d' = ledger d -> users d' = users d -> reservations d' = reservations d ->
  stars_payments d' = stars_payments d -> referrals d' = referrals d ->
  wpcn_claims d' = wpcn_claims d -> links d'.
Proof.
  intros Hl H1 H2 H3 H4 H5 H6. eapply links_frame; eauto.
  - unfold user_exists. by rewrite H2.
  - by rewrite H6.
  - rewrite H1. auto.
Qed.

Lemma inv_frame d d' :
  bot_inv d -> ledger d' = ledger d -> users d' = users d -> reservations d' = reservations d ->
  stars_payments d' = stars_payments d -> referrals d' = referrals d ->
  wpcn_claims d' = wpcn_claims d -> bot_inv d'.
Proof.
  intros [Hb Hl] H1 H2 H3 H4 H5 H6. split; [by eapply books_frame|by eapply links_same].
Qed.

(** Users are never removed. *)
Lemma user_put d c u c' : user_exists d c' -> user_exists (on_users <[c := u]> d) c'.
Proof.
  unfold user_exists. cbn. destruct (decide (c = c')) as [->|Hne].
  - by rewrite lookup_insert_eq.
  - by rewrite lookup_insert_ne.
Qed.

(** ** Tactics *)

(** Reads through the updates of tables a sum does not look at. *)
Ltac frame_sums :=
  repeat match goal with
  | |- context [bal (?s ?f ?d) ?c] => progress change (bal (s f d) c) with (bal d c)
  | |- context [res (?s ?f ?d) ?c] => progress change (res (s f d) c) with (res d c)
  | |- context [ledger_sum (?s ?f ?d) ?c] => progress change (ledger_sum (s f d) c) with (ledger_sum d c)
  | |- context [open_sum (?s ?f ?d) ?c] => progress change (open_sum (s f d) c) with (open_sum d c)
  | _ => progress rewrite ?bal_put, ?res_put, ?ledger_sum_add
  end.

(** Decides which chats coincide. *)
Ltac split_chats :=
  repeat match goal with
  | |- context [?a =? ?b] => destruct (Z.eqb_spec a b); subst
  end.

(** ** Preservation *)

Definition keeps (P : db -> Prop) {A} (m : op A) : Prop := forall d, P d -> P (m d).2.

Section keeps.
Context (P : db -> Prop).

Lemma keeps_bind {A B} (m : op A) (f : A -> op B) :
  keeps P m -> (forall a, keeps P (f a)) -> keeps P (m ≫= f).
Proof.
  intros Hm Hf d Hd. specialize (Hm d Hd). unfold mbind, op_bind.
  destruct (m d) as [[a|e] d']; [by apply Hf|done].
Qed.
Lemma keeps_ret {A} (a : A) : keeps P (mret a).
Proof. by intros d Hd. Qed.
Lemma keeps_throw {A} e : keeps P (throw (A := A) e).
Proof. by intros d Hd. Qed.
Lemma keeps_query {A} (f : db -> A) : keeps P (query f).
Proof. by intros d Hd. Qed.
Lemma keeps_exec f : (forall d, P d -> P (f d)) -> keeps P (exec f).
Proof. intros Hf d Hd. by apply Hf. Qed.
Lemma keeps_try {A} (m : op A) h : keeps P m -> (forall e, keeps P (h e)) -> keeps P (try_catch m h).
Proof.
  intros Hm Hh d Hd. specialize (Hm d Hd). unfold try_catch.
  destruct (m d) as [[a|e] d']; [done|by apply Hh].
Qed.

(** A transaction keeps what its committed outcomes keep. *)
Lemma keeps_immediate {A} (m : op A) :
  (forall d a d', P d -> m d = (Ok a, d') -> P d') -> keeps P (immediate m).
Proof.
  intros Hm d Hd. unfold immediate. destruct (m d) as [[a|e] d'] eqn:E; [by eapply Hm|done].
Qed.

Lemma keeps_update_user chat guard f :
  (forall d u, P d -> users d !! chat = Some u -> guard u = true -> P (on_users <[chat := f u]> d)) ->
  keeps P (update_user chat guard f).
Proof.
  intros Hf d Hd. unfold update_user. destruct (users d !! chat) as [u|] eqn:Hu; [|done].
  destruct (guard u) eqn:Hg; [by apply Hf|done].
Qed.

Lemma keeps_mapM {A B} (f : A -> op B) l : (forall a, keeps P (f a)) -> keeps P (mapM f l).
Proof.
  intros Hf. induction l as [|a l IH]; cbn; [apply keeps_ret|].
  apply keeps_bind; [done|]. intros b. apply keeps_bind; [done|]. intros k. apply keeps_ret.
Qed.
End keeps.

(** ** Reservations *)

Lemma turn_key_close s c n r : turn_key (close_reservation s c n r) = turn_key r.
Proof. reflexivity. Qed.

Section reservations.
Context (d : db) (i : Z).

Lemma links_new_resv r :
  links d -> reservations d !! i = None -> user_exists d (r_chat_id r) ->
  round53 (r_micro_usd r) = r_micro_usd r ->
  ((exists u, r_update_id r = Some u /\ r_req_key r = None)
   \/ (exists k, r_update_id r = None /\ r_req_key r = Some k)) ->
  (forall j s, reservations d !! j = Some s -> turn_key s <> turn_key r) ->
  links (on_reservations <[i := r]> d).
Proof.
  intros [H1 H2 H3 H4 H5 H6 H7 H8] Hi Hu Hd Hone Hkey. split; cbn; try done.
  - intros j s [[<- <-]|[? ?]]%lookup_insert_Some; [done|by eapply H1].
  - intros j s [[<- <-]|[? ?]]%lookup_insert_Some; [done|by eapply H2].
  - intros j k s s' [[<- <-]|[_ Hj]]%lookup_insert_Some [[<- <-]|[_ Hk]]%lookup_insert_Some He; try done.
    + by destruct (Hkey _ _ Hk).
    + by destruct (Hkey _ _ Hj).
    + by eapply H3.
  - intros j s [[<- <-]|[? ?]]%lookup_insert_Some; [done|by eapply H4].
  - intros l Hl k Hk Hp. destruct (H7 l Hl k Hk Hp) as (j & s & Hj & ? & ?).
    exists j, s. split; [|done]. cbn. rewrite lookup_insert_ne; [done|]. intros ->. congruence.
Qed.

Lemma links_put_resv r s c n (l : list ledger_row) :
  links d -> reservations d !! i = Some r -> r_state r <> Settled ->
  (forall x, x ∈ l -> plain x \/ (l_idem_key x = Some (turn_key r) /\ s = Settled)) ->
  links (on_reservations <[i := close_reservation s c n r]> (on_ledger (fun k => k ++ l) d)).
Proof.
  intros [H1 H2 H3 H4 H5 H6 H7 H8] Hi Hs Hl.
  assert (forall j x, <[i := close_reservation s c n r]> (reservations d) !! j = Some x ->
    exists y, reservations d !! j = Some y /\ r_chat_id x = r_chat_id y /\ r_micro_usd x = r_micro_usd y
      /\ r_update_id x = r_update_id y /\ r_req_key x = r_req_key y) as Hold.
  { intros j x [[<- <-]|[? ?]]%lookup_insert_Some; [by exists r|by exists x]. }
  split; cbn; try done.
  - intros j x (y & Hy & -> & _)%Hold. by eapply H1.
  - intros j x (y & Hy & _ & -> & _)%Hold. by eapply H2.
  - intros j k x x' (y & Hy & _ & _ & Hu & Hr)%Hold (y' & Hy' & _ & _ & Hu' & Hr')%Hold He.
    eapply (H3 j k y y'); [done..|]. unfold turn_key in *. by rewrite <- Hu, <- Hr, <- Hu', <- Hr'.
  - intros j x (y & Hy & _ & _ & Hu & Hr)%Hold. rewrite Hu, Hr. by eapply H4.
  - intros x [Hx|Hx]%elem_of_app k Hk Hp.
    + destruct (H7 x Hx k Hk Hp) as (j & y & Hj & Hy & ->). exists j, y. split; [|done]. cbn.
      rewrite lookup_insert_ne; [done|]. intros <-. congruence.
    + destruct (Hl x Hx) as [Hpl|[Hk' ->]].
      * unfold plain in Hpl. rewrite Hk in Hpl. destruct Hpl; congruence.
      * exists i, (close_reservation Settled c n r). cbn. rewrite lookup_insert_eq. naive_solver.
  - intros x [Hx|Hx]%elem_of_app t j Hk; [by eapply H8|].
    destruct (Hl x Hx) as [Hpl|[Hk' _]].
    + unfold plain in Hpl. rewrite Hk in Hpl. destruct Hpl as [_ Hpl]. unfold wpcn_key in Hpl.
      by rewrite prefix_append in Hpl.
    + rewrite Hk in Hk'. injection Hk' as Hk'. unfold wpcn_key, turn_key in Hk'.
      by destruct (r_update_id r).
Qed.
End reservations.

(** ** Effects: what a step does to one account *)

Definition at_chat (chat c x : Z) : Z := if chat =? c then x else 0.

(** The balance, the reserved amount, the ledger total and the open
    reservations of [chat] move by these amounts; every other account stays. *)
Definition effect (d d' : db) (chat b r l o : Z) : Prop := forall c,
  bal d' c = bal d c + at_chat chat c b /\ res d' c = res d c + at_chat chat c r /\
  ledger_sum d' c = ledger_sum d c + at_chat chat c l /\
  open_sum d' c = open_sum d c + at_chat chat c o.

Section effects.
Implicit Types d : db.

Lemma effect_refl d chat : effect d d chat 0 0 0 0.
Proof. intros c. unfold at_chat. destruct (chat =? c); lia. Qed.

Lemma effect_trans d d1 d2 chat b r l o b' r' l' o' :
  effect d d1 chat b r l o -> effect d1 d2 chat b' r' l' o' ->
  effect d d2 chat (b + b') (r + r') (l + l') (o + o').
Proof. intros H1 H2 c. specialize (H1 c). specialize (H2 c). unfold at_chat in *. destruct (chat =? c); lia. Qed.

Lemma effect_eq d d' chat b r l o b' r' l' o' :
  effect d d' chat b r l o -> b = b' -> r = r' -> l = l' -> o = o' -> effect d d' chat b' r' l' o'.
Proof. by intros H -> -> -> ->. Qed.

(** Nothing moved: the sums read only users, ledger and reservations. *)
Lemma effect_frame d d' chat :
  users d' = users d -> ledger d' = ledger d -> reservations d' = reservations d ->
  effect d d' chat 0 0 0 0.
Proof.
  intros Hu Hl Hr c. unfold bal, res, ledger_sum, sum_ledger, open_sum. rewrite Hu, Hl, Hr.
  unfold at_chat. destruct (chat =? c); lia.
Qed.

(** What every operation must show: the ledger moved by what the account did. *)
Lemma effect_books d d' chat b r l o :
  effect d d' chat b r l o -> l = b + r -> r = o -> books d -> books d'.
Proof.
  intros He Hl Ho Hb c. destruct (He c) as (? & ? & ? & ?), (Hb c). unfold at_chat in *.
  destruct (chat =? c); lia.
Qed.

Lemma effect_users d chat u u' :
  users d !! chat = Some u ->
  effect d (on_users <[chat := u']> d) chat
    (balance_micro_usd u' - balance_micro_usd u) (reserved_micro_usd u' - reserved_micro_usd u) 0 0.
Proof.
  intros Hu c. rewrite bal_put, res_put. frame_sums. unfold at_chat.
  destruct (Z.eqb_spec chat c) as [<-|Hne]; [|lia].
  rewrite (bal_some _ _ _ Hu), (res_some _ _ _ Hu). lia.
Qed.

Lemma effect_new_user d chat u :
  users d !! chat = None -> balance_micro_usd u = 0 -> reserved_micro_usd u = 0 ->
  effect d (on_users <[chat := u]> d) chat 0 0 0 0.
Proof.
  intros Hn Hb Hr c. rewrite bal_put, res_put. frame_sums. unfold at_chat.
  destruct (Z.eqb_spec chat c) as [<-|Hne]; [|lia].
  rewrite (bal_none _ _ Hn), (res_none _ _ Hn). lia.
Qed.

Lemma effect_ledger d l : effect d (on_ledger (fun k => k ++ [l]) d) (l_chat_id l) 0 0 (l_delta l) 0.
Proof. intros c. rewrite ledger_sum_add. frame_sums. unfold at_chat. destruct (l_chat_id l =? c); lia. Qed.

Lemma effect_new_resv d i r :
  reservations d !! i = None ->
  effect d (on_reservations <[i := r]> d) (r_chat_id r) 0 0 0 (if holds (r_state r) then r_micro_usd r else 0).
Proof.
  intros Hi c. rewrite open_sum_new by done. frame_sums. unfold at_chat, holding.
  destruct (r_chat_id r =? c), (holds (r_state r)); cbn; lia.
Qed.

Lemma effect_put_resv d i r s cl n :
  reservations d !! i = Some r ->
  effect d (on_reservations <[i := close_reservation s cl n r]> d) (r_chat_id r) 0 0 0
    ((if holds s then r_micro_usd r else 0) - (if holds (r_state r) then r_micro_usd r else 0)).
Proof.
  intros Hi c. rewrite (open_sum_put _ _ _ _ _ Hi). frame_sums. unfold at_chat, holding. cbn.
  destruct (r_chat_id r =? c), (holds s), (holds (r_state r)); cbn; lia.
Qed.
End effects.
Arguments effect_trans {d d1 d2 chat b r l o b' r' l' o'}.
Arguments effect_books {d d' chat b r l o}.

(** ** Statements *)

(** A step on [users]: the account exists and its row is replaced, or nothing. *)
Lemma update_user_links chat guard f d n d' :
  update_user chat guard f d = (Ok n, d') -> links d -> links d'.
Proof.
  intros [(u & _ & _ & _ & ->)|(_ & -> & _)]%update_user_Ok Hl; [|done].
  eapply links_frame; eauto using user_put.
Qed.

Lemma update_user_rest chat guard f d n d' :
  update_user chat guard f d = (Ok n, d') ->
  ledger d' = ledger d /\ reservations d' = reservations d /\ stars_payments d' = stars_payments d /\
  referrals d' = referrals d /\ wpcn_claims d' = wpcn_claims d /\
  (forall c, user_exists d c -> user_exists d' c).
Proof.
  intros [(u & _ & _ & _ & ->)|(_ & -> & _)]%update_user_Ok; repeat split; try done.
  intros c. apply user_put.
Qed.

(** [UPDATE users SET ... WHERE chat_id = ?] on an account that exists. *)
Lemma update_user_effect chat f d n d' :
  update_user chat always f d = (Ok n, d') -> user_exists d chat ->
  exists u, users d !! chat = Some u /\ users d' !! chat = Some (f u) /\ n = 1 /\
    effect d d' chat (balance_micro_usd (f u) - balance_micro_usd u)
      (reserved_micro_usd (f u) - reserved_micro_usd u) 0 0.
Proof.
  intros H [u Hu]. exists u. apply update_user_Ok in H as [(v & Hv & _ & -> & ->)|(_ & _ & [?|(v & Hv & [=])])];
    [|congruence]. assert (v = u) as -> by congruence.
  split_and!; [done|cbn; by rewrite lookup_insert_eq|done|by apply effect_users].
Qed.

Lemma credit_effect chat x d n d' :
  update_user chat always (credit_balance x) d = (Ok n, d') -> user_exists d chat ->
  effect d d' chat x 0 0 0.
Proof.
  intros H Hu. apply update_user_effect in H as (u & _ & _ & _ & He); [|done].
  eapply effect_eq; [exact He|cbn; lia..].
Qed.

Lemma give_back_effect chat x d n d' :
  update_user chat always (give_back x) d = (Ok n, d') -> user_exists d chat ->
  effect d d' chat x (- x) 0 0.
Proof.
  intros H Hu. apply update_user_effect in H as (u & _ & _ & _ & He); [|done].
  eapply effect_eq; [exact He|cbn; lia..].
Qed.

Lemma insert_ledger_effect chat delta k idem rate note now d u d' :
  insert_ledger (Some chat) delta k idem rate note now d = (Ok u, d') ->
  effect d d' chat 0 0 delta 0 /\ users d' = users d /\ reservations d' = reservations d /\
  exists l, l_idem_key l = Some idem /\ d' = on_ledger (fun k => k ++ [l]) d.
Proof.
  intros (c & [= <-] & _ & ->)%insert_ledger_Ok. split_and!; [by eapply effect_ledger|done|done|].
  eexists. split; [|reflexivity]. done.
Qed.

(** A new ledger row of neither kind keeps the links. *)
Lemma insert_ledger_links chat delta k idem rate note now d u d' :
  insert_ledger chat delta k idem rate note now d = (Ok u, d') -> plain_key idem -> links d -> links d'.
Proof.
  intros (c & -> & _ & ->)%insert_ledger_Ok Hp Hl. eapply links_frame; eauto.
  cbn. intros l [Hin|Hin]%elem_of_app; [by left|right].
  apply list_elem_of_singleton in Hin as ->. exact Hp.
Qed.

(** Evaluates which states hold money, and the money columns of an updated row. *)
Ltac money :=
  repeat match goal with
  | H : r_state _ = _ |- _ => rewrite H
  end;
  change (holds Open) with true; change (holds Held) with true; change (holds Settled) with false;
  change (holds Released) with false; change (holds Expired) with false;
  cbn [give_back credit_balance set_money balance_micro_usd reserved_micro_usd]; lia.

(** ** Referrals and Stars payments *)

Lemma inv_put_referral d i f :
  bot_inv d -> user_exists d (f_referrer f) -> bot_inv (on_referrals <[i := f]> d).
Proof.
  intros [Hb Hl] Hu. split; [by eapply books_frame|].
  destruct Hl as [H1 H2 H3 H4 H5 H6 H7 H8]. split; cbn; try done.
  intros j g [[<- <-]|[_ Hj]]%lookup_insert_Some; [done|by eapply H6].
Qed.

Lemma inv_alter_referral d i h :
  bot_inv d -> (forall f, f_referrer (h f) = f_referrer f) -> bot_inv (on_referrals (alter h i) d).
Proof.
  intros Hd Hf. destruct (referrals d !! i) as [f|] eqn:Hi.
  - assert (on_referrals (alter h i) d = on_referrals <[i := h f]> d) as ->.
    { unfold on_referrals. by rewrite (alter_put _ _ _ _ Hi). }
    apply inv_put_referral; [done|]. rewrite Hf. by eapply lk_ref_user; [apply Hd|].
  - assert (on_referrals (alter h i) d = d) as ->; [|done].
    destruct d. unfold on_referrals. cbn. f_equal. apply map_eq. intros j. cbn in Hi.
    destruct (decide (i = j)) as [<-|Hne]; [by rewrite lookup_alter_eq, Hi|by rewrite lookup_alter_ne].
Qed.

Lemma inv_put_payment d i p :
  bot_inv d -> user_exists d (p_chat_id p) -> bot_inv (on_stars_payments <[i := p]> d).
Proof.
  intros [Hb Hl] Hu. split; [by eapply books_frame|].
  destruct Hl as [H1 H2 H3 H4 H5 H6 H7 H8]. split; cbn; try done.
  intros j g [[<- <-]|[_ Hj]]%lookup_insert_Some; [done|by eapply H5].
Qed.

Lemma inv_alter_payment d i h :
  bot_inv d -> (forall p, p_chat_id (h p) = p_chat_id p) -> bot_inv (on_stars_payments (alter h i) d).
Proof.
  intros Hd Hf. destruct (stars_payments d !! i) as [p|] eqn:Hi.
  - assert (on_stars_payments (alter h i) d = on_stars_payments <[i := h p]> d) as ->.
    { unfold on_stars_payments. by rewrite (alter_put _ _ _ _ Hi). }
    apply inv_put_payment; [done|]. rewrite Hf. by eapply lk_pay_user; [apply Hd|].
  - assert (on_stars_payments (alter h i) d = d) as ->; [|done].
    destruct d. unfold on_stars_payments. cbn. f_equal. apply map_eq. intros j. cbn in Hi.
    destruct (decide (i = j)) as [<-|Hne]; [by rewrite lookup_alter_eq, Hi|by rewrite lookup_alter_ne].
Qed.

(** An effect on one account keeps the invariant when the ledger follows the account. *)
Lemma inv_effect d d' chat b r l o :
  bot_inv d -> effect d d' chat b r l o -> l = b + r -> r = o -> links d' -> bot_inv d'.
Proof. intros [Hb _] He Hl Ho Hk. split; [by eapply (effect_books He)|done]. Qed.
