(* ===== verification/BotBilling.v ===== *)
(** * Reserve, settle, release (contrib/pcnaibot/lib/billing.mjs)

    A cost known only after the answer: the worst case moves from the balance
    into a reservation, the settle gives it back and takes what it really cost.
    The age-out returns what nothing ever came back for. *)

From Stdlib Require Import SpecFloat Ascii.
From S2P Require Import Prelude JsInt JsNum BotMoney BotDb BotInv.
Local Open Scope Z_scope.
Local Open Scope string_scope.

(** [Number(big)] *)
Definition Number (z : Z) : Z := round53 z.

(** ** The per-user lock *)

Definition acquireUserLock (chatId staleSeconds now : Z) : op () :=
  changed ← update_user chatId
    (fun u => match busy_at u with None => true | Some t => (t <? now - staleSeconds)%Z end)
    (set_busy (Some now));
  if (changed =? 1)%Z then mret () else throw Busy.

(** The function [acquireUserLock] returns. *)
Definition releaseUserLock (chatId : Z) : op () :=
  _ ← update_user chatId always (set_busy None); mret ().

(** ** Reserve *)

Definition with_update_id (u : Z) (r : reservation) : bool := bool_decide (r_update_id r = Some u).
Definition with_req_key (k : string) (r : reservation) : bool := bool_decide (r_req_key r = Some k).

(** [INSERT INTO reservations]: update_id and req_key are each UNIQUE. *)
Definition insert_reservation (r : reservation) : op Z := fun d =>
  if match r_update_id r with Some u => exists_row (with_update_id u) (reservations d) | None => false end
  then (Err (UniqueViolation "reservations.update_id"), d)
  else if match r_req_key r with Some k => exists_row (with_req_key k) (reservations d) | None => false end
  then (Err (UniqueViolation "reservations.req_key"), d)
  else let i := fresh_id (reservations d) in (Ok i, on_reservations <[i := r]> d).

Record reserved := { rv_id : Z; rv_micro_usd : Z; rv_duplicate : bool }.

Definition reserve (chatId : Z) (updateId : option Z) (reqKey : option string) (model : string)
    (microUsd : Z) (allowOverdraft : bool) (now : Z) : op reserved :=
  if bool_decide (is_Some updateId) && bool_decide (is_Some reqKey)
     || negb (bool_decide (is_Some updateId)) && negb (bool_decide (is_Some reqKey))
  then throw (Error "reserve: exactly one of updateId or reqKey is required")
  else immediate (
    existing ← query (fun d =>
      match updateId, reqKey with
      | Some u, _ => find_row (with_update_id u) (reservations d)
      | None, Some k => find_row (with_req_key k) (reservations d)
      | None, None => None
      end);
    match existing with
    | Some (i, r) => mret {| rv_id := i; rv_micro_usd := r_micro_usd r; rv_duplicate := true |}
    | None =>
        u ← query (fun d => users d !! chatId);
        match u with
        | None => throw (Error "reserve: no user row")
        | Some u =>
            let need := Number microUsd in
            let floor := if allowOverdraft then 1%Z else need in
            changed ← (if (0 <? need)%Z
                       then update_user chatId (fun u => (floor <=? balance_micro_usd u)%Z) (give_back (- need))
                       else mret 1%Z);
            if negb (changed =? 1)%Z then throw (InsufficientFunds need (balance_micro_usd u))
            else
              i ← insert_reservation {| r_chat_id := chatId; r_update_id := updateId; r_req_key := reqKey;
                    r_model := model; r_micro_usd := need; r_state := Open; r_created_at := now;
                    r_closed_at := None; r_note := None |};
              mret {| rv_id := i; rv_micro_usd := need; rv_duplicate := false |}
        end
    end).

(** ** Settle *)

Record settlement := {
  st_reserved : Z; st_actual : Z; st_overran : bool; st_late : bool;
  st_ratio : option js_num; st_balance_after : Z; st_negative : bool }.

Inductive settled :=
  | AlreadyClosed (state : resv_state)
  | SettledNow (s : settlement).

(** [.get(chat_id).b] *)
Definition balance_row (chat : Z) : op Z :=
  b ← query (balance_of chat);
  match b with Some b => mret b | None => throw (Error "undefined has no balance") end.

(** Take the charge off the balance and write its ledger row. *)
Definition charge_turn (r : reservation) (actual : Z) (note : option string) (now : Z) : op () :=
  if (0 <? actual)%Z then
    _ ← update_user (r_chat_id r) always (credit_balance (- Number actual));
    insert_ledger (Some (r_chat_id r)) (- Number actual) ai_turn (turn_key r) None note now
  else mret ().

Definition settleLate (id : Z) (r : reservation) (actual : Z) (note : option string) (now : Z) : op settled :=
  _ ← charge_turn r actual note now;
  _ ← exec (on_reservations (alter (close_reservation Settled (Some now)
        (Some ("LATE: settled " ++ show actual ++ " after the hold had aged out"))) id));
  bal ← balance_row (r_chat_id r);
  mret (SettledNow {| st_reserved := 0; st_actual := actual; st_overran := false; st_late := true;
                      st_ratio := None; st_balance_after := bal; st_negative := (bal <? 0)%Z |}).

Definition settle (reservationId actual : Z) (note : option string) (now : Z) : op settled := immediate (
  row ← query (fun d => reservations d !! reservationId);
  match row with
  | None => throw (Error "settle: no reservation")
  | Some r =>
      match r_state r with
      | Expired => settleLate reservationId r actual note now
      | Open =>
          let reserved := r_micro_usd r in
          let overran := (reserved <? actual)%Z in
          _ ← update_user (r_chat_id r) always (give_back (Number reserved));
          _ ← charge_turn r actual note now;
          _ ← exec (on_reservations (alter (close_reservation Settled (Some now)
                (if overran then Some ("OVERRAN: settled " ++ show actual ++ " vs reserved " ++ show reserved)
                 else note)) reservationId));
          bal ← balance_row (r_chat_id r);
          mret (SettledNow {| st_reserved := reserved; st_actual := actual; st_overran := overran;
                  st_late := false;
                  st_ratio := if (reserved =? 0)%Z then None
                              else Some (num_div (num_of_Z actual) (num_of_Z reserved));
                  st_balance_after := bal; st_negative := (bal <? 0)%Z |})
      | s => mret (AlreadyClosed s)
      end
  end).

(** ** Release, hold, age out *)

Inductive released := ReleaseClosed (state : resv_state) | ReleasedNow (micro : Z).

Definition release (reservationId : Z) (reason : option string) (now : Z) : op released := immediate (
  row ← query (fun d => reservations d !! reservationId);
  match row with
  | None => throw (Error "release: no reservation")
  | Some r =>
      if bool_decide (r_state r = Open) then
        _ ← update_user (r_chat_id r) always (give_back (r_micro_usd r));
        _ ← exec (on_reservations (alter (close_reservation Released (Some now) reason) reservationId));
        mret (ReleasedNow (r_micro_usd r))
      else mret (ReleaseClosed (r_state r))
  end).

(** What was held, or [None] for [{ noop: true }]. *)
Definition hold (reservationId : Z) (reason : option string) : op (option Z) := immediate (
  row ← query (fun d => reservations d !! reservationId);
  match row with
  | Some r =>
      if bool_decide (r_state r = Open) then
        _ ← exec (on_reservations (alter (fun r => close_reservation Held (r_closed_at r) reason r) reservationId));
        mret (Some (r_micro_usd r))
      else mret None
  | None => mret None
  end).

(** A media job of this reservation is still running. *)
Definition owned_by_running_job (d : db) (reservationId : Z) : bool :=
  exists_row (fun j => bool_decide (j_reservation_id j = Some reservationId /\ j_state j = Running))
             (media_jobs d).

(** One row of the age-out, in its own transaction: what it freed. *)
Definition age_out_one (now id : Z) : op (option (Z * Z)) := immediate (
  cur ← query (fun d => (reservations d !! id, owned_by_running_job d id));
  match cur with
  | (Some r, false) =>
      if holds (r_state r) then
        _ ← update_user (r_chat_id r) always (give_back (r_micro_usd r));
        _ ← exec (on_reservations (alter (close_reservation Expired (Some now)
              (Some "reserve_expired: no usage was ever received")) id));
        mret (Some (id, r_micro_usd r))
      else mret None
  | _ => mret None
  end).

Definition ageOutReservations (olderThanMinutes now : Z) : op (list (Z * Z)) :=
  let cutoff := (now - olderThanMinutes * 60)%Z in
  stale ← query (fun d => (filter (fun x : Z * reservation =>
            holds (r_state x.2) && (r_created_at x.2 <? cutoff)%Z && negb (owned_by_running_job d x.1) = true)
            (map_to_list (reservations d))).*1);
  freed ← mapM (age_out_one now) stale;
  mret (omap id freed).

(** ** The free quota *)

Record free_turn := { ft_allowed : bool; ft_used : Z; ft_limit : Z }.

Definition takeFreeTurn (chatId perHour now : Z) : op free_turn :=
  let hourKey := (now / 3600)%Z in
  immediate (
    _ ← exec (on_free_usage (fun t => match t !! (chatId, hourKey) with
                                      | None => <[(chatId, hourKey) := 0%Z]> t | Some _ => t end));
    turns ← query (fun d => default 0%Z (free_usage d !! (chatId, hourKey)));
    if (perHour <=? turns)%Z then mret {| ft_allowed := false; ft_used := turns; ft_limit := perHour |}
    else
      _ ← exec (on_free_usage (alter (Z.add 1) (chatId, hourKey)));
      mret {| ft_allowed := true; ft_used := turns + 1; ft_limit := perHour |}).

(** ** The books and the links survive *)


(** ** The books and the links survive *)

(** A closed turn: the charge, then the reservation's row. *)
Lemma charge_close_inv i r actual note now n s cl d d1 u :
  charge_turn r actual note now d = (Ok u, d1) ->
  links d -> reservations d !! i = Some r -> r_state r <> Settled -> s = Settled ->
  let d2 := on_reservations (alter (close_reservation s cl n) i) d1 in
  let a := if (0 <? actual)%Z then Number actual else 0%Z in
  links d2 /\
  effect d d2 (r_chat_id r) (- a) 0 (- a)
    ((if holds s then r_micro_usd r else 0) - (if holds (r_state r) then r_micro_usd r else 0)).
Proof.
  intros H Hl Hi Hs -> d2 a. pose proof (lk_resv_user _ Hl _ _ Hi) as Hu.
  unfold charge_turn in H. subst d2 a. destruct (0 <? actual)%Z.
  - op_inv. pose proof (update_user_links _ _ _ _ _ _ Hs0 Hl) as Hl1.
    pose proof (update_user_rest _ _ _ _ _ _ Hs0) as (_ & Hr & _).
    pose proof (credit_effect _ _ _ _ _ Hs0 Hu) as He1.
    apply insert_ledger_effect in H as (He2 & _ & Hr2 & l & Hk & ->). cbn in Hr2.
    rewrite (resv_alter_put _ _ _ r) by (cbn; by rewrite Hr). split.
    + apply links_put_resv; [done|by rewrite Hr|done|].
      intros x ->%list_elem_of_singleton. by right.
    + pose proof (effect_put_resv (on_ledger (fun k => app k [l]) d0) i r Settled cl n
        ltac:(cbn; by rewrite Hr)) as He3.
      eapply effect_eq; [exact (effect_trans (effect_trans He1 He2) He3)|lia..].
  - op_inv. rewrite (resv_alter_put _ _ _ r) by done. split.
    + assert (d1 = on_ledger (fun k => app k []) d1) as Hd.
      { destruct d1. unfold on_ledger. cbn. by rewrite app_nil_r. }
      rewrite Hd. cbn. apply links_put_resv; [done|done|done|]. by intros x ?%elem_of_nil.
    + eapply effect_eq; [by apply effect_put_resv|lia..].
Qed.

(** A step that leaves an account's money alone. *)
Lemma keeps_same_money chat guard f :
  (forall u, balance_micro_usd (f u) = balance_micro_usd u) ->
  (forall u, reserved_micro_usd (f u) = reserved_micro_usd u) ->
  keeps bot_inv (update_user chat guard f).
Proof.
  intros Hb Hr. apply keeps_update_user. intros d u [Hbk Hl] Hu _. split.
  - eapply effect_books; [apply (effect_users d chat u _ Hu)|rewrite Hb, Hr; lia|rewrite Hr; lia|done].
  - eapply links_frame; eauto using user_put.
Qed.

Lemma keeps_lock chat s now : keeps bot_inv (acquireUserLock chat s now).
Proof.
  unfold acquireUserLock. apply keeps_bind; [by apply keeps_same_money|].
  intros n. destruct (n =? 1)%Z; [apply keeps_ret|apply keeps_throw].
Qed.

Lemma keeps_unlock chat : keeps bot_inv (releaseUserLock chat).
Proof. apply keeps_bind; [by apply keeps_same_money|]. intros n. apply keeps_ret. Qed.

Lemma find_row_key (P : reservation -> bool) (t : gmap Z reservation) i r :
  find_row P t = None -> t !! i = Some r -> P r = false.
Proof. intros H. by apply find_row_None. Qed.

Lemma show_not_api u k : show u <> "api:" ++ k.
Proof.
  unfold show. destruct (Z_lt_le_dec u 0) as [Hu|Hu].
  - destruct u; [lia|lia|]. intros H. discriminate H.
  - destruct (show_first u Hu) as (c & s & -> & Hc). intros H.
    assert (c = "a"%char) as -> by (injection H; congruence). discriminate Hc.
Qed.

(** Rows with distinct ids have distinct keys. *)
Lemma turn_key_inj r s :
  ((exists u, r_update_id r = Some u /\ r_req_key r = None)
   \/ (exists k, r_update_id r = None /\ r_req_key r = Some k)) ->
  ((exists u, r_update_id s = Some u /\ r_req_key s = None)
   \/ (exists k, r_update_id s = None /\ r_req_key s = Some k)) ->
  turn_key r = turn_key s -> r_update_id r = r_update_id s /\ r_req_key r = r_req_key s.
Proof.
  intros [(u & Hu & Hr)|(k & Hu & Hr)] [(v & Hv & Hs)|(l & Hv & Hs)] H; unfold turn_key in H;
    rewrite Hu, Hv, ?Hr, ?Hs in *; cbn [default from_option id] in H.
  - apply (inj (String.append "turn:")) in H. unfold show in H.
    by apply (inj (A := Z) pretty.pretty) in H as ->.
  - change ("turn:api:" ++ l) with ("turn:" ++ ("api:" ++ l)) in H.
    apply (inj (String.append "turn:")) in H. by apply show_not_api in H.
  - change ("turn:api:" ++ k) with ("turn:" ++ ("api:" ++ k)) in H.
    apply (inj (String.append "turn:")) in H. symmetry in H. by apply show_not_api in H.
  - by apply (inj (String.append "turn:api:")) in H as ->.
Qed.

Lemma insert_reservation_Ok r d i d' :
  insert_reservation r d = (Ok i, d') ->
  i = fresh_id (reservations d) /\ d' = on_reservations <[i := r]> d.
Proof.
  unfold insert_reservation. destruct (match r_update_id r with Some _ => _ | None => _ end); [discriminate|].
  destruct (match r_req_key r with Some _ => _ | None => _ end); [discriminate|].
  by intros [= <- <-].
Qed.

Lemma one_id (uid : option Z) (req : option string) :
  bool_decide (is_Some uid) && bool_decide (is_Some req)
    || negb (bool_decide (is_Some uid)) && negb (bool_decide (is_Some req)) = false ->
  (exists u, uid = Some u /\ req = None) \/ (exists k, uid = None /\ req = Some k).
Proof. destruct uid, req; [discriminate| | |discriminate]; eauto. Qed.

Lemma reserve_Ok chat uid req model micro over now d v d' :
  reserve chat uid req model micro over now d = (Ok v, d') -> bot_inv d -> (0 <= micro)%Z ->
  (exists i r, d' = d /\ rv_duplicate v = true /\ rv_id v = i /\ reservations d !! i = Some r
     /\ rv_micro_usd v = r_micro_usd r /\ (r_update_id r = uid \/ r_req_key r = req))
  \/ (exists u, users d !! chat = Some u /\ rv_duplicate v = false /\ rv_micro_usd v = Number micro /\
      reservations d !! rv_id v = None /\
      (Number micro = 0%Z \/ (if over then 1 else Number micro) <= balance_micro_usd u)%Z /\
      d' = on_reservations <[rv_id v := {| r_chat_id := chat; r_update_id := uid; r_req_key := req;
             r_model := model; r_micro_usd := Number micro; r_state := Open; r_created_at := now;
             r_closed_at := None; r_note := None |}]>
           (if 0 <? Number micro then on_users <[chat := give_back (- Number micro) u]> d else d)%Z /\
      bot_inv d').
Proof.
  intros H [Hb Hl] Hm. unfold reserve in H.
  destruct (_ || _)%bool eqn:Hone; [by op_inv|]. op_inv.
  assert (0 <= Number micro)%Z as Hn by (by apply round53_nonneg).
  destruct (match uid with Some u => _ | None => _ end) as [[i r]|] eqn:Hex.
  - op_inv. left. exists i, r. destruct uid as [u|]; [|destruct req as [k|]; [|done]];
      apply find_row_Some in Hex as [Hi HP]; apply bool_decide_eq_true_1 in HP; split_and!; auto.
  - op_inv. destruct (users d !! chat) as [u|] eqn:Hu; [|by op_inv]. op_inv.
    destruct (a =? 1)%Z eqn:Ha; cbn [negb] in H; [|by op_inv]. op_inv. apply Z.eqb_eq in Ha as ->.
    apply insert_reservation_Ok in Hs0 as [-> ->]. cbn [rv_id rv_duplicate rv_micro_usd].
    right. exists u. split; [done|]. split; [done|]. split; [done|].
    assert (reservations d0 = reservations d /\ links d0 /\ user_exists d0 chat /\
            d0 = (if 0 <? Number micro then on_users <[chat := give_back (- Number micro) u]> d else d)%Z /\
            effect d d0 chat (- Number micro) (Number micro) 0 0 /\
            (Number micro = 0 \/ (if over then 1 else Number micro) <= balance_micro_usd u)%Z)
      as (Hr & Hl0 & Hu0 & Hd0 & He & Hfl).
    { destruct (Z.ltb_spec 0 (Number micro)) as [Hp|Hp].
      - apply update_user_Ok in Hs as Hs'. destruct Hs' as [(u' & Hu' & Hg & _ & ->)|(? & _)]; [|lia].
        assert (u' = u) as -> by congruence. split_and!; try done.
        + by eapply update_user_links.
        + eapply user_put. by eexists.
        + eapply effect_eq; [apply (effect_users d chat u _ Hu)|cbn; lia..].
        + right. by apply Z.leb_le.
      - op_inv. assert (Number micro = 0)%Z as Hz by lia. rewrite Hz. split_and!; try done.
        + by eexists.
        + apply effect_refl.
        + by left. }
    rewrite Hr. split; [apply fresh_id_fresh|]. split; [done|]. split; [by rewrite <- Hd0|].
    set (nr := {| r_chat_id := chat |}).
    pose proof (effect_new_resv d0 (fresh_id (reservations d)) nr ltac:(rewrite Hr; apply fresh_id_fresh)) as He2.
    split.
    + eapply (effect_books (effect_trans He He2)); [lia| |done]. cbn. lia.
    + apply one_id in Hone.
      apply links_new_resv; [done|rewrite Hr; apply fresh_id_fresh|done|apply round53_idem|done|].
      rewrite Hr. intros j s Hj Hk.
      apply turn_key_inj in Hk as [Hk1 Hk2]; [|exact (lk_resv_one _ Hl _ _ Hj)|done]. cbn in Hk1, Hk2.
      destruct Hone as [(x & -> & ->)|(x & -> & ->)];
        pose proof (find_row_key _ _ _ _ Hex Hj) as HP; unfold with_update_id, with_req_key in HP;
        apply bool_decide_eq_false_1 in HP; congruence.
Qed.

(** A reservation not settled yet has no turn row: its key is free. *)
Lemma turn_key_free d i r :
  links d -> reservations d !! i = Some r -> r_state r <> Settled -> key_taken (turn_key r) d = false.
Proof.
  intros Hl Hi Hs. unfold key_taken. apply not_true_iff_false. intros H.
  apply existsb_exists in H as (l & Hin & Hk). apply bool_decide_eq_true_1 in Hk.
  apply list_elem_of_In in Hin.
  destruct (lk_turn_rows _ Hl l Hin _ Hk) as (j & s & Hj & Hst & He).
  - unfold turn_key. destruct (r_update_id r); [apply prefix_append|].
    change ("turn:api:" ++ ?k) with ("turn:" ++ ("api:" ++ k)). apply prefix_append.
  - pose proof (lk_resv_key _ Hl _ _ _ _ Hi Hj He) as <-. congruence.
Qed.

Lemma update_user_run d chat f u :
  users d !! chat = Some u -> update_user chat always f d = (Ok 1%Z, on_users <[chat := f u]> d).
Proof. intros Hu. unfold update_user. by rewrite Hu. Qed.

(** Charging a turn whose key is free goes through. *)
Lemma charge_turn_run r actual note now d :
  user_exists d (r_chat_id r) -> key_taken (turn_key r) d = false ->
  exists d', charge_turn r actual note now d = (Ok tt, d') /\ reservations d' = reservations d /\
             user_exists d' (r_chat_id r).
Proof.
  intros [u Hu] Hk. unfold charge_turn. destruct (0 <? actual)%Z;
    [|eexists; split_and!; [reflexivity|done|by exists u]].
  unfold mbind, op_bind. rewrite (update_user_run _ _ _ _ Hu). unfold insert_ledger.
  change (key_taken _ (on_users _ d)) with (key_taken (turn_key r) d). rewrite Hk.
  eexists. split; [done|]. split; [done|]. apply user_put. by exists u.
Qed.

Lemma balance_row_run d chat : user_exists d chat -> balance_row chat d = (Ok (bal d chat), d).
Proof.
  intros [u Hu]. unfold balance_row, query, mbind, op_bind, balance_of, bal. by rewrite Hu.
Qed.

Lemma closed_row d f i : reservations (on_reservations (alter f i) d) !! i = f <$> reservations d !! i.
Proof. cbn. apply lookup_alter_eq. Qed.

(** What settling takes, in micro-USD. *)
Definition taken (actual : Z) : Z := if (0 <? actual)%Z then Number actual else 0%Z.

(** Settling an open or aged-out reservation always goes through: the hold, if
    it was still there, comes back, and the charge is taken exactly once. *)
Lemma settle_spec d i r actual note now :
  bot_inv d -> reservations d !! i = Some r -> (r_state r = Open \/ r_state r = Expired) ->
  let back := if holds (r_state r) then r_micro_usd r else 0%Z in
  exists s d' r', settle i actual note now d = (Ok (SettledNow s), d') /\ bot_inv d' /\
    effect d d' (r_chat_id r) (back - taken actual) (- back) (- taken actual) (- back) /\
    reservations d' !! i = Some r' /\ r_state r' = Settled /\
    st_actual s = actual /\ st_late s = bool_decide (r_state r = Expired) /\
    st_balance_after s = bal d' (r_chat_id r).
Proof.
  intros [Hb Hl] Hi Hst back.
  pose proof (lk_resv_user _ Hl _ _ Hi) as Hu. pose proof (lk_resv_double _ Hl _ _ Hi) as Hd.
  assert (r_state r <> Settled) as Hns by (destruct Hst as [-> | ->]; done).
  pose proof (turn_key_free _ _ _ Hl Hi Hns) as Hk.
  unfold settle, immediate, mbind, op_bind, query. rewrite Hi.
  destruct Hst as [Ho|Ho]; rewrite Ho.
  - destruct Hu as [u Hu]. rewrite (update_user_run _ _ _ _ Hu). fold (Number (r_micro_usd r)).
    unfold Number at 1. rewrite Hd.
    set (d0 := on_users _ d).
    assert (links d0) as Hl0 by (eapply links_frame; eauto using user_put).
    assert (user_exists d0 (r_chat_id r)) as Hu0 by (apply user_put; by eexists).
    destruct (charge_turn_run r actual note now d0 Hu0 Hk) as (d1 & Hc & Hr1 & Hu1). rewrite Hc.
    unfold exec. set (n := if (_ <? _)%Z then _ else note).
    destruct (charge_close_inv i r actual note now n Settled (Some now) _ _ _ Hc Hl0 Hi Hns eq_refl) as [Hl2 He2].
    rewrite balance_row_run by exact Hu1.
    eexists _, _, _. split; [reflexivity|].
    pose proof (effect_users d (r_chat_id r) u (give_back (r_micro_usd r) u) Hu) as He1.
    pose proof (effect_trans He1 He2) as He. split.
    { split; [|done]. eapply (effect_books He); [money|money|done]. }
    split; [eapply effect_eq; [exact He|..]; unfold back, taken; money|].
    rewrite closed_row, Hr1. cbn [reservations d0 on_users]. rewrite Hi.
    split_and!; reflexivity.
  - unfold settleLate, mbind, op_bind.
    destruct (charge_turn_run r actual note now d Hu Hk) as (d1 & Hc & Hr1 & Hu1). rewrite Hc.
    unfold exec. set (n := Some (_ ++ _)).
    destruct (charge_close_inv i r actual note now n Settled (Some now) _ _ _ Hc Hl Hi Hns eq_refl) as [Hl2 He].
    rewrite balance_row_run by exact Hu1.
    eexists _, _, _. split; [reflexivity|]. split.
    { split; [|done]. eapply (effect_books He); [money|money|done]. }
    split; [eapply effect_eq; [exact He|..]; unfold back, taken; money|].
    rewrite closed_row, Hr1, Hi. split_and!; reflexivity.
Qed.

Lemma settle_closed d i r actual note now :
  reservations d !! i = Some r -> r_state r <> Open -> r_state r <> Expired ->
  settle i actual note now d = (Ok (AlreadyClosed (r_state r)), d).
Proof.
  intros Hi Ho He. unfold settle, immediate, mbind, op_bind, query. rewrite Hi.
  by destruct (r_state r).
Qed.

Lemma keeps_settle i actual note now : keeps bot_inv (settle i actual note now).
Proof.
  intros d Hd. destruct (reservations d !! i) as [r|] eqn:Hi.
  - destruct (decide (r_state r = Open \/ r_state r = Expired)) as [Hs|Hs].
    + destruct (settle_spec d i r actual note now Hd Hi Hs) as (s & d' & r' & -> & ? & _). done.
    + rewrite (settle_closed d i r) by tauto. done.
  - unfold settle, immediate, mbind, op_bind, query. by rewrite Hi.
Qed.

(** Closing without a charge: what the account gets back is what the
    reservation no longer holds. *)
Lemma close_inv d chat back i r s cl n a d1 :
  bot_inv d -> reservations d !! i = Some r -> r_state r <> Settled -> s <> Settled ->
  chat = r_chat_id r ->
  back = ((if holds (r_state r) then r_micro_usd r else 0) - (if holds s then r_micro_usd r else 0))%Z ->
  update_user chat always (give_back back) d = (Ok a, d1) ->
  let d2 := on_reservations (alter (close_reservation s cl n) i) d1 in
  bot_inv d2 /\ effect d d2 chat back (- back) 0 (- back).
Proof.
  intros [Hb Hl] Hi Hs Hs' -> Hback H d2. pose proof (lk_resv_user _ Hl _ _ Hi) as Hu.
  pose proof (update_user_links _ _ _ _ _ _ H Hl) as Hl1.
  pose proof (update_user_rest _ _ _ _ _ _ H) as (_ & Hr & _).
  pose proof (give_back_effect _ _ _ _ _ H Hu) as He1. subst d2.
  rewrite (resv_alter_put _ _ _ r) by (by rewrite Hr).
  pose proof (effect_put_resv d1 i r s cl n ltac:(by rewrite Hr)) as He2.
  pose proof (effect_trans He1 He2) as He. split.
  - split; [eapply (effect_books He); lia || done|].
    assert (d1 = on_ledger (fun k => app k []) d1) as Hd.
    { destruct d1. unfold on_ledger. cbn. by rewrite app_nil_r. }
    rewrite Hd. apply links_put_resv; [done|by rewrite Hr|done|]. by intros x ?%elem_of_nil.
  - eapply effect_eq; [exact He|lia..].
Qed.

Lemma keeps_release i reason now : keeps bot_inv (release i reason now).
Proof.
  apply keeps_immediate. intros d v d' Hd H. op_inv.
  destruct (reservations d !! i) as [r|] eqn:Hi; [|by op_inv].
  destruct (bool_decide (r_state r = Open)) eqn:Ho; op_inv; [|done].
  apply bool_decide_eq_true_1 in Ho.
  refine (proj1 (close_inv _ _ _ _ r Released _ _ _ _ Hd Hi _ _ eq_refl _ Hs)); [congruence|done|money].
Qed.

Lemma keeps_hold i reason : keeps bot_inv (hold i reason).
Proof.
  apply keeps_immediate. intros d v d' Hd H. op_inv.
  destruct (reservations d !! i) as [r|] eqn:Hi; [|by op_inv].
  destruct (bool_decide (r_state r = Open)) eqn:Ho; op_inv; [|done].
  apply bool_decide_eq_true_1 in Ho. rewrite (resv_alter_put _ _ _ r) by done.
  destruct Hd as [Hb Hl]. split.
  - eapply effect_books; [by apply effect_put_resv|money|money|done].
  - assert (d = on_ledger (fun k => app k []) d) as Hd.
    { destruct d. unfold on_ledger. cbn. by rewrite app_nil_r. }
    rewrite Hd. apply links_put_resv; [done|done|congruence|]. by intros x ?%elem_of_nil.
Qed.

Lemma holds_cases s : holds s = true <-> s = Open \/ s = Held.
Proof. unfold holds. by rewrite bool_decide_eq_true. Qed.

Lemma keeps_age_out_one now i : keeps bot_inv (age_out_one now i).
Proof.
  apply keeps_immediate. intros d v d' Hd H. op_inv.
  destruct (reservations d !! i) as [r|] eqn:Hi; [|by op_inv].
  destruct (owned_by_running_job d i); [by op_inv|].
  destruct (holds (r_state r)) eqn:Ho; op_inv; [|done].
  refine (proj1 (close_inv _ _ _ _ r Expired _ _ _ _ Hd Hi _ _ eq_refl _ Hs)); [|done|rewrite Ho; money].
  by intros Hs'; rewrite Hs' in Ho.
Qed.

Lemma keeps_age_out older now : keeps bot_inv (ageOutReservations older now).
Proof.
  apply keeps_bind; [apply keeps_query|]. intros stale.
  apply keeps_bind; [apply keeps_mapM, keeps_age_out_one|]. intros l. apply keeps_ret.
Qed.

Lemma keeps_reserve chat uid req model micro over now :
  (0 <= micro)%Z -> keeps bot_inv (reserve chat uid req model micro over now).
Proof.
  intros Hm d Hd. destruct (reserve chat uid req model micro over now d) as [[v|e] d'] eqn:E; cbn.
  - by destruct (reserve_Ok _ _ _ _ _ _ _ _ _ _ E Hd Hm) as [(i & r & -> & _)|(u & _ & _ & _ & _ & _ & _ & ?)].
  - unfold reserve in E. destruct (_ || _); [by injection E as _ <-|]. by apply immediate_Err in E as ->.
Qed.

Lemma keeps_free_turn chat perHour now : keeps bot_inv (takeFreeTurn chat perHour now).
Proof.
  apply keeps_immediate. intros d v d' Hd H. op_inv.
  assert (forall f x, bot_inv x -> bot_inv (on_free_usage f x)) as Hf by (intros f x Hx; by eapply inv_frame).
  destruct (_ <=? _)%Z; op_inv; auto.
Qed.

(** ** The quota *)

(** A turn is allowed exactly while fewer than [perHour] were taken in its hour. *)
Lemma takeFreeTurn_spec chat perHour now d :
  let used := default 0%Z (free_usage d !! (chat, now / 3600)%Z) in
  exists d', takeFreeTurn chat perHour now d
    = (Ok {| ft_allowed := (used <? perHour)%Z;
             ft_used := if (used <? perHour)%Z then used + 1 else used; ft_limit := perHour |}, d') /\
    default 0%Z (free_usage d' !! (chat, now / 3600)%Z) = (if used <? perHour then used + 1 else used)%Z /\
    forall k, k <> (chat, now / 3600)%Z -> free_usage d' !! k = free_usage d !! k.
Proof.
  intros used. unfold takeFreeTurn, immediate, mbind, op_bind, exec, query. cbn [free_usage on_free_usage].
  assert (default 0%Z ((match free_usage d !! (chat, (now / 3600)%Z) with
      | None => <[(chat, (now / 3600)%Z) := 0%Z]> (free_usage d) | Some _ => free_usage d end)
      !! (chat, (now / 3600)%Z)) = used) as Hu.
  { unfold used. destruct (free_usage d !! _) eqn:E; [by rewrite E|by rewrite lookup_insert_eq]. }
  rewrite Hu. destruct (Z.leb_spec perHour used), (Z.ltb_spec used perHour); try lia.
  - eexists. split; [reflexivity|]. cbn [free_usage on_free_usage]. split; [exact Hu|].
    intros k Hk. destruct (free_usage d !! (chat, _)); [done|]. by rewrite lookup_insert_ne.
  - eexists. split; [reflexivity|]. cbn [free_usage on_free_usage]. split.
    + set (t := match free_usage d !! _ with None => _ | Some _ => _ end) in *.
      rewrite lookup_alter_eq, <- Hu.
      destruct (t !! (chat, (now / 3600)%Z)) as [n|] eqn:E; simpl; [lia|].
      unfold t in E. destruct (free_usage d !! (chat, _)) eqn:E2; [congruence|].
      by rewrite lookup_insert_eq in E.
    + intros k Hk. rewrite lookup_alter_ne by done.
      destruct (free_usage d !! (chat, _)); [done|]. by rewrite lookup_insert_ne.
Qed.
