(* ===== verification/BotDeposits.v ===== *)
(** * Crediting deposits (contrib/pcnaibot/lib/deposits.mjs)

    One deposit row becomes a ledger row and a balance, once: the ledger row
    goes in first and its UNIQUE key is the guard. What is under a micro-dollar
    is carried on the address; the rebate is a bonus whose failure is swallowed;
    [reconcile] compares the ledger with the accounts. *)

From S2P Require Import Prelude JsInt BotMoney BotDb BotInv BotBilling.
Local Open Scope Z_scope.
Local Open Scope string_scope.

Record rate_reading := {
  rt_usable : bool; rt_e12 : Z; rt_text : option string; rt_cache : bool; rt_read_at : option Z }.

Record observation := {
  ob_confirmations : option Z; ob_is_coinbase : option bool; ob_block_hash : option string }.

(** The [REBATE] settings. *)
Record rebate_cfg := { rb_ppm : Z; rb_cap_sat : Z; rb_from : Z }.

Record rebate := { rb_granted : Z; rb_why : string }.

Inductive credit_outcome := CREDITED | ALREADY | DUPLICATE.

Record credit_result := {
  cr_result : credit_outcome; cr_micro_usd : Z; cr_rate_e12 : option Z;
  cr_dust : bool; cr_remainder : Z; cr_rebate : option rebate }.

Definition lift_money {A} (r : result money_err A) : op A := fun d =>
  match r with
  | Ok a => (Ok a, d)
  | Err (TypeError w) | Err (RangeError w) => (Err (Error w), d)
  end.

(** [e.message] *)
Definition message_of (e : exn) : string :=
  match e with
  | Error t | Refused t | CreditRefused t => t
  | UniqueViolation c => "UNIQUE constraint failed: " ++ c
  | NotNull c => "NOT NULL constraint failed: " ++ c
  | InsufficientFunds n a => "insufficient balance: need " ++ show n ++ ", have " ++ show a
  | Busy => "another turn is already in flight for this chat"
  | PoolEmpty => "address pool is empty"
  | BudgetExhausted => "per-tick explorer request budget exhausted"
  | Duplicate => "ledger key already applied"
  end.

(** The first second of [now]'s calendar month, UTC. *)
Definition day_of_month (days : Z) : Z :=
  let z := (days + 719468)%Z in
  let doe := (z mod 146097)%Z in
  let yoe := ((doe - doe / 1460 + doe / 36524 - doe / 146096) / 365)%Z in
  let doy := (doe - (365 * yoe + yoe / 4 - yoe / 100))%Z in
  let mp := ((5 * doy + 2) / 153)%Z in
  (doy - (153 * mp + 2) / 5 + 1)%Z.
Definition month_start (now : Z) : Z :=
  let days := (now / 86400)%Z in ((days - (day_of_month days - 1)) * 86400)%Z.

Definition rebate_key (dep : deposit) : string := "rebate:" ++ d_txid dep ++ ":" ++ d_address dep.

(** The satoshis of this chat's deposits whose rebate row is of this month. *)
Definition rebated_sat (chat monthStart : Z) (d : db) : Z :=
  map_sum (fun dep => if bool_decide (d_chat_id dep = Some chat)
                         && existsb (fun l => bool_decide (l_idem_key l = Some (rebate_key dep))
                                              && (monthStart <=? l_created_at l)%Z) (ledger d)
                      then d_amount_sat dep else 0%Z) (pcn_deposits d).

Definition rebateFor (dep : deposit) (micro now : Z) (cfg : rebate_cfg) : op rebate :=
  let no why : op rebate := mret {| rb_granted := 0; rb_why := why |} in
  let ppm := rb_ppm cfg in
  if (ppm <=? 0)%Z then no "off" else
  if (rb_from cfg <=? 0)%Z || (now <? rb_from cfg)%Z then no "before the start date" else
  if (micro <=? 0)%Z then no "nothing was credited" else
  match d_chat_id dep with
  | None => no "no account to credit"
  | Some chat =>
      let wanted := big_div (micro * ppm) 1000000 in
      if (wanted <=? 0)%Z then no "rounds to zero" else
      used ← query (rebated_sat chat (month_start now));
      let usedSat := big_div (used * ppm) 1000000 in
      let thisSat := big_div (d_amount_sat dep * ppm) 1000000 in
      if (rb_cap_sat cfg <=? usedSat)%Z then no "monthly cap already reached" else
      let grant := if (rb_cap_sat cfg <? usedSat + thisSat)%Z
                   then if (0 <? thisSat)%Z then big_div (wanted * (rb_cap_sat cfg - usedSat)) thisSat else 0%Z
                   else wanted in
      if (rb_cap_sat cfg <? usedSat + thisSat)%Z && (grant <=? 0)%Z
      then no "monthly cap already reached" else
      _ ← insert_ledger (Some chat) (Number grant) adjust (rebate_key dep) None
            (Some "P3: 10% back on PCN spent here") now;
      changed ← update_user chat always (credit_balance (Number grant));
      if negb (changed =? 1)%Z then throw (Error ("rebate: no users row for chat " ++ show chat)) else
      mret {| rb_granted := grant; rb_why := if (grant <? wanted)%Z then "capped" else "full" |}
  end.

Definition deposit_key (dep : deposit) : string := "pcn:" ++ d_txid dep ++ ":" ++ d_address dep.

(** [a ?? b] on a column *)
Definition coalesce {A} (a b : option A) : option A := match a with Some _ => a | None => b end.

(** The UPDATE that marks the row credited. *)
Definition credited_row (dep : deposit) (micro : Z) (rate : rate_reading) (obs : option observation)
    (dust : bool) (now : Z) : deposit := {|
  d_txid := d_txid dep; d_address := d_address dep; d_chat_id := d_chat_id dep;
  d_status := Credited; d_amount_sat := d_amount_sat dep; d_block_height := d_block_height dep;
  d_block_hash := coalesce (coalesce (obs ≫= ob_block_hash) (d_block_hash dep)) (d_block_hash dep);
  d_is_coinbase := coalesce (obs ≫= ob_is_coinbase) (d_is_coinbase dep);
  d_confirmations := coalesce (obs ≫= ob_confirmations) (d_confirmations dep);
  d_credited_micro_usd := Some (Number micro); d_credited_rate_e12 := Some (Number (rt_e12 rate));
  d_rate_text := rt_text rate; d_from_cache := Some (rt_cache rate);
  d_rate_at := Some (default now (rt_read_at rate)); d_known_ticks := d_known_ticks dep;
  d_reorg_flagged_at := d_reorg_flagged_at dep; d_flagged := d_flagged dep;
  d_note := coalesce (d_note dep) (if dust then Some "dust: carried, zero USD credited" else None);
  d_first_seen_at := d_first_seen_at dep; d_credited_at := Some now |}.

Definition set_remainder (r : Z) (a : pcn_address) : pcn_address := {|
  a_index := a_index a; a_address := a_address a; a_chat_id := a_chat_id a;
  a_assigned_at := a_assigned_at a; a_remainder := r; a_last := a_last a |}.

Definition creditDeposit (depositId : Z) (rate : rate_reading) (minDepositSat : Z)
    (observed : option observation) (cfg : rebate_cfg) (now : Z) : op credit_result :=
  if negb (rt_usable rate) then throw (Error "creditDeposit: called without a usable rate") else
  let rateE12 := rt_e12 rate in
  if (rateE12 <=? 0)%Z then throw (Error "creditDeposit: non-positive rate") else
  immediate (
    dep ← query (fun d => pcn_deposits d !! depositId);
    match dep with
    | None => throw (Error ("creditDeposit: no deposit row " ++ show depositId))
    | Some dep =>
        if bool_decide (d_status dep = Credited) then
          mret {| cr_result := ALREADY; cr_micro_usd := default 0%Z (d_credited_micro_usd dep);
                  cr_rate_e12 := d_credited_rate_e12 dep; cr_dust := false; cr_remainder := 0;
                  cr_rebate := None |}
        else
        addr ← query (fun d => find_row (fun a => bool_decide (a_address a = d_address dep)) (pcn_addresses d));
        match addr with
        | None => throw (Error ("creditDeposit: deposit " ++ show depositId ++ " names an address not in the pool"))
        | Some (addrId, addr) =>
            let amountSat := d_amount_sat dep in
            nanoThis ← lift_money (satsToNanoUsd amountSat rateE12);
            let dust := (amountSat <? minDepositSat)%Z in
            '(micro, remainder) ← (if dust then mret (0%Z, a_remainder addr + nanoThis)%Z
                                   else lift_money (splitNano (a_remainder addr + nanoThis)));
            _ ← try_catch (insert_ledger (d_chat_id dep) (Number micro) deposit_pcn (deposit_key dep)
                  (Some (Number rateE12)) (if dust then Some "dust below minimum; carried on the address" else None) now)
                  (fun e => match e with UniqueViolation _ => throw Duplicate | e => throw e end);
            _ ← (match d_chat_id dep with
                 | Some chat =>
                     if (0 <? micro)%Z then
                       changed ← update_user chat always (credit_balance (Number micro));
                       if negb (changed =? 1)%Z
                       then throw (Error ("creditDeposit: no users row for chat of deposit " ++ show depositId))
                       else mret ()
                     else mret ()
                 | None => mret () end);
            _ ← exec (on_pcn_addresses (alter (set_remainder (Number remainder)) addrId));
            _ ← exec (on_pcn_deposits <[depositId := credited_row dep micro rate observed dust now]>);
            rebate ← try_catch (rebateFor dep micro now cfg)
                       (fun e => mret {| rb_granted := 0; rb_why := "failed: " ++ message_of e |});
            mret {| cr_result := CREDITED; cr_micro_usd := micro; cr_rate_e12 := Some rateE12;
                    cr_dust := dust; cr_remainder := remainder; cr_rebate := Some rebate |}
        end
    end).

Definition creditDepositSafe (depositId : Z) (rate : rate_reading) (minDepositSat : Z)
    (observed : option observation) (cfg : rebate_cfg) (now : Z) : op credit_result :=
  try_catch (creditDeposit depositId rate minDepositSat observed cfg now)
    (fun e => match e with
              | Duplicate => mret {| cr_result := DUPLICATE; cr_micro_usd := 0; cr_rate_e12 := None;
                                     cr_dust := false; cr_remainder := 0; cr_rebate := None |}
              | e => throw e
              end).

(** ** Reconciliation *)

Inductive drift :=
  | LedgerVsBalance (chat ledger_sum balance reserved : Z)
  | ReservedVsOpen (chat reserved open_resv : Z).

Record reconciliation := { rc_ok : bool; rc_drifts : list drift; rc_users_checked : nat }.

Definition drifts_of (d : db) (chat : Z) (u : user) : list drift :=
  let ledger_sum := sum_ledger (of_chat chat) d in
  let open_resv := map_sum (holding chat) (reservations d) in
  (if (ledger_sum =? balance_micro_usd u + reserved_micro_usd u)%Z then []
   else [LedgerVsBalance chat ledger_sum (balance_micro_usd u) (reserved_micro_usd u)]) ++
  (if (reserved_micro_usd u =? open_resv)%Z then []
   else [ReservedVsOpen chat (reserved_micro_usd u) open_resv]).

Definition reconcile (d : db) : reconciliation :=
  let bad := concat ((fun x => drifts_of d x.1 x.2) <$> map_to_list (users d)) in
  {| rc_ok := match bad with [] => true | _ => false end; rc_drifts := bad;
     rc_users_checked := length (map_to_list (users d)) |}.

(** The micro-USD credited since 30 days ago, of one chat or of all. *)
Definition creditedUsdLast30Days (chatId : option Z) (now : Z) (d : db) : Z :=
  let since := (now - 30 * 86400)%Z in
  map_sum (fun dep =>
    if bool_decide (d_status dep = Credited)
       && match d_credited_at dep with Some t => (since <=? t)%Z | None => false end
       && match chatId with None => true | Some c => bool_decide (d_chat_id dep = Some c) end
    then default 0%Z (d_credited_micro_usd dep) else 0%Z) (pcn_deposits d).

(** ** The rebate *)

Lemma rebate_key_plain dep : plain_key (rebate_key dep).
Proof. split; reflexivity. Qed.
Lemma deposit_key_plain dep : plain_key (deposit_key dep).
Proof. split; reflexivity. Qed.

(** Tables a money step on one account leaves alone. *)
Definition deposits_same (d d' : db) : Prop :=
  pcn_deposits d' = pcn_deposits d /\ pcn_addresses d' = pcn_addresses d.

(** A credit: its ledger row, then the balance, of an account that exists. *)
Lemma credit_pair chat x k idem rate note now d d1 d2 u n :
  insert_ledger (Some chat) x k idem rate note now d = (Ok u, d1) ->
  update_user chat always (credit_balance x) d1 = (Ok n, d2) ->
  plain_key idem -> user_exists d chat -> links d ->
  links d2 /\ effect d d2 chat x 0 x 0 /\ n = 1%Z /\ deposits_same d d2 /\
  (forall c, user_exists d c -> user_exists d2 c) /\
  key_taken idem d2 = true.
Proof.
  intros H1 H2 Hk Hu Hl.
  pose proof (insert_ledger_links _ _ _ _ _ _ _ _ _ _ H1 Hk Hl) as Hl1.
  apply insert_ledger_effect in H1 as (He1 & Hus & _ & l & Hi & Hd1).
  assert (user_exists d1 chat) as Hu1 by (unfold user_exists; by rewrite Hus).
  pose proof (credit_effect _ _ _ _ _ H2 Hu1) as He2.
  pose proof (update_user_rest _ _ _ _ _ _ H2) as (Hled & _ & _ & _ & _ & Hex).
  pose proof (update_user_links _ _ _ _ _ _ H2 Hl1) as Hl2.
  apply update_user_Ok in H2 as [(v & Hv & _ & Hn & Hd2)|(_ & _ & [?|(v & Hv & [=])])];
    [|destruct Hu1; congruence].
  split; [done|]. split; [eapply effect_eq; [exact (effect_trans He1 He2)|lia..]|].
  split; [done|]. split; [subst; done|]. split.
  - intros c Hc. apply Hex. unfold user_exists. by rewrite Hus.
  - unfold key_taken. rewrite Hled, Hd1. cbn. apply existsb_exists. exists l. split.
    + apply list_elem_of_In, elem_of_app. right. by left.
    + by apply bool_decide_eq_true_2.
Qed.

Lemma rebate_spec dep chat micro now cfg d :
  links d -> d_chat_id dep = Some chat -> user_exists d chat ->
  exists r d' g, try_catch (rebateFor dep micro now cfg)
      (fun e => mret {| rb_granted := 0; rb_why := "failed: " ++ message_of e |}) d = (Ok r, d') /\
    g = Number (rb_granted r) /\ effect d d' chat g 0 g 0 /\ links d' /\ deposits_same d d'.
Proof.
  intros Hl Hc Hu. unfold try_catch, rebateFor. rewrite Hc.
  assert (forall r : rebate, rb_granted r = 0%Z -> exists r' d' g, (Ok r, d) = (Ok (E := exn) r', d') /\
    g = Number (rb_granted r') /\ effect d d' chat g 0 g 0 /\ links d' /\ deposits_same d d') as Hno.
  { intros r Hr. exists r, d, 0%Z. split; [done|]. rewrite Hr. split; [done|].
    split; [apply effect_refl|]. by split. }
  repeat (match goal with |- context [if ?b then mret _ else _] => destruct b end;
    [by apply (Hno {| rb_granted := 0; rb_why := _ |})|]).
  cbn zeta. unfold query at 1, mbind at 1, op_bind at 1.
  repeat (match goal with |- context [if ?b then mret _ else _] => destruct b end;
    [by apply (Hno {| rb_granted := 0; rb_why := _ |})|]).
  unfold mbind, op_bind.
  destruct (insert_ledger _ _ _ _ _ _ _ d) as [[u|e] d1] eqn:E1; cbn [fst].
  - destruct (update_user _ _ _ d1) as [[n|e] d2] eqn:E2.
    + destruct (credit_pair _ _ _ _ _ _ _ _ _ _ _ _ E1 E2 (rebate_key_plain dep) Hu Hl)
        as (Hl2 & He & -> & Hs & _). eexists _, d2, _. split; [reflexivity|]. by split.
    + unfold update_user in E2. destruct (users d1 !! chat); [destruct (always _)|]; discriminate.
  - unfold insert_ledger in E1. destruct (key_taken _ d); [|discriminate]. injection E1 as <- <-.
    by apply (Hno {| rb_granted := 0; rb_why := _ |}).
Qed.

Lemma rebate_nothing dep micro now cfg d :
  (micro <= 0)%Z -> exists r, rebateFor dep micro now cfg d = (Ok r, d) /\ rb_granted r = 0%Z.
Proof.
  intros Hm. unfold rebateFor. destruct (_ <=? _)%Z; [by eexists|].
  destruct (_ || _)%bool; [by eexists|]. destruct (Z.leb_spec micro 0); [by eexists|lia].
Qed.

(** ** Crediting *)

Lemma lift_money_Ok {A} (r : result money_err A) d a d' :
  lift_money r d = (Ok a, d') -> r = Ok a /\ d' = d.
Proof. unfold lift_money. destruct r as [x|[w|w]]; by intros [= <- <-]. Qed.

Lemma try_rethrow {A} (m : op A) h d a d' :
  try_catch m h d = (Ok a, d') -> (forall e x y, h e x <> (Ok a, y)) -> m d = (Ok a, d').
Proof. unfold try_catch. destruct (m d) as [[x|e] y]; [by intros [= -> ->]|]. intros H Hh. by apply Hh in H. Qed.

(** The first half of the credit: ledger row and balance. *)
Lemma credit_money dep micro rate note depositId now d d1 d2 u v :
  try_catch (insert_ledger (d_chat_id dep) (Number micro) deposit_pcn (deposit_key dep) rate note now)
    (fun e => match e with UniqueViolation _ => throw Duplicate | e => throw e end) d = (Ok u, d1) ->
  (match d_chat_id dep with
   | Some chat =>
       if (0 <? micro)%Z then
         changed ← update_user chat always (credit_balance (Number micro));
         if negb (changed =? 1)%Z
         then throw (Error ("creditDeposit: no users row for chat of deposit " ++ show depositId))
         else mret ()
       else mret ()
   | None => mret () end) d1 = (Ok v, d2) ->
  (0 <= micro)%Z -> links d ->
  exists chat, d_chat_id dep = Some chat /\ links d2 /\ deposits_same d d2 /\
    effect d d2 chat (Number micro) 0 (Number micro) 0 /\
    (micro = 0%Z \/ user_exists d2 chat) /\ key_taken (deposit_key dep) d2 = true.
Proof.
  intros H1 H2 Hm Hl. apply try_rethrow in H1; [|by intros [] x y].
  apply insert_ledger_Ok in H1 as H1'. destruct H1' as (chat & Hc & _ & Hd1). rewrite Hc in *.
  exists chat. split; [done|]. destruct (Z.ltb_spec 0 micro) as [Hp|Hp].
  - op_inv. destruct (a =? 1)%Z eqn:Ha; cbn in H2; op_inv.
    assert (user_exists d chat) as Hu.
    { apply update_user_Ok in Hs as [(w & Hw & _)|(-> & _)]; [by exists w|done]. }
    destruct (credit_pair _ _ _ _ _ _ _ _ _ _ _ _ H1 Hs (deposit_key_plain dep) Hu Hl)
      as (? & ? & ? & ? & Hex & ?). split_and!; try done. right. by apply Hex.
  - assert (micro = 0%Z) as -> by lia. op_inv.
    apply insert_ledger_links in H1 as Hl1; [|apply deposit_key_plain|done].
    apply insert_ledger_effect in H1 as (He & _ & _ & l & Hk & Hd1).
    split; [done|]. split; [by split|]. split; [exact He|]. split; [by left|].
    rewrite Hd1. unfold key_taken. cbn. apply existsb_exists. exists l. split; [|by apply bool_decide_eq_true_2].
    apply list_elem_of_In, elem_of_app. right. by left.
Qed.

Definition same_result (r : credit_outcome) (v : credit_result) : Prop := cr_result v = r.

(** What a call that returns has done: nothing to a credited row, or exactly one
    credit of the deposit's value with the address's carry. *)
Lemma credit_Ok i rate mn obs cfg now d v d' :
  creditDeposit i rate mn obs cfg now d = (Ok v, d') -> bot_inv d ->
  exists dep, pcn_deposits d !! i = Some dep /\
  ((d_status dep = Credited /\ d' = d /\ cr_result v = ALREADY /\
    cr_micro_usd v = default 0%Z (d_credited_micro_usd dep)) \/
   (d_status dep <> Credited /\ cr_result v = CREDITED /\ bot_inv d' /\
    exists chat ai addr nano g,
      d_chat_id dep = Some chat /\ pcn_addresses d !! ai = Some addr /\ a_address addr = d_address dep /\
      satsToNanoUsd (d_amount_sat dep) (rt_e12 rate) = Ok nano /\
      effect d d' chat (Number (cr_micro_usd v) + g) 0 (Number (cr_micro_usd v) + g) 0 /\
      (1000 * cr_micro_usd v + cr_remainder v = a_remainder addr + nano)%Z /\
      (cr_dust v = false -> 0 <= cr_remainder v < 1000)%Z /\
      cr_dust v = (d_amount_sat dep <? mn)%Z /\ (cr_dust v = true -> cr_micro_usd v = 0%Z) /\
      (exists r, cr_rebate v = Some r /\ g = Number (rb_granted r)) /\
      pcn_addresses d' !! ai = Some (set_remainder (Number (cr_remainder v)) addr) /\
      pcn_deposits d' = <[i := credited_row dep (cr_micro_usd v) rate obs (cr_dust v) now]> (pcn_deposits d))).
Proof.
  intros H [Hb Hl]. unfold creditDeposit in H. destruct (negb (rt_usable rate)); [by op_inv|].
  destruct (_ <=? 0)%Z; [by op_inv|]. op_inv.
  destruct (pcn_deposits d !! i) as [dep|] eqn:Hi; [|by op_inv]. exists dep. split; [done|].
  destruct (bool_decide (d_status dep = Credited)) eqn:Hst.
  { apply bool_decide_eq_true_1 in Hst. op_inv. by left. }
  apply bool_decide_eq_false_1 in Hst. right. split; [done|]. op_inv.
  destruct (find_row _ (pcn_addresses d)) as [[ai addr]|] eqn:Ha; [|by op_inv].
  apply find_row_Some in Ha as [Ha Haddr]. apply bool_decide_eq_true_1 in Haddr. op_inv.
  apply lift_money_Ok in Hs as [Hn ->]. rename a into nano. destruct a0 as [micro rem]. op_inv.
  assert (d1 = d /\ (0 <= micro)%Z /\ (1000 * micro + rem = a_remainder addr + nano)%Z /\
          ((d_amount_sat dep <? mn)%Z = false -> 0 <= rem < 1000)%Z /\
          ((d_amount_sat dep <? mn)%Z = true -> micro = 0%Z)) as (-> & Hm & Hc & Hrem & Hdust).
  { destruct (d_amount_sat dep <? mn)%Z; [op_inv; simplify_eq; naive_solver lia|].
    apply lift_money_Ok in Hs0 as [Hsp ->]. apply splitNano_spec in Hsp as (? & ? & ?). split_and!; try done; lia. }
  destruct (credit_money _ _ _ _ _ _ _ _ _ _ _ Hs Hs1 Hm Hl) as (chat & Hch & Hl2 & [Hdp Hda] & He & Hu & _).
  set (d5 := on_pcn_deposits _ (on_pcn_addresses _ d2)) in *.
  assert (links d5) as Hl5 by (by eapply links_same).
  assert (effect d d5 chat (Number micro) 0 (Number micro) 0) as He5.
  { eapply effect_eq; [apply (effect_trans He (effect_frame d2 d5 chat eq_refl eq_refl eq_refl))|lia..]. }
  assert (exists g, effect d5 d' chat g 0 g 0 /\ links d' /\ deposits_same d5 d' /\ g = Number (rb_granted a3))
    as (g & Heg & Hl4 & [Hdp4 Hda4] & Hg).
  { destruct Hu as [->|Hu].
    - destruct (rebate_nothing dep 0 now cfg d5 ltac:(lia)) as (r & Hr & Hz).
      unfold try_catch in Hs4. rewrite Hr in Hs4. injection Hs4 as <- <-.
      exists 0%Z. rewrite Hz. split; [apply effect_refl|]. by split.
    - destruct (rebate_spec dep chat micro now cfg d5 Hl5 Hch Hu) as (r & d6 & g & Hr & -> & ? & ? & ?).
      rewrite Hr in Hs4. injection Hs4 as <- <-. eauto. }
  op_inv. cbn [cr_result cr_micro_usd cr_remainder cr_dust cr_rebate]. split; [done|].
  pose proof (effect_trans He5 Heg) as Het. split; [split; [eapply (effect_books Het); [lia|lia|done]|done]|].
  exists chat, ai, addr, nano, g. split_and!; try done.
  - by eexists.
  - rewrite Hda4. cbn. rewrite lookup_alter_eq, Hda, Ha. done.
  - rewrite Hdp4. cbn. by rewrite Hdp.
Qed.

Lemma keeps_creditDeposit i rate mn obs cfg now : keeps bot_inv (creditDeposit i rate mn obs cfg now).
Proof.
  intros d Hd. destruct (creditDeposit i rate mn obs cfg now d) as [[v|e] d'] eqn:E; cbn.
  - by destruct (credit_Ok _ _ _ _ _ _ _ _ _ E Hd) as (dep & _ & [(_ & -> & _)|(_ & _ & ? & _)]).
  - unfold creditDeposit in E. destruct (negb _); [by injection E as _ <-|].
    destruct (_ <=? 0)%Z; [by injection E as _ <-|]. by apply immediate_Err in E as ->.
Qed.

Lemma keeps_credit i rate mn obs cfg now : keeps bot_inv (creditDepositSafe i rate mn obs cfg now).
Proof.
  apply keeps_try; [apply keeps_creditDeposit|]. intros e.
  destruct e; try apply keeps_throw. apply keeps_ret.
Qed.

(** A credited row is answered from what it records, whatever the rate of the
    tick that asks again, and nothing moves. *)
Lemma credit_again i rate mn obs cfg now d dep :
  pcn_deposits d !! i = Some dep -> d_status dep = Credited ->
  rt_usable rate = true -> (0 < rt_e12 rate)%Z ->
  creditDeposit i rate mn obs cfg now d
  = (Ok {| cr_result := ALREADY; cr_micro_usd := default 0%Z (d_credited_micro_usd dep);
           cr_rate_e12 := d_credited_rate_e12 dep; cr_dust := false; cr_remainder := 0;
           cr_rebate := None |}, d).
Proof.
  intros Hi Hs Hu Hr. unfold creditDeposit. rewrite Hu. cbn [negb].
  destruct (Z.leb_spec (rt_e12 rate) 0); [lia|].
  unfold immediate, mbind, op_bind, query. rewrite Hi, bool_decide_eq_true_2 by done. done.
Qed.

(** ** What reconcile says *)

Lemma drifts_of_nil d chat u :
  users d !! chat = Some u ->
  drifts_of d chat u = [] <-> ledger_sum d chat = (bal d chat + res d chat)%Z /\ res d chat = open_sum d chat.
Proof.
  intros Hu. rewrite (bal_some _ _ _ Hu), (res_some _ _ _ Hu). unfold drifts_of, ledger_sum, open_sum.
  destruct (Z.eqb_spec (sum_ledger (of_chat chat) d) (balance_micro_usd u + reserved_micro_usd u));
    destruct (Z.eqb_spec (reserved_micro_usd u) (map_sum (holding chat) (reservations d)));
    cbn; split; try done; by intros [? ?].
Qed.

Lemma concat_nil {A} (l : list (list A)) : concat l = [] <-> Forall (fun x => x = []) l.
Proof.
  induction l as [|x l IH]; cbn; [by split|]. rewrite Forall_cons, <- IH. apply app_nil.
Qed.

Lemma reconcile_iff d :
  rc_ok (reconcile d) = true <->
  forall chat, is_Some (users d !! chat) ->
    ledger_sum d chat = (bal d chat + res d chat)%Z /\ res d chat = open_sum d chat.
Proof.
  assert (rc_ok (reconcile d) = true <-> concat ((fun x => drifts_of d x.1 x.2) <$> map_to_list (users d)) = []) as ->.
  { unfold reconcile. cbn. destruct (concat _); by split. }
  rewrite concat_nil, Forall_fmap, Forall_forall. split.
  - intros H chat [u Hu]. apply (drifts_of_nil _ _ u Hu), (H (chat, u)). by apply elem_of_map_to_list.
  - intros H [chat u] Hin. apply elem_of_map_to_list in Hin as Hu.
    apply (drifts_of_nil _ _ u Hu), H. by eexists.
Qed.
