(* ===== verification/BotRewards.v ===== *)
(** * Welcome gift and invite reward (contrib/pcnaibot/lib/rewards.mjs), and the
    owner's hand credits (lib/admin-api.mjs)

    Money given away: once per account, once per invited person, once per
    request of the admin page; each is a ledger row with its own key. *)

From Stdlib Require Import SpecFloat Ascii.
From S2P Require Import Prelude JsInt JsNum BotMoney BotDb BotInv BotBilling BotDeposits.
Local Open Scope Z_scope.
Local Open Scope string_scope.

(** [BigInt(Math.round(Number(usd) * 100)) * 10000n]; a RangeError when it is no integer. *)
Definition usdToMicro (usd : js_num) : option Z :=
  (fun c => c * 10000)%Z <$> Z_of_num (js_round (num_mul usd (num_of_Z 100))).

Definition MAX_SAFE_INTEGER : Z := 9007199254740991.

(** [/^r(\d{1,20})$/] on the trimmed payload, a positive safe integer. *)
Definition parseInvite (payload : option string) : option Z :=
  match trim (default "" payload) with
  | String "r"%char rest =>
      let '(digits, tail) := span_digits rest in
      let n := String.length digits in
      if bool_decide (tail = "") && (1 <=? n)%nat && (n <=? 20)%nat then
        let id := Number (digits_value digits) in
        if (id <=? MAX_SAFE_INTEGER)%Z && (0 <? id)%Z then Some id else None
      else None
  | _ => None
  end.

Definition inviteLink (botUsername : string) (chatId : Z) : string :=
  "https://t.me/" ++ botUsername ++ "?start=r" ++ show chatId.

Definition is_kind (k : kind) (l : ledger_row) : bool := bool_decide (l_kind l = k).

(** The welcome gifts given since UTC midnight. *)
Definition giftsToday (now : Z) (d : db) : Z :=
  let dayStart := (now - Z.rem now 86400)%Z in
  sum_ledger (fun l => is_kind gift l && (dayStart <=? l_created_at l)%Z) d.

(** ** Opening an account *)

Inductive invite_outcome := Recorded | Self | NoReferrer | Taken.

Record opened := {
  oa_user : user; oa_created : bool; oa_gift : Z; oa_capped : bool; oa_invite : option invite_outcome }.

Definition new_user (model : string) (lang : option string) (now : Z) : user := {|
  balance_micro_usd := 0; reserved_micro_usd := 0; u_model := model; busy_at := None;
  u_created_at := now; u_lang := lang; wpcn_remainder_nano_usd := 0 |}.

Definition new_referral (referrer referred now : Z) : BotDb.referral := {|
  f_referrer := referrer; f_referred := referred; f_status := RefPending; f_reward := None;
  f_trigger_item := None; f_void_reason := None; f_created_at := now; f_rewarded_at := None;
  f_min_topup := None |}.

Definition referred_is (c : Z) (f : BotDb.referral) : bool := (f_referred f =? c)%Z.

(** The gift: a row unless the key was ever used, then the balance. Returns what was given. *)
Definition give_gift (chatId gift_micro now : Z) : op Z :=
  taken ← query (key_taken ("welcome:" ++ show chatId));
  if taken : bool then mret 0%Z
  else
    _ ← insert_ledger (Some chatId) (Number gift_micro) gift ("welcome:" ++ show chatId) None
          (Some "welcome gift") now;
    _ ← update_user chatId always (credit_balance (Number gift_micro));
    mret gift_micro.

Definition record_invite (chatId : Z) (invitedBy : option Z) (now : Z) : op (option invite_outcome) :=
  match invitedBy with
  | None => mret None
  | Some by_ =>
      if (by_ =? chatId)%Z then mret (Some Self) else
      known ← query (fun d => bool_decide (is_Some (users d !! by_)));
      if negb known then mret (Some NoReferrer) else
      before ← query (fun d => exists_row (referred_is chatId) (referrals d));
      if before : bool then mret (Some Taken)
      else
        _ ← exec (fun d => on_referrals <[fresh_id (referrals d) := new_referral by_ chatId now]> d);
        mret (Some Recorded)
  end.

Definition openAccount (chatId : Z) (model : string) (lang : option string)
    (giftMicro giftCapMicro : Z) (invitedBy : option Z) (now : Z) : op opened := immediate (
  existing ← query (fun d => users d !! chatId);
  match existing with
  | Some u => mret {| oa_user := u; oa_created := false; oa_gift := 0; oa_capped := false; oa_invite := None |}
  | None =>
      _ ← exec (on_users <[chatId := new_user model lang now]>);
      today ← query (giftsToday now);
      let capped := (0 <? giftMicro)%Z && (0 <? giftCapMicro)%Z && (giftCapMicro <? today + giftMicro)%Z in
      gave ← (if negb capped && (0 <? giftMicro)%Z then give_gift chatId giftMicro now else mret 0%Z);
      invite ← record_invite chatId invitedBy now;
      u ← query (fun d => users d !! chatId);
      match u with
      | Some u => mret {| oa_user := u; oa_created := true; oa_gift := gave; oa_capped := capped; oa_invite := invite |}
      | None => throw (Error "no user row")
      end
  end).

(** ** What a person paid in *)

Definition starts_stars_refund (l : ledger_row) : bool :=
  match l_idem_key l with Some k => sql_like "stars-refund:%" k | None => false end.

Definition toppedUpMicro (chatId : Z) (d : db) : Z :=
  sum_ledger (fun l => (l_chat_id l =? chatId)%Z
    && (is_kind deposit_pcn l || is_kind deposit_wpcn l || is_kind deposit_stars l || starts_stars_refund l)) d.

(** The charge of the settle behind an item: item, its job, the job's reservation, the turn's row. *)
Definition itemChargedMicro (itemId : option Z) (d : db) : Z :=
  default 0%Z (
    i ← itemId ≫= (fun i => items d !! i);
    j ← i_job_id i ≫= (fun j => media_jobs d !! j);
    r ← j_reservation_id j ≫= (fun r => reservations d !! r);
    l ← list_find (fun l => is_kind ai_turn l && bool_decide (l_idem_key l = Some (turn_key r)) = true) (ledger d);
    Some (- l_delta l.2)%Z).

(** ** The invite reward *)

Inductive reward_outcome :=
  | NotPaid (why : string)
  | Paid (referrerId micro balance : Z).

Definition set_referral (s : ref_status) (reward item : option Z) (reason : option string)
    (at_ minTopup : option Z) (f : BotDb.referral) : BotDb.referral := {|
  f_referrer := f_referrer f; f_referred := f_referred f; f_status := s; f_reward := reward;
  f_trigger_item := item; f_void_reason := reason; f_created_at := f_created_at f;
  f_rewarded_at := at_; f_min_topup := minTopup |}.

Definition void_referral (reason : string) (f : BotDb.referral) : BotDb.referral :=
  set_referral RefVoid (f_reward f) (f_trigger_item f) (Some reason) (f_rewarded_at f) (f_min_topup f) f.

Definition pending_of (c : Z) (f : BotDb.referral) : bool :=
  referred_is c f && bool_decide (f_status f = RefPending).

Definition payInviteReward (referredId : Z) (itemId : option Z) (rewardMicro minTopupMicro : Z)
    (enabled : bool) (now : Z) : op reward_outcome :=
  if negb enabled || (rewardMicro <=? 0)%Z then mret (NotPaid "off") else
  immediate (
    ref ← query (fun d => find_row (pending_of referredId) (referrals d));
    match ref with
    | None => mret (NotPaid "none")
    | Some (refId, f) =>
        if (f_referrer f =? referredId)%Z then
          _ ← exec (on_referrals (alter (void_referral "self") refId));
          mret (NotPaid "self")
        else
        known ← query (fun d => bool_decide (is_Some (users d !! f_referrer f)));
        if negb known then
          _ ← exec (on_referrals (alter (void_referral "inviter gone") refId));
          mret (NotPaid "referrer_gone")
        else
        topped ← query (toppedUpMicro referredId);
        if (topped <? minTopupMicro)%Z then mret (NotPaid "not_topped_up") else
        charged ← query (itemChargedMicro itemId);
        if (charged <=? 0)%Z then mret (NotPaid "unpaid_video") else
        _ ← exec (on_referrals (alter (set_referral Rewarded (Some (Number rewardMicro)) itemId
              (f_void_reason f) (Some now) (Some (Number minTopupMicro))) refId));
        _ ← insert_ledger (Some (f_referrer f)) (Number rewardMicro) referral_row
              ("referral:" ++ show referredId) None
              (Some ("invite reward: " ++ show referredId ++ " made a video")) now;
        _ ← update_user (f_referrer f) always (credit_balance (Number rewardMicro));
        balance ← balance_row (f_referrer f);
        mret (Paid (f_referrer f) rewardMicro balance)
    end).

Record invite_stats := { is_joined : Z; is_rewarded : Z; is_earned : Z }.

Definition inviteStats (chatId : Z) (d : db) : invite_stats :=
  let mine (P : BotDb.referral -> bool) (g : BotDb.referral -> Z) :=
    map_sum (fun f => if (f_referrer f =? chatId)%Z && P f then g f else 0%Z) (referrals d) in
  {| is_joined := mine (fun f => negb (bool_decide (f_status f = RefVoid))) (fun _ => 1%Z);
     is_rewarded := mine (fun f => bool_decide (f_status f = Rewarded)) (fun _ => 1%Z);
     is_earned := mine (fun f => bool_decide (f_status f = Rewarded)) (fun f => default 0%Z (f_reward f)) |}.

(** ** A credit by hand *)

Definition MAX_CREDIT_MICRO : Z := 1000 * 1000000.

(** [/^[A-Za-z0-9_-]{8,64}$/] *)
Definition id_char (c : ascii) : bool :=
  let n := Z.of_nat (nat_of_ascii c) in
  (((65 <=? n) && (n <=? 90)) || ((97 <=? n) && (n <=? 122)) || ((48 <=? n) && (n <=? 57))
   || (n =? 95) || (n =? 45))%Z.
Definition request_id_ok (s : string) : bool :=
  all_chars id_char s && (8 <=? String.length s)%nat && (String.length s <=? 64)%nat.

Record admin_credit := { ac_duplicate : bool; ac_chat_id : Z; ac_micro_usd : Z; ac_balance : Z }.

Definition adminCredit (chatId microUsd : Z) (note requestId : string) (now : Z) : op admin_credit :=
  if (microUsd <=? 0)%Z then throw (CreditRefused "the amount must be positive") else
  if (MAX_CREDIT_MICRO <? microUsd)%Z then throw (CreditRefused "one credit is at most $1,000") else
  if negb (request_id_ok requestId) then throw (CreditRefused "a request id is required") else
  let text := slice_to 200 (trim note) in
  if bool_decide (text = "") then throw (CreditRefused "say what the credit is for") else
  let key := "admin:" ++ requestId in
  immediate (
    known ← query (fun d => bool_decide (is_Some (users d !! chatId)));
    if negb known
    then throw (CreditRefused ("no user " ++ show chatId ++ ": they must have started the bot first")) else
    prior ← query (fun d => list_find (fun l => bool_decide (l_idem_key l = Some key) = true) (ledger d));
    match prior with
    | Some (_, l) =>
        bal ← balance_row (l_chat_id l);
        mret {| ac_duplicate := true; ac_chat_id := l_chat_id l; ac_micro_usd := l_delta l; ac_balance := bal |}
    | None =>
        _ ← insert_ledger (Some chatId) (Number microUsd) adjust key None
              (Some ("owner credit (admin panel): " ++ text)) now;
        _ ← update_user chatId always (credit_balance (Number microUsd));
        bal ← balance_row chatId;
        mret {| ac_duplicate := false; ac_chat_id := chatId; ac_micro_usd := Number microUsd; ac_balance := bal |}
    end).

(** ** The books and the links survive *)

Lemma credit_pair_inv chat x k idem rate note now d d1 d2 u n :
  insert_ledger (Some chat) x k idem rate note now d = (Ok u, d1) ->
  update_user chat always (credit_balance x) d1 = (Ok n, d2) ->
  plain_key idem -> user_exists d chat -> bot_inv d ->
  bot_inv d2 /\ effect d d2 chat x 0 x 0 /\ (forall c, user_exists d c -> user_exists d2 c).
Proof.
  intros H1 H2 Hk Hu Hd. destruct (credit_pair _ _ _ _ _ _ _ _ _ _ _ _ H1 H2 Hk Hu (proj2 Hd))
    as (Hl & He & _ & _ & Hex & _). split; [|done]. eapply inv_effect; [done|exact He|lia|done|done].
Qed.

Lemma new_account_inv d chat u :
  bot_inv d -> users d !! chat = None -> balance_micro_usd u = 0%Z -> reserved_micro_usd u = 0%Z ->
  bot_inv (on_users <[chat := u]> d).
Proof.
  intros Hd Hn Hb Hr. eapply inv_effect; [done|by apply effect_new_user|done|done|].
  eapply links_frame; [apply Hd|..]; eauto using user_put.
Qed.

Lemma give_gift_inv chat g now d v d' :
  give_gift chat g now d = (Ok v, d') -> bot_inv d -> user_exists d chat ->
  bot_inv d' /\ (forall c, user_exists d c -> user_exists d' c).
Proof.
  intros H Hd Hu. unfold give_gift in H. op_inv. destruct (key_taken _ d); op_inv; [done|].
  destruct (credit_pair_inv _ _ _ _ _ _ _ _ _ _ _ _ Hs Hs0 ltac:(split; reflexivity) Hu Hd) as (? & _ & ?). done.
Qed.

Lemma record_invite_inv chat by_ now d v d' :
  record_invite chat by_ now d = (Ok v, d') -> bot_inv d -> bot_inv d'.
Proof.
  intros H Hd. unfold record_invite in H. destruct by_ as [b|]; [|by op_inv].
  destruct (b =? chat)%Z; [by op_inv|]. op_inv.
  destruct (bool_decide (is_Some (users d !! b))) eqn:Hk; cbn [negb] in H; [|by op_inv].
  apply bool_decide_eq_true_1 in Hk. op_inv. destruct (exists_row _ _); op_inv; [done|].
  by apply inv_put_referral.
Qed.

Lemma keeps_openAccount chat model lang g cap by_ now :
  keeps bot_inv (openAccount chat model lang g cap by_ now).
Proof.
  apply keeps_immediate. intros d v d' Hd H. op_inv.
  destruct (users d !! chat) as [u|] eqn:Hu; [by op_inv|]. op_inv.
  assert (bot_inv (on_users <[chat := new_user model lang now]> d)) as Hd1 by (by apply new_account_inv).
  assert (user_exists (on_users <[chat := new_user model lang now]> d) chat) as Hu1.
  { unfold user_exists. cbn. rewrite lookup_insert_eq. by eexists. }
  set (e1 := on_users _ d) in *.
  assert (bot_inv d0) as Hd2.
  { destruct (_ && _)%bool; [|by op_inv]. by destruct (give_gift_inv _ _ _ _ _ _ Hs Hd1 Hu1). }
  pose proof (record_invite_inv _ _ _ _ _ _ Hs0 Hd2) as Hd3.
  destruct (users d1 !! chat); by op_inv.
Qed.

Lemma balance_row_same chat d b d' : balance_row chat d = (Ok b, d') -> d' = d.
Proof. unfold balance_row. intros H. op_inv. by destruct (balance_of _ _); op_inv. Qed.

Lemma keeps_payInviteReward c item r m en now : keeps bot_inv (payInviteReward c item r m en now).
Proof.
  unfold payInviteReward. destruct (_ || _)%bool; [apply keeps_ret|].
  apply keeps_immediate. intros d v d' Hd H. op_inv.
  destruct (find_row _ (referrals d)) as [[i f]|] eqn:Hf; [|by op_inv].
  destruct (f_referrer f =? c)%Z; [op_inv; by apply inv_alter_referral|]. op_inv.
  destruct (bool_decide (is_Some (users d !! f_referrer f))) eqn:Hk; cbn [negb] in H;
    [|op_inv; by apply inv_alter_referral].
  apply bool_decide_eq_true_1 in Hk. op_inv. destruct (_ <? _)%Z; [by op_inv|]. op_inv.
  destruct (_ <=? 0)%Z; [by op_inv|]. op_inv.
  set (e1 := on_referrals _ d) in *.
  assert (bot_inv e1) as Hd1 by (by apply inv_alter_referral).
  destruct (credit_pair_inv _ _ _ _ _ _ _ _ _ _ _ _ Hs0 Hs1 ltac:(split; reflexivity) Hk Hd1) as (Hd2 & _).
  by apply balance_row_same in Hs2 as ->.
Qed.

Lemma keeps_adminCredit c m note id now : keeps bot_inv (adminCredit c m note id now).
Proof.
  unfold adminCredit. do 4 (match goal with |- context [if ?b then throw _ else _] => destruct b end; [apply keeps_throw|]).
  apply keeps_immediate. intros d v d' Hd H. op_inv.
  destruct (bool_decide (is_Some (users d !! c))) eqn:Hk; cbn [negb] in H; [|by op_inv].
  apply bool_decide_eq_true_1 in Hk. op_inv. destruct (list_find _ _) as [[n l]|]; op_inv.
  - by apply balance_row_same in Hs as ->.
  - destruct (credit_pair_inv _ _ _ _ _ _ _ _ _ _ _ _ Hs Hs0 ltac:(split; reflexivity) Hk Hd) as (Hd2 & _).
    by apply balance_row_same in Hs1 as ->.
Qed.
