(* ===== verification/BotStars.v ===== *)
(** * Telegram Stars (contrib/pcnaibot/lib/stars.mjs, lib/updates.mjs)

    An invoice row before the invoice, a check before Telegram takes the Stars,
    one credit per Telegram charge, and a refund that takes the money off first
    and lets Telegram's answer decide. What Telegram answers is an argument; the
    texts shown to users are reduced to the reason they state. *)

From Stdlib Require Import SpecFloat.
From S2P Require Import Prelude JsInt JsNum BotDb BotInv BotBilling BotDeposits BotRewards.
Local Open Scope Z_scope.
Local Open Scope string_scope.

Definition INVOICE_TTL_SEC : Z := 24 * 3600.

(** [BigInt(Math.round(Number(usd) * 100)) * 10000n] *)
Definition usdMicro (usd : js_num) : option Z :=
  (fun c => c * 10000)%Z <$> Z_of_num (js_round (num_mul usd (num_of_Z 100))).

Record stars_settings := { starsEnabled : bool; starsPackages : list (js_num * Z) }.
Record package := { pk_index : nat; pk_usd : js_num; pk_stars : Z; pk_micro : Z }.

(** The packages on sale; [None] when a price is not a whole number of cents after rounding (NaN). *)
Definition packages (s : stars_settings) : option (list package) :=
  if negb (starsEnabled s) then Some [] else
  mapM (fun x : nat * (js_num * Z) =>
          let '(i, (usd, stars)) := x in
          (fun m => {| pk_index := i; pk_usd := usd; pk_stars := stars; pk_micro := m |}) <$> usdMicro usd)
       (imap pair (starsPackages s)).

(** ** Invoices *)

Definition payload_is (s : string) (v : invoice) : bool := bool_decide (v_payload v = s).

Definition set_inv_state (s : inv_state) (paid : option Z) (v : invoice) : invoice := {|
  v_chat_id := v_chat_id v; v_payload := v_payload v; v_stars := v_stars v;
  v_micro_usd := v_micro_usd v; v_state := s; v_created_at := v_created_at v; v_paid_at := paid |}.

(** [sendStarsInvoice] up to the call: the invoice's payload, or [None] when the
    package is gone. [rand] is the hex of four random bytes. *)
Definition sendStarsInvoice (chatId : Z) (s : stars_settings) (index : nat) (rand : string) (now : Z)
    : op (option string) :=
  match packages s with
  | None => throw (Error "cannot be converted to a BigInt")
  | Some ps =>
      match ps !! index with
      | None => mret None
      | Some p =>
          let payload := "stars:" ++ show chatId ++ ":" ++ show now ++ ":" ++ rand in
          taken ← query (fun d => exists_row (payload_is payload) (stars_invoices d));
          if taken : bool then throw (UniqueViolation "stars_invoices.payload") else
          _ ← exec (fun d => on_stars_invoices <[fresh_id (stars_invoices d) := {|
                v_chat_id := chatId; v_payload := payload; v_stars := pk_stars p;
                v_micro_usd := Number (pk_micro p); v_state := InvPending; v_created_at := now;
                v_paid_at := None |}]> d);
          mret (Some payload)
      end
  end.

(** ... and after a [sendInvoice] that failed. *)
Definition invoice_not_sent (payload : string) : op () :=
  exec (on_stars_invoices (fmap (fun v =>
    if payload_is payload v && bool_decide (v_state v = InvPending)
    then set_inv_state InvExpired (v_paid_at v) v else v))).

Definition expireInvoices (now : Z) : op () :=
  exec (on_stars_invoices (fmap (fun v =>
    if bool_decide (v_state v = InvPending) && (v_created_at v <? now - INVOICE_TTL_SEC)%Z
    then set_inv_state InvExpired (v_paid_at v) v else v))).

(** ** Telegram's last question *)

Record pre_checkout := {
  q_from : option Z; q_payload : option string; q_currency : option string; q_total_amount : option Z }.

Inductive pre_answer := PcOk | PcNotHere | PcUsed | PcExpired | PcOtherAccount | PcAmount.

Definition checkPreCheckout (q : pre_checkout) (now : Z) (d : db) : pre_answer :=
  match find_row (payload_is (default "" (q_payload q))) (stars_invoices d) with
  | None => PcNotHere
  | Some (_, inv) =>
      if negb (bool_decide (v_state inv = InvPending)) then PcUsed else
      if (INVOICE_TTL_SEC <? now - v_created_at inv)%Z then PcExpired else
      if negb (bool_decide (q_from q = Some (v_chat_id inv))) then PcOtherAccount else
      if negb (bool_decide (q_currency q = Some "XTR"))
         || negb (bool_decide (q_total_amount q = Some (v_stars inv))) then PcAmount
      else PcOk
  end.

(** ** The credit *)

Inductive stars_credit :=
  | StarsCredited (micro stars : Z) (balance : option Z)
  | StarsDuplicate (balance : option Z)
  | StarsRefused (why : string).

Definition charge_is (s : string) (p : payment) : bool := bool_decide (p_charge_id p = s).

Definition new_payment (chat inv : Z) (charge : string) (v : invoice) (now : Z) : payment := {|
  p_chat_id := chat; p_invoice_id := inv; p_charge_id := charge; p_stars := v_stars v;
  p_micro_usd := v_micro_usd v; p_created_at := now; p_refunded_at := None; p_refund_note := None;
  p_refund_state := None; p_refund_started_at := None; p_refund_clawback := false;
  p_notified_at := None |}.

Definition creditStarsPayment (chatId : Z) (sp : successful_payment) (now : Z) : op stars_credit :=
  let chargeId := sp_charge_id sp in
  if bool_decide (chargeId = "") then mret (StarsRefused "no telegram_payment_charge_id") else
  immediate (
    prior ← query (fun d => find_row (charge_is chargeId) (stars_payments d));
    match prior with
    | Some _ => bal ← query (balance_of chatId); mret (StarsDuplicate bal)
    | None =>
        inv ← query (fun d => find_row (payload_is (sp_payload sp)) (stars_invoices d));
        match inv with
        | None => mret (StarsRefused "no invoice for payload")
        | Some (invId, inv) =>
            if negb (v_chat_id inv =? chatId)%Z then mret (StarsRefused "invoice belongs to another chat") else
            if negb (bool_decide (sp_currency sp = "XTR")) || negb (sp_total_amount sp =? v_stars inv)%Z
            then mret (StarsRefused "paid another amount") else
            known ← query (fun d => bool_decide (is_Some (users d !! chatId)));
            if negb known then mret (StarsRefused "no user row") else
            _ ← exec (on_stars_invoices <[invId := set_inv_state InvPaid (Some now) inv]>);
            _ ← exec (fun d => on_stars_payments
                  <[fresh_id (stars_payments d) := new_payment chatId invId chargeId inv now]> d);
            _ ← insert_ledger (Some chatId) (v_micro_usd inv) deposit_stars ("stars:" ++ chargeId) None
                  (Some (show (v_stars inv) ++ " Telegram Stars")) now;
            _ ← update_user chatId always (credit_balance (v_micro_usd inv));
            bal ← query (balance_of chatId);
            mret (StarsCredited (v_micro_usd inv) (v_stars inv) bal)
        end
    end).

(** ** Refunds *)

(** The minimum an invite reward stands on when this refund would go below it:
    the referral's id and row, the minimum if stamped, what would remain. *)
Definition rewarded_of (c : Z) (f : BotDb.referral) : bool :=
  referred_is c f && bool_decide (f_status f = Rewarded).

Definition inviteDependency (chatId refundMicro : Z) (d : db) : option (BotDb.referral * option Z * Z) :=
  match find_row (rewarded_of chatId) (referrals d) with
  | None => None
  | Some (_, f) =>
      let after := (toppedUpMicro chatId d - refundMicro)%Z in
      match f_min_topup f with
      | Some min => if (min <=? after)%Z then None else Some (f, Some min, after)
      | None => Some (f, None, after)
      end
  end.

(** The attempts so far: refund rows of this charge that are not reversals. *)
Definition refund_attempts (charge : string) (d : db) : Z :=
  Z.of_nat (length (filter (fun l => match l_idem_key l with
    | Some k => sql_like ("stars-refund:" ++ charge ++ ":%") k && negb (sql_like "%:undo" k)
    | None => false end = true) (ledger d))).

Definition set_refund (s : option refund_state) (refunded started : option Z) (note : option string)
    (clawback : bool) (p : payment) : payment := {|
  p_chat_id := p_chat_id p; p_invoice_id := p_invoice_id p; p_charge_id := p_charge_id p;
  p_stars := p_stars p; p_micro_usd := p_micro_usd p; p_created_at := p_created_at p;
  p_refunded_at := refunded; p_refund_note := note; p_refund_state := s;
  p_refund_started_at := started; p_refund_clawback := clawback; p_notified_at := p_notified_at p |}.

Definition truthy (o : option Z) : bool := match o with Some t => negb (t =? 0)%Z | None => false end.

Definition refund_key (charge : string) (n : Z) : string := "stars-refund:" ++ charge ++ ":" ++ show n.

(** Step 1: take the money off, mark the payment pending. The payment as it then
    is, and whether an attempt was already under way. *)
Definition beginRefund (paymentId : Z) (note : string) (clawback : bool) (now : Z) : op (payment * bool) :=
  immediate (
    row ← query (fun d => stars_payments d !! paymentId);
    match row with
    | None => throw (Refused "no such payment")
    | Some p =>
        if bool_decide (p_refund_state p = Some RefundDone) || truthy (p_refunded_at p)
        then throw (Refused "already refunded") else
        if bool_decide (p_refund_state p = Some RefundPending) then mret (p, true) else
        dep ← query (inviteDependency (p_chat_id p) (p_micro_usd p));
        if bool_decide (is_Some dep) && negb clawback
        then throw (Refused "an invite reward was paid because this user topped up") else
        changed ← update_user (p_chat_id p) (fun u => (p_micro_usd p <=? balance_micro_usd u)%Z)
                    (credit_balance (- p_micro_usd p));
        if negb (changed =? 1)%Z then throw (Refused "it has been spent") else
        n ← query (refund_attempts (p_charge_id p));
        _ ← insert_ledger (Some (p_chat_id p)) (- p_micro_usd p) adjust (refund_key (p_charge_id p) (n + 1)) None
              (Some "Stars refund") now;
        _ ← exec (on_stars_payments (alter (set_refund (Some RefundPending) (p_refunded_at p) (Some now)
              (Some (BotMoney.slice_to 200 note)) (bool_decide (is_Some dep) && clawback)) paymentId));
        row ← query (fun d => stars_payments d !! paymentId);
        mret (default p row, false)
    end).

Inductive finish_outcome := AlreadyFinished | Finished (clawback : option (Z * Z)).

Definition finishRefund (paymentId now : Z) : op finish_outcome := immediate (
  row ← query (fun d => stars_payments d !! paymentId);
  match row with
  | Some p =>
      if negb (bool_decide (p_refund_state p = Some RefundPending)) then mret AlreadyFinished else
      _ ← exec (on_stars_payments (alter (fun q => set_refund (Some RefundDone) (Some now)
            (p_refund_started_at q) (p_refund_note q) (p_refund_clawback q) q) paymentId));
      if negb (p_refund_clawback p) then mret (Finished None) else
      ref ← query (fun d => find_row (rewarded_of (p_chat_id p)) (referrals d));
      match ref with
      | Some (refId, f) =>
          let reward := default 0%Z (f_reward f) in
          if (0 <? reward)%Z then
            _ ← insert_ledger (Some (f_referrer f)) (- reward) referral_row
                  ("referral-clawback:" ++ show (p_chat_id p)) None
                  (Some "invite reward taken back") now;
            _ ← update_user (f_referrer f) always (credit_balance (- reward));
            _ ← exec (on_referrals (alter (void_referral "top-up refunded; reward taken back") refId));
            mret (Finished (Some (f_referrer f, reward)))
          else mret (Finished None)
      | None => mret (Finished None)
      end
  | None => mret AlreadyFinished
  end).

(** What was restored, [None] when nothing was pending. *)
Definition undoRefund (paymentId : Z) (why : string) (now : Z) : op (option Z) := immediate (
  row ← query (fun d => stars_payments d !! paymentId);
  match row with
  | Some p =>
      if negb (bool_decide (p_refund_state p = Some RefundPending)) then mret None else
      n ← query (refund_attempts (p_charge_id p));
      _ ← insert_ledger (Some (p_chat_id p)) (p_micro_usd p) adjust
            (refund_key (p_charge_id p) n ++ ":undo") None
            (Some ("Stars refund refused by Telegram: " ++ BotMoney.slice_to 120 why)) now;
      _ ← update_user (p_chat_id p) always (credit_balance (p_micro_usd p));
      _ ← exec (on_stars_payments (alter (fun q => set_refund None (p_refunded_at q) None
            (p_refund_note q) false q) paymentId));
      mret (Some (p_micro_usd p))
  | None => mret None
  end).

(** Telegram's answer to refundStarPayment. *)
Inductive tg_answer := TgOk | TgAlreadyRefunded | TgRefused (why : string) | TgUnknown.

Inductive refund_outcome :=
  | RefundOk (stars micro : Z) (clawback : option (Z * Z))
  | RefundFailed (why : string).

(** [refundStarsPayment] after [beginRefund]: what Telegram's answer does. *)
Definition refund_answer (p : payment) (paymentId : Z) (r : tg_answer) (now : Z) : op refund_outcome :=
  match r with
  | TgOk | TgAlreadyRefunded =>
      done ← finishRefund paymentId now;
      mret (RefundOk (p_stars p) (p_micro_usd p) (match done with Finished c => c | AlreadyFinished => None end))
  | TgRefused why => _ ← undoRefund paymentId why now; throw (Refused "Telegram refused the refund")
  | TgUnknown => throw (Refused "Telegram did not answer")
  end.

Definition refundStarsPayment (paymentId : Z) (note : string) (clawback : bool) (r : tg_answer) (now : Z)
    : op refund_outcome :=
  begun ← beginRefund paymentId note clawback now;
  refund_answer begun.1 paymentId r now.

(** ** One delivery of a payment (updates.mjs) *)

Definition PAYMENT_QUICK_TRIES : Z := 3.

Definition claim_update (updateId now : Z) : op bool := fun d =>
  match tg_updates d !! updateId with
  | Some _ => (Ok false, d)
  | None => (Ok true, on_tg_updates <[updateId := {| t_claimed_at := now; t_state := None;
               t_chat_id := None; t_body := None; t_started_at := None |}]> d)
  end.

(** The credit first, the claim after it: nothing is claimed when the credit throws. *)
Definition creditThenClaim {A} (updateId : Z) (credit : op A) (now : Z) : op (A * bool) :=
  reply ← credit;
  claimed ← claim_update updateId now;
  mret (reply, claimed).

Definition parkPayment (updateId chatId : Z) (sp : successful_payment) (err : exn) (now : Z) : op () :=
  immediate (
    _ ← exec (on_kv_parked <[updateId := {| k_chat_id := chatId; k_payment := sp; k_parked_at := now;
          k_error := BotMoney.slice_to 300 (message_of err) |}]>);
    _ ← claim_update updateId now;
    mret tt).

Inductive delivery (A : Type) :=
  | Handled (reply : A) (claimed : bool)
  | Retry (tries : Z) (error : exn)
  | Parked (tries : Z) (error : exn).
Arguments Handled {A} reply claimed.
Arguments Retry {A} tries error.
Arguments Parked {A} tries error.

(** The loop's memory of failed attempts goes in and comes out. *)
Definition takePaymentUpdate {A} (updateId chatId : Z) (sp : successful_payment) (credit : op A)
    (tries : gmap Z Z) (now : Z) : op (delivery A * gmap Z Z) := fun d =>
  match creditThenClaim updateId credit now d with
  | (Ok (reply, claimed), d') => (Ok (Handled reply claimed, delete updateId tries), d')
  | (Err error, d') =>
      let n := (default 0 (tries !! updateId) + 1)%Z in
      if (n <? PAYMENT_QUICK_TRIES)%Z then (Ok (Retry n error, <[updateId := n]> tries), d')
      else (_ ← parkPayment updateId chatId sp error now;
            mret (Parked n error, delete updateId tries)) d'
  end.

(** The parked payments in the order they were parked. *)
Fixpoint insert_parked (x : Z * parked) (l : list (Z * parked)) : list (Z * parked) :=
  match l with
  | [] => [x]
  | y :: l' => if (k_parked_at x.2 <=? k_parked_at y.2)%Z then x :: l else y :: insert_parked x l'
  end.
Definition parked_rows (d : db) : list (Z * parked) := foldr insert_parked [] (map_to_list (kv_parked d)).

Definition parkedCount (d : db) : nat := length (parked_rows d).
Definition parkedChargeIds (d : db) : list string :=
  filter (fun s => s <> "") ((fun x => sp_charge_id (k_payment x.2)) <$> parked_rows d).

(** Every parked payment once: credited ones leave the table, the rest stay. *)
Definition retryParked {A} (credit : parked -> op A) : op (list (Z * A) * Z) :=
  rows ← query parked_rows;
  out ← mapM (fun x : Z * parked =>
    try_catch (reply ← credit x.2; _ ← exec (on_kv_parked (delete x.1)); mret (Some (x.1, reply)))
              (fun _ => mret None)) rows;
  mret (omap id out, Z.of_nat (length (filter (fun o : option (Z * A) => o = None) out))).

(** ** The books and the links survive *)

Lemma keeps_exec_frame f :
  (forall d, ledger (f d) = ledger d) -> (forall d, users (f d) = users d) ->
  (forall d, reservations (f d) = reservations d) -> (forall d, stars_payments (f d) = stars_payments d) ->
  (forall d, referrals (f d) = referrals d) -> (forall d, wpcn_claims (f d) = wpcn_claims d) ->
  keeps bot_inv (exec f).
Proof. intros H1 H2 H3 H4 H5 H6. apply keeps_exec. intros d Hd. by eapply inv_frame. Qed.

Lemma keeps_sendStarsInvoice c s i r now : keeps bot_inv (sendStarsInvoice c s i r now).
Proof.
  unfold sendStarsInvoice. destruct (packages s) as [ps|]; [|apply keeps_throw].
  destruct (ps !! i); [|apply keeps_ret]. cbv zeta. apply keeps_bind; [apply keeps_query|].
  intros []; [apply keeps_throw|]. apply keeps_bind; [by apply keeps_exec_frame|]. intros u. apply keeps_ret.
Qed.
Lemma keeps_invoice_not_sent p : keeps bot_inv (invoice_not_sent p).
Proof. by apply keeps_exec_frame. Qed.
Lemma keeps_expireInvoices now : keeps bot_inv (expireInvoices now).
Proof. by apply keeps_exec_frame. Qed.

Lemma stars_key_plain c : plain_key ("stars:" ++ c).
Proof. split; reflexivity. Qed.

Lemma keeps_creditStars c sp now : keeps bot_inv (creditStarsPayment c sp now).
Proof.
  unfold creditStarsPayment. destruct (bool_decide _); [apply keeps_ret|].
  apply keeps_immediate. intros d v d' Hd H. op_inv.
  destruct (find_row _ (stars_payments d)); op_inv; [done|].
  destruct (find_row _ (stars_invoices d)) as [[i inv]|]; [|by op_inv].
  destruct (negb _); [by op_inv|]. destruct (_ || _)%bool; [by op_inv|]. op_inv.
  destruct (bool_decide (is_Some (users d !! c))) eqn:Hk; cbn [negb] in H; [|by op_inv].
  apply bool_decide_eq_true_1 in Hk. op_inv.
  set (e1 := on_stars_payments _ _) in *.
  assert (bot_inv e1) as Hd1.
  { apply inv_put_payment; [by eapply inv_frame|exact Hk]. }
  by destruct (credit_pair_inv _ _ _ _ _ _ _ _ _ _ _ _ Hs1 Hs2 (stars_key_plain _) Hk Hd1).
Qed.

(** Taking money off: the balance first, its ledger row after. *)
Lemma debit_pair_inv chat guard x k idem rate note now d d1 d2 u n :
  update_user chat guard (credit_balance x) d = (Ok n, d1) -> n = 1%Z ->
  insert_ledger (Some chat) x k idem rate note now d1 = (Ok u, d2) ->
  plain_key idem -> bot_inv d -> bot_inv d2 /\ effect d d2 chat x 0 x 0.
Proof.
  intros H1 -> H2 Hk Hd. pose proof (update_user_links _ _ _ _ _ _ H1 (proj2 Hd)) as Hl1.
  apply update_user_Ok in H1 as [(v & Hv & _ & _ & ->)|(? & _)]; [|lia].
  pose proof (effect_users d chat v (credit_balance x v) Hv) as He1.
  pose proof (insert_ledger_links _ _ _ _ _ _ _ _ _ _ H2 Hk Hl1) as Hl2.
  apply insert_ledger_effect in H2 as (He2 & _). pose proof (effect_trans He1 He2) as He.
  split; [eapply inv_effect; [done|exact He|BotInv.money|BotInv.money|done]|].
  eapply effect_eq; [exact He|BotInv.money..].
Qed.

Lemma refund_key_plain c n : plain_key (refund_key c n).
Proof. split; reflexivity. Qed.

Lemma keeps_beginRefund i note cb now : keeps bot_inv (beginRefund i note cb now).
Proof.
  apply keeps_immediate. intros d v d' Hd H. op_inv.
  destruct (stars_payments d !! i) as [p|] eqn:Hi; [|by op_inv].
  destruct (_ || _)%bool; [by op_inv|]. destruct (bool_decide _); [by op_inv|]. op_inv.
  destruct (_ && _)%bool; [by op_inv|]. op_inv.
  destruct (a =? 1)%Z eqn:Ha; cbn [negb] in H; op_inv. apply Z.eqb_eq in Ha as ->.
  apply inv_alter_payment; [|done].
  by destruct (debit_pair_inv _ _ _ _ _ _ _ _ _ _ _ _ _ Hs eq_refl Hs1 (refund_key_plain _ _) Hd).
Qed.

Lemma keeps_undoRefund i why now : keeps bot_inv (undoRefund i why now).
Proof.
  apply keeps_immediate. intros d v d' Hd H. op_inv.
  destruct (stars_payments d !! i) as [p|] eqn:Hi; [|by op_inv].
  destruct (negb _); [by op_inv|]. op_inv. apply inv_alter_payment; [|done].
  pose proof (lk_pay_user _ (proj2 Hd) _ _ Hi) as Hu.
  match goal with H1 : insert_ledger _ _ _ _ _ _ _ _ = _, H2 : update_user _ _ _ _ = _ |- _ =>
    by destruct (credit_pair_inv _ _ _ _ _ _ _ _ _ _ _ _ H1 H2 ltac:(split; reflexivity) Hu Hd) end.
Qed.

Lemma keeps_finishRefund i now : keeps bot_inv (finishRefund i now).
Proof.
  apply keeps_immediate. intros d v d' Hd H. op_inv.
  destruct (stars_payments d !! i) as [p|] eqn:Hi; [|by op_inv].
  destruct (negb _); [by op_inv|]. op_inv. set (e1 := on_stars_payments _ d) in *.
  assert (bot_inv e1) as Hd1 by (by apply inv_alter_payment).
  destruct (negb _); [by op_inv|]. op_inv.
  destruct (find_row _ (referrals e1)) as [[j f]|] eqn:Hf; [|by op_inv].
  op_inv. destruct (0 <? default 0 (f_reward f))%Z; [|by op_inv]. op_inv.
  apply inv_alter_referral; [|done].
  apply find_row_Some in Hf as [Hf _]. pose proof (lk_ref_user _ (proj2 Hd1) _ _ Hf) as Hu.
  match goal with H1 : insert_ledger _ _ _ _ _ _ _ _ = _, H2 : update_user _ _ _ _ = _ |- _ =>
    by destruct (credit_pair_inv _ _ _ _ _ _ _ _ _ _ _ _ H1 H2 ltac:(split; reflexivity) Hu Hd1) end.
Qed.

Lemma keeps_refund_answer p i r now : keeps bot_inv (refund_answer p i r now).
Proof.
  destruct r; cbn; [| | |apply keeps_throw].
  1,2: apply keeps_bind; [apply keeps_finishRefund|]; intros o; apply keeps_ret.
  apply keeps_bind; [apply keeps_undoRefund|]. intros o. apply keeps_throw.
Qed.

Lemma keeps_refund i note cb r now : keeps bot_inv (refundStarsPayment i note cb r now).
Proof.
  apply keeps_bind; [apply keeps_beginRefund|]. intros b. apply keeps_refund_answer.
Qed.

Lemma keeps_claim u now : keeps bot_inv (claim_update u now).
Proof. intros d Hd. unfold claim_update. destruct (tg_updates d !! u); [done|by eapply inv_frame]. Qed.

Lemma keeps_park u c sp e now : keeps bot_inv (parkPayment u c sp e now).
Proof.
  apply keeps_immediate. intros d v d' Hd H. op_inv.
  set (e1 := on_kv_parked _ d) in *. assert (bot_inv e1) as H1 by (by eapply inv_frame).
  pose proof (keeps_claim u now e1 H1) as H2.
  match goal with Hc : claim_update _ _ e1 = _ |- _ => by rewrite Hc in H2 end.
Qed.

Lemma keeps_take {A} u c sp (credit : op A) tries now :
  keeps bot_inv credit -> keeps bot_inv (takePaymentUpdate u c sp credit tries now).
Proof.
  intros Hc d Hd. unfold takePaymentUpdate.
  assert (keeps bot_inv (creditThenClaim u credit now)) as Hk.
  { apply keeps_bind; [done|]. intros r. apply keeps_bind; [apply keeps_claim|]. intros b. apply keeps_ret. }
  specialize (Hk d Hd). destruct (creditThenClaim u credit now d) as [[[r cl]|e] d'] eqn:E; [done|].
  cbv zeta. destruct (_ <? _)%Z; [done|].
  apply (keeps_bind bot_inv (parkPayment u c sp e now)); [apply keeps_park| |done].
  intros x. apply keeps_ret.
Qed.

Lemma keeps_retryParked {A} (credit : parked -> op A) :
  (forall k, keeps bot_inv (credit k)) -> keeps bot_inv (retryParked credit).
Proof.
  intros Hc. apply keeps_bind; [apply keeps_query|]. intros rows.
  apply keeps_bind; [|intros out; apply keeps_ret]. apply keeps_mapM. intros x.
  apply keeps_try; [|intros e; apply keeps_ret].
  apply keeps_bind; [apply Hc|]. intros r. apply keeps_bind; [by apply keeps_exec_frame|]. intros u. apply keeps_ret.
Qed.
