(* ===== verification/BotJobs.v ===== *)
(** * Cards, the button that pays, and the builder's jobs (contrib/pcnaibot/lib/jobs.mjs,
    the prices of lib/media.mjs)

    A card states a price; pressing it reserves exactly that and starts one job;
    what the provider charges is settled, capped at the card; a job that did not
    run is released, one that may have run is held. Telegram's and the provider's
    answers are arguments; the messages to users are not modelled. *)

From Stdlib Require Import SpecFloat.
From S2P Require Import Prelude JsInt JsNum BotMoney BotDb BotInv BotBilling BotDeposits BotRewards BotStars.
Local Open Scope Z_scope.
Local Open Scope string_scope.

Definition CARD_TTL_SEC : Z := 24 * 3600.
Definition VIDEO_GIVE_UP_SEC : Z := 3 * 3600.
Definition MAX_DELIVERY_ATTEMPTS : Z := 4.
Definition REDELIVER_AFTER_SEC : Z := 300.

(** ** Prices *)

(** What a model costs in OonaCode's list: a picture's tiers and its price per
    input image, a clip's price per second by resolution. *)
Record image_price := { ip_id : string; ip_tiers : list js_num; ip_input_image : js_num }.
Record video_price := { vp_id : string; vp_tiers : gmap string js_num }.
Inductive offer_entry :=
  | ImageOffer (i : image_price)
  | VideoOffer (t2v : video_price) (i2v : option video_price).

Definition js_zero : js_num := S754_zero false.

(** [priceFor]: US dollars before the margin, and the model called. *)
Definition priceFor (o : offer_entry) (kind : media_kind) (inputs seconds : Z)
    (resolution : option string) (fromImage : bool) : option (js_num * string) :=
  match kind, o with
  | Image, ImageOffer i =>
      let tiers := filter (fun x => is_finite x = true) (ip_tiers i) in
      let perInput := if is_nan (ip_input_image i) then js_zero else ip_input_image i in
      match tiers with
      | [] => None
      | _ => Some (num_add (foldl js_min (S754_infinity false) tiers) (num_mul (num_of_Z inputs) perInput), ip_id i)
      end
  | Video, VideoOffer t2v i2v =>
      api ← (if fromImage then i2v else Some t2v);
      perSecond ← resolution ≫= (fun r => vp_tiers api !! r);
      if is_finite perSecond then Some (num_mul perSecond (num_of_Z seconds), vp_id api) else None
  | _, _ => None
  end.

(** media.mjs [usdToMicro]: 1000 credits to the dollar, with the margin. *)
Definition price_micro (usd : js_num) (marginE6 : Z) : result money_err Z :=
  creditsToMicroUsd (num_mul usd (num_of_Z 1000)) marginE6.

(** A job as the chat proposes it. *)
Record job_spec := {
  s_kind : media_kind; s_model : string; s_prompt : string; s_summary : string; s_shape : string;
  s_seconds : option Z; s_resolution : option string; s_sources : list Z;
  s_start_item : option Z; s_new_version_of : option Z }.

Definition quoteSpec (o : offer_entry) (spec : job_spec) (marginE6 : Z) : option (Z * string) :=
  let kind := s_kind spec in
  '(usd, apiModel) ← priceFor o kind
      (match kind with Image => Z.of_nat (length (s_sources spec)) | Video => 0%Z end)
      (default 0%Z (s_seconds spec)) (s_resolution spec)
      (match kind with Video => bool_decide (is_Some (s_start_item spec)) | Image => false end);
  match price_micro usd marginE6 with Ok p => Some (p, apiModel) | Err _ => None end.

(** ** Cards *)

Definition set_card (s : card_state) (decided : option Z) (p : proposal) : proposal := {|
  c_chat_id := c_chat_id p; c_kind := c_kind p; c_model := c_model p; c_api_model := c_api_model p;
  c_prompt := c_prompt p; c_summary := c_summary p; c_shape := c_shape p; c_seconds := c_seconds p;
  c_resolution := c_resolution p; c_sources := c_sources p; c_new_version_of := c_new_version_of p;
  c_price_micro := c_price_micro p; c_state := s; c_message_id := c_message_id p;
  c_expires_at := c_expires_at p; c_created_at := c_created_at p; c_decided_at := decided |}.

Definition reprice_card (price : Z) (apiModel : string) (p : proposal) : proposal := {|
  c_chat_id := c_chat_id p; c_kind := c_kind p; c_model := c_model p; c_api_model := apiModel;
  c_prompt := c_prompt p; c_summary := c_summary p; c_shape := c_shape p; c_seconds := c_seconds p;
  c_resolution := c_resolution p; c_sources := c_sources p; c_new_version_of := c_new_version_of p;
  c_price_micro := price; c_state := c_state p; c_message_id := c_message_id p;
  c_expires_at := c_expires_at p; c_created_at := c_created_at p; c_decided_at := c_decided_at p |}.

Definition open_of (chat : Z) (p : proposal) : bool :=
  (c_chat_id p =? chat)%Z && bool_decide (c_state p = CardOpen).

Definition card_of_spec (chatId : Z) (spec : job_spec) (price : Z) (apiModel : string) (now ttl : Z) : proposal :=
  let video := bool_decide (s_kind spec = Video) in {|
  c_chat_id := chatId; c_kind := s_kind spec; c_model := s_model spec; c_api_model := apiModel;
  c_prompt := s_prompt spec; c_summary := s_summary spec; c_shape := s_shape spec;
  c_seconds := if video then s_seconds spec else None;
  c_resolution := if video then s_resolution spec else None;
  c_sources := s_sources spec; c_new_version_of := s_new_version_of spec;
  c_price_micro := Number price; c_state := CardOpen; c_message_id := None;
  c_expires_at := now + ttl; c_created_at := now; c_decided_at := None |}.

(** The new card's id, and the open ones it replaced. *)
Definition createProposal (chatId : Z) (spec : job_spec) (priceMicro : Z) (apiModel : string) (now ttlSec : Z)
    : op (Z * list Z) := immediate (
  replaced ← query (fun d => (filter (fun x : Z * proposal => open_of chatId x.2 = true)
                                (map_to_list (proposals d))).*1);
  _ ← exec (on_proposals (fmap (fun p => if open_of chatId p then set_card Replaced (Some now) p else p)));
  i ← query (fun d => fresh_id (proposals d));
  _ ← exec (on_proposals <[i := card_of_spec chatId spec priceMicro apiModel now ttlSec]>);
  mret (i, replaced)).

Definition cancelProposal (chatId proposalId now : Z) : op bool := fun d =>
  match proposals d !! proposalId with
  | Some p => if open_of chatId p
              then (Ok true, on_proposals <[proposalId := set_card Cancelled (Some now) p]> d)
              else (Ok false, d)
  | None => (Ok false, d)
  end.

Definition expireCards (now : Z) : op Z :=
  n ← query (fun d => map_sum (fun p => changes (bool_decide (c_state p = CardOpen) && (c_expires_at p <? now)%Z))
                        (proposals d));
  _ ← exec (on_proposals (fmap (fun p => if bool_decide (c_state p = CardOpen) && (c_expires_at p <? now)%Z
                                         then set_card CardExpired (Some now) p else p)));
  mret n.

(** ** The button *)

Inductive begin_outcome :=
  | Begun (p : proposal) (reservationId jobId : Z)
  | Repriced (priceMicro : Z)
  | Short (needMicro haveMicro : Z)
  | NotBegun (reason : string).

Definition state_name (s : card_state) : string :=
  match s with
  | CardOpen => "open" | Started => "started" | CardDone => "done" | CardFailed => "failed"
  | Cancelled => "cancelled" | Replaced => "replaced" | CardExpired => "expired"
  end.

Definition spec_of_card (p : proposal) : job_spec := {|
  s_kind := c_kind p; s_model := c_model p; s_prompt := c_prompt p; s_summary := c_summary p;
  s_shape := c_shape p; s_seconds := c_seconds p; s_resolution := c_resolution p;
  s_sources := c_sources p;
  s_start_item := match c_kind p with Video => head (c_sources p) | Image => None end;
  s_new_version_of := None |}.

(** [UPDATE proposals SET state = ?, decided_at = ? WHERE id = ?] *)
Definition put_card (i : Z) (s : card_state) (decided : option Z) : op () :=
  exec (on_proposals (alter (set_card s decided) i)).

Definition new_job (p : proposal) (reservationId proposalId now : Z) : media_job := {|
  j_chat_id := c_chat_id p; j_kind := c_kind p; j_model := c_model p; j_api_model := c_api_model p;
  j_shape := c_shape p; j_reservation_id := Some reservationId; j_remote_id := None;
  j_state := Running; j_credits := None; j_result_url := None; j_result_expires_at := None;
  j_status_message_id := None; j_error := None; j_created_at := now; j_finished_at := None;
  j_proposal_id := Some proposalId; j_item_id := None |}.

Definition proposal_key (id : Z) : string := "proposal:" ++ show id.

(** From the state change to the job row: the reservation, or the card put back. *)
Definition start_job (chatId proposalId : Z) (p : proposal) (now : Z) : op begin_outcome :=
  _ ← put_card proposalId Started (Some now);
  resv ← try_catch
    (r ← reserve chatId None (Some (proposal_key proposalId)) (c_model p) (c_price_micro p) false now; mret (inl r))
    (fun e =>
       newer ← query (fun d => bool_decide (Exists (fun x : Z * proposal => open_of chatId x.2 = true /\ (proposalId < x.1)%Z)
                                              (map_to_list (proposals d))));
       _ ← put_card proposalId (if newer : bool then Replaced else CardOpen) None;
       match e with
       | InsufficientFunds _ available => mret (inr (Short (c_price_micro p) available))
       | e => throw e
       end);
  match resv with
  | inr short => mret short
  | inl r =>
      if rv_duplicate r then mret (NotBegun "raced") else
      j ← query (fun d => fresh_id (media_jobs d));
      _ ← exec (on_media_jobs <[j := new_job p (rv_id r) proposalId now]>);
      mret (Begun (set_card Started (c_decided_at p) p) (rv_id r) j)
  end.

Definition beginJob (chatId proposalId : Z) (offer : gmap string offer_entry) (marginE6 now : Z)
    : op begin_outcome :=
  row ← query (fun d => proposals d !! proposalId);
  match row with
  | None => mret (NotBegun "gone")
  | Some p =>
      if negb (c_chat_id p =? chatId)%Z then mret (NotBegun "gone") else
      if negb (bool_decide (c_state p = CardOpen)) then mret (NotBegun (state_name (c_state p))) else
      if (c_expires_at p <? now)%Z then _ ← put_card proposalId CardExpired (Some now); mret (NotBegun "expired") else
      match offer !! c_model p with
      | None => mret (NotBegun "unavailable")
      | Some o =>
          ours ← query (fun d => forallb (fun id => match items d !! id with
                                                    | Some it => (i_chat_id it =? chatId)%Z | None => false end)
                                         (c_sources p));
          if negb ours then mret (NotBegun "sources") else
          match quoteSpec o (spec_of_card p) marginE6 with
          | None => mret (NotBegun "unavailable")
          | Some (price, apiModel) =>
              if negb (price =? c_price_micro p)%Z || negb (bool_decide (apiModel = c_api_model p)) then
                _ ← exec (on_proposals (alter (reprice_card (Number price) apiModel) proposalId));
                mret (Repriced price)
              else
              running ← query (fun d => exists_row (fun j => (j_chat_id j =? chatId)%Z
                           && bool_decide (j_kind j = c_kind p) && bool_decide (j_state j = Running)) (media_jobs d));
              if running : bool then mret (NotBegun (match c_kind p with Video => "busy_video" | Image => "busy_image" end))
              else start_job chatId proposalId p now
          end
      end
  end.

(** ** The end of a job *)

(** A call's failure: UNKNOWN when it may have run. *)
Record failure := { fl_unknown : bool; fl_message : string }.

(** What the job's caller holds: the card (none for a clip older than cards), the
    reservation and the job row. *)
Record begun := { bg_card : option Z; bg_reservation : option Z; bg_job : Z }.

Definition set_job_state (s : job_state) (error : option string) (finished : Z) (j : media_job) : media_job := {|
  j_chat_id := j_chat_id j; j_kind := j_kind j; j_model := j_model j; j_api_model := j_api_model j;
  j_shape := j_shape j; j_reservation_id := j_reservation_id j; j_remote_id := j_remote_id j;
  j_state := s; j_credits := j_credits j; j_result_url := j_result_url j;
  j_result_expires_at := j_result_expires_at j; j_status_message_id := j_status_message_id j;
  j_error := error; j_created_at := j_created_at j; j_finished_at := Some finished;
  j_proposal_id := j_proposal_id j; j_item_id := j_item_id j |}.

Definition keep_decided (s : card_state) (p : proposal) : proposal := set_card s (c_decided_at p) p.

Definition unwind (b : begun) (e : failure) (now : Z) : op () :=
  let reason := Some (slice_to 200 ("media: " ++ fl_message e)) in
  _ ← (match bg_reservation b with
       | Some r => if fl_unknown e then _ ← hold r reason; mret tt else _ ← release r reason now; mret tt
       | None => if fl_unknown e then mret tt else throw (Error "release: no reservation")
       end);
  _ ← exec (on_media_jobs (alter (fun j =>
        if bool_decide (j_state j = Running)
        then set_job_state (if fl_unknown e then JobUnknown else JobFailed) (Some (slice_to 200 (fl_message e))) now j
        else j) (bg_job b)));
  match bg_card b with
  | Some p => exec (on_proposals (alter (keep_decided CardFailed) p))
  | None => mret tt
  end.

(** The [credits] of a result: absent, JSON null, or a number. *)
Inductive js_credits := CrAbsent | CrNull | CrNumber (c : js_num).

(** [Number(credits)], when it is finite and not negative *)
Definition usable_credits (c : js_credits) : option js_num :=
  match c with
  | CrAbsent => None
  | CrNull => Some js_zero
  | CrNumber x => if is_finite x && negb (num_ltb x js_zero) then Some x else None
  end.

Definition settleCapped (reservationId : Z) (credits : js_credits) (marginE6 capMicro : Z)
    (note : option string) (now : Z) : op Z :=
  charge ← (match usable_credits credits with
            | Some c => actual ← lift_money (creditsToMicroUsd c marginE6);
                        mret (if (actual <? capMicro)%Z then actual else capMicro)
            | None => mret capMicro
            end);
  _ ← settle reservationId charge note now;
  mret charge.

Definition done_job (credits : option string) (url : option string) (expires : option Z) (itemId now : Z)
    (j : media_job) : media_job := {|
  j_chat_id := j_chat_id j; j_kind := j_kind j; j_model := j_model j; j_api_model := j_api_model j;
  j_shape := j_shape j; j_reservation_id := j_reservation_id j; j_remote_id := j_remote_id j;
  j_state := JobDone; j_credits := credits; j_result_url := url; j_result_expires_at := expires;
  j_status_message_id := j_status_message_id j; j_error := j_error j; j_created_at := j_created_at j;
  j_finished_at := Some now; j_proposal_id := j_proposal_id j; j_item_id := Some itemId |}.

(** What the maker of an item knows of its card. *)
Record card_facts := { cf_chat : Z; cf_summary : string; cf_prompt : string; cf_sources : list Z }.

Definition finishJob (b : begun) (f : card_facts) (kind : media_kind) (credits url : option string)
    (expires : option Z) (now : Z) : op Z := immediate (
  itemId ← query (fun d => fresh_id (items d));
  _ ← exec (on_items <[itemId := {|
        i_chat_id := cf_chat f; i_kind := Made kind; i_job_id := Some (bg_job b); i_proposal_id := bg_card b;
        i_summary := cf_summary f; i_prompt := cf_prompt f; i_sources := cf_sources f;
        i_start_item_id := match kind with Video => head (cf_sources f) | Image => None end;
        i_tg_file_id := None; i_tg_message_id := None; i_result_url := url; i_result_expires_at := expires;
        i_delivered_at := None; i_delivery_attempts := 0; i_last_attempt_at := Some now;
        i_created_at := now |}]>);
  _ ← exec (on_media_jobs (alter (done_job credits url expires itemId now) (bg_job b)));
  _ ← (match bg_card b with
       | Some p => exec (on_proposals (alter (keep_decided CardDone) p))
       | None => mret tt end);
  mret itemId).

(** ** Polling a clip *)

Inductive video_answer :=
  | VUnreadable (why : string)
  | VFailed (why : string)
  | VCompleted (credits : js_credits) (text : option string) (url : option string) (expires : option Z)
  | VUnfinished (status : string).

Inductive poll_outcome := PollWaiting | PollGivenUp | PollFailed | PollDone (itemId : Z).

Definition facts_of (p : option proposal) (chat : Z) : card_facts :=
  match p with
  | Some p => {| cf_chat := c_chat_id p; cf_summary := c_summary p; cf_prompt := c_prompt p; cf_sources := c_sources p |}
  | None => {| cf_chat := chat; cf_summary := ""; cf_prompt := ""; cf_sources := [] |}
  end.

(** One job of [pollVideos]: [j] is its row as the sweep read it. *)
Definition poll_one (jobId : Z) (j : media_job) (v : video_answer) (giveUpSec marginE6 now : Z) : op poll_outcome :=
  card ← query (fun d => match j_proposal_id j with
                         | Some i => (fun p => (i, p)) <$> proposals d !! i | None => None end);
  let b := {| bg_card := fst <$> card; bg_reservation := j_reservation_id j; bg_job := jobId |} in
  let late := (giveUpSec <? now - j_created_at j)%Z in
  match v with
  | VUnreadable why =>
      if late then _ ← unwind b {| fl_unknown := true; fl_message := "unreadable past its time: " ++ why |} now;
                   mret PollGivenUp
      else mret PollWaiting
  | VFailed why => _ ← unwind b {| fl_unknown := false; fl_message := why |} now; mret PollFailed
  | VUnfinished s =>
      if late then _ ← unwind b {| fl_unknown := true; fl_message := "still " ++ s |} now; mret PollGivenUp
      else mret PollWaiting
  | VCompleted credits text url expires =>
      _ ← (match j_reservation_id j, card with
           | Some r, Some (_, p) =>
               _ ← settleCapped r credits marginE6 (c_price_micro p) (Some ("media " ++ j_model j)) now; mret tt
           | Some r, None =>
               cap ← query (fun d => from_option r_micro_usd 0%Z (reservations d !! r));
               _ ← settleCapped r credits marginE6 cap (Some ("media " ++ j_model j)) now; mret tt
           | None, _ => mret tt
           end);
      itemId ← finishJob b (facts_of (snd <$> card) (j_chat_id j)) Video text url expires now;
      mret (PollDone itemId)
  end.

(** The clips the sweep asks about, in the order of their ids. *)
Definition polled_jobs (d : db) : list (Z * media_job) :=
  filter (fun x => bool_decide (j_kind x.2 = Video /\ j_state x.2 = Running) && bool_decide (is_Some (j_remote_id x.2)) = true)
    (by_id (media_jobs d)).

Definition pollVideos (answer : string -> video_answer) (giveUpSec marginE6 now : Z) : op (list poll_outcome) :=
  jobs ← query polled_jobs;
  mapM (fun x : Z * media_job =>
    poll_one x.1 x.2 (answer (default "" (j_remote_id x.2))) giveUpSec marginE6 now) jobs.

(** ** Delivery *)

Definition set_attempt (n : Z) (last delivered : option Z) (file : option string) (msg : option Z)
    (i : item_row) : item_row := {|
  i_chat_id := i_chat_id i; i_kind := i_kind i; i_job_id := i_job_id i; i_proposal_id := i_proposal_id i;
  i_summary := i_summary i; i_prompt := i_prompt i; i_sources := i_sources i;
  i_start_item_id := i_start_item_id i; i_tg_file_id := file; i_tg_message_id := msg;
  i_result_url := i_result_url i; i_result_expires_at := i_result_expires_at i;
  i_delivered_at := delivered; i_delivery_attempts := n; i_last_attempt_at := last;
  i_created_at := i_created_at i |}.

(** [deliverItem]: [bytes] says the result itself is at hand, [download] that the
    provider still gives it, [sent] is the file and message id of a send that went through. *)
Definition deliverItem (itemId : Z) (bytes download : bool) (sent : option (option string * option Z)) (now : Z)
    : op bool :=
  row ← query (fun d => items d !! itemId);
  match row with
  | None => mret false
  | Some it =>
      if truthy (i_delivered_at it) then mret true else
      _ ← exec (on_items (alter (fun i => set_attempt (i_delivery_attempts i + 1) (Some now) (i_delivered_at i)
                (i_tg_file_id i) (i_tg_message_id i) i) itemId));
      let fetched := bool_decide (is_Some (i_result_url it)) && (now <? default 0 (i_result_expires_at it))%Z && download in
      if negb (bytes || fetched) then mret false else
      match sent with
      | None => mret false
      | Some (file, msg) =>
          clash ← query (fun d => match msg with
            | Some m => exists_row (fun i => (i_chat_id i =? i_chat_id it)%Z && bool_decide (i_tg_message_id i = Some m)) (items d)
            | None => false end);
          _ ← exec (on_items (alter (fun i => set_attempt (i_delivery_attempts i) (i_last_attempt_at i) (Some now)
                file (if clash : bool then i_tg_message_id i else msg) i) itemId));
          mret true
      end
  end.

(** The items [redeliverSweep] sends again. *)
Definition undelivered (now : Z) (d : db) : list Z :=
  (filter (fun x : Z * item_row =>
     negb (bool_decide (is_Some (i_delivered_at x.2))) && negb (bool_decide (i_kind x.2 = Upload))
     && (i_delivery_attempts x.2 <? MAX_DELIVERY_ATTEMPTS)%Z
     && match i_last_attempt_at x.2 with None => true | Some t => (t <? now - REDELIVER_AFTER_SEC)%Z end
     && bool_decide (is_Some (i_result_url x.2))
     && match i_result_expires_at x.2 with Some t => (now <? t)%Z | None => false end = true)
     (map_to_list (items d))).*1.

Definition redeliverSweep (download : Z -> bool) (sent : Z -> option (option string * option Z)) (now : Z)
    : op (nat * nat) :=
  rows ← query (undelivered now);
  oks ← mapM (fun i => deliverItem i false (download i) (sent i) now) rows;
  mret (length rows, length (filter (fun b : bool => b = true) oks)).

(** ** A restart *)

Definition lost_job (x : Z * media_job) : bool :=
  bool_decide (j_state x.2 = Running) && (bool_decide (j_kind x.2 = Image) || negb (bool_decide (is_Some (j_remote_id x.2)))).

Definition recover_one (x : Z * media_job) (now : Z) : op () :=
  _ ← (match j_reservation_id x.2 with
       | Some r => _ ← hold r (Some "bot restarted while this was being made"); mret tt
       | None => mret tt end);
  _ ← exec (on_media_jobs (alter (set_job_state JobUnknown (Some "interrupted by a restart") now) x.1));
  match j_proposal_id x.2 with
  | Some p => exec (on_proposals (alter (keep_decided CardFailed) p))
  | None => mret tt
  end.

(** The chats to tell; a card left started without any job fails. *)
Definition recoverAfterRestart (now : Z) : op (list Z) :=
  lost ← query (fun d => filter (fun x => lost_job x = true) (map_to_list (media_jobs d)));
  _ ← mapM (fun x => recover_one x now) lost;
  _ ← exec (fun d => on_proposals (map_imap (fun i p => Some (
        if bool_decide (c_state p = Started)
           && negb (exists_row (fun j => bool_decide (j_proposal_id j = Some i)) (media_jobs d))
        then keep_decided CardFailed p else p))) d);
  _ ← expireCards now;
  mret ((fun x : Z * media_job => j_chat_id x.2) <$> lost).

(** The reservations a restart must not release. *)
Definition runningReservationIds (d : db) : list Z :=
  omap (fun x : Z * media_job => if bool_decide (j_state x.2 = Running) then j_reservation_id x.2 else None)
    (map_to_list (media_jobs d)).

(** ** "Again" *)

Record studio_settings := {
  videoModel : string; pictureModel : string; videoSeconds : Z; videoResolution : string }.

Definition againSpec (chatId itemId : Z) (s : studio_settings) (d : db) : option job_spec :=
  it ← items d !! itemId;
  if negb (i_chat_id it =? chatId)%Z || bool_decide (i_kind it = Upload) then None else
  p ← (i_proposal_id it ≫= fun i => proposals d !! i);
  let video := bool_decide (c_kind p = Video) in
  Some {| s_kind := c_kind p; s_model := if video then videoModel s else pictureModel s;
          s_prompt := c_prompt p; s_summary := c_summary p; s_shape := c_shape p;
          s_seconds := if video then Some (videoSeconds s) else None;
          s_resolution := if video then Some (videoResolution s) else None;
          s_sources := c_sources p; s_start_item := if video then head (c_sources p) else None;
          s_new_version_of := None |}.

(** ** The books and the links survive *)

Lemma quote_nonneg o spec margin price api :
  (0 <= margin)%Z -> quoteSpec o spec margin = Some (price, api) -> (0 <= price)%Z.
Proof.
  intros Hm H. unfold quoteSpec in H. apply bind_Some in H as ([usd a] & _ & H).
  destruct (price_micro usd margin) as [p|] eqn:Hp; [|discriminate]. injection H as <- <-.
  by eapply creditsToMicroUsd_nonneg.
Qed.

(** Tries a lemma about one of the operations, or a step on a table without money. *)
Ltac keeps_step :=
  match goal with
  | |- keeps _ (_ ≫= _) => apply keeps_bind; [|intros ?]
  | |- keeps _ (mret _) => apply keeps_ret
  | |- keeps _ (throw _) => apply keeps_throw
  | |- keeps _ (query _) => apply keeps_query
  | |- keeps _ (exec _) => by apply keeps_exec_frame
  | |- keeps _ (mapM _ _) => apply keeps_mapM; intros ?
  | |- keeps _ (hold _ _) => apply keeps_hold
  | |- keeps _ (release _ _ _) => apply keeps_release
  | |- keeps _ (settle _ _ _ _) => apply keeps_settle
  | |- keeps _ (let _ := _ in _) => cbv zeta
  | |- keeps _ (if ?b then _ else _) => destruct b
  | |- keeps _ (match ?x with Some _ => _ | None => _ end) => destruct x
  | |- keeps _ (let '(_, _) := ?x in _) => destruct x
  end.
Ltac keeps_all := repeat keeps_step.

Lemma keeps_lift_money {A} (r : result money_err A) : keeps bot_inv (lift_money r).
Proof. intros d Hd. by destruct r as [a|[w|w]]. Qed.

Lemma keeps_createProposal c s p a now ttl : keeps bot_inv (createProposal c s p a now ttl).
Proof.
  apply keeps_immediate. intros d v d' Hd H. op_inv. by eapply inv_frame.
Qed.
Lemma keeps_cancelProposal c i now : keeps bot_inv (cancelProposal c i now).
Proof.
  intros d Hd. unfold cancelProposal. destruct (proposals d !! i); [|done].
  destruct (open_of c p); [by eapply inv_frame|done].
Qed.
Lemma keeps_expireCards now : keeps bot_inv (expireCards now).
Proof. unfold expireCards. keeps_all. Qed.

Lemma keeps_start_job c i p now : (0 <= c_price_micro p)%Z -> keeps bot_inv (start_job c i p now).
Proof.
  intros Hp. unfold start_job, put_card. keeps_step; [keeps_all|]. keeps_step.
  - apply keeps_try; [keeps_step; [by apply keeps_reserve|keeps_all]|].
    intros e. keeps_step; [keeps_all|]. keeps_step; [keeps_all|]. destruct e; keeps_all.
  - destruct a0 as [r|s]; keeps_all.
Qed.

Lemma keeps_beginJob c i offer margin now : (0 <= margin)%Z -> keeps bot_inv (beginJob c i offer margin now).
Proof.
  intros Hm. unfold beginJob, put_card. apply keeps_bind; [keeps_all|].
  intros [p|]; [|keeps_all].
  do 3 (keeps_step; [keeps_all|]). destruct (offer !! c_model p) as [o|]; [|keeps_all].
  keeps_step; [keeps_all|]. keeps_step; [keeps_all|].
  destruct (quoteSpec o (spec_of_card p) margin) as [[price api]|] eqn:Hq; [|keeps_all].
  apply quote_nonneg in Hq; [|done].
  destruct (negb (price =? c_price_micro p)%Z) eqn:Hpe; cbn [orb]; [keeps_all|].
  destruct (negb (bool_decide (api = _))); [keeps_all|].
  keeps_step; [keeps_all|]. keeps_step; [keeps_all|].
  apply keeps_start_job. apply negb_false_iff, Z.eqb_eq in Hpe. lia.
Qed.

Lemma keeps_unwind b e now : keeps bot_inv (unwind b e now).
Proof. unfold unwind. destruct (bg_reservation b), (fl_unknown e), (bg_card b); keeps_all. Qed.

Lemma keeps_settleCapped r cr m cap note now : keeps bot_inv (settleCapped r cr m cap note now).
Proof.
  unfold settleCapped. destruct (usable_credits cr); keeps_all. apply keeps_lift_money.
Qed.

Lemma keeps_finishJob b f k c u e now : keeps bot_inv (finishJob b f k c u e now).
Proof.
  apply keeps_immediate. intros d v d' Hd H. op_inv. destruct (bg_card b); op_inv; by eapply inv_frame.
Qed.

Lemma keeps_poll_one i j v g m now : keeps bot_inv (poll_one i j v g m now).
Proof.
  unfold poll_one. apply keeps_bind; [keeps_all|]. intros card. cbv zeta.
  destruct v; keeps_all; first [apply keeps_unwind|apply keeps_finishJob|apply keeps_settleCapped].
Qed.

Lemma keeps_pollVideos ans g m now : keeps bot_inv (pollVideos ans g m now).
Proof. unfold pollVideos. keeps_all. apply keeps_poll_one. Qed.

Lemma keeps_deliverItem i b dl s now : keeps bot_inv (deliverItem i b dl s now).
Proof. unfold deliverItem. keeps_all. Qed.

Lemma keeps_redeliverSweep dl s now : keeps bot_inv (redeliverSweep dl s now).
Proof. unfold redeliverSweep. keeps_all. apply keeps_deliverItem. Qed.

Lemma keeps_recover now : keeps bot_inv (recoverAfterRestart now).
Proof. unfold recoverAfterRestart, recover_one, expireCards. keeps_all. Qed.
