(* ===== verification/BotWpcn.v ===== *)
(** * wPCN top-ups (contrib/pcnaibot/lib/wpcn.mjs)

    A pasted transaction hash is asked about until the verifier's answer is
    final; a credited answer becomes one claim per Transfer log, one floored
    credit for the payment and a carry on the user. The verifier's replies are
    arguments: decimal strings, log indexes and bonuses as it sends them. *)

From stdpp Require Import pretty.
From Stdlib Require Import Ascii.
From S2P Require Import Prelude JsInt Bytes BotMoney BotDb BotInv BotBilling BotDeposits BotRewards.
Local Open Scope Z_scope.
Local Open Scope string_scope.

Definition hex_char (c : ascii) : bool :=
  let n := Z.of_nat (nat_of_ascii (lower c)) in
  (((48 <=? n) && (n <=? 57)) || ((97 <=? n) && (n <=? 102)))%Z.

(** [/^0x[0-9a-fA-F]{64}$/] on the trimmed text *)
Definition isTxHash (s : string) : bool :=
  match trim s with
  | String "0"%char (String "x"%char rest) => all_chars hex_char rest && (String.length rest =? 64)%nat
  | _ => false
  end.

(** The verifier's states; [OtherState] is any other string. *)
Inductive wstate :=
  | WCredited | WAlreadyClaimed | WPending | WConfirming | WNoPayment | WReverted | WReorged
  | WBadRequest | WUnreadable | WDisabled | OtherState (s : string).
#[export] Instance wstate_eq_dec : EqDecision wstate.
Proof. solve_decision. Defined.

Definition final_state (s : wstate) : bool :=
  match s with WCredited | WAlreadyClaimed | WNoPayment | WReverted | WBadRequest => true | _ => false end.

Definition state_text (s : wstate) : string :=
  match s with
  | WCredited => "credited" | WAlreadyClaimed => "already_claimed" | WPending => "pending"
  | WConfirming => "confirming" | WNoPayment => "no_payment" | WReverted => "reverted"
  | WReorged => "reorged" | WBadRequest => "bad_request" | WUnreadable => "unreadable"
  | WDisabled => "disabled" | OtherState s => s
  end.

(** ** Pasted hashes *)

Definition CHECK_MAX_AGE_SEC : Z := 6 * 3600.

Definition recordCheck (chatId : Z) (txhashRaw : string) (now : Z) : op string :=
  let txhash := lower_string (trim txhashRaw) in
  _ ← exec (on_wpcn_checks (fun t =>
    let fresh := {| x_created_at := now; x_checked_at := None; x_attempts := 0; x_last_state := None; x_done_at := None |} in
    match t !! (chatId, txhash) with
    | None => <[(chatId, txhash) := fresh]> t
    | Some c => if bool_decide (is_Some (x_done_at c))
                then <[(chatId, txhash) := {| x_created_at := now; x_checked_at := x_checked_at c; x_attempts := 0;
                        x_last_state := None; x_done_at := None |}]> t
                else t
    end));
  mret txhash.

Definition noteCheck (chatId : Z) (txhash : string) (s : wstate) (now : Z) : op () :=
  exec (on_wpcn_checks (alter (fun c => {|
    x_created_at := x_created_at c; x_checked_at := Some now; x_attempts := x_attempts c + 1;
    x_last_state := Some (state_text s);
    x_done_at := if final_state s then Some now else x_done_at c |}) (chatId, lower_string txhash))).

Definition expire_check (now : Z) (c : wpcn_check) : wpcn_check :=
  if bool_decide (x_done_at c = None) && (x_created_at c <? now - CHECK_MAX_AGE_SEC)%Z then {|
    x_created_at := x_created_at c; x_checked_at := x_checked_at c; x_attempts := x_attempts c;
    x_last_state := Some "expired"; x_done_at := Some now |} else c.

Definition check_due (now : Z) (c : wpcn_check) : bool :=
  bool_decide (x_done_at c = None)
  && match x_checked_at c with None => (x_created_at c <? now - 30)%Z | Some t => (t <? now - 55)%Z end.

(** Oldest first, at most fifty. *)
Fixpoint insert_check (x : (Z * string) * wpcn_check) (l : list ((Z * string) * wpcn_check)) :=
  match l with
  | [] => [x]
  | y :: l' => if (x_created_at x.2 <=? x_created_at y.2)%Z then x :: l else y :: insert_check x l'
  end.

Definition dueChecks (now : Z) : op (list ((Z * string) * wpcn_check)) :=
  _ ← exec (on_wpcn_checks (fmap (expire_check now)));
  query (fun d => take 50 (foldr insert_check []
    (filter (fun x => check_due now x.2 = true) (map_to_list (wpcn_checks d))))).

(** ** The verifier's rows *)

(** A row of a reply, in both spellings. *)
Record transfer := {
  tr_state : option wstate; tr_yours : bool;
  tr_logIndex : option Z; tr_log_index : option Z;
  tr_usd : option string; tr_usd_credited : option string;
  tr_rate_usd : option string; tr_credited_rate_usd : option string;
  tr_wpcn : option string; tr_wpcn_amount : option string;
  tr_bonus_pct : option Z; tr_bonusPercent : option Z }.

Record creditable := { cw_log : Z; cw_usd_nano : Z; cw_rate_e12 : Z; cw_wpcn_sat : Z; cw_bonus : Z }.

(** One row, [None] when it is skipped. [Number(null)] is 0: a row without a log
    index has index 0. *)
Definition creditable_row (t : transfer) : option creditable :=
  let li := default 0%Z (coalesce (tr_logIndex t) (tr_log_index t)) in
  usd ← coalesce (tr_usd t) (tr_usd_credited t);
  rate ← coalesce (tr_rate_usd t) (tr_credited_rate_usd t);
  let wpcn := default "0" (coalesce (tr_wpcn t) (tr_wpcn_amount t)) in
  match parseScaled usd 9, parseScaled rate 12, parseScaled wpcn 8 with
  | Ok usdNano, Ok rateE12, Ok wpcnSat =>
      Some {| cw_log := li; cw_usd_nano := usdNano; cw_rate_e12 := rateE12; cw_wpcn_sat := wpcnSat;
              cw_bonus := default 0%Z (coalesce (tr_bonus_pct t) (tr_bonusPercent t)) |}
  | _, _, _ => None
  end.

Definition creditableRows (rows : list transfer) (requireState : option wstate) : list creditable :=
  omap (fun t => if match requireState with
                    | Some s => negb (bool_decide (tr_state t = Some s)) | None => false end
                 then None else creditable_row t) rows.

(** ** The credit *)

Record wpcn_result := {
  wr_state : wstate; wr_credited : Z; wr_duplicate : bool; wr_yours : bool; wr_healed : bool }.

(** What a row is worth: the PCN arithmetic on the amount, or the stamped figure. *)
Definition row_nano (r : creditable) : result money_err Z :=
  if (0 <? cw_wpcn_sat r)%Z then satsToNanoUsd (cw_wpcn_sat r) (cw_rate_e12 r) else Ok (cw_usd_nano r).

(** The claims that are new, with what each is worth. *)
Fixpoint take_rows (txhash : string) (chatId : Z) (rows : list creditable) (now : Z)
    : op (list (creditable * Z)) :=
  match rows with
  | [] => mret []
  | r :: rows' =>
      mine ← query (fun d => bool_decide (is_Some (wpcn_claims d !! (txhash, cw_log r))));
      if mine : bool then take_rows txhash chatId rows' now
      else
        _ ← exec (on_wpcn_claims <[(txhash, cw_log r) := {|
              w_chat_id := chatId; w_wpcn_sat := Number (cw_wpcn_sat r);
              w_usd_micro := Number (big_div (cw_usd_nano r) 1000); w_rate_e12 := Number (cw_rate_e12 r);
              w_bonus_pct := cw_bonus r; w_created_at := now |}]>);
        nano ← lift_money (row_nano r);
        rest ← take_rows txhash chatId rows' now;
        mret ((r, nano) :: rest)
  end.

(** The ledger rows: the whole amount on the first log, zero on the others. *)
Fixpoint wpcn_ledger (txhash : string) (chatId micro : Z) (rows : list (creditable * Z)) (now : Z) : op () :=
  match rows with
  | [] => mret tt
  | (r, _) :: rows' =>
      _ ← try_catch (insert_ledger (Some chatId) (Number micro) deposit_wpcn (wpcn_key txhash (cw_log r))
            (Some (Number (cw_rate_e12 r)))
            (Some (show (cw_wpcn_sat r) ++ " wpcn-sat, bonus " ++ show (cw_bonus r) ++ "%")) now)
            (fun e => match e with UniqueViolation _ => mret tt | e => throw e end);
      wpcn_ledger txhash chatId 0 rows' now
  end.

Definition set_wpcn_remainder (r : Z) (u : user) : user := {|
  balance_micro_usd := balance_micro_usd u; reserved_micro_usd := reserved_micro_usd u;
  u_model := u_model u; busy_at := busy_at u; u_created_at := u_created_at u; u_lang := u_lang u;
  wpcn_remainder_nano_usd := r |}.

Definition credit (chatId : Z) (txhash : string) (rows : list creditable) (out : wpcn_result) (now : Z)
    : op wpcn_result := immediate (
  taken ← take_rows txhash chatId rows now;
  match taken with
  | [] => mret {| wr_state := WCredited; wr_credited := 0; wr_duplicate := true; wr_yours := wr_yours out;
                  wr_healed := wr_healed out |}
  | _ =>
      u ← query (fun d => users d !! chatId);
      match u with
      | None => throw (Error "wpcn credit: no user row")
      | Some u =>
          '(micro, remainder) ← lift_money (splitNano (zsum_by snd taken + wpcn_remainder_nano_usd u));
          _ ← wpcn_ledger txhash chatId micro taken now;
          _ ← (if (0 <? micro)%Z then _ ← update_user chatId always (credit_balance (Number micro)); mret tt
               else mret tt);
          _ ← update_user chatId always (set_wpcn_remainder (Number remainder));
          mret {| wr_state := WCredited; wr_credited := micro; wr_duplicate := false; wr_yours := wr_yours out;
                  wr_healed := wr_healed out |}
      end
  end).

(** The reply to [verify]: its state, whether [isCredit] holds of it, its rows;
    and what [claims] answers about this hash ([None]: unreadable). *)
Record verify_reply := { vr_state : wstate; vr_is_credit : bool; vr_transfers : list transfer }.

Definition have_row (txhash : string) (d : db) : bool :=
  bool_decide (Exists (fun x => x.1.1 = txhash) (map_to_list (wpcn_claims d))).

Definition verifyAndCredit (enabled : bool) (chatId : Z) (txhashRaw : string)
    (reply : verify_reply) (own_claims : option (list transfer)) (now : Z) : op wpcn_result :=
  let txhash := lower_string (trim txhashRaw) in
  let base s := {| wr_state := s; wr_credited := 0; wr_duplicate := false; wr_yours := false; wr_healed := false |} in
  if negb (isTxHash txhash) then mret (base WBadRequest) else
  if negb enabled then mret (base WDisabled) else
  match vr_state reply with
  | WCredited =>
      let rows := if vr_is_credit reply then creditableRows (vr_transfers reply) (Some WCredited) else [] in
      match rows with
      | [] => mret (base WUnreadable)
      | _ => credit chatId txhash rows (base WUnreadable) now
      end
  | WAlreadyClaimed =>
      let rows := vr_transfers reply in
      let yours := negb (bool_decide (rows = [])) && forallb tr_yours rows in
      let out := {| wr_state := WAlreadyClaimed; wr_credited := 0; wr_duplicate := true; wr_yours := yours; wr_healed := false |} in
      have ← query (have_row txhash);
      if yours && negb have then
        match creditableRows (default [] own_claims) None with
        | [] => mret {| wr_state := WUnreadable; wr_credited := 0; wr_duplicate := true; wr_yours := yours; wr_healed := false |}
        | recs =>
            r ← credit chatId txhash recs out now;
            mret {| wr_state := wr_state r; wr_credited := wr_credited r; wr_duplicate := wr_duplicate r;
                    wr_yours := wr_yours r; wr_healed := true |}
        end
      else mret out
  | s => mret (base s)
  end.

(** ** The books after a credit *)

Lemma show_no_colon n : all_chars (fun c => negb (Ascii.eqb c ":")) (show n) = true.
Proof.
  assert (forall x, all_chars (fun c => negb (Ascii.eqb c ":")) (pretty (N.of_nat x)) = true) as Hd.
  { intros x. pose proof (all_digits_show (Z.of_nat x) ltac:(lia)) as H.
    rewrite show_nonneg in H by lia. replace (Z.to_N (Z.of_nat x)) with (N.of_nat x) in H by lia.
    eapply all_chars_impl; [|exact H]. intros c Hc. destruct (Ascii.eqb_spec c ":"); [by subst|done]. }
  unfold show. destruct n as [|p|p].
  - reflexivity.
  - change (pretty (Z.pos p)) with (pretty (N.pos p)). rewrite <- (N2Nat.id (N.pos p)). apply Hd.
  - change (pretty (Z.neg p)) with (String "-" (pretty (N.pos p))). cbn.
    rewrite <- (N2Nat.id (N.pos p)). apply Hd.
Qed.

(** The last [:] separates the hash from the log index. *)
Lemma colon_split s s' t t' :
  all_chars (fun c => negb (Ascii.eqb c ":")) t = true ->
  all_chars (fun c => negb (Ascii.eqb c ":")) t' = true ->
  s ++ ":" ++ t = s' ++ ":" ++ t' -> s = s' /\ t = t'.
Proof.
  intros Ht Ht'. revert s'. induction s as [|c s IH]; intros [|c' s'] H.
  - by injection H.
  - exfalso. cbn in H. injection H as <- H. change ("" ++ t) with t in H. rewrite H, !all_chars_app in Ht.
    cbn in Ht. by rewrite andb_false_r in Ht.
  - exfalso. cbn in H. injection H as -> H. change ("" ++ t') with t' in H. rewrite <- H, !all_chars_app in Ht'.
    cbn in Ht'. by rewrite andb_false_r in Ht'.
  - cbn in H. injection H as <- H. by destruct (IH _ H) as [-> ->].
Qed.

Lemma wpcn_key_inj t i t' i' : wpcn_key t i = wpcn_key t' i' -> t = t' /\ i = i'.
Proof.
  unfold wpcn_key. intros H. injection H as H.
  apply colon_split in H as [-> H]; [|apply show_no_colon..]. by apply (inj pretty) in H.
Qed.

(** Only the claims change, and every row returned was claimed by this call. *)
Lemma take_rows_Ok txhash chatId rows now d taken d' :
  take_rows txhash chatId rows now d = (Ok taken, d') ->
  exists cl, d' = on_wpcn_claims (fun _ => cl) d /\
    (forall k, is_Some (wpcn_claims d !! k) -> is_Some (cl !! k)) /\
    (forall x, x ∈ taken -> is_Some (cl !! (txhash, cw_log x.1)) /\
                            wpcn_claims d !! (txhash, cw_log x.1) = None /\ row_nano x.1 = Ok x.2).
Proof.
  revert d taken. induction rows as [|r rows IH]; intros d taken H; cbn [take_rows] in H.
  { op_inv. exists (wpcn_claims d'). split; [by destruct d'|]. split; [done|]. by intros x Hx%elem_of_nil. }
  op_inv. destruct (bool_decide _) eqn:Hm; [by apply IH|]. apply bool_decide_eq_false_1 in Hm.
  op_inv. apply lift_money_Ok in Hs0 as [Hn ->].
  apply IH in Hs1 as (cl & -> & Hmono & Htk). exists cl. cbn in Hmono, Htk. split; [done|]. split.
  - intros k Hk. apply Hmono. destruct (decide (k = (txhash, cw_log r))) as [->|Hne].
    + by rewrite lookup_insert_eq.
    + by rewrite lookup_insert_ne.
  - intros x [->|Hx]%elem_of_cons; cbn.
    + split; [|split; [by apply eq_None_not_Some|done]]. apply Hmono. by rewrite lookup_insert_eq.
    + destruct (Htk x Hx) as (? & Hno & ?). split_and!; [done| |done].
      apply lookup_insert_None in Hno as [? _]. done.
Qed.

Section credit_inv.
Context (chatId : Z) (txhash : string) (now : Z).

(** One ledger row of a claimed log. *)
Lemma wpcn_row_step delta log rate note d u d' :
  try_catch (insert_ledger (Some chatId) delta deposit_wpcn (wpcn_key txhash log) rate note now)
    (fun e => match e with UniqueViolation _ => mret tt | e => throw e end) d = (Ok u, d') ->
  links d -> is_Some (wpcn_claims d !! (txhash, log)) ->
  links d' /\ wpcn_claims d' = wpcn_claims d /\ users d' = users d /\
  effect d d' chatId 0 0 (if key_taken (wpcn_key txhash log) d then 0 else delta)%Z 0.
Proof.
  intros H Hl Hc. unfold try_catch, insert_ledger in H. destruct (key_taken _ d) eqn:Hk.
  - op_inv. split_and!; [done..|apply effect_refl].
  - op_inv. split_and!; [|done..|by eapply effect_ledger].
    destruct Hl as [H1 H2 H3 H4 H5 H6 H7 H8]. split; cbn; try done.
    + intros l [Hin|Hin]%elem_of_app; [by apply H7|]. apply list_elem_of_singleton in Hin as ->.
      intros k [= <-] Hp. done.
    + intros l [Hin|Hin]%elem_of_app; [by apply H8|]. apply list_elem_of_singleton in Hin as ->.
      intros t i Hk'. cbn [l_idem_key] in Hk'. apply (inj Some), wpcn_key_inj in Hk' as [<- <-]. done.
Qed.

Lemma wpcn_ledger_zero rows d u d' :
  wpcn_ledger txhash chatId 0 rows now d = (Ok u, d') ->
  links d -> (forall x, x ∈ rows -> is_Some (wpcn_claims d !! (txhash, cw_log x.1))) ->
  links d' /\ users d' = users d /\ effect d d' chatId 0 0 0 0.
Proof.
  revert d. induction rows as [|[r n] rows IH]; intros d H Hl Hc; cbn [wpcn_ledger] in H.
  { op_inv. split_and!; [done..|apply effect_refl]. }
  op_inv. apply wpcn_row_step in Hs as (Hl1 & Hw & Hu & He); [|done|apply (Hc (r, n)); by left].
  apply IH in H as (? & Hu' & He'); [|done|].
  - split_and!; [done|congruence|]. eapply effect_eq; [exact (effect_trans He He')|..]; try lia.
    destruct (key_taken _ _); [done|]. reflexivity.
  - intros x Hx. rewrite Hw. apply Hc. by right.
Qed.

Lemma wpcn_ledger_Ok micro r n rows d u d' :
  wpcn_ledger txhash chatId micro ((r, n) :: rows) now d = (Ok u, d') ->
  links d -> (forall x, x ∈ (r, n) :: rows -> is_Some (wpcn_claims d !! (txhash, cw_log x.1))) ->
  key_taken (wpcn_key txhash (cw_log r)) d = false ->
  links d' /\ users d' = users d /\ effect d d' chatId 0 0 (Number micro) 0.
Proof.
  intros H Hl Hc Hk. cbn [wpcn_ledger] in H. op_inv.
  apply wpcn_row_step in Hs as (Hl1 & Hw & Hu & He); [|done|apply (Hc (r, n)); by left].
  rewrite Hk in He. apply wpcn_ledger_zero in H as (? & Hu' & He'); [|done|].
  - split_and!; [done|congruence|]. eapply effect_eq; [exact (effect_trans He He')|lia..].
  - intros x Hx. rewrite Hw. apply Hc. by right.
Qed.

(** An unclaimed log has no ledger row. *)
Lemma unclaimed_key d t i : links d -> wpcn_claims d !! (t, i) = None -> key_taken (wpcn_key t i) d = false.
Proof.
  intros Hl Hn. apply not_true_iff_false. intros Hk. apply existsb_exists in Hk as (l & Hin & Hl').
  apply list_elem_of_In in Hin. apply bool_decide_eq_true_1 in Hl'.
  destruct (lk_wpcn_rows _ Hl l Hin t i Hl'). congruence.
Qed.

Definition nano_of (taken : list (creditable * Z)) : Z := zsum_by snd taken.

(** What a credit that returns has done: nothing, or one payment split into a
    credit and the user's carry. *)
Lemma wpcn_credit_Ok rows out d v d' :
  credit chatId txhash rows out now d = (Ok v, d') -> bot_inv d ->
  bot_inv d' /\ wr_state v = WCredited /\
  ((wr_duplicate v = true /\ wr_credited v = 0%Z /\ effect d d' chatId 0 0 0 0) \/
   exists u u' taken,
     wr_duplicate v = false /\ users d !! chatId = Some u /\ users d' !! chatId = Some u' /\
     taken <> [] /\
     (forall x, x ∈ taken -> wpcn_claims d !! (txhash, cw_log x.1) = None /\ row_nano x.1 = Ok x.2) /\
     (0 <= wr_credited v)%Z /\
     effect d d' chatId (Number (wr_credited v)) 0 (Number (wr_credited v)) 0 /\
     exists rem, (0 <= rem < 1000)%Z /\ wpcn_remainder_nano_usd u' = Number rem /\
       (1000 * wr_credited v + rem = nano_of taken + wpcn_remainder_nano_usd u)%Z).
Proof.
  intros H [Hb Hl]. unfold credit in H. op_inv. rename a into taken.
  apply take_rows_Ok in Hs as (cl & -> & Hmono & Htk). set (d1 := on_wpcn_claims _ d) in *.
  assert (links d1) as Hl1 by (eapply links_frame; [done|done|done..|by auto|by auto]).
  assert (books d1) as Hb1 by (by eapply books_frame).
  destruct taken as [|[r n] taken].
  { op_inv. split; [by split|]. split; [done|]. left. split_and!; [done..|]. by apply effect_frame. }
  op_inv. destruct (users d1 !! chatId) as [u|] eqn:Hu; [|by op_inv]. op_inv.
  apply lift_money_Ok in Hs as [Hsp ->]. destruct a as [micro rem]. op_inv.
  apply splitNano_spec in Hsp as (Hm & Hr & Hc).
  apply (wpcn_ledger_Ok micro r n taken) in Hs as (Hl2 & Hu2 & He2); [|done| |].
  2: { intros x Hx. by destruct (Htk x Hx). }
  2: { apply (unclaimed_key d); [done|]. by destruct (Htk (r, n) ltac:(by left)) as (_ & ? & _). }
  assert (exists u3, users d2 !! chatId = Some u3 /\ links d2 /\ effect d d2 chatId (Number micro) 0 (Number micro) 0)
    as (u3 & Hu3 & Hl3 & He3).
  { pose proof (effect_frame d d1 chatId eq_refl eq_refl eq_refl) as He1.
    destruct (Z.ltb_spec 0 micro) as [Hp|Hp].
    - op_inv.
      match goal with H : update_user _ _ (credit_balance _) _ = _ |- _ => rename H into Hs9 end.
      assert (user_exists d0 chatId) as Hex by (exists u; by rewrite Hu2).
      pose proof (update_user_links _ _ _ _ _ _ Hs9 Hl2). pose proof (credit_effect _ _ _ _ _ Hs9 Hex) as He.
      apply update_user_effect in Hs9 as (w & _ & Hw & _); [|done]. eexists. split_and!; [done..|].
      eapply effect_eq; [exact (effect_trans He1 (effect_trans He2 He))|lia..].
    - assert (micro = 0%Z) as -> by lia. op_inv. change (Number 0) with 0%Z in *. exists u. rewrite Hu2. split_and!; [done..|].
      eapply effect_eq; [exact (effect_trans He1 He2)|lia..]. }
  pose proof (update_user_links _ _ _ _ _ _ Hs1 Hl3).
  apply update_user_effect in Hs1 as (w & Hw & Hw' & _ & He4); [|by exists u3].
  assert (effect d d' chatId (Number micro) 0 (Number micro) 0) as He.
  { eapply effect_eq; [exact (effect_trans He3 He4)|cbn; lia..]. }
  split; [by eapply inv_effect; [|exact He|lia|lia|]|]. split; [done|]. right.
  exists u, (set_wpcn_remainder (Number rem) w), ((r, n) :: taken). cbn [wr_duplicate wr_credited].
  split_and!; try done.
  - intros x Hx. by destruct (Htk x Hx) as (_ & ? & ?).
  - lia.
  - exists rem. split_and!; [lia..|done|]. unfold nano_of. lia.
Qed.

Lemma keeps_wpcn_credit rows out : keeps bot_inv (credit chatId txhash rows out now).
Proof.
  intros d Hd. destruct (credit chatId txhash rows out now d) as [[v|e] d'] eqn:E; cbn.
  - by eapply wpcn_credit_Ok.
  - unfold credit in E. by apply immediate_Err in E as ->.
Qed.
End credit_inv.

Lemma keeps_wpcn_exec f : keeps bot_inv (exec (on_wpcn_checks f)).
Proof. apply keeps_exec. intros d Hd. by eapply inv_frame. Qed.

Lemma keeps_recordCheck chat raw now : keeps bot_inv (recordCheck chat raw now).
Proof. apply keeps_bind; [apply keeps_wpcn_exec|]. intros _. apply keeps_ret. Qed.
Lemma keeps_noteCheck chat raw s now : keeps bot_inv (noteCheck chat raw s now).
Proof. apply keeps_wpcn_exec. Qed.
Lemma keeps_dueChecks now : keeps bot_inv (dueChecks now).
Proof. apply keeps_bind; [apply keeps_wpcn_exec|]. intros _. apply keeps_query. Qed.

Lemma keeps_verifyAndCredit enabled chat raw reply own now :
  keeps bot_inv (verifyAndCredit enabled chat raw reply own now).
Proof.
  unfold verifyAndCredit. cbv zeta. destruct (negb _); [apply keeps_ret|].
  destruct (negb enabled); [apply keeps_ret|]. destruct (vr_state reply); try apply keeps_ret.
  - destruct (if vr_is_credit reply then _ else _); [apply keeps_ret|apply keeps_wpcn_credit].
  - apply keeps_bind; [apply keeps_query|]. intros h. destruct (_ && _); [|apply keeps_ret].
    destruct (creditableRows _ _); [apply keeps_ret|].
    apply keeps_bind; [apply keeps_wpcn_credit|]. intros r. apply keeps_ret.
Qed.
