(* ===== verification/BotAddress.v ===== *)
(** * Deposit addresses (contrib/pcnaibot/lib/address.mjs)

    The bot's own bech32 decoder, written apart from the mining pool's: both
    encodings are recognised, the padding of the witness program is checked.
    Strings are ASCII. Shown to agree with the pool: an address the bot hands out
    is one the pool pays, to the same script. *)

From Stdlib Require Import Ascii.
From S2P Require Import Prelude JsInt Bytes Bech32 PoolAddress.
Local Open Scope Z_scope.

Definition BECH32_CONST : Z := 1.
Definition BECH32M_CONST : Z := 0x2bc830a3.

Definition sum_step (chk v : Z) : Z :=
  let top := js_shr chk 25 in
  let chk := js_xor (js_shl (js_and chk 0x1ffffff) 5) v in
  foldl (fun c ig => if js_and (js_shr top ig.1) 1 =? 0 then c else js_xor c ig.2) chk GEN.
Definition checksum (values : list Z) : Z := js_ushr (foldl sum_step 1 values) 0.

Inductive encoding := EncBech32 | EncBech32m.
#[export] Instance encoding_eq_dec : EqDecision encoding.
Proof. solve_decision. Defined.

Record decoded := { bd_hrp : list Z; bd_data : list Z; bd_encoding : encoding }.

(** [/[a-z]/.test] and [/[A-Z]/.test] *)
Definition has_lower (s : list Z) : bool := existsb (fun c => (97 <=? c) && (c <=? 122)) s.
Definition has_upper (s : list Z) : bool := existsb (fun c => (65 <=? c) && (c <=? 90)) s.

Definition charset_index (c : Z) : option Z :=
  let d := index_of c CHARSET in if d =? -1 then None else Some d.

Definition encoding_of (chk : Z) : option encoding :=
  if chk =? BECH32_CONST then Some EncBech32 else
  if chk =? BECH32M_CONST then Some EncBech32m else None.

Definition bech32Decode (addr : string) : option decoded :=
  let a := codes addr in
  let n := Z.of_nat (length a) in
  if (n <? 8) || (90 <? n) then None else
  if has_lower a && has_upper a then None else
  let s := lower_code <$> a in
  let pos := last_index_of SEP s in
  if (pos <? 1) || (Z.of_nat (length s) <? pos + 7) then None else
  let hrp := take (Z.to_nat pos) s in
  if existsb (fun c => (c <? 33) || (126 <? c)) hrp then None else
  data ← mapM charset_index (drop (Z.to_nat (pos + 1)) s);
  enc ← encoding_of (checksum (hrpExpand hrp ++ data));
  Some {| bd_hrp := hrp; bd_data := take (length data - 6) data; bd_encoding := enc |}.

(** ** Regrouping bits *)

(** The inner [while (bits >= to)]: every turn takes [to] bits, so [bits] turns are enough. *)
Fixpoint emit (fuel : nat) (acc bits to : Z) : Z * bytes :=
  match fuel with
  | O => (bits, [])
  | S fuel' =>
      if to <=? bits then
        let '(rest, out) := emit fuel' acc (bits - to) to in
        (rest, js_and (js_shr acc (bits - to)) (js_shl 1 to - 1) :: out)
      else (bits, [])
  end.

Fixpoint convert_loop (data : list Z) (acc bits : Z) (out : bytes) (from to : Z) : option (Z * Z * bytes) :=
  match data with
  | [] => Some (acc, bits, out)
  | value :: data' =>
      if (value <? 0) || negb (js_shr value from =? 0) then None else
      let acc := js_or (js_shl acc from) value in
      let '(bits, more) := emit (Z.to_nat (bits + from)) acc (bits + from) to in
      convert_loop data' acc bits (out ++ more) from to
  end.

Definition convertBits (data : list Z) (from to : Z) (pad : bool) : option bytes :=
  '(acc, bits, out) ← convert_loop data 0 0 [] from to;
  let last := js_and (js_shl acc (to - bits)) (js_shl 1 to - 1) in
  if pad then Some (if 0 <? bits then out ++ [last] else out)
  else if (from <=? bits) || negb (last =? 0) then None else Some out.

(** ** The whole address *)

Inductive bad_address :=
  | BadDecode | WrongPrefix (hrp : list Z) | NoVersion | VersionRange | BadPadding
  | ProgramRange | BadV0Length | V0NotBech32 | V1NotBech32m.
#[export] Instance bad_address_eq_dec : EqDecision bad_address.
Proof. solve_decision. Defined.

Record valid_address := { va_version : Z; va_program : bytes; va_normalized : string }.

Definition isP2wpkh (v : valid_address) : bool :=
  (va_version v =? 0) && (length (va_program v) =? 20)%nat.

Definition validatePcoinAddress (addr hrp : string) : result bad_address valid_address :=
  match bech32Decode addr with
  | None => Err BadDecode
  | Some dec =>
      if negb (bool_decide (bd_hrp dec = codes hrp)) then Err (WrongPrefix (bd_hrp dec)) else
      match bd_data dec with
      | [] => Err NoVersion
      | version :: groups =>
          if 16 <? version then Err VersionRange else
          match convertBits groups 5 8 false with
          | None => Err BadPadding
          | Some program =>
              let n := length program in
              if (n <? 2)%nat || (40 <? n)%nat then Err ProgramRange else
              if version =? 0 then
                if negb (n =? 20)%nat && negb (n =? 32)%nat then Err BadV0Length else
                if bool_decide (bd_encoding dec = EncBech32)
                then Ok {| va_version := version; va_program := program; va_normalized := lower_string addr |}
                else Err V0NotBech32
              else if bool_decide (bd_encoding dec = EncBech32m)
                then Ok {| va_version := version; va_program := program; va_normalized := lower_string addr |}
                else Err V1NotBech32m
          end
      end
  end.

Definition normalizeAddress (addr hrp : string) : result bad_address string :=
  v ← validatePcoinAddress addr hrp; Ok (va_normalized v).

(** ** The same register as the pool's *)

Lemma sum_step_spec c v :
  0 <= c < 2 ^ 30 -> 0 <= v < 32 -> sum_step c v = polymod_step c v.
Proof.
  intros Hc Hv. pose proof (top_range c Hc) as Ht.
  pose proof (Z.mod_pos_bound c (2 ^ 25) ltac:(lia)) as Hm.
  unfold sum_step, polymod_step.
  rewrite (js_ushr_small c 25), (js_shr_small c 25) by lia.
  rewrite (js_and_ones c 25 ltac:(lia) : js_and c 0x1ffffff = c mod 2 ^ 25).
  rewrite js_shl_small by lia. rewrite <- Z.shiftl_mul_pow2 by lia.
  assert (0 <= Z.shiftl (c mod 2 ^ 25) 5 < 2 ^ 30) as Hs by (rewrite Z.shiftl_mul_pow2 by lia; lia).
  pose proof (lxor_range _ v 30 ltac:(lia) Hs ltac:(lia)) as Hx.
  rewrite js_xor_small by lia. rewrite to_uint32_small by lia.
  pose proof GEN_range as HG. revert Hx. generalize (Z.lxor (Z.shiftl (c mod 2 ^ 25) 5) v).
  revert HG. generalize GEN. intros l HG. induction HG as [|[i g] l [Hi Hg] _ IH]; intros x Hx; [done|].
  cbn [foldl fst snd] in *. rewrite js_ushr_small, js_shr_small by lia.
  destruct (js_and _ 1 =? 0); [by apply IH|].
  pose proof (lxor_range x g 30 ltac:(lia) ltac:(lia) ltac:(lia)).
  rewrite js_xor_small, to_uint32_small by lia. by apply IH.
Qed.

Lemma checksum_spec l : Forall (fun v => 0 <= v < 32) l -> checksum l = polymod l.
Proof.
  intros Hl. unfold checksum, polymod.
  assert (forall c, 0 <= c < 2 ^ 30 -> foldl sum_step c l = foldl polymod_step c l /\
                    0 <= foldl polymod_step c l < 2 ^ 30) as H.
  { induction Hl as [|v l Hv _ IH]; intros c Hc; [done|]. cbn [foldl]. rewrite sum_step_spec by done.
    apply IH. by apply polymod_step_spec. }
  destruct (H 1 ltac:(lia)) as [-> Hr]. rewrite js_ushr_small by lia. apply Z.div_1_r.
Qed.

(** ** The same regrouping, padding apart *)

Lemma emit_drain acc bits : 5 <= bits < 13 -> emit (Z.to_nat bits) acc bits 8 = drain 2 acc bits.
Proof.
  intros Hb. destruct (Z.to_nat bits) as [|n] eqn:Hn; [lia|]. cbn [emit drain].
  destruct (Z.leb_spec 8 bits) as [H8|H8]; [|done].
  assert (forall m, emit m acc (bits - 8) 8 = (bits - 8, [])) as ->.
  { intros m. destruct m; [done|]. cbn. destruct (Z.leb_spec 8 (bits - 8)); [lia|done]. }
  destruct (Z.leb_spec 8 (bits - 8)); [lia|]. done.
Qed.

Lemma convert_loop_regroup data acc bits out :
  Forall (fun v => 0 <= v < 32) data -> 0 <= bits < 8 ->
  convert_loop data acc bits out 5 8 = Some (foldl regroup_step (acc, bits, out) data) /\
  0 <= (foldl regroup_step (acc, bits, out) data).1.2 < 8.
Proof.
  intros Hd. revert acc bits out. induction Hd as [|v data Hv _ IH]; intros acc bits out Hb; [done|].
  cbn [convert_loop foldl]. destruct (Z.ltb_spec v 0); [lia|]. rewrite js_shr_small by lia.
  change (2 ^ 5) with 32. rewrite Z.div_small by lia. cbn [Z.eqb negb orb].
  rewrite emit_drain by lia. cbn [regroup_step].
  destruct (drain 2 _ (bits + 5)) as [b more] eqn:E. apply IH.
  cbn [drain] in E. destruct (Z.leb_spec 8 (bits + 5)); [|injection E as <- <-; lia].
  destruct (Z.leb_spec 8 (bits + 5 - 8)); [lia|]. injection E as <- <-. lia.
Qed.

Lemma convertBits_regroup data prog :
  Forall (fun v => 0 <= v < 32) data -> convertBits data 5 8 false = Some prog -> prog = regroup data.
Proof.
  intros Hd H. unfold convertBits in H.
  destruct (convert_loop_regroup data 0 0 [] Hd ltac:(lia)) as [Hc _]. rewrite Hc in H. cbn [mbind option_bind] in H.
  unfold regroup. destruct (foldl _ _ _) as [[acc bits] out]. cbn in H.
  destruct (_ || _); [discriminate|]. by injection H as <-.
Qed.

(** ** What an accepted address is *)

Lemma Forall_take_hrp l :
  (forall c, c ∈ l -> 33 <= c <= 126) -> Forall (fun v => 0 <= v < 32) (hrpExpand l).
Proof.
  intros H. unfold hrpExpand. rewrite !Forall_app, !Forall_fmap.
  split; [|split; [by repeat constructor|]]; apply Forall_forall; intros c Hc%H; cbn.
  - rewrite js_shr_small by lia. change (2 ^ 5) with 32.
    split; [apply Z.div_pos | apply Z.div_lt_upper_bound]; lia.
  - rewrite (js_and_ones c 5 ltac:(lia) : js_and c 31 = c mod 2 ^ 5). apply Z.mod_pos_bound. lia.
Qed.

Lemma charset_index_value c d : charset_index c = Some d -> charset_value c = Ok d.
Proof.
  unfold charset_index, charset_value. destruct (Z.eqb_spec (index_of c CHARSET) (-1)) as [|Hne]; [done|].
  intros [= <-]. destruct (Z.ltb_spec (index_of c CHARSET) 0) as [Hlt|]; [|done].
  destruct (index_of_from_spec 0 c CHARSET ltac:(lia)) as [Hm|[Hr _]]; unfold index_of in *; lia.
Qed.

Lemma mapM_charset l data : mapM charset_index l = Some data -> mapM charset_value l = Ok data.
Proof.
  rewrite mapM_Some, mapM_Ok. intros H. eapply Forall2_impl; [exact H|]. apply charset_index_value.
Qed.

Lemma lower_codes_idem (s : list Z) : lower_code <$> (lower_code <$> s) = lower_code <$> s.
Proof. rewrite <- list_fmap_compose. apply list_fmap_ext. intros i c _. apply lower_code_idem. Qed.

Lemma lower_id s : (lower_code <$> codes (lower_string s)) = codes (lower_string s).
Proof. by rewrite codes_lower, lower_codes_idem. Qed.

Lemma bech32Decode_Some addr dec :
  bech32Decode addr = Some dec ->
  let s := codes (lower_string addr) in
  let pos := last_index_of SEP s in
  exists data, (pos <? 1) || (Z.of_nat (length s) <? pos + 7) = false /\
    bd_hrp dec = take (Z.to_nat pos) s /\
    mapM charset_value (drop (Z.to_nat (pos + 1)) s) = Ok data /\
    bd_data dec = take (length data - 6) data /\
    encoding_of (polymod (hrpExpand (bd_hrp dec) ++ data)) = Some (bd_encoding dec).
Proof.
  intros H s pos. unfold bech32Decode in H. rewrite <- codes_lower in H. fold s in H. fold pos in H.
  destruct (_ || _) in H; [discriminate|]. destruct (has_lower _ && _); [discriminate|].
  destruct ((pos <? 1) || _) eqn:Hp; [discriminate|]. destruct (existsb _ _) eqn:Hx; [discriminate|].
  apply bind_Some in H as (data & Hd & H). apply bind_Some in H as (e & He & [= <-]). cbn.
  apply mapM_charset in Hd. exists data. split_and!; try done.
  rewrite <- He. f_equal. symmetry. apply checksum_spec. rewrite Forall_app. split; [|by eapply mapM_charset_range].
  apply Forall_take_hrp. intros c Hc. apply not_true_iff_false in Hx.
  destruct (Z.ltb_spec c 33), (Z.ltb_spec 126 c); try lia;
    (destruct Hx; apply existsb_exists; exists c; split; [by apply list_elem_of_In|]); bool_to_prop; lia.
Qed.

(** Any witness program of an accepted address is read as the pool reads it. *)
Lemma validate_Ok addr hrp v :
  validatePcoinAddress addr hrp = Ok v ->
  va_normalized v = lower_string addr /\
  exists dec groups, bech32Decode addr = Some dec /\ bd_hrp dec = codes hrp /\
    bd_data dec = va_version v :: groups /\ convertBits groups 5 8 false = Some (va_program v) /\
    bd_encoding dec = (if va_version v =? 0 then EncBech32 else EncBech32m).
Proof.
  unfold validatePcoinAddress. destruct (bech32Decode addr) as [dec|] eqn:Hd; [|discriminate].
  destruct (negb _) eqn:Hh; [discriminate|]. apply negb_false_iff, bool_decide_eq_true_1 in Hh.
  destruct (bd_data dec) as [|ver groups] eqn:Hg; [discriminate|].
  destruct (16 <? ver); [discriminate|]. destruct (convertBits groups 5 8 false) as [prog|] eqn:Hc; [|discriminate].
  destruct (_ || _); [discriminate|]. destruct (ver =? 0) eqn:Hv.
  - destruct (_ && _); [discriminate|]. destruct (bool_decide _) eqn:He; [|discriminate].
    apply bool_decide_eq_true_1 in He. intros [= <-]. cbn. rewrite Hv. eauto 10.
  - destruct (bool_decide _) eqn:He; [|discriminate].
    apply bool_decide_eq_true_1 in He. intros [= <-]. cbn. rewrite Hv. eauto 10.
Qed.

(** The stored form decodes as the pasted one. *)
Lemma has_upper_lower (s : list Z) : has_upper (lower_code <$> s) = false.
Proof.
  apply not_true_iff_false. intros H. apply existsb_exists in H as (c & Hin & Hc).
  apply list_elem_of_In, list_elem_of_fmap in Hin as (x & -> & _).
  unfold lower_code in Hc. destruct ((65 <=? x) && (x <=? 90)) eqn:E; bool_to_prop; lia.
Qed.

Lemma bech32Decode_lower addr dec :
  bech32Decode addr = Some dec -> bech32Decode (lower_string addr) = Some dec.
Proof.
  unfold bech32Decode. rewrite lower_id, !codes_lower, has_upper_lower, andb_false_r, length_fmap.
  destruct (_ || _); [discriminate|]. by destruct (has_lower _ && _).
Qed.

Lemma lower_string_idem s : lower_string (lower_string s) = lower_string s.
Proof.
  induction s as [|c s IH]; [done|]. cbn. f_equal; [|done]. f_equal.
  rewrite Ascii.nat_ascii_embedding.
  - rewrite Z2Nat.id, lower_code_idem; [done|].
    pose proof (lower_code_range (Z.of_nat (nat_of_ascii c))). pose proof (nat_ascii_bounded c). lia.
  - pose proof (lower_code_range (Z.of_nat (nat_of_ascii c))). pose proof (nat_ascii_bounded c). lia.
Qed.

Lemma validate_lower addr hrp v :
  validatePcoinAddress addr hrp = Ok v -> validatePcoinAddress (lower_string addr) hrp = Ok v.
Proof.
  intros H. pose proof H as H'. apply validate_Ok in H as (_ & dec & _ & Hd & _).
  unfold validatePcoinAddress in *. rewrite (bech32Decode_lower _ _ Hd). rewrite Hd in H'.
  by rewrite lower_string_idem.
Qed.

(** ** Property *)

(** an address the bot may hand out is one the mining pool pays: it passes the
    pool's login checks in its stored, lower-case form, the script is OP_0 and
    exactly the program the bot decoded, and the stored form is accepted again
    unchanged -- two decoders written apart agree on every address issued. *)
Theorem issued_address_is_payable addr v :
  validatePcoinAddress addr "pc" = Ok v -> isP2wpkh v = true ->
  login_address (va_normalized v) "pc" = Ok ([0x00; 0x14] ++ va_program v) /\
  validatePcoinAddress (va_normalized v) "pc" = Ok v.
Proof.
  intros H Hp. pose proof (validate_lower _ _ _ H) as Hlow. apply validate_Ok in H as (Hn & dec & groups & Hd & Hh & Hg & Hc & He). rewrite Hn.
  split; [|exact Hlow].
  unfold isP2wpkh in Hp. apply andb_true_iff in Hp as [Hv0 Hlen]. rewrite Hv0 in He. bool_to_prop.
  apply bech32Decode_Some in Hd as (data & Hpos & Hhrp & Hdata & Htake & Henc).
  rewrite Hh in Hhrp, Henc. rewrite Htake in Hg.
  assert (Forall (fun v => 0 <= v < 32) groups) as Hr.
  { apply mapM_charset_range in Hdata. pose proof (Forall_take _ (length data - 6) _ Hdata) as Hr.
    rewrite Hg in Hr. by inversion Hr. }
  apply convertBits_regroup in Hc; [|done]. apply login_address_Ok. split.
  - unfold addressToScript. rewrite lower_id. apply orb_false_iff in Hpos as [-> Hpos2].
    rewrite <- Hhrp, bool_decide_eq_true_2 by done. cbn [negb]. rewrite Hdata. cbn [mbind result_bind].
    assert ((length data <? 7)%nat = false) as ->.
    { apply Nat.ltb_ge. apply (f_equal length) in Hg. rewrite length_take in Hg. cbn in Hg. lia. }
    rewrite Hg, Hv0. cbn [Z.eqb negb]. rewrite <- Hc, Hlen. done.
  - unfold assertBech32Checksum. rewrite lower_id, (bool_decide_eq_true_2 (_ = _)) by done.
    cbn [negb andb]. rewrite Hpos, Hdata. cbn [mbind result_bind]. rewrite <- Hhrp.
    unfold encoding_of in Henc. rewrite He in Henc.
    destruct (polymod _ =? BECH32_CONST) eqn:Hck; [by unfold BECH32_CONST in Hck; rewrite Hck|].
    by destruct (_ =? BECH32M_CONST).
Qed.

Lemma issued_address_is_payable_witness :
  let v := {| va_version := 0; va_program := drop 2 (ok_or [] (login_address "pc1qrgase7g8zvvrepxmh8kgnmf09freyqual7y7c6" "pc"));
              va_normalized := "pc1qrgase7g8zvvrepxmh8kgnmf09freyqual7y7c6" |} in
  validatePcoinAddress "PC1QRGASE7G8ZVVREPXMH8KGNMF09FREYQUAL7Y7C6" "pc" = Ok v /\
  login_address "pc1qrgase7g8zvvrepxmh8kgnmf09freyqual7y7c6" "pc" = Ok ([0x00; 0x14] ++ va_program v) /\
  validatePcoinAddress "pc1qrgase7g8zvvrepxmh8kgnmf09freyqual7y7c6" "pc" = Ok v.
Proof.
  split; [by vm_compute|].
  apply (issued_address_is_payable "PC1QRGASE7G8ZVVREPXMH8KGNMF09FREYQUAL7Y7C6"
    {| va_version := 0; va_program := drop 2 (ok_or [] (login_address "pc1qrgase7g8zvvrepxmh8kgnmf09freyqual7y7c6" "pc"));
       va_normalized := "pc1qrgase7g8zvvrepxmh8kgnmf09freyqual7y7c6" |}); by vm_compute.
Defined.
