(* ===== verification/BotPool.v ===== *)
(** * The address pool (contrib/pcnaibot/lib/pool.mjs)

    The vault's listing, read line by line and imported whole or not at all, and
    the claim of one address per chat. Files are ASCII texts; a line's trailing
    carriage return goes with its trim. *)

From Stdlib Require Import Ascii.
From S2P Require Import Prelude JsInt Bytes BotMoney BotDb BotInv BotRewards BotStars BotAddress.
Local Open Scope Z_scope.

(** ** The listing *)

(** [text.split('\n')] *)
Fixpoint split_lines (s : string) : list string :=
  match s with
  | EmptyString => [EmptyString]
  | String c s' =>
      if Ascii.eqb c (ascii_of_nat 10) then EmptyString :: split_lines s' else
      match split_lines s' with
      | l :: ls => String c l :: ls
      | [] => [String c EmptyString]
      end
  end.

Definition is_sep (c : ascii) : bool := is_space c || Ascii.eqb c ",".
Fixpoint span_sep (s : string) : string * string :=
  match s with
  | EmptyString => (EmptyString, EmptyString)
  | String c s' => if is_sep c then let '(a, b) := span_sep s' in (String c a, b) else (EmptyString, s)
  end.
Definition no_space (s : string) : bool := all_chars (fun c => negb (is_space c)) s.

(** [/^(\d+)[\s,]+(\S+)$/] on a trimmed line. When nothing follows the separators
    the last of them, a comma, is what [\S+] takes. *)
Definition with_index (line : string) : option (string * string) :=
  let '(d, r) := span_digits line in
  let '(sep, rest) := span_sep r in
  if bool_decide (d = "") || bool_decide (sep = "") then None else
  if bool_decide (rest = "") then if (2 <=? String.length sep)%nat then Some (d, ",") else None
  else if no_space rest then Some (d, rest) else None.

Inductive line_problem := BadIndex | BareAddress | NotALine | NotAddress (why : bad_address) | NotP2wpkh.

Record parse_state := { ps_line : Z; ps_positional : Z; ps_rows : list (Z * string); ps_problems : list (Z * line_problem) }.

Definition add_problem (p : line_problem) (s : parse_state) : parse_state := {|
  ps_line := ps_line s; ps_positional := ps_positional s; ps_rows := ps_rows s;
  ps_problems := ps_problems s ++ [(ps_line s, p)] |}.
Definition add_row (index : Z) (addrText : string) (s : parse_state) : parse_state :=
  match validatePcoinAddress addrText "pc" with
  | Err e => add_problem (NotAddress e) s
  | Ok v =>
      if negb (isP2wpkh v) then add_problem NotP2wpkh s else {|
        ps_line := ps_line s; ps_positional := ps_positional s;
        ps_rows := ps_rows s ++ [(index, va_normalized v)]; ps_problems := ps_problems s |}
  end.

Definition parse_line (startIndex : option Z) (s : parse_state) (raw : string) : parse_state :=
  let s := {| ps_line := ps_line s + 1; ps_positional := ps_positional s; ps_rows := ps_rows s; ps_problems := ps_problems s |} in
  let line := trim raw in
  if bool_decide (line = "") || String.prefix "#" line then s else
  match with_index line with
  | Some (d, addrText) =>
      if MAX_SAFE_INTEGER <? digits_value d then add_problem BadIndex s else add_row (digits_value d) addrText s
  | None =>
      if no_space line then
        match startIndex with
        | None => add_problem BareAddress s
        | Some start =>
            add_row (start + ps_positional s) line {|
              ps_line := ps_line s; ps_positional := ps_positional s + 1; ps_rows := ps_rows s; ps_problems := ps_problems s |}
        end
      else add_problem NotALine s
  end.

Definition parsePoolFile (text : string) (startIndex : option Z) : list (Z * string) * list (Z * line_problem) :=
  let s := foldl (parse_line startIndex) {| ps_line := 0; ps_positional := 0; ps_rows := []; ps_problems := [] |} (split_lines text) in
  (ps_rows s, ps_problems s).

(** ** The import *)

Definition index_is (i : Z) (a : pcn_address) : bool := a_index a =? i.
Definition address_is (s : string) (a : pcn_address) : bool := bool_decide (a_address a = s).

Definition fresh_address (index : Z) (address : string) : pcn_address := {|
  a_index := index; a_address := address; a_chat_id := None; a_assigned_at := None;
  a_remainder := 0; a_last := None |}.

(** One row of the import: whether it was inserted. *)
Definition import_row (r : Z * string) : op Z :=
  existing ← query (fun d => find_row (index_is r.1) (pcn_addresses d));
  match existing with
  | Some (_, e) =>
      if negb (bool_decide (a_address e = r.2))
      then throw (Error "pool import refused: index already holds a DIFFERENT address")
      else mret 0
  | None =>
      clash ← query (fun d => exists_row (address_is r.2) (pcn_addresses d));
      if clash : bool then throw (UniqueViolation "pcn_addresses.address") else
      _ ← exec (fun d => on_pcn_addresses <[fresh_id (pcn_addresses d) := fresh_address r.1 r.2]> d);
      mret 1
  end.

Definition min_index (rows : list (Z * string)) : Z :=
  match rows with [] => 0 | r :: rs => foldl Z.min r.1 rs.*1 end.

(** The rows in the order of their indexes. *)
Fixpoint insert_row (x : Z * string) (l : list (Z * string)) : list (Z * string) :=
  match l with [] => [x] | y :: l' => if x.1 <=? y.1 then x :: l else y :: insert_row x l' end.
Definition sort_rows (rows : list (Z * string)) : list (Z * string) := foldr insert_row [] rows.

Record import_result := { im_total : Z; im_inserted : Z; im_skipped : Z; im_minIndex : Z }.

Definition endpoint_ok (expected : option string) (actual : option (Z * string)) : bool :=
  match expected with None => true | Some s => bool_decide (snd <$> actual = Some (lower_string s)) end.

Definition importPool (text : string) (expectStartIndex : option Z) (expectFirst expectLast : option string)
    : op import_result :=
  let '(rows, problems) := parsePoolFile text expectStartIndex in
  if negb (bool_decide (problems = [])) then throw (Error "pool import refused: bad lines") else
  if bool_decide (rows = []) then throw (Error "pool import refused: no rows") else
  if negb (bool_decide (NoDup rows.*1)) then throw (Error "pool import refused: duplicate index") else
  if negb (bool_decide (NoDup rows.*2)) then throw (Error "pool import refused: duplicate address in file") else
  if match expectStartIndex with Some i => negb (min_index rows =? i) | None => false end
  then throw (Error "pool import refused: starts at another index") else
  if negb (endpoint_ok expectFirst (head (sort_rows rows))) then throw (Error "pool import refused: first address") else
  if negb (endpoint_ok expectLast (last (sort_rows rows))) then throw (Error "pool import refused: last address") else
  immediate (
    done ← mapM import_row rows;
    let n := Z.of_nat (length rows) in
    mret {| im_total := n; im_inserted := zsum done; im_skipped := n - zsum done; im_minIndex := min_index rows |}).

(** ** The claim *)

Definition chat_owns (c : Z) (a : pcn_address) : bool := bool_decide (a_chat_id a = Some c).

(** [WHERE assigned_at IS NULL ORDER BY derivation_index ASC LIMIT 1] *)
Definition lower_index (x y : Z * pcn_address) : Z * pcn_address := if a_index y.2 <? a_index x.2 then y else x.
Definition first_free (d : db) : option (Z * pcn_address) :=
  match filter (fun x : Z * pcn_address => a_assigned_at x.2 = None) (map_to_list (pcn_addresses d)) with
  | [] => None
  | x :: l => Some (foldl lower_index x l)
  end.

Definition assign (c now : Z) (a : pcn_address) : pcn_address := {|
  a_index := a_index a; a_address := a_address a; a_chat_id := Some c; a_assigned_at := Some now;
  a_remainder := a_remainder a; a_last := a_last a |}.

Record allocated := { al_address : string; al_index : Z; al_fresh : bool }.

Definition allocateAddress (chatId now : Z) : op allocated := immediate (
  mine ← query (fun d => find_row (chat_owns chatId) (pcn_addresses d));
  match mine with
  | Some (_, a) => mret {| al_address := a_address a; al_index := a_index a; al_fresh := false |}
  | None =>
      cand ← query first_free;
      match cand with
      | None => throw PoolEmpty
      | Some (i, a) =>
          if bool_decide (a_chat_id a = None) then
            _ ← exec (on_pcn_addresses <[i := assign chatId now a]>);
            mret {| al_address := a_address a; al_index := a_index a; al_fresh := true |}
          else throw (Error "address allocation raced: no row claimed")
      end
  end).

(** ** What the watcher reads *)

Record pool_stats := { po_total : Z; po_free : Z; po_issued : Z; po_min : option Z; po_max : option Z }.

Definition poolStats (d : db) : pool_stats :=
  let rows := (map_to_list (pcn_addresses d)).*2 in
  let total := Z.of_nat (length rows) in
  let free := Z.of_nat (length (filter (fun a => a_assigned_at a = None) rows)) in
  {| po_total := total; po_free := free; po_issued := total - free;
     po_min := match a_index <$> rows with [] => None | i :: l => Some (foldl Z.min i l) end;
     po_max := match a_index <$> rows with [] => None | i :: l => Some (foldl Z.max i l) end |}.

(** Every address ever issued, in the order of its index. *)
Fixpoint insert_index (x : Z * pcn_address) (l : list (Z * pcn_address)) : list (Z * pcn_address) :=
  match l with [] => [x] | y :: l' => if a_index x.2 <=? a_index y.2 then x :: l else y :: insert_index x l' end.
Definition issuedAddresses (d : db) : list (Z * pcn_address) :=
  foldr insert_index [] (filter (fun x : Z * pcn_address => a_assigned_at x.2 <> None) (map_to_list (pcn_addresses d))).

(** ** What the pool keeps *)

Definition payable (s : string) : Prop :=
  exists v, validatePcoinAddress s "pc" = Ok v /\ isP2wpkh v = true /\ va_normalized v = s.

Record pool_inv (d : db) : Prop := {
  pl_index : forall i j a b, pcn_addresses d !! i = Some a -> pcn_addresses d !! j = Some b ->
    a_index a = a_index b -> i = j;
  pl_address : forall i j a b, pcn_addresses d !! i = Some a -> pcn_addresses d !! j = Some b ->
    a_address a = a_address b -> i = j;
  pl_chat : forall i j a b c, pcn_addresses d !! i = Some a -> pcn_addresses d !! j = Some b ->
    a_chat_id a = Some c -> a_chat_id b = Some c -> i = j;
  pl_assigned : forall i a c, pcn_addresses d !! i = Some a -> a_chat_id a = Some c -> is_Some (a_assigned_at a);
  pl_payable : forall i a, pcn_addresses d !! i = Some a -> payable (a_address a) }.

Lemma pool_inv_frame d d' : pool_inv d -> pcn_addresses d' = pcn_addresses d -> pool_inv d'.
Proof. intros [H1 H2 H3 H4 H5] He. by split; rewrite He. Qed.

(** Watched data and carries may change; who owns what may not. *)
Definition same_owner (a b : pcn_address) : Prop :=
  a_index b = a_index a /\ a_address b = a_address a /\ a_chat_id b = a_chat_id a /\ a_assigned_at b = a_assigned_at a.

Lemma pool_inv_put d i a b :
  pool_inv d -> pcn_addresses d !! i = Some a -> same_owner a b -> pool_inv (on_pcn_addresses <[i := b]> d).
Proof.
  intros [H1 H2 H3 H4 H5] Hi (E1 & E2 & E3 & E4).
  assert (forall j x, <[i := b]> (pcn_addresses d) !! j = Some x ->
    exists y, pcn_addresses d !! j = Some y /\ same_owner y x) as Hold.
  { intros j x [[<- <-]|[? ?]]%lookup_insert_Some; [by exists a|by exists x]. }
  split; cbn.
  - intros j k x y (x' & Hx & Ex & _)%Hold (y' & Hy & Ey & _)%Hold He. eapply (H1 j k); eauto. congruence.
  - intros j k x y (x' & Hx & _ & Ex & _)%Hold (y' & Hy & _ & Ey & _)%Hold He. eapply (H2 j k); eauto. congruence.
  - intros j k x y c (x' & Hx & _ & _ & Ex & _)%Hold (y' & Hy & _ & _ & Ey & _)%Hold Hc Hc'.
    apply (H3 j k x' y' c); [done|done|congruence..].
  - intros j x c (x' & Hx & _ & _ & Ex & Ea)%Hold Hc. rewrite Ea. apply (H4 j x' c); [done|congruence].
  - intros j x (x' & Hx & _ & Ex & _)%Hold. rewrite Ex. by eapply H5.
Qed.

Lemma find_row_absent {A} (P : A -> bool) (t : gmap Z A) i a : find_row P t = None -> t !! i = Some a -> P a = false.
Proof. intros H. by apply find_row_None. Qed.

Lemma exists_row_false {A} (P : A -> bool) (t : gmap Z A) i a :
  exists_row P t = false -> t !! i = Some a -> P a = false.
Proof.
  unfold exists_row. intros H. apply bool_decide_eq_false_1 in H. apply find_row_absent.
  destruct (find_row P t); [by destruct H|done].
Qed.

(** Rows are only added. *)
Definition pool_grows (d d' : db) : Prop :=
  forall i a, pcn_addresses d !! i = Some a -> pcn_addresses d' !! i = Some a.

Definition holds_row (d : db) (r : Z * string) : Prop :=
  exists i a, pcn_addresses d !! i = Some a /\ a_index a = r.1 /\ a_address a = r.2.

Lemma import_row_Ok r d n d' :
  import_row r d = (Ok n, d') -> pool_inv d -> payable r.2 ->
  pool_inv d' /\ pool_grows d d' /\ holds_row d' r.
Proof.
  intros H Hp Hv. unfold import_row in H. op_inv.
  destruct (find_row _ (pcn_addresses d)) as [[i e]|] eqn:Hf.
  - apply find_row_Some in Hf as [Hi He]. apply Z.eqb_eq in He.
    destruct (negb _) eqn:Ha; [by op_inv|]. apply negb_false_iff, bool_decide_eq_true_1 in Ha. op_inv.
    split; [done|]. split; [by intros ? ?|]. by exists i, e.
  - op_inv. destruct (exists_row _ _) eqn:Hx; [by op_inv|]. op_inv.
    pose proof (fresh_id_fresh (pcn_addresses d)) as Hfr. set (i := fresh_id _) in *.
    assert (pool_grows d (on_pcn_addresses <[i := fresh_address r.1 r.2]> d)) as Hg.
    { intros j x Hj. cbn. rewrite lookup_insert_ne; [done|]. intros <-. congruence. }
    split; [|split; [done|exists i, (fresh_address r.1 r.2); cbn; by rewrite lookup_insert_eq]].
    destruct Hp as [H1 H2 H3 H4 H5]. split; cbn.
    + intros j k x y [[<- <-]|[_ Hj]]%lookup_insert_Some [[<- <-]|[_ Hk]]%lookup_insert_Some He; try done.
      * apply (find_row_absent _ _ _ _ Hf) in Hk. unfold index_is in Hk. cbn in He. apply Z.eqb_neq in Hk. by subst.
      * apply (find_row_absent _ _ _ _ Hf) in Hj. unfold index_is in Hj. cbn in He. apply Z.eqb_neq in Hj. by subst.
      * by eapply H1.
    + intros j k x y [[<- <-]|[_ Hj]]%lookup_insert_Some [[<- <-]|[_ Hk]]%lookup_insert_Some He; try done.
      * apply (exists_row_false _ _ _ _ Hx), bool_decide_eq_false_1 in Hk. cbn in He. by subst.
      * apply (exists_row_false _ _ _ _ Hx), bool_decide_eq_false_1 in Hj. cbn in He. by subst.
      * by eapply H2.
    + intros j k x y c [[<- <-]|[_ Hj]]%lookup_insert_Some [[<- <-]|[_ Hk]]%lookup_insert_Some Hc Hc'; try done.
      by eapply H3.
    + intros j x c [[<- <-]|[_ Hj]]%lookup_insert_Some Hc; [done|by eapply H4].
    + intros j x [[<- <-]|[_ Hj]]%lookup_insert_Some; [done|by eapply H5].
Qed.

Lemma import_rows_Ok rows d l d' :
  mapM import_row rows d = (Ok l, d') -> pool_inv d -> Forall (fun r => payable r.2) rows ->
  pool_inv d' /\ pool_grows d d' /\ Forall (holds_row d') rows.
Proof.
  revert d l. induction rows as [|r rows IH]; intros d l H Hp Hv; cbn [mapM] in H.
  { op_inv. split; [done|]. split; [by intros ? ?|constructor]. }
  op_inv. inversion Hv as [|? ? Hr Hrs]; subst.
  match goal with H : import_row _ _ = _ |- _ => apply import_row_Ok in H as (Hp1 & Hg1 & Hh); [|done..] end.
  match goal with H : mapM import_row _ _ = _ |- _ => apply IH in H as (Hp2 & Hg2 & Hhs); [|done..] end.
  split; [done|]. split; [by intros i x Hi%Hg1%Hg2|]. constructor; [|done].
  destruct Hh as (i & x & Hi & ? & ?). exists i, x. by apply Hg2 in Hi.
Qed.

(** Every row the parser lists is a stored form the mining pool pays. *)
Lemma parse_line_payable start s raw :
  Forall (fun r => payable r.2) (ps_rows s) -> Forall (fun r => payable r.2) (ps_rows (parse_line start s raw)).
Proof.
  assert (forall i t u, Forall (fun r => payable r.2) (ps_rows u) ->
    Forall (fun r => payable r.2) (ps_rows (add_row i t u))) as Hrow.
  { intros i t u Hu. unfold add_row. destruct (validatePcoinAddress t "pc") as [v|] eqn:Hv; [|done].
    destruct (isP2wpkh v) eqn:Hp; [|done]. cbn. apply Forall_app. split; [done|]. constructor; [|done]. cbn.
    exists v. split_and!; [|done..]. pose proof Hv as Hn. apply validate_Ok in Hn as [-> _].
    by apply validate_lower. }
  intros Hs. unfold parse_line. destruct (_ || _); [done|]. destruct (with_index _) as [[d t]|].
  - destruct (_ <? _); [done|by apply Hrow].
  - destruct (no_space _); [|done]. destruct start; [by apply Hrow|done].
Qed.

Lemma parse_payable text start : Forall (fun r => payable r.2) (parsePoolFile text start).1.
Proof.
  unfold parsePoolFile. cbn.
  assert (forall ls s, Forall (fun r => payable r.2) (ps_rows s) ->
    Forall (fun r => payable r.2) (ps_rows (foldl (parse_line start) s ls))) as H.
  { induction ls as [|l ls IH]; intros s Hs; [done|]. apply IH. by apply parse_line_payable. }
  by apply H.
Qed.

(** The line carries no index of its own. *)
Definition bare_line (raw : string) : bool := bool_decide (with_index (trim raw) = None).

(** While no line has been refused the positional count is the number of rows. *)
Definition aligned (start : Z) (s : parse_state) : Prop :=
  ps_problems s = [] -> ps_positional s = Z.of_nat (length (ps_rows s)) /\
                        (ps_rows s).*1 = seqZ start (Z.of_nat (length (ps_rows s))).

Lemma parse_line_aligned start s raw :
  bare_line raw = true -> aligned start s -> aligned start (parse_line (Some start) s raw).
Proof.
  intros Hb Hs. apply bool_decide_eq_true_1 in Hb. unfold parse_line. destruct (_ || _); [exact Hs|].
  rewrite Hb. destruct (no_space _).
  - unfold add_row. destruct (validatePcoinAddress _ _) as [v|].
    + destruct (negb _); [by intros [_ ?]%app_nil|]. intros Hp. cbn in *. destruct (Hs Hp) as [H1 H2].
      rewrite length_app, fmap_app, H2, H1. cbn. split; [lia|].
      rewrite Nat.add_1_r, Nat2Z.inj_succ, <- Z.add_1_r, seqZ_app by lia. f_equal.
    + intros [_ ?]%app_nil. done.
  - intros [_ ?]%app_nil. done.
Qed.

Lemma parse_aligned text start :
  forallb bare_line (split_lines text) = true -> (parsePoolFile text (Some start)).2 = [] ->
  (parsePoolFile text (Some start)).1.*1 = seqZ start (Z.of_nat (length (parsePoolFile text (Some start)).1)).
Proof.
  unfold parsePoolFile. cbn. intros Hb Hp.
  assert (forall ls s, forallb bare_line ls = true -> aligned start s ->
    aligned start (foldl (parse_line (Some start)) s ls)) as H.
  { induction ls as [|l ls IH]; intros s Hl Hs; [done|]. apply andb_true_iff in Hl as [Hl Hls].
    apply IH; [done|]. by apply parse_line_aligned. }
  by apply (H _ _ Hb) in Hp as [_ ?].
Qed.

Lemma import_Ok text start f l d r d' :
  importPool text start f l d = (Ok r, d') -> pool_inv d ->
  pool_inv d' /\ pool_grows d d' /\ Forall (holds_row d') (parsePoolFile text start).1 /\
  (parsePoolFile text start).2 = [] /\ im_total r = Z.of_nat (length (parsePoolFile text start).1).
Proof.
  intros H Hp. unfold importPool in H. pose proof (parse_payable text start) as Hv.
  destruct (parsePoolFile text start) as [rows problems]. cbn [fst snd] in *.
  destruct (negb (bool_decide (problems = []))) eqn:Hpr; [by op_inv|].
  apply negb_false_iff, bool_decide_eq_true_1 in Hpr.
  repeat (match type of H with (if ?b then _ else _) _ = _ => destruct b; [by op_inv|] end).
  op_inv. match goal with H : mapM import_row _ _ = _ |- _ => apply import_rows_Ok in H as (? & ? & ?); [|done..] end.
  by split_and!.
Qed.

Lemma import_Err text start f l d e d' : importPool text start f l d = (Err e, d') -> d' = d.
Proof.
  unfold importPool. destruct (parsePoolFile text start) as [rows problems].
  repeat (match goal with |- (if ?b then _ else _) _ = _ -> _ => destruct b; [by intros [= _ <-]|] end).
  apply immediate_Err.
Qed.

Lemma lower_index_fold l x :
  let y := foldl lower_index x l in
  (y = x \/ y ∈ l) /\ a_index y.2 <= a_index x.2 /\ Forall (fun z => a_index y.2 <= a_index z.2) l.
Proof.
  revert x. induction l as [|z l IH]; intros x; cbn zeta.
  { split; [by left|]. split; [done|constructor]. }
  cbn [foldl]. destruct (IH (lower_index x z)) as (H1 & H2 & H3). cbn zeta in *.
  assert (a_index (lower_index x z).2 <= a_index x.2 /\ a_index (lower_index x z).2 <= a_index z.2 /\
          (lower_index x z = x \/ lower_index x z = z)) as (Hx & Hz & Hc).
  { unfold lower_index. destruct (Z.ltb_spec (a_index z.2) (a_index x.2)); split_and!; try lia; auto. }
  split_and!; [|lia|constructor; [lia|done]].
  destruct H1 as [->|Hin]; [destruct Hc as [->| ->]; [by left|right; by left]|right; by right].
Qed.

Lemma first_free_Some d i a :
  first_free d = Some (i, a) ->
  pcn_addresses d !! i = Some a /\ a_assigned_at a = None /\
  forall j b, pcn_addresses d !! j = Some b -> a_assigned_at b = None -> a_index a <= a_index b.
Proof.
  unfold first_free. intros H.
  set (l := filter _ _) in H. assert (forall x, x ∈ l <-> a_assigned_at x.2 = None /\ pcn_addresses d !! x.1 = Some x.2) as Hl.
  { intros [j b]. unfold l. rewrite list_elem_of_filter, elem_of_map_to_list. done. }
  destruct l as [|x l']; [discriminate|]. injection H as H.
  destruct (lower_index_fold l' x) as (H1 & H2 & H3). cbn zeta in *. rewrite H in *.
  assert ((i, a) ∈ x :: l') as Hin by (destruct H1 as [->|?]; [by left|by right]).
  apply Hl in Hin as [Ha Hi]. split_and!; [done..|]. intros j b Hj Hb.
  assert ((j, b) ∈ x :: l') as Hjb by by apply Hl.
  apply elem_of_cons in Hjb as [<-|Hjb]; [done|]. by eapply (proj1 (Forall_forall _ _) H3) in Hjb.
Qed.

Lemma first_free_None d i a : first_free d = None -> pcn_addresses d !! i = Some a -> is_Some (a_assigned_at a).
Proof.
  unfold first_free. intros H Hi. destruct (a_assigned_at a) eqn:Ha; [by eexists|].
  assert ((i, a) ∈ filter (fun x : Z * pcn_address => a_assigned_at x.2 = None) (map_to_list (pcn_addresses d))) as Hin.
  { by rewrite list_elem_of_filter, elem_of_map_to_list. }
  destruct (filter _ _); [by apply elem_of_nil in Hin|discriminate].
Qed.

Lemma assign_inv d i a c now :
  pool_inv d -> pcn_addresses d !! i = Some a -> a_chat_id a = None ->
  (forall j b, pcn_addresses d !! j = Some b -> a_chat_id b <> Some c) ->
  pool_inv (on_pcn_addresses <[i := assign c now a]> d).
Proof.
  intros [H1 H2 H3 H4 H5] Hi Ha Hc.
  assert (forall j x, <[i := assign c now a]> (pcn_addresses d) !! j = Some x ->
    exists y, pcn_addresses d !! j = Some y /\ a_index x = a_index y /\ a_address x = a_address y /\
      (x = y \/ (j = i /\ a_chat_id x = Some c /\ is_Some (a_assigned_at x)))) as Hold.
  { intros j x [[<- <-]|[? ?]]%lookup_insert_Some; [exists a|exists x]; split_and!; auto; right; by eauto. }
  split; cbn.
  - intros j k x y (x' & Hx & Ex & _)%Hold (y' & Hy & Ey & _)%Hold He. apply (H1 j k x' y'); [done..|congruence].
  - intros j k x y (x' & Hx & _ & Ex & _)%Hold (y' & Hy & _ & Ey & _)%Hold He.
    apply (H2 j k x' y'); [done..|congruence].
  - intros j k x y e (x' & Hx & _ & _ & Ex)%Hold (y' & Hy & _ & _ & Ey)%Hold Hcx Hcy.
    destruct Ex as [->|(-> & Ex & _)], Ey as [->|(-> & Ey & _)]; [by eapply H3| | |done].
    + assert (e = c) as -> by congruence. by destruct (Hc _ _ Hx).
    + assert (e = c) as -> by congruence. by destruct (Hc _ _ Hy).
  - intros j x e (x' & Hx & _ & _ & [->|(-> & Ex & ?)])%Hold He; [by eapply H4|done].
  - intros j x (x' & Hx & _ & Ex & _)%Hold. rewrite Ex. by eapply H5.
Qed.

(** The claim either finds this chat's row, takes the lowest free one, or the pool is empty. *)
Lemma allocate_spec c now d :
  pool_inv d ->
  (exists v d' i a, allocateAddress c now d = (Ok v, d') /\ pool_inv d' /\
     pcn_addresses d' !! i = Some a /\ a_chat_id a = Some c /\
     al_address v = a_address a /\ al_index v = a_index a /\
     (forall j, j <> i -> pcn_addresses d' !! j = pcn_addresses d !! j) /\
     if al_fresh v then exists b, pcn_addresses d !! i = Some b /\ a = assign c now b /\ a_assigned_at b = None /\
       forall j e, pcn_addresses d !! j = Some e -> a_assigned_at e = None -> a_index b <= a_index e
     else d' = d)
  \/ (allocateAddress c now d = (Err PoolEmpty, d) /\
      forall i a, pcn_addresses d !! i = Some a -> is_Some (a_assigned_at a) /\ a_chat_id a <> Some c).
Proof.
  intros Hp. unfold allocateAddress, immediate, mbind, op_bind, query.
  destruct (find_row (chat_owns c) (pcn_addresses d)) as [[i a]|] eqn:Hm.
  - apply find_row_Some in Hm as [Hi Ha]. apply bool_decide_eq_true_1 in Ha. left.
    eexists _, d, i, a. split; [reflexivity|]. by split_and!.
  - assert (forall j b, pcn_addresses d !! j = Some b -> a_chat_id b <> Some c) as Hno.
    { intros j b Hj. apply (find_row_absent _ _ _ _ Hm) in Hj. by apply bool_decide_eq_false_1 in Hj. }
    destruct (first_free d) as [[i a]|] eqn:Hf.
    + apply first_free_Some in Hf as (Hi & Ha & Hmin).
      assert (a_chat_id a = None) as Hc.
      { destruct (a_chat_id a) as [e|] eqn:E; [|done]. destruct (pl_assigned _ Hp _ _ _ Hi E). congruence. }
      rewrite bool_decide_eq_true_2 by done. left. eexists _, _, i, (assign c now a). split; [reflexivity|].
      cbn [al_fresh al_address al_index]. split_and!; try done.
      * by apply assign_inv.
      * cbn. by rewrite lookup_insert_eq.
      * intros j Hj. cbn. by rewrite lookup_insert_ne.
      * by exists a.
    + right. split; [done|]. intros i a Hi. split; [by eapply first_free_None|by eapply Hno].
Qed.

Lemma keeps_allocate c now : keeps pool_inv (allocateAddress c now).
Proof.
  intros d Hd. destruct (allocate_spec c now d Hd) as [(v & d' & i & a & -> & ? & _)|[-> _]]; done.
Qed.
Lemma keeps_import text start f l : keeps pool_inv (importPool text start f l).
Proof.
  intros d Hd. destruct (importPool text start f l d) as [[r|e] d'] eqn:E.
  - by destruct (import_Ok _ _ _ _ _ _ _ E Hd).
  - by apply import_Err in E as ->.
Qed.
