(* ===== verification/BotWatch.v ===== *)
(** * The deposit watcher (contrib/pcnaibot/watch.mjs, lib/explorer.mjs)

    One tick: every issued address asked about in batches, the touched ones read,
    every open deposit re-driven through the gates, credited deposits re-checked.
    The explorer's answers are arguments, the budget that ends a tick among them;
    JSON fields keep their type, so an absent field is not a false one. The
    notices to users, the log and the heartbeat file are not modelled, nor are the
    reorg counters the tick only logs. *)

From S2P Require Import Prelude JsInt BotMoney BotDb BotInv BotBilling BotDeposits BotRewards BotStars BotJobs BotAddress BotPool BotWpcn.
Local Open Scope Z_scope.
Local Open Scope string_scope.

(** ** JSON fields *)

Inductive jv := JUndef | JNull | JBool (b : bool) | JInt (n : Z) | JString (s : string) | JOther.
#[export] Instance jv_eq_dec : EqDecision jv.
Proof. solve_decision. Defined.

Definition as_int (v : jv) : option Z := match v with JInt n => Some n | _ => None end.
Definition as_string (v : jv) : option string := match v with JString s => Some s | _ => None end.
Definition as_bool (v : jv) : option bool := match v with JBool b => Some b | _ => None end.
Definition is_truthy (v : jv) : bool :=
  match v with
  | JUndef | JNull => false | JBool b => b | JInt n => negb (n =? 0)%Z
  | JString s => negb (bool_decide (s = "")) | JOther => true
  end.
(** [a === b]; two objects are never the same one. *)
Definition js_same (a b : jv) : bool := match a with JOther => false | _ => bool_decide (a = b) end.

(** ** What the explorer answers (explorer.mjs) *)

Record index_block := {
  ix_stale : jv; ix_node_reachable : jv; ix_blocks_behind : jv; ix_indexed_height : jv }.

(** [indexHealth]: three fields and nothing else. *)
Definition indexHealth (idx : option index_block) : bool :=
  match idx with
  | None => false
  | Some i => js_same (ix_stale i) (JBool false) && js_same (ix_node_reachable i) (JBool true)
              && js_same (ix_blocks_behind i) (JInt 0)
  end.

(** The lifetime block, [LtOther] when it is there but no object. *)
Inductive lifetime := LtObject (tx_count received_sat : jv) | LtOther.
Record addr_entry := { en_address : string; en_used : jv; en_nested : option lifetime; en_top : option lifetime }.

Record touch := { to_touched : bool; to_counts : option (Z * Z) }.

Definition addressTouched (entry : addr_entry) (previous : option (Z * Z)) : touch :=
  let yes c := {| to_touched := true; to_counts := c |} in
  if match en_used entry with JUndef | JNull => true | _ => false end then yes None else
  match coalesce (en_nested entry) (en_top entry) with
  | Some (LtObject t r) =>
      match as_int t, as_int r with
      | Some txCount, Some received =>
          match previous with
          | None => yes (Some (txCount, received))
          | Some (t', r') =>
              if negb (txCount =? t')%Z || negb (received =? r')%Z then yes (Some (txCount, received))
              else {| to_touched := false; to_counts := Some (txCount, received) |}
          end
      | _, _ => yes None
      end
  | _ => yes None
  end.

Record tx_body := {
  tx_status : jv; tx_height : jv; tx_confirmations : jv; tx_is_coinbase : jv; tx_block_hash : jv }.
Inductive tx_answer := TxExhausted | TxUnreadable (why : string) | TxRead (tx : tx_body) (node_reachable : jv).

Record history_item := { it_txid : string; it_received : jv; it_height : jv; it_block_hash : jv }.
Inductive txs_answer :=
  | TxsExhausted | TxsUnreadable
  | TxsRead (index : option index_block) (known : jv) (unconfirmed : option (list history_item))
            (confirmed : option (list history_item)).

Inductive batch_answer := BatchExhausted | BatchUnreadable | BatchRead (entries : option (list addr_entry)).
Inductive status_answer := StatusUnreadable (why : string) | StatusRead (index : option index_block).

(** One tick's worth of answers; a transaction may be asked about on each pass. *)
Record explorer := {
  ex_status : status_answer; ex_batch : nat -> batch_answer; ex_txs : string -> txs_answer;
  ex_tx : string -> string -> tx_answer; ex_redrive : Z -> tx_answer; ex_reorg : Z -> tx_answer }.

(** ** The settings *)

Record watch_cfg := {
  MIN_CONF : Z; MIN_CONF_COINBASE : Z; MIN_BLOCK_HEIGHT : Z; MIN_DEPOSIT_SAT : Z;
  CORROBORATE_ABOVE_MICRO : Z; CAP_USER_MICRO : Z; CAP_GLOBAL_MICRO : Z;
  corroborator : option (string -> tx_answer); wc_rebate : rebate_cfg }.

Definition DROP_AFTER_KNOWN_TICKS : Z := 60.

(** ** Columns of a deposit *)

(** The columns an open deposit's UPDATEs set. *)
Definition put_dep (s : dep_status) (height : option Z) (hash : option string) (coinbase : option bool)
    (confs : option Z) (ticks : Z) (reorg : option Z) (flagged note : option string) (d : deposit) : deposit := {|
  d_txid := d_txid d; d_address := d_address d; d_chat_id := d_chat_id d; d_status := s;
  d_amount_sat := d_amount_sat d; d_block_height := height; d_block_hash := hash;
  d_is_coinbase := coinbase; d_confirmations := confs; d_credited_micro_usd := d_credited_micro_usd d;
  d_credited_rate_e12 := d_credited_rate_e12 d; d_rate_text := d_rate_text d;
  d_from_cache := d_from_cache d; d_rate_at := d_rate_at d; d_known_ticks := ticks;
  d_reorg_flagged_at := reorg; d_flagged := flagged; d_note := note;
  d_first_seen_at := d_first_seen_at d; d_credited_at := d_credited_at d |}.

Definition set_held (note : string) (d : deposit) : deposit :=
  put_dep DepHeld (d_block_height d) (d_block_hash d) (d_is_coinbase d) (d_confirmations d) (d_known_ticks d)
    (d_reorg_flagged_at d) (d_flagged d) (Some note) d.
Definition set_held_flagged (flag : string) (note : option string) (d : deposit) : deposit :=
  put_dep DepHeld (d_block_height d) (d_block_hash d) (d_is_coinbase d) (d_confirmations d) (d_known_ticks d)
    (d_reorg_flagged_at d) (Some flag) (coalesce note (d_note d)) d.
Definition set_ticks (n : Z) (d : deposit) : deposit :=
  put_dep (d_status d) (d_block_height d) (d_block_hash d) (d_is_coinbase d) (d_confirmations d) n
    (d_reorg_flagged_at d) (d_flagged d) (d_note d) d.
Definition set_dropped (d : deposit) : deposit :=
  put_dep Dropped (d_block_height d) (d_block_hash d) (d_is_coinbase d) (d_confirmations d) (d_known_ticks d)
    (d_reorg_flagged_at d) (d_flagged d) (d_note d) d.
Definition set_rejected (height : Z) (note : string) (d : deposit) : deposit :=
  put_dep Rejected (Some height) (d_block_hash d) (d_is_coinbase d) (d_confirmations d) (d_known_ticks d)
    (d_reorg_flagged_at d) (d_flagged d) (Some note) d.
Definition set_confirming (height : Z) (hash : option string) (coinbase : bool) (confs : option Z) (d : deposit) : deposit :=
  put_dep Confirming (Some height) hash (Some coinbase) (coalesce confs (d_confirmations d)) (d_known_ticks d)
    (d_reorg_flagged_at d) (d_flagged d) (d_note d) d.
(** [flagged_reason=COALESCE(flagged_reason,?)] *)
Definition add_flag (reorg : option Z) (flag : string) (d : deposit) : deposit :=
  put_dep (d_status d) (d_block_height d) (d_block_hash d) (d_is_coinbase d) (d_confirmations d) (d_known_ticks d)
    (coalesce reorg (d_reorg_flagged_at d)) (coalesce (d_flagged d) (Some flag)) (d_note d) d.

Definition update_dep (i : Z) (f : deposit -> deposit) : op () := exec (on_pcn_deposits (alter f i)).

Definition dep_is (txid address : string) (d : deposit) : bool :=
  bool_decide (d_txid d = txid) && bool_decide (d_address d = address).

(** [INSERT INTO pcn_deposits ... ON CONFLICT(txid, address) DO NOTHING] *)
Definition insert_deposit (txid address : string) (chat : option Z) (s : dep_status) (recv : Z)
    (height : option Z) (hash : option string) (now : Z) : op bool :=
  known ← query (fun d => exists_row (dep_is txid address) (pcn_deposits d));
  if known : bool then mret false else
  _ ← exec (fun d => on_pcn_deposits <[fresh_id (pcn_deposits d) := {|
        d_txid := txid; d_address := address; d_chat_id := chat; d_status := s; d_amount_sat := recv;
        d_block_height := height; d_block_hash := hash; d_is_coinbase := None; d_confirmations := None;
        d_credited_micro_usd := None; d_credited_rate_e12 := None; d_rate_text := None; d_from_cache := None;
        d_rate_at := None; d_known_ticks := 0; d_reorg_flagged_at := None; d_flagged := None; d_note := None;
        d_first_seen_at := now; d_credited_at := None |}]> d);
  mret true.

(** ** One open deposit through the gates *)

Inductive redriven :=
  | RUnreadable | RPending | RRejected | RHeld | RConfirming | RHeldRate | RCredited | RResult (r : credit_outcome).

Definition hold_dep (i : Z) (reason : string) : op redriven :=
  _ ← update_dep i (set_held (slice_to 300 reason)); mret RHeld.

Section redrive.
Context (cfg : watch_cfg) (rate : rate_reading) (floorFlag : bool) (now : Z).

(** No block yet: the deposit ages only while the mempool is readable. *)
Definition unconfirmed (i : Z) (dep : deposit) (node_reachable : jv) : op redriven :=
  if js_same node_reachable (JBool true) then
    let ticks := (d_known_ticks dep + 1)%Z in
    _ ← update_dep i (set_ticks ticks);
    _ ← (if (DROP_AFTER_KNOWN_TICKS <? ticks)%Z && negb (bool_decide (d_status dep = Dropped))
         then update_dep i set_dropped else mret tt);
    mret RPending
  else mret RPending.

Definition needed_confirmations (coinbase : bool) : Z :=
  if coinbase then Z.max (MIN_CONF cfg) (MIN_CONF_COINBASE cfg) else MIN_CONF cfg.

(** A deposit whose own gates are open: its value, a second source above the
    threshold, the caps' flags, the credit. *)
Definition credit_confirmed (i : Z) (dep : deposit) (tx : tx_body) (confirmations : Z) (coinbase : bool) : op redriven :=
  nano ← lift_money (satsToNanoUsd (d_amount_sat dep) (rt_e12 rate));
  '(valueMicro, _) ← lift_money (splitNano nano);
  corroborated ← (if (valueMicro <? CORROBORATE_ABOVE_MICRO cfg)%Z then mret None else
    match corroborator cfg with
    | None => _ ← update_dep i (set_held_flagged "uncorroborated" (Some "no independent source is configured"));
              mret (Some RHeld)
    | Some ask =>
        match ask (d_txid dep) with
        | TxExhausted => throw BudgetExhausted
        | TxUnreadable why => r ← hold_dep i ("corroboration unreadable: " ++ why); mret (Some r)
        | TxRead tx2 _ =>
            if negb (js_same (tx_height tx2) (tx_height tx)) || negb (js_same (tx_block_hash tx2) (tx_block_hash tx))
            then r ← hold_dep i "corroboration disagrees"; mret (Some r) else mret None
        end
    end);
  match corroborated with
  | Some r => mret r
  | None =>
      userSoFar ← query (creditedUsdLast30Days (d_chat_id dep) now);
      globalSoFar ← query (creditedUsdLast30Days None now);
      let flags := ((if (CAP_USER_MICRO cfg <? userSoFar + valueMicro)%Z then ["over_cap_user"] else [])
                   ++ (if (CAP_GLOBAL_MICRO cfg <? globalSoFar + valueMicro)%Z then ["over_cap_global"] else [])
                   ++ (if floorFlag then ["floor_parity"] else []))%list in
      res ← creditDepositSafe i rate (MIN_DEPOSIT_SAT cfg)
              (Some {| ob_confirmations := Some confirmations; ob_is_coinbase := Some coinbase;
                       ob_block_hash := as_string (tx_block_hash tx) |}) (wc_rebate cfg) now;
      _ ← (match flags with
           | [] => mret tt
           | _ => update_dep i (add_flag None (String.concat "," flags))
           end);
      mret (match cr_result res with CREDITED => RCredited | r => RResult r end)
  end.

Definition redriveDeposit (i : Z) (dep : deposit) (answer : tx_answer) : op redriven :=
  match answer with
  | TxExhausted => throw BudgetExhausted
  | TxUnreadable _ => mret RUnreadable
  | TxRead tx node_reachable =>
      match as_int (tx_height tx) with
      | Some height =>
          if (height <=? 0)%Z then unconfirmed i dep node_reachable else
          if (height <? MIN_BLOCK_HEIGHT cfg)%Z then
            _ ← update_dep i (set_rejected height "below the consensus floor"); mret RRejected
          else
          if match d_block_height dep with Some h => negb (h =? height)%Z | None => false end
          then hold_dep i "height disagrees" else
          match as_bool (tx_is_coinbase tx) with
          | None => hold_dep i "is_coinbase absent from /api/tx (unknown, not false)"
          | Some coinbase =>
              match as_int (tx_confirmations tx) with
              | None => hold_dep i "confirmations absent or non-integer"
              | Some confirmations =>
                  if (confirmations <? needed_confirmations coinbase)%Z then
                    _ ← update_dep i (set_confirming height (as_string (tx_block_hash tx)) coinbase None);
                    mret RConfirming
                  else if is_truthy (tx_status tx) && negb (js_same (tx_status tx) (JString "confirmed"))
                  then hold_dep i "/tx status is not confirmed"
                  else if bool_decide (d_chat_id dep = None) then hold_dep i "orphaned address: no chat_id bound"
                  else if negb (rt_usable rate) then
                    _ ← update_dep i (set_confirming height (as_string (tx_block_hash tx)) coinbase (Some confirmations));
                    mret RHeldRate
                  else credit_confirmed i dep tx confirmations coinbase
              end
          end
      | None => unconfirmed i dep node_reachable
      end
  end.
End redrive.

(** ** The address history *)

Definition is_txid (s : string) : bool := (String.length s =? 64)%nat && all_chars hex_char s.

(** The amount of an item that can be recorded. *)
Definition item_amount (it : history_item) : option Z :=
  if is_txid (it_txid it)
  then match as_int (it_received it) with Some r => if (0 <? r)%Z then Some r else None | None => None end
  else None.

(** One confirmed item of an address: a new row, or an open one re-driven. *)
Definition handleConfirmedItem (cfg : watch_cfg) (rate : rate_reading) (floorFlag : bool) (now : Z)
    (item : history_item) (addr : string) (chat : option Z) (answer : tx_answer) : op (option redriven) :=
  match item_amount item with
  | None => mret None
  | Some recv =>
      existing ← query (fun d => find_row (dep_is (it_txid item) addr) (pcn_deposits d));
      match existing with
      | None =>
          _ ← insert_deposit (it_txid item) addr chat Confirming recv (as_int (it_height item))
                (as_string (it_block_hash item)) now;
          mret (Some RConfirming)
      | Some (i, dep) =>
          match d_status dep with
          | Credited | Rejected => mret None
          | _ => r ← redriveDeposit cfg rate floorFlag now i dep answer; mret (Some r)
          end
      end
  end.

(** The mempool pass: unseen transactions of a readable mempool are recorded. *)
Definition mempool_pass (addr : string) (chat : option Z) (known : jv) (items : option (list history_item)) (now : Z) : op () :=
  match js_same known (JBool true), items with
  | true, Some items =>
      _ ← mapM (fun it => match item_amount it with
                          | Some recv => insert_deposit (it_txid it) addr chat Seen recv None None now
                          | None => mret false
                          end) items;
      mret tt
  | _, _ => mret tt
  end.

(** ** The tick *)

(** The tick's counters; [pr_stop] is what ended a loop: a throw, or its own [break] or [return]. *)
Inductive stopped := Threw (e : exn) | Broke.
#[export] Instance stopped_eq_dec : EqDecision stopped.
Proof. solve_decision. Defined.

Record progress := {
  pr_skipped : list string; pr_touched : nat; pr_credited : Z; pr_held : Z; pr_stop : option stopped }.

Definition progress0 : progress := {| pr_skipped := []; pr_touched := 0; pr_credited := 0; pr_held := 0; pr_stop := None |}.
Definition skip (why : string) (p : progress) : progress := {|
  pr_skipped := app (pr_skipped p) [why]; pr_touched := pr_touched p; pr_credited := pr_credited p;
  pr_held := pr_held p; pr_stop := pr_stop p |}.
Definition stop (e : stopped) (p : progress) : progress := {|
  pr_skipped := pr_skipped p; pr_touched := pr_touched p; pr_credited := pr_credited p;
  pr_held := pr_held p; pr_stop := Some e |}.
Definition count (r : redriven) (p : progress) : progress := {|
  pr_skipped := pr_skipped p; pr_touched := pr_touched p;
  pr_credited := match r with RCredited => pr_credited p + 1 | _ => pr_credited p end;
  pr_held := match r with RHeld => pr_held p + 1 | _ => pr_held p end; pr_stop := pr_stop p |}.

(** A loop of the tick: it goes on until something throws. *)
Fixpoint each {A} (f : A -> progress -> op progress) (l : list A) (p : progress) : op progress :=
  match l with
  | [] => mret p
  | a :: l' =>
      match pr_stop p with
      | Some _ => mret p
      | None => p' ← try_catch (f a p) (fun e => mret (stop (Threw e) p)); each f l' p'
      end
  end.

(** [UPDATE pcn_addresses SET last_tx_count=?, last_received_sat=?] *)
Definition set_last (c : Z * Z) (a : pcn_address) : pcn_address := {|
  a_index := a_index a; a_address := a_address a; a_chat_id := a_chat_id a;
  a_assigned_at := a_assigned_at a; a_remainder := a_remainder a; a_last := Some c |}.

Definition watched_row (watched : list (Z * pcn_address)) (addr : string) : option (Z * pcn_address) :=
  snd <$> list_find (fun x : Z * pcn_address => a_address x.2 = addr) watched.

(** One entry of a batch: touched or not, and its counts remembered. *)
Definition take_entry (watched : list (Z * pcn_address)) (entry : addr_entry) : op (list string) :=
  match watched_row watched (Bytes.lower_string (en_address entry)) with
  | None => mret []
  | Some (i, row) =>
      let t := addressTouched entry (a_last row) in
      _ ← (match to_counts t with
           | Some c => exec (on_pcn_addresses (alter (set_last c) i))
           | None => mret tt end);
      mret (if to_touched t then [a_address row] else [])
  end.

(** The batches of at most 500; one that cannot be read touches all its addresses. *)
Fixpoint take_batches (fuel : nat) (n : nat) (answers : nat -> batch_answer) (watched rest : list (Z * pcn_address))
    : op (list string) :=
  match fuel, rest with
  | S fuel', _ :: _ =>
      let chunk := take 500 rest in
      touched ← (match answers n with
        | BatchExhausted => throw BudgetExhausted
        | BatchUnreadable | BatchRead None => mret ((fun x : Z * pcn_address => a_address x.2) <$> chunk)
        | BatchRead (Some entries) => l ← mapM (take_entry watched) entries; mret (concat l)
        end);
      more ← take_batches fuel' (S n) answers watched (drop 500 rest);
      mret (app touched more)
  | _, _ => mret []
  end.

Section tick.
Context (cfg : watch_cfg) (rate : rate_reading) (floorFlag : bool) (now : Z) (ex : explorer).

(** One touched address; an index gone unhealthy breaks the loop, not the tick. *)
Definition take_address (watched : list (Z * pcn_address)) (addr : string) (p : progress) : op progress :=
  match ex_txs ex addr with
  | TxsExhausted => throw BudgetExhausted
  | TxsUnreadable => mret (skip "txs_unreadable" p)
  | TxsRead index known unconf confirmed =>
      if negb (indexHealth index) then mret (stop Broke (skip "index_unhealthy_midcycle" p)) else
      match watched_row watched addr with
      | None => mret p
      | Some (_, row) =>
          _ ← mempool_pass addr (a_chat_id row) known unconf now;
          each (fun it p =>
            r ← handleConfirmedItem cfg rate floorFlag now it addr (a_chat_id row) (ex_tx ex (it_txid it) addr);
            mret (from_option (fun r => count r p) p r)) (default [] confirmed) p
      end
  end.

Fixpoint insert_key {A} (key : A -> Z) (x : A) (l : list A) : list A :=
  match l with [] => [x] | y :: l' => if (key x <=? key y)%Z then x :: l else y :: insert_key key x l' end.
Definition sort_key {A} (key : A -> Z) (l : list A) : list A := foldr (insert_key key) [] l.

Definition dep_open (x : Z * deposit) : bool :=
  match d_status x.2 with Credited | Rejected => false | _ => true end.
(** [WHERE status NOT IN (...) ORDER BY first_seen_at ASC LIMIT 50] *)
Definition open_deposits (d : db) : list (Z * deposit) :=
  take 50 (sort_key (fun x : Z * deposit => d_first_seen_at x.2)
    (filter (fun x => dep_open x = true) (map_to_list (pcn_deposits d)))).

(** One row of the sweep: a throw holds the row, except the end of the budget. *)
Definition redrive_row (x : Z * deposit) (p : progress) : op progress :=
  try_catch (r ← redriveDeposit cfg rate floorFlag now x.1 x.2 (ex_redrive ex x.1); mret (count r p))
    (fun e => match e with
     | BudgetExhausted => throw BudgetExhausted
     | e => _ ← update_dep x.1 (set_held_flagged ("redrive threw: " ++ slice_to 160 (message_of e)) None);
            mret (count RHeld p)
     end).

(** The credited deposits of the last week that a reorg may have moved. *)
Definition reorg_candidates (d : db) : list (Z * deposit) :=
  take 25 (sort_key (fun x : Z * deposit => - default 0 (d_credited_at x.2))%Z
    (filter (fun x : Z * deposit =>
       bool_decide (d_status x.2 = Credited)
       && match d_credited_at x.2 with Some t => (now - 7 * 86400 <=? t)%Z | None => false end
       && bool_decide (is_Some (d_block_hash x.2)) && bool_decide (d_reorg_flagged_at x.2 = None) = true)
       (map_to_list (pcn_deposits d)))).

Definition recheck_one (x : Z * deposit) (p : progress) : op progress :=
  match ex_reorg ex x.1 with
  | TxExhausted => mret (stop Broke p)
  | TxUnreadable _ => mret p
  | TxRead tx _ =>
      match as_string (tx_block_hash tx) with
      | Some h =>
          if bool_decide (d_block_hash x.2 = Some h) then mret p
          else _ ← update_dep x.1 (add_flag (Some now) "reorg"); mret p
      | None => mret p
      end
  end.

Definition reorgRecheck : op () :=
  rows ← query reorg_candidates;
  _ ← each recheck_one rows progress0;
  mret tt.

Definition clear_break (p : progress) : progress :=
  match pr_stop p with
  | Some Broke => {| pr_skipped := pr_skipped p; pr_touched := pr_touched p;
      pr_credited := pr_credited p; pr_held := pr_held p; pr_stop := None |}
  | _ => p
  end.

(** The steps inside the tick's [try], each after the one before it went through. *)
Definition tick_work (watched : list (Z * pcn_address)) (p : progress) : op progress :=
  touched ← try_catch (l ← take_batches (length watched) 0 (ex_batch ex) watched watched; mret (Ok l))
              (fun e => mret (Err e));
  match touched with
  | Err e => mret (stop (Threw e) p)
  | Ok touched =>
      p ← each (take_address watched) touched {|
            pr_skipped := pr_skipped p; pr_touched := length touched; pr_credited := pr_credited p;
            pr_held := pr_held p; pr_stop := None |};
      let p := clear_break p in
      match pr_stop p with
      | Some _ => mret p
      | None =>
          rows ← query open_deposits;
          p ← each redrive_row rows p;
          match pr_stop p with
          | Some _ => mret p
          | None => _ ← reorgRecheck; mret p
          end
      end
  end.

(** What a tick reports: the heartbeat's [ok], the reasons it skipped, the counters. *)
Record tick_report := { tk_ok : bool; tk_seen : nat; tk_progress : progress; tk_reconcile : option bool }.

Definition tick (enabled : bool) : op tick_report :=
  let report ok seen p rec := {| tk_ok := ok; tk_seen := seen; tk_progress := p; tk_reconcile := rec |} in
  if negb enabled then mret (report true 0%nat (skip "disabled" progress0) None) else
  watched ← query issuedAddresses;
  let seen := length watched in
  match ex_status ex with
  | StatusUnreadable _ => mret (report true seen (skip "explorer_unreadable" progress0) None)
  | StatusRead index =>
      if negb (indexHealth index) then mret (report true seen (skip "index_unhealthy" progress0) None) else
      p ← tick_work watched progress0;
      match pr_stop p with
      | None | Some (Threw BudgetExhausted) =>
          let p := if bool_decide (is_Some (pr_stop p)) then skip "request_budget" p else p in
          let p := if rt_usable rate then p else skip "rate_unusable" p in
          ok ← query (fun d => rc_ok (reconcile d));
          mret (report true seen (if ok : bool then p else skip "reconcile_drift" p) (Some ok))
      | Some _ => mret (report false seen p None)
      end
  end.
End tick.

(** ** The books survive a tick *)

Lemma keeps_update_dep i f : keeps bot_inv (update_dep i f).
Proof. by apply keeps_exec_frame. Qed.

Lemma keeps_insert_deposit t a c s r h b now : keeps bot_inv (insert_deposit t a c s r h b now).
Proof. unfold insert_deposit. keeps_all. Qed.

Lemma keeps_each {A} P (f : A -> progress -> op progress) l p :
  (forall a p, keeps P (f a p)) -> keeps P (each f l p).
Proof.
  intros Hf. revert p. induction l as [|a l IH]; intros p; cbn [each]; [apply keeps_ret|].
  destruct (pr_stop p); [apply keeps_ret|]. apply keeps_bind; [|intros p'; apply IH].
  apply keeps_try; [apply Hf|]. intros e. apply keeps_ret.
Qed.

Section keeps_watch.
Context (cfg : watch_cfg) (rate : rate_reading) (floorFlag : bool) (now : Z).

Lemma keeps_hold_dep i why : keeps bot_inv (hold_dep i why).
Proof. unfold hold_dep. apply keeps_bind; [apply keeps_update_dep|]. intros u. apply keeps_ret. Qed.

Lemma keeps_unconfirmed i dep n : keeps bot_inv (unconfirmed i dep n).
Proof.
  unfold unconfirmed. destruct (js_same _ _); [|apply keeps_ret]. cbv zeta.
  apply keeps_bind; [apply keeps_update_dep|]. intros u.
  apply keeps_bind; [|intros v; apply keeps_ret]. destruct (_ && _); [apply keeps_update_dep|apply keeps_ret].
Qed.

Lemma keeps_credit_confirmed i dep tx c b : keeps bot_inv (credit_confirmed cfg rate floorFlag now i dep tx c b).
Proof.
  unfold credit_confirmed. apply keeps_bind; [apply keeps_lift_money|]. intros n.
  apply keeps_bind; [apply keeps_lift_money|]. intros [v r].
  apply keeps_bind.
  - destruct (_ <? _)%Z; [apply keeps_ret|]. destruct (corroborator cfg) as [ask|].
    + destruct (ask _); [apply keeps_throw| |].
      * apply keeps_bind; [apply keeps_hold_dep|]. intros x. apply keeps_ret.
      * destruct (_ || _); [|apply keeps_ret]. apply keeps_bind; [apply keeps_hold_dep|]. intros x. apply keeps_ret.
    + apply keeps_bind; [apply keeps_update_dep|]. intros x. apply keeps_ret.
  - intros [x|]; [apply keeps_ret|]. do 2 (apply keeps_bind; [apply keeps_query|intros ?]). cbv zeta.
    apply keeps_bind; [apply keeps_credit|]. intros res.
    apply keeps_bind; [|intros u; apply keeps_ret].
    destruct (_ ++ _)%list; [apply keeps_ret|apply keeps_update_dep].
Qed.

Lemma keeps_redrive i dep ans : keeps bot_inv (redriveDeposit cfg rate floorFlag now i dep ans).
Proof.
  unfold redriveDeposit. destruct ans as [|w|tx n]; [apply keeps_throw|apply keeps_ret|].
  destruct (as_int (tx_height tx)) as [h|]; [|apply keeps_unconfirmed].
  destruct (h <=? 0)%Z; [apply keeps_unconfirmed|].
  destruct (h <? _)%Z; [apply keeps_bind; [apply keeps_update_dep|intros u; apply keeps_ret]|].
  destruct (match d_block_height dep with Some _ => _ | None => _ end); [apply keeps_hold_dep|].
  destruct (as_bool _); [|apply keeps_hold_dep]. destruct (as_int (tx_confirmations tx)); [|apply keeps_hold_dep].
  destruct (_ <? _)%Z; [apply keeps_bind; [apply keeps_update_dep|intros u; apply keeps_ret]|].
  destruct (_ && _); [apply keeps_hold_dep|]. destruct (bool_decide _); [apply keeps_hold_dep|].
  destruct (negb _); [apply keeps_bind; [apply keeps_update_dep|intros u; apply keeps_ret]|].
  apply keeps_credit_confirmed.
Qed.

Lemma keeps_item item addr chat ans : keeps bot_inv (handleConfirmedItem cfg rate floorFlag now item addr chat ans).
Proof.
  unfold handleConfirmedItem. destruct (item_amount item); [|apply keeps_ret].
  apply keeps_bind; [apply keeps_query|]. intros [[i dep]|].
  - destruct (d_status dep); try apply keeps_ret;
      (apply keeps_bind; [apply keeps_redrive|intros r; apply keeps_ret]).
  - apply keeps_bind; [apply keeps_insert_deposit|]. intros b. apply keeps_ret.
Qed.

Lemma keeps_mempool addr chat known items : keeps bot_inv (mempool_pass addr chat known items now).
Proof.
  unfold mempool_pass. destruct (js_same _ _); [|apply keeps_ret]. destruct items; [|apply keeps_ret].
  apply keeps_bind; [|intros u; apply keeps_ret]. apply keeps_mapM. intros it.
  destruct (item_amount it); [apply keeps_insert_deposit|apply keeps_ret].
Qed.

Lemma keeps_take_entry w e : keeps bot_inv (take_entry w e).
Proof.
  unfold take_entry. destruct (watched_row _ _) as [[i row]|]; [|apply keeps_ret]. cbv zeta.
  apply keeps_bind; [|intros u; apply keeps_ret]. destruct (to_counts _); [by apply keeps_exec_frame|apply keeps_ret].
Qed.

Lemma keeps_batches fuel n answers w rest : keeps bot_inv (take_batches fuel n answers w rest).
Proof.
  revert n rest. induction fuel as [|fuel IH]; intros n rest; cbn [take_batches]; [apply keeps_ret|].
  destruct rest; [apply keeps_ret|]. cbv zeta. apply keeps_bind; [|intros t; apply keeps_bind; [apply IH|intros m; apply keeps_ret]].
  destruct (answers n) as [| |[es|]]; [apply keeps_throw|apply keeps_ret| |apply keeps_ret].
  apply keeps_bind; [apply keeps_mapM; apply keeps_take_entry|]. intros l. apply keeps_ret.
Qed.

Lemma keeps_tick ex enabled : keeps bot_inv (tick cfg rate floorFlag now ex enabled).
Proof.
  unfold tick. cbv zeta. destruct (negb enabled); [apply keeps_ret|].
  apply keeps_bind; [apply keeps_query|]. intros w. destruct (ex_status ex); [apply keeps_ret|].
  destruct (negb _); [apply keeps_ret|]. apply keeps_bind.
  - unfold tick_work. apply keeps_bind.
    { apply keeps_try; [|intros e; apply keeps_ret]. apply keeps_bind; [apply keeps_batches|]. intros l. apply keeps_ret. }
    intros [touched|e]; [|apply keeps_ret]. apply keeps_bind.
    + apply keeps_each. intros a p. unfold take_address. destruct (ex_txs ex a); [apply keeps_throw|apply keeps_ret|].
      destruct (negb _); [apply keeps_ret|]. destruct (watched_row _ _) as [[i row]|]; [|apply keeps_ret].
      apply keeps_bind; [apply keeps_mempool|]. intros u. apply keeps_each. intros it q.
      apply keeps_bind; [apply keeps_item|]. intros r. apply keeps_ret.
    + intros p. cbv zeta. destruct (pr_stop (clear_break p)); [apply keeps_ret|].
      apply keeps_bind; [apply keeps_query|]. intros rows. apply keeps_bind.
      * apply keeps_each. intros x q. unfold redrive_row. apply keeps_try.
        -- apply keeps_bind; [apply keeps_redrive|]. intros r. apply keeps_ret.
        -- intros e. destruct e; try apply keeps_throw;
             (apply keeps_bind; [apply keeps_update_dep|intros u; apply keeps_ret]).
      * intros q. destruct (pr_stop q); [apply keeps_ret|]. apply keeps_bind; [|intros u; apply keeps_ret].
        unfold reorgRecheck. apply keeps_bind; [apply keeps_query|]. intros cs.
        apply keeps_bind; [|intros u; apply keeps_ret]. apply keeps_each. intros x q'. unfold recheck_one.
        destruct (ex_reorg ex x.1); [apply keeps_ret|apply keeps_ret|]. destruct (as_string _); [|apply keeps_ret].
        destruct (bool_decide _); [apply keeps_ret|]. apply keeps_bind; [apply keeps_update_dep|]. intros u. apply keeps_ret.
  - intros p. destruct (pr_stop p) as [[[]|]|]; try apply keeps_ret;
      (apply keeps_bind; [apply keeps_query|]; intros b; apply keeps_ret).
Qed.
End keeps_watch.

(** ** Examples *)

Section examples.
Definition example_address : string := "pc1qrgase7g8zvvrepxmh8kgnmf09freyqual7y7c6".
Definition example_txid : string := "00000000000000000000000000000000000000000000000000000000000000ab".

Definition example_cfg : watch_cfg := {|
  MIN_CONF := 3; MIN_CONF_COINBASE := 100; MIN_BLOCK_HEIGHT := 2800; MIN_DEPOSIT_SAT := 100000000;
  CORROBORATE_ABOVE_MICRO := 250000000; CAP_USER_MICRO := 2000000000; CAP_GLOBAL_MICRO := 20000000000;
  corroborator := None; wc_rebate := {| rb_ppm := 0; rb_cap_sat := 0; rb_from := 0 |} |}.

Definition example_rate : rate_reading := {|
  rt_usable := true; rt_e12 := 35902421473; rt_text := None; rt_cache := false; rt_read_at := None |}.

Definition example_tx : tx_body := {|
  tx_status := JString "confirmed"; tx_height := JInt 3000; tx_confirmations := JInt 5;
  tx_is_coinbase := JBool false; tx_block_hash := JString "b1" |}.

Definition example_deposit : deposit := {|
  d_txid := example_txid; d_address := example_address; d_chat_id := Some 7; d_status := Confirming;
  d_amount_sat := 10000000000; d_block_height := Some 3000; d_block_hash := None; d_is_coinbase := None;
  d_confirmations := None; d_credited_micro_usd := None; d_credited_rate_e12 := None; d_rate_text := None;
  d_from_cache := None; d_rate_at := None; d_known_ticks := 0; d_reorg_flagged_at := None;
  d_flagged := None; d_note := None; d_first_seen_at := 1000; d_credited_at := None |}.

Definition example_user : user := {|
  balance_micro_usd := 0; reserved_micro_usd := 0; u_model := ""; busy_at := None; u_created_at := 1;
  u_lang := None; wpcn_remainder_nano_usd := 0 |}.

(** Chat 7 has an account and the address of index 0. *)
Definition example_db : db :=
  on_pcn_addresses <[1 := {| a_index := 0; a_address := example_address; a_chat_id := Some 7;
                             a_assigned_at := Some 1; a_remainder := 0; a_last := None |}]>
    (on_users <[7 := example_user]> empty_db).

Definition example_db_deposit : db := on_pcn_deposits <[1 := example_deposit]> example_db.

(** Two ticks: the address has a payment, its history cannot be read at the first
    tick and can at the second. *)
Definition example_index : option index_block := Some {|
  ix_stale := JBool false; ix_node_reachable := JBool true; ix_blocks_behind := JInt 0; ix_indexed_height := JInt 3005 |}.

Definition example_explorer (txs : txs_answer) : explorer := {|
  ex_status := StatusRead example_index;
  ex_batch _ := BatchRead (Some [{| en_address := example_address; en_used := JBool true;
                                    en_nested := Some (LtObject (JInt 1) (JInt 10000000000)); en_top := None |}]);
  ex_txs _ := txs; ex_tx _ _ := TxRead example_tx (JBool true);
  ex_redrive _ := TxRead example_tx (JBool true); ex_reorg _ := TxRead example_tx (JBool true) |}.

Definition example_history : txs_answer :=
  TxsRead example_index (JBool true) (Some [])
    (Some [{| it_txid := example_txid; it_received := JInt 10000000000; it_height := JInt 3000;
              it_block_hash := JString "b1" |}]).

Definition example_ticks (answers : list txs_answer) : db :=
  foldl (fun d txs => (tick example_cfg example_rate false 2000 (example_explorer txs) true d).2) example_db answers.

(** Both histories read: recorded at the first tick, credited in its sweep. *)
Example read_history_is_credited :
  d_status <$> (pcn_deposits (example_ticks [example_history; example_history]) !! 1) = Some Credited.
Proof. vm_compute. reflexivity. Qed.

(** The counts are stored before the history is read, so after one unreadable
    history the address looks untouched and the payment is never recorded. *)
Example unread_history_is_forgotten :
  pcn_deposits (example_ticks [TxsUnreadable; example_history; example_history]) = ∅.
Proof. vm_compute. reflexivity. Qed.
End examples.
