(* ===== verification/BotHistory.v ===== *)
(** * What no operation of the bot takes back

    A relation between the database before and after: the ledger is only added to
    and each of its keys is used once, accounts, claims, payments and
    reservations stay, a settled reservation stays settled, the address pool keeps
    its invariant. Every operation moves the database along it. *)

From S2P Require Import Prelude JsInt BotMoney BotDb BotInv BotBilling BotDeposits BotRewards BotStars BotJobs BotAddress BotPool BotWpcn BotWatch.
Local Open Scope Z_scope.

(** ** Moving along a relation *)

Definition moves (R : db -> db -> Prop) {A} (m : op A) : Prop := forall d, R d (m d).2.

Section moves.
Context (R : db -> db -> Prop) `{!PreOrder R}.

Lemma moves_ret {A} (a : A) : moves R (mret a).
Proof. intros d. reflexivity. Qed.
Lemma moves_throw {A} e : moves R (throw (A := A) e).
Proof. intros d. reflexivity. Qed.
Lemma moves_query {A} (f : db -> A) : moves R (query f).
Proof. intros d. reflexivity. Qed.
Lemma moves_exec f : (forall d, R d (f d)) -> moves R (exec f).
Proof. intros Hf d. apply Hf. Qed.

Lemma moves_bind {A B} (m : op A) (f : A -> op B) : moves R m -> (forall a, moves R (f a)) -> moves R (m ≫= f).
Proof.
  intros Hm Hf d. specialize (Hm d). unfold mbind, op_bind.
  destruct (m d) as [[a|e] d']; [|done]. etransitivity; [exact Hm|apply Hf].
Qed.

Lemma moves_try {A} (m : op A) h : moves R m -> (forall e, moves R (h e)) -> moves R (try_catch m h).
Proof.
  intros Hm Hh d. specialize (Hm d). unfold try_catch.
  destruct (m d) as [[a|e] d']; [done|]. etransitivity; [exact Hm|apply Hh].
Qed.

Lemma moves_immediate {A} (m : op A) : moves R m -> moves R (immediate m).
Proof.
  intros Hm d. specialize (Hm d). unfold immediate. destruct (m d) as [[a|e] d']; [done|reflexivity].
Qed.

(** A transaction moves where its committed outcomes do. *)
Lemma moves_committed {A} (m : op A) : (forall d a d', m d = (Ok a, d') -> R d d') -> moves R (immediate m).
Proof.
  intros Hm d. unfold immediate. destruct (m d) as [[a|e] d'] eqn:E; [by eapply Hm|reflexivity].
Qed.

Lemma moves_mapM {A B} (f : A -> op B) l : (forall a, moves R (f a)) -> moves R (mapM f l).
Proof.
  intros Hf. induction l as [|a l IH]; cbn; [apply moves_ret|].
  apply moves_bind; [done|]. intros b. apply moves_bind; [done|]. intros k. apply moves_ret.
Qed.

Lemma moves_each {A} (f : A -> progress -> op progress) l p :
  (forall a p, moves R (f a p)) -> moves R (each f l p).
Proof.
  intros Hf. revert p. induction l as [|a l IH]; intros p; cbn; [apply moves_ret|].
  destruct (pr_stop p); [apply moves_ret|]. apply moves_bind; [|done].
  apply moves_try; [done|]. intros e. apply moves_ret.
Qed.

Lemma moves_update_user chat guard f :
  (forall d u, users d !! chat = Some u -> R d (on_users <[chat := f u]> d)) ->
  moves R (update_user chat guard f).
Proof.
  intros Hf d. unfold update_user. destruct (users d !! chat) as [u|] eqn:Hu; [|reflexivity].
  destruct (guard u); [by apply Hf|reflexivity].
Qed.
End moves.

(** Goes through a program: each statement by a lemma of [moves], each branch in turn. *)
Create HintDb moves.
Ltac walk :=
  repeat (cbv zeta; first
    [ solve [auto with moves]
    | apply moves_ret; [exact _] | apply moves_throw; [exact _] | apply moves_query; [exact _]
    | apply moves_bind; [exact _| |intros ?] | apply moves_try; [exact _| |intros ?]
    | apply moves_immediate; [exact _|] | apply moves_mapM; [exact _|intros ?]
    | match goal with |- context [match ?x with _ => _ end] => destruct x end ]).

(** ** Growth *)

Definition same_payment (p q : payment) : Prop :=
  p_chat_id q = p_chat_id p /\ p_charge_id q = p_charge_id p /\ p_stars q = p_stars p /\
  p_micro_usd q = p_micro_usd p /\ p_invoice_id q = p_invoice_id p.
#[export] Instance same_payment_preorder : PreOrder same_payment.
Proof. split; [by repeat split|]. unfold same_payment. intros p q r ? ?. intuition congruence. Qed.

Definition same_resv (r s : reservation) : Prop :=
  r_chat_id s = r_chat_id r /\ r_update_id s = r_update_id r /\ r_req_key s = r_req_key r /\
  r_micro_usd s = r_micro_usd r /\ (r_state r = Settled -> r_state s = Settled).
#[export] Instance same_resv_preorder : PreOrder same_resv.
Proof. split; [by repeat split|]. unfold same_resv. intros p q r ? ?. intuition congruence. Qed.

(** Rows stay, their columns related by [S]. *)
Definition rows_stay {A} (S : relation A) (t t' : gmap Z A) : Prop :=
  forall i a, t !! i = Some a -> exists b, t' !! i = Some b /\ S a b.
#[export] Instance rows_stay_preorder {A} (S : relation A) `{!PreOrder S} : PreOrder (rows_stay S).
Proof.
  split; [by intros t i a Hi; exists a|]. intros t1 t2 t3 H1 H2 i a (b & Hb & Hab)%H1.
  apply H2 in Hb as (c & ? & ?). exists c. split; [done|]. by etransitivity.
Qed.

Lemma rows_stay_new {A} (S : relation A) `{!PreOrder S} t i a : t !! i = None -> rows_stay S t (<[i := a]> t).
Proof. intros Hi j b Hj. exists b. rewrite lookup_insert_ne by congruence. done. Qed.

Lemma rows_stay_alter {A} (S : relation A) `{!PreOrder S} t i f :
  (forall a, t !! i = Some a -> S a (f a)) -> rows_stay S t (alter f i t).
Proof.
  intros Hf j b Hj. destruct (decide (i = j)) as [->|Hne].
  - exists (f b). rewrite lookup_alter_eq, Hj. split; [done|by apply Hf].
  - exists b. by rewrite lookup_alter_ne.
Qed.

(** An address keeps its index and, once it has an owner, its owner. *)
Definition owned (a b : pcn_address) : Prop :=
  a_index b = a_index a /\ a_address b = a_address a /\
  (forall c, a_chat_id a = Some c -> a_chat_id b = Some c) /\
  (is_Some (a_assigned_at a) -> is_Some (a_assigned_at b)).
#[export] Instance owned_preorder : PreOrder owned.
Proof.
  split; [by repeat split|].
  intros p q r (A1 & A2 & A3 & A4) (B1 & B2 & B3 & B4). repeat split; [congruence..| |]; eauto.
Qed.

Lemma same_owner_owned a b : same_owner a b -> owned a b.
Proof. intros (? & ? & Hc & Ha). repeat split; [done..| |]; by rewrite ?Hc, ?Ha. Qed.

Record grows (d d' : db) : Prop := {
  gr_ledger : exists l, ledger d' = (ledger d ++ l)%list;
  gr_keys : NoDup (l_idem_key <$> ledger d) -> NoDup (l_idem_key <$> ledger d');
  gr_users : forall c, user_exists d c -> user_exists d' c;
  gr_claims : forall k, is_Some (wpcn_claims d !! k) -> is_Some (wpcn_claims d' !! k);
  gr_payments : rows_stay same_payment (stars_payments d) (stars_payments d');
  gr_reservations : rows_stay same_resv (reservations d) (reservations d');
  gr_addresses : rows_stay owned (pcn_addresses d) (pcn_addresses d');
  gr_pool : pool_inv d -> pool_inv d' }.

#[export] Instance grows_preorder : PreOrder grows.
Proof.
  split.
  - intros d. split; try done; [by exists []; rewrite app_nil_r|reflexivity..].
  - intros d1 d2 d3 [[l Hl] ? ? ? ? ? ? ?] [[k Hk] ? ? ? ? ? ? ?]. split; eauto; try by etransitivity.
    exists (l ++ k)%list. by rewrite Hk, Hl, app_assoc.
Qed.

(** Tables other than these may change in any way. *)
Lemma grows_frame d d' :
  ledger d' = ledger d -> users d' = users d -> wpcn_claims d' = wpcn_claims d ->
  stars_payments d' = stars_payments d -> reservations d' = reservations d ->
  pcn_addresses d' = pcn_addresses d -> grows d d'.
Proof.
  intros H1 H2 H3 H4 H5 H6. split; rewrite ?H1, ?H3, ?H4, ?H5, ?H6; try done.
  - exists []. by rewrite app_nil_r.
  - unfold user_exists. by rewrite H2.
  - intros Hp. by eapply pool_inv_frame.
Qed.

Lemma moves_frame f :
  (forall d, ledger (f d) = ledger d) -> (forall d, users (f d) = users d) ->
  (forall d, wpcn_claims (f d) = wpcn_claims d) -> (forall d, stars_payments (f d) = stars_payments d) ->
  (forall d, reservations (f d) = reservations d) -> (forall d, pcn_addresses (f d) = pcn_addresses d) ->
  moves grows (exec f).
Proof. intros. apply moves_exec. intros d. by apply grows_frame. Qed.

(** ** Statements *)

Lemma key_taken_spec k d : key_taken k d = true <-> Some k ∈ l_idem_key <$> ledger d.
Proof.
  unfold key_taken. rewrite existsb_exists, list_elem_of_fmap. split.
  - intros (l & Hl & Hk). apply bool_decide_eq_true_1 in Hk. exists l. by rewrite list_elem_of_In.
  - intros (l & Hk & Hl). exists l. rewrite <- list_elem_of_In. split; [done|]. by apply bool_decide_eq_true_2.
Qed.

(** A key once used stays used. *)
Lemma key_taken_grows k d d' : grows d d' -> key_taken k d = true -> key_taken k d' = true.
Proof.
  intros [[l Hl] _ _ _ _ _ _ _]. rewrite !key_taken_spec, Hl, fmap_app, elem_of_app. auto.
Qed.

Lemma moves_insert_ledger c x k idem rate note now : moves grows (insert_ledger c x k idem rate note now).
Proof.
  intros d. unfold insert_ledger. destruct c as [c|]; [|reflexivity].
  destruct (key_taken idem d) eqn:Hk; [reflexivity|]. split; try done; cbn; try reflexivity; [by eexists| |].
  - intros Hn. rewrite fmap_app. apply NoDup_app. split_and!; [done| |apply NoDup_singleton].
    intros o Ho ->%list_elem_of_singleton. apply key_taken_spec in Ho. congruence.
  - intros Hp. by eapply pool_inv_frame.
Qed.

Lemma grows_put_user d c u : grows d (on_users <[c := u]> d).
Proof.
  split; try done; cbn; try reflexivity; [by exists []; rewrite app_nil_r| |].
  - intros c'. apply user_put.
  - intros Hp. by eapply pool_inv_frame.
Qed.

Lemma moves_update chat guard f : moves grows (update_user chat guard f).
Proof. apply moves_update_user; [exact _|]. intros d u _. apply grows_put_user. Qed.

Lemma moves_put_user c u : moves grows (exec (on_users <[c := u]>)).
Proof. apply moves_exec. intros d. apply grows_put_user. Qed.

Lemma moves_claim k v : moves grows (exec (on_wpcn_claims <[k := v]>)).
Proof.
  apply moves_exec. intros d. split; try done; cbn; try reflexivity; [by exists []; rewrite app_nil_r| |].
  - intros k' Hk. destruct (decide (k = k')) as [->|Hne]; [by rewrite lookup_insert_eq|by rewrite lookup_insert_ne].
  - intros Hp. by eapply pool_inv_frame.
Qed.

(** Replacing the payments, the reservations or the addresses by rows that stay. *)
Lemma grows_payments d t :
  rows_stay same_payment (stars_payments d) t -> grows d (on_stars_payments (fun _ => t) d).
Proof.
  intros Ht. split; try done; cbn; try reflexivity; [by exists []; rewrite app_nil_r|].
  intros Hp. by eapply pool_inv_frame.
Qed.
Lemma grows_reservations d t :
  rows_stay same_resv (reservations d) t -> grows d (on_reservations (fun _ => t) d).
Proof.
  intros Ht. split; try done; cbn; try reflexivity; [by exists []; rewrite app_nil_r|].
  intros Hp. by eapply pool_inv_frame.
Qed.

Lemma moves_new_payment p :
  moves grows (exec (fun d => on_stars_payments <[fresh_id (stars_payments d) := p]> d)).
Proof.
  apply moves_exec. intros d. apply grows_payments, rows_stay_new; [exact _|]. apply fresh_id_fresh.
Qed.
Lemma moves_put_payment f i : (forall p, same_payment p (f p)) -> moves grows (exec (on_stars_payments (alter f i))).
Proof. intros Hf. apply moves_exec. intros d. apply grows_payments, rows_stay_alter; [exact _|auto]. Qed.

Lemma grows_alter_address d i f :
  (forall a, same_owner a (f a)) -> grows d (on_pcn_addresses (alter f i) d).
Proof.
  intros Hf. split; try done; cbn; try reflexivity; [by exists []; rewrite app_nil_r| |].
  { apply rows_stay_alter; [exact _|]. intros a _. by apply same_owner_owned. }
  intros Hp. destruct (pcn_addresses d !! i) as [a|] eqn:Hi.
  - replace (on_pcn_addresses (alter f i) d) with (on_pcn_addresses <[i := f a]> d);
      [by eapply pool_inv_put|]. unfold on_pcn_addresses. by rewrite (alter_put _ _ _ _ Hi).
  - eapply pool_inv_frame; [done|]. cbn. apply map_eq. intros j. destruct (decide (i = j)) as [->|Hne].
    + by rewrite lookup_alter_eq, Hi.
    + by rewrite lookup_alter_ne.
Qed.
Lemma moves_put_address f i : (forall a, same_owner a (f a)) -> moves grows (exec (on_pcn_addresses (alter f i))).
Proof. intros Hf. apply moves_exec. intros d. by apply grows_alter_address. Qed.

(** Closing a reservation that is not settled, or settling it. *)
Lemma grows_close d i r s cl n :
  reservations d !! i = Some r -> (r_state r = Settled -> s = Settled) ->
  grows d (on_reservations (alter (close_reservation s cl n) i) d).
Proof.
  intros Hi Hs. apply grows_reservations, rows_stay_alter; [exact _|].
  intros a Ha. assert (a = r) as -> by congruence. by repeat split.
Qed.

#[export] Hint Resolve moves_insert_ledger moves_update moves_put_user moves_claim moves_new_payment : moves.
#[export] Hint Extern 1 (moves grows (exec (on_stars_payments (alter _ _)))) =>
  apply moves_put_payment; intros; by repeat split : moves.
#[export] Hint Extern 1 (moves grows (exec (on_pcn_addresses (alter _ _)))) =>
  apply moves_put_address; intros; by repeat split : moves.
#[export] Hint Extern 2 (moves grows (exec _)) => by apply moves_frame : moves.

(** ** Every operation *)

Lemma moves_lift_money {A} (r : result money_err A) : moves grows (lift_money r).
Proof. unfold lift_money. walk. Qed.
Lemma moves_balance_row c : moves grows (balance_row c).
Proof. unfold balance_row. walk. Qed.
#[export] Hint Resolve moves_lift_money moves_balance_row : moves.

Section billing.
Implicit Types now : Z.

Lemma moves_lock chat s now : moves grows (acquireUserLock chat s now).
Proof. unfold acquireUserLock. walk. Qed.
Lemma moves_unlock chat : moves grows (releaseUserLock chat).
Proof. unfold releaseUserLock. walk. Qed.

Lemma moves_insert_reservation r : moves grows (insert_reservation r).
Proof.
  intros d. unfold insert_reservation. destruct (match r_update_id r with Some _ => _ | None => _ end); [reflexivity|].
  destruct (match r_req_key r with Some _ => _ | None => _ end); [reflexivity|].
  apply grows_reservations, rows_stay_new; [exact _|]. apply fresh_id_fresh.
Qed.
Hint Resolve moves_insert_reservation : moves.

Lemma moves_reserve c u k m x o now : moves grows (reserve c u k m x o now).
Proof. unfold reserve. walk. Qed.

Lemma moves_charge r actual note now : moves grows (charge_turn r actual note now).
Proof. unfold charge_turn. walk. Qed.
Hint Resolve moves_charge : moves.

(** A step before the close leaves the reservation's row as it is. *)
Lemma grows_then_close d d1 i r s cl n :
  grows d d1 -> reservations d1 = reservations d -> reservations d !! i = Some r ->
  (r_state r = Settled -> s = Settled) -> grows d (on_reservations (alter (close_reservation s cl n) i) d1).
Proof. intros Hg Hr Hi Hs. etransitivity; [exact Hg|]. eapply grows_close; [by rewrite Hr|done]. Qed.

Lemma insert_ledger_resv c x k idem rate note now d u d' :
  insert_ledger c x k idem rate note now d = (Ok u, d') -> reservations d' = reservations d.
Proof. by intros (c' & _ & _ & ->)%insert_ledger_Ok. Qed.

Lemma charge_turn_resv r actual note now d u d' :
  charge_turn r actual note now d = (Ok u, d') -> reservations d' = reservations d.
Proof.
  unfold charge_turn. destruct (0 <? actual); intros H; op_inv; [|done].
  apply insert_ledger_resv in H as ->.
  match goal with H : update_user _ _ _ _ = _ |- _ => apply update_user_rest in H as (_ & H & _); done end.
Qed.

Lemma moves_settle i actual note now : moves grows (settle i actual note now).
Proof.
  apply moves_committed; [exact _|]. intros d v d' H. op_inv.
  destruct (reservations d !! i) as [r|] eqn:Hi; [|by op_inv].
  assert (forall m : op (), moves grows m -> forall d u d', m d = (Ok u, d') -> grows d d') as Hm.
  { intros m Hm x u x' Hx. specialize (Hm x). by rewrite Hx in Hm. }
  destruct (r_state r) eqn:Hs; try by op_inv.
  - op_inv. match goal with H : balance_row _ _ = _ |- _ => apply balance_row_same in H as -> end.
    match goal with H1 : update_user _ _ ?f ?d = (_, ?d1), H2 : charge_turn _ _ _ _ ?d1 = (_, ?d2) |- _ =>
      pose proof (moves_update (r_chat_id r) always f d) as G1; rewrite H1 in G1;
      pose proof (Hm _ (moves_charge _ _ _ _) _ _ _ H2) as G2;
      apply update_user_rest in H1 as (_ & R1 & _); apply charge_turn_resv in H2 as R2 end.
    eapply grows_then_close; [etransitivity; [exact G1|exact G2]|congruence|exact Hi|done].
  - unfold settleLate in H. op_inv. match goal with H : balance_row _ _ = _ |- _ => apply balance_row_same in H as -> end.
    match goal with H2 : charge_turn _ _ _ _ _ = _ |- _ =>
      pose proof (Hm _ (moves_charge _ _ _ _) _ _ _ H2) as G2; apply charge_turn_resv in H2 as R2 end.
    eapply grows_then_close; [exact G2|exact R2|exact Hi|done].
Qed.

Lemma moves_release i reason now : moves grows (release i reason now).
Proof.
  apply moves_committed; [exact _|]. intros d v d' H. op_inv.
  destruct (reservations d !! i) as [r|] eqn:Hi; [|by op_inv].
  destruct (bool_decide (r_state r = Open)) eqn:Ho; op_inv; [|reflexivity].
  apply bool_decide_eq_true_1 in Ho.
  match goal with H1 : update_user _ _ ?f ?d = _ |- _ =>
    pose proof (moves_update (r_chat_id r) always f d) as G1; rewrite H1 in G1;
    apply update_user_rest in H1 as (_ & R1 & _) end.
  eapply grows_then_close; [exact G1|exact R1|exact Hi|congruence].
Qed.

Lemma moves_hold i reason : moves grows (hold i reason).
Proof.
  apply moves_committed; [exact _|]. intros d v d' H. op_inv.
  destruct (reservations d !! i) as [r|] eqn:Hi; [|by op_inv].
  destruct (bool_decide (r_state r = Open)) eqn:Ho; op_inv; [|reflexivity].
  apply bool_decide_eq_true_1 in Ho. apply grows_reservations, rows_stay_alter; [exact _|].
  intros y Ha. assert (y = r) as -> by congruence. repeat split. congruence.
Qed.

Lemma moves_age_out_one now i : moves grows (age_out_one now i).
Proof.
  apply moves_committed; [exact _|]. intros d v d' H. op_inv.
  destruct (reservations d !! i) as [r|] eqn:Hi; [|by op_inv].
  destruct (owned_by_running_job d i); [by op_inv|].
  destruct (holds (r_state r)) eqn:Ho; op_inv; [|reflexivity].
  match goal with H1 : update_user _ _ ?f ?d = _ |- _ =>
    pose proof (moves_update (r_chat_id r) always f d) as G1; rewrite H1 in G1;
    apply update_user_rest in H1 as (_ & R1 & _) end.
  eapply grows_then_close; [exact G1|exact R1|exact Hi|]. intros Hs. by rewrite Hs in Ho.
Qed.
Hint Resolve moves_age_out_one : moves.

Lemma moves_age_out older now : moves grows (ageOutReservations older now).
Proof. unfold ageOutReservations. walk. Qed.

Lemma moves_free_turn c h now : moves grows (takeFreeTurn c h now).
Proof. unfold takeFreeTurn. walk. Qed.
End billing.
#[export] Hint Resolve moves_reserve moves_settle moves_release moves_hold moves_age_out : moves.

(** ** Deposits, accounts, Stars *)

Lemma moves_rebate dep micro now cfg : moves grows (rebateFor dep micro now cfg).
Proof. unfold rebateFor. walk. Qed.
#[export] Hint Resolve moves_rebate : moves.

Lemma moves_creditDeposit i rate mn obs cfg now : moves grows (creditDeposit i rate mn obs cfg now).
Proof. unfold creditDeposit. walk. Qed.
#[export] Hint Resolve moves_creditDeposit : moves.
Lemma moves_creditDepositSafe i rate mn obs cfg now : moves grows (creditDepositSafe i rate mn obs cfg now).
Proof. unfold creditDepositSafe. walk. Qed.

Lemma moves_openAccount c m l g cap by_ now : moves grows (openAccount c m l g cap by_ now).
Proof. unfold openAccount, give_gift, record_invite. walk. Qed.
Lemma moves_reward c item r m en now : moves grows (payInviteReward c item r m en now).
Proof. unfold payInviteReward. walk. Qed.
Lemma moves_adminCredit c m note id now : moves grows (adminCredit c m note id now).
Proof. unfold adminCredit. walk. Qed.

Lemma moves_sendStarsInvoice c s i r now : moves grows (sendStarsInvoice c s i r now).
Proof. unfold sendStarsInvoice. walk. Qed.
Lemma moves_invoice_not_sent p : moves grows (invoice_not_sent p).
Proof. unfold invoice_not_sent. walk. Qed.
Lemma moves_expireInvoices now : moves grows (expireInvoices now).
Proof. unfold expireInvoices. walk. Qed.
Lemma moves_creditStars c sp now : moves grows (creditStarsPayment c sp now).
Proof. unfold creditStarsPayment. walk. Qed.
#[export] Hint Resolve moves_creditDepositSafe moves_creditStars : moves.

Lemma moves_beginRefund i note cb now : moves grows (beginRefund i note cb now).
Proof. unfold beginRefund. walk. Qed.
Lemma moves_finishRefund i now : moves grows (finishRefund i now).
Proof. unfold finishRefund. walk. Qed.
Lemma moves_undoRefund i why now : moves grows (undoRefund i why now).
Proof. unfold undoRefund. walk. Qed.
#[export] Hint Resolve moves_beginRefund moves_finishRefund moves_undoRefund : moves.
Lemma moves_refund_answer p i r now : moves grows (refund_answer p i r now).
Proof. unfold refund_answer. walk. Qed.

Lemma moves_claim_update u now : moves grows (claim_update u now).
Proof. intros d. unfold claim_update. destruct (tg_updates d !! u); [reflexivity|by apply grows_frame]. Qed.
#[export] Hint Resolve moves_refund_answer moves_claim_update : moves.
Lemma moves_park u c sp e now : moves grows (parkPayment u c sp e now).
Proof. unfold parkPayment. walk. Qed.
#[export] Hint Resolve moves_park : moves.

Lemma moves_take {A} u c sp (credit : op A) tries now :
  moves grows credit -> moves grows (takePaymentUpdate u c sp credit tries now).
Proof.
  intros Hc d. unfold takePaymentUpdate.
  assert (moves grows (creditThenClaim u credit now)) as Hm by (unfold creditThenClaim; walk).
  specialize (Hm d). destruct (creditThenClaim u credit now d) as [[[reply claimed]|e] d']; [done|].
  destruct (_ <? _); [done|]. etransitivity; [exact Hm|].
  assert (forall n, moves grows (_ ← parkPayment u c sp e now; mret (Parked (A := A) n e, delete u tries))) as Hp
    by (intros n; walk). apply Hp.
Qed.
Lemma moves_retryParked {A} (credit : parked -> op A) :
  (forall k, moves grows (credit k)) -> moves grows (retryParked credit).
Proof. intros Hc. unfold retryParked. walk. Qed.

(** ** Jobs *)

Lemma moves_createProposal c s p a now ttl : moves grows (createProposal c s p a now ttl).
Proof. unfold createProposal. walk. Qed.
Lemma moves_cancelProposal c i now : moves grows (cancelProposal c i now).
Proof.
  intros d. unfold cancelProposal. destruct (proposals d !! i) as [p|]; [|reflexivity].
  destruct (open_of c p); [by apply grows_frame|reflexivity].
Qed.
Lemma moves_expireCards now : moves grows (expireCards now).
Proof. unfold expireCards. walk. Qed.
Lemma moves_beginJob c i offer margin now : moves grows (beginJob c i offer margin now).
Proof. unfold beginJob, start_job, put_card. walk. Qed.
Lemma moves_unwind b e now : moves grows (unwind b e now).
Proof. unfold unwind. walk. Qed.
Lemma moves_settleCapped r cr m cap note now : moves grows (settleCapped r cr m cap note now).
Proof. unfold settleCapped. walk. Qed.
Lemma moves_finishJob b f k c u e now : moves grows (finishJob b f k c u e now).
Proof. unfold finishJob. walk. Qed.
#[export] Hint Resolve moves_unwind moves_settleCapped moves_finishJob : moves.
Lemma moves_pollVideos ans g m now : moves grows (pollVideos ans g m now).
Proof. unfold pollVideos, poll_one. walk. Qed.
Lemma moves_deliverItem i b dl s now : moves grows (deliverItem i b dl s now).
Proof. unfold deliverItem. walk. Qed.
#[export] Hint Resolve moves_deliverItem : moves.
Lemma moves_redeliverSweep dl s now : moves grows (redeliverSweep dl s now).
Proof. unfold redeliverSweep. walk. Qed.
Lemma moves_recover now : moves grows (recoverAfterRestart now).
Proof. unfold recoverAfterRestart, recover_one. walk. Qed.

(** ** wPCN, the address pool, the watcher *)

Lemma moves_recordCheck c raw now : moves grows (recordCheck c raw now).
Proof. unfold recordCheck. walk. Qed.
Lemma moves_noteCheck c raw s now : moves grows (noteCheck c raw s now).
Proof. unfold noteCheck. walk. Qed.
Lemma moves_dueChecks now : moves grows (dueChecks now).
Proof. unfold dueChecks. walk. Qed.

Lemma moves_take_rows txhash chat rows now : moves grows (take_rows txhash chat rows now).
Proof. induction rows as [|r rows IH]; cbn; walk. Qed.
Lemma moves_wpcn_ledger txhash chat micro rows now : moves grows (wpcn_ledger txhash chat micro rows now).
Proof. revert micro. induction rows as [|[r n] rows IH]; intros micro; cbn; walk. Qed.
#[export] Hint Resolve moves_take_rows moves_wpcn_ledger : moves.
Lemma moves_wpcn_credit chat txhash rows out now : moves grows (credit chat txhash rows out now).
Proof. unfold credit. walk. Qed.
#[export] Hint Resolve moves_wpcn_credit : moves.
Lemma moves_verifyAndCredit enabled c raw reply own now : moves grows (verifyAndCredit enabled c raw reply own now).
Proof. unfold verifyAndCredit. walk. Qed.

(** The two operations that change who owns an address touch nothing else, and
    take no address away. *)
Definition only_addresses (d d' : db) : Prop :=
  (exists t, d' = on_pcn_addresses (fun _ => t) d) /\ rows_stay owned (pcn_addresses d) (pcn_addresses d').
#[export] Instance only_addresses_preorder : PreOrder only_addresses.
Proof.
  split; [intros d; split; [exists (pcn_addresses d); by destruct d|reflexivity]|].
  intros d1 d2 d3 [[t ->] ?] [[t' ->] ?]. split; [by exists t'|by etransitivity].
Qed.

Lemma grows_addresses d d' : only_addresses d d' -> (pool_inv d -> pool_inv d') -> grows d d'.
Proof.
  intros [[t ->] Ht] Hp. split; try done; cbn; try reflexivity. by exists []; rewrite app_nil_r.
Qed.

Lemma moves_only_insert a :
  moves only_addresses (exec (fun d => on_pcn_addresses <[fresh_id (pcn_addresses d) := a]> d)).
Proof.
  apply moves_exec. intros d. split; [by eexists|]. apply rows_stay_new; [exact _|]. apply fresh_id_fresh.
Qed.
#[export] Hint Resolve moves_only_insert : moves.

Lemma only_import text start f l : moves only_addresses (importPool text start f l).
Proof. unfold importPool, import_row. walk. Qed.

Lemma only_allocate c now : moves only_addresses (allocateAddress c now).
Proof.
  apply moves_committed; [exact _|]. intros d v d' H. op_inv.
  destruct (find_row _ _) as [[j b]|]; [by op_inv|]. op_inv.
  destruct (first_free d) as [[i a]|] eqn:Hf; [|by op_inv].
  destruct (bool_decide (a_chat_id a = None)) eqn:Hc; [|by op_inv]. op_inv.
  apply bool_decide_eq_true_1 in Hc. apply first_free_Some in Hf as (Hi & _).
  split; [by eexists|]. cbn. rewrite <- (alter_put (assign c now) _ _ _ Hi).
  apply rows_stay_alter; [exact _|]. intros x Hx. assert (x = a) as -> by congruence.
  repeat split; cbn; [congruence|by eexists].
Qed.

Lemma moves_importPool text start f l : moves grows (importPool text start f l).
Proof. intros d. apply grows_addresses; [apply only_import|]. apply keeps_import. Qed.
Lemma moves_allocate c now : moves grows (allocateAddress c now).
Proof. intros d. apply grows_addresses; [apply only_allocate|]. apply keeps_allocate. Qed.

Lemma moves_update_dep i f : moves grows (update_dep i f).
Proof. unfold update_dep. walk. Qed.
Lemma moves_insert_deposit t a c s r h b now : moves grows (insert_deposit t a c s r h b now).
Proof. unfold insert_deposit. walk. Qed.
#[export] Hint Resolve moves_update_dep moves_insert_deposit : moves.
Lemma moves_hold_dep i why : moves grows (hold_dep i why).
Proof. unfold hold_dep. walk. Qed.
#[export] Hint Resolve moves_hold_dep : moves.

Section watch.
Context (cfg : watch_cfg) (rate : rate_reading) (floorFlag : bool) (now : Z).

Lemma moves_unconfirmed i dep n : moves grows (unconfirmed i dep n).
Proof. unfold unconfirmed. walk. Qed.
Lemma moves_credit_confirmed i dep tx c b : moves grows (credit_confirmed cfg rate floorFlag now i dep tx c b).
Proof. unfold credit_confirmed. walk. Qed.
Hint Resolve moves_unconfirmed moves_credit_confirmed : moves.
Lemma moves_redrive i dep ans : moves grows (redriveDeposit cfg rate floorFlag now i dep ans).
Proof. unfold redriveDeposit. walk. Qed.
Hint Resolve moves_redrive : moves.
Lemma moves_item item addr chat ans : moves grows (handleConfirmedItem cfg rate floorFlag now item addr chat ans).
Proof. unfold handleConfirmedItem. walk. Qed.
Lemma moves_mempool addr chat known items : moves grows (mempool_pass addr chat known items now).
Proof. unfold mempool_pass. walk. Qed.
Lemma moves_take_entry w e : moves grows (take_entry w e).
Proof. unfold take_entry. walk. Qed.
Hint Resolve moves_item moves_mempool moves_take_entry : moves.
Lemma moves_batches fuel n answers w rest : moves grows (take_batches fuel n answers w rest).
Proof.
  revert n rest. induction fuel as [|fuel IH]; intros n rest; cbn [take_batches]; [walk|].
  destruct rest; walk.
Qed.
Hint Resolve moves_batches : moves.

Lemma moves_take_address ex w addr p : moves grows (take_address cfg rate floorFlag now ex w addr p).
Proof. unfold take_address. walk. apply moves_each; [exact _|]. intros it q. walk. Qed.
Lemma moves_redrive_row ex x p : moves grows (redrive_row cfg rate floorFlag now ex x p).
Proof. unfold redrive_row. walk. Qed.
Lemma moves_recheck_one ex x p : moves grows (recheck_one now ex x p).
Proof. unfold recheck_one. walk. Qed.

Lemma moves_tick ex enabled : moves grows (tick cfg rate floorFlag now ex enabled).
Proof.
  assert (forall w l p, moves grows (each (take_address cfg rate floorFlag now ex w) l p)) as H1
    by (intros; apply moves_each; [exact _|]; intros; apply moves_take_address).
  assert (forall l p, moves grows (each (redrive_row cfg rate floorFlag now ex) l p)) as H2
    by (intros; apply moves_each; [exact _|]; intros; apply moves_redrive_row).
  assert (forall l p, moves grows (each (recheck_one now ex) l p)) as H3
    by (intros; apply moves_each; [exact _|]; intros; apply moves_recheck_one).
  assert (forall w p, moves grows (tick_work cfg rate floorFlag now ex w p)) as H4
    by (intros; unfold tick_work, reorgRecheck; walk).
  unfold tick. walk.
Qed.
End watch.
