(* ===== verification/BotGates.v ===== *)
(** * What the watcher credits

    Every row a whole tick turns into a credited one, traced back to the answers
    of the explorer that tick heard: the switch, the health of the index, and the
    gates of the one deposit. *)

From S2P Require Import Prelude JsInt BotMoney BotDb BotInv BotBilling BotDeposits BotRewards BotStars BotJobs BotAddress BotPool BotWpcn BotWatch BotHistory.
Local Open Scope Z_scope.
Local Open Scope string_scope.

(** ** What a credit went through *)

Section gates.
Context (cfg : watch_cfg) (rate : rate_reading) (floorFlag : bool) (now i : Z) (dep : deposit).

(** The second source agreed, or the value is below the threshold that asks it. *)
Definition agreed (tx : tx_body) (valueMicro : Z) : Prop :=
  (valueMicro < CORROBORATE_ABOVE_MICRO cfg)%Z \/
  exists ask tx2 reachable, corroborator cfg = Some ask /\ ask (d_txid dep) = TxRead tx2 reachable /\
    js_same (tx_height tx2) (tx_height tx) = true /\ js_same (tx_block_hash tx2) (tx_block_hash tx) = true.

Lemma hold_dep_held why d r d' : hold_dep i why d = (Ok r, d') -> r = RHeld.
Proof. unfold hold_dep, update_dep. intros H. by op_inv. Qed.

Lemma unconfirmed_pending reach d r d' : unconfirmed i dep reach d = (Ok r, d') -> r = RPending.
Proof.
  unfold unconfirmed, update_dep. destruct (js_same _ _); intros H; by op_inv.
Qed.

Lemma credit_confirmed_gates tx confs coinbase d d' :
  credit_confirmed cfg rate floorFlag now i dep tx confs coinbase d = (Ok RCredited, d') ->
  exists nano valueMicro rest, satsToNanoUsd (d_amount_sat dep) (rt_e12 rate) = Ok nano /\
    splitNano nano = Ok (valueMicro, rest) /\ agreed tx valueMicro.
Proof.
  unfold credit_confirmed. intros H. op_inv.
  repeat match goal with H : lift_money _ _ = (Ok _, _) |- _ => apply lift_money_Ok in H as [? ->] end.
  match goal with x : (Z * Z)%type |- _ => destruct x as [v rest] end. op_inv.
  match goal with H : splitNano ?n = _ |- _ => exists n, v, rest; split_and!; [done|done|] end.
  destruct (Z.ltb_spec v (CORROBORATE_ABOVE_MICRO cfg)) as [Hlt|_]; [by left|]. right.
  destruct (corroborator cfg) as [ask|]; [|op_inv; simplify_eq].
  destruct (ask (d_txid dep)) as [|why|tx2 reach] eqn:Hask; [by op_inv| |].
  - op_inv. match goal with H : hold_dep _ _ _ = _ |- _ => by apply hold_dep_held in H end.
  - destruct (js_same (tx_height tx2) (tx_height tx)) eqn:Hsh,
      (js_same (tx_block_hash tx2) (tx_block_hash tx)) eqn:Hsb; cbn [negb orb] in *; [by eauto 8|..];
      op_inv; match goal with H : hold_dep _ _ _ = _ |- _ => by apply hold_dep_held in H end.
Qed.

(** The gates one answer of the explorer puts a deposit through: the transaction
    was read, has an integer height at or above the consensus floor and equal to
    the recorded one, says whether it is a coinbase, has the confirmations that
    kind needs, is not in another status than confirmed, the address has an
    owner, the rate is usable, and above the threshold a second source gave the
    same height and block hash. *)
Definition went_through (answer : tx_answer) : Prop :=
  exists tx reachable height coinbase confs nano valueMicro rest,
    answer = TxRead tx reachable /\ tx_height tx = JInt height /\
    (0 < height /\ MIN_BLOCK_HEIGHT cfg <= height)%Z /\
    (d_block_height dep = None \/ d_block_height dep = Some height) /\
    tx_is_coinbase tx = JBool coinbase /\ tx_confirmations tx = JInt confs /\
    (MIN_CONF cfg <= confs /\ (coinbase = true -> MIN_CONF_COINBASE cfg <= confs))%Z /\
    (is_truthy (tx_status tx) = false \/ tx_status tx = JString "confirmed") /\
    is_Some (d_chat_id dep) /\ rt_usable rate = true /\
    satsToNanoUsd (d_amount_sat dep) (rt_e12 rate) = Ok nano /\
    splitNano nano = Ok (valueMicro, rest) /\ agreed tx valueMicro.

(** A deposit is reported credited only through them. *)
Lemma redrive_gates answer d d' :
  redriveDeposit cfg rate floorFlag now i dep answer d = (Ok RCredited, d') -> went_through answer.
Proof.
  destruct answer as [|why|tx reach]; unfold redriveDeposit; [by intros Hr; op_inv..|].
  destruct (tx_height tx) as [| | |height| |] eqn:Hh; cbn [as_int];
    try by intros Hr; apply unconfirmed_pending in Hr.
  destruct (Z.leb_spec height 0); [by intros Hr%unconfirmed_pending|].
  destruct (Z.ltb_spec height (MIN_BLOCK_HEIGHT cfg)); [by intros H'; op_inv|].
  destruct (match d_block_height dep with Some h => _ | None => _ end) eqn:Hd; [by intros H'%hold_dep_held|].
  destruct (tx_is_coinbase tx) as [| |coinbase| | |] eqn:Hc; cbn [as_bool]; try by intros H'%hold_dep_held.
  destruct (tx_confirmations tx) as [| | |confs| |] eqn:Hn; cbn [as_int]; try by intros H'%hold_dep_held.
  destruct (Z.ltb_spec confs (needed_confirmations cfg coinbase)) as [|Hconf]; [by intros H'; op_inv|].
  destruct (is_truthy (tx_status tx) && _) eqn:Hs; [by intros H'%hold_dep_held|].
  destruct (bool_decide (d_chat_id dep = None)) eqn:Hch; [by intros H'%hold_dep_held|].
  destruct (rt_usable rate) eqn:Hr; cbn [negb]; [|by intros H'; op_inv].
  intros (nano & v & rest & ? & ? & ?)%credit_confirmed_gates.
  exists tx, reach, height, coinbase, confs, nano, v, rest. split_and!; try done.
  - destruct (d_block_height dep) as [h|]; [right|by left]. destruct (Z.eqb_spec h height); by subst.
  - unfold needed_confirmations in Hconf. destruct coinbase; lia.
  - intros ->. unfold needed_confirmations in Hconf. lia.
  - destruct (is_truthy (tx_status tx)); [right|by left]. cbn in Hs. unfold js_same in Hs.
    destruct (tx_status tx); try done; by apply negb_false_iff, bool_decide_eq_true_1 in Hs.
  - apply bool_decide_eq_false_1 in Hch. by destruct (d_chat_id dep).
Qed.
End gates.

(** ** Deposits credited by a step *)

(** The columns that say which payment a row is. *)
Definition same_dep (a b : deposit) : Prop :=
  d_txid b = d_txid a /\ d_address b = d_address a /\ d_chat_id b = d_chat_id a /\
  d_amount_sat b = d_amount_sat a /\ d_block_height b = d_block_height a.
#[export] Instance same_dep_preorder : PreOrder same_dep.
Proof. split; [by repeat split|]. unfold same_dep. intros p q r ? ?. intuition congruence. Qed.

(** Every credited row of [d'] was credited in [d] or is one [G] accounts for. *)
Definition credits_by (G : Z -> deposit -> Prop) (d d' : db) : Prop :=
  forall i row', pcn_deposits d' !! i = Some row' -> d_status row' = Credited ->
    (exists row, pcn_deposits d !! i = Some row /\ d_status row = Credited /\ same_dep row row') \/ G i row'.

Definition respects (G : Z -> deposit -> Prop) : Prop := forall i a b, same_dep a b -> G i a -> G i b.

Section credits.
Context (G : Z -> deposit -> Prop) (HG : respects G).
Local Notation V := (credits_by G).

#[local] Instance credits_preorder : PreOrder V.
Proof using HG.
  split.
  - intros d i row Hi Hs. left. by exists row.
  - intros d1 d2 d3 H12 H23 i r3 Hi Hs. destruct (H23 i r3 Hi Hs) as [(r2 & H2 & Hs2 & S23)|?]; [|by right].
    destruct (H12 i r2 H2 Hs2) as [(r1 & ? & ? & S12)|?]; [left|right; by eapply HG].
    exists r1. split_and!; [done..|]. by etransitivity.
Qed.

Lemma credits_kept d d' : pcn_deposits d' = pcn_deposits d -> V d d'.
Proof. intros He i row Hi Hs. left. rewrite He in Hi. by exists row. Qed.

(** A step that credits nothing credits nothing whoever accounts for it. *)
Lemma credits_none d d' : credits_by (fun _ _ => False) d d' -> V d d'.
Proof. intros H i row Hi Hs. destruct (H i row Hi Hs) as [?|[]]. by left. Qed.
End credits.

(** ** Steps that credit nothing *)

Definition nobody (_ : Z) (_ : deposit) : Prop := False.
Lemma nobody_respects : respects nobody.
Proof. by intros i a b _ []. Qed.
#[export] Instance nobody_preorder : PreOrder (credits_by nobody).
Proof. apply credits_preorder, nobody_respects. Qed.

Definition deposits_kept (d d' : db) : Prop := pcn_deposits d' = pcn_deposits d.
#[export] Instance deposits_kept_preorder : PreOrder deposits_kept.
Proof. split; [done|]. intros p q r Hpq Hqr. unfold deposits_kept in *. congruence. Qed.

Lemma moves_kept f : (forall d, pcn_deposits (f d) = pcn_deposits d) -> moves deposits_kept (exec f).
Proof. intros H. apply moves_exec. exact H. Qed.
Lemma kept_insert_ledger c x k idem rate note now : moves deposits_kept (insert_ledger c x k idem rate note now).
Proof. intros d. unfold insert_ledger. destruct c; [|done]. by destruct (key_taken idem d). Qed.
Lemma kept_update_user chat guard f : moves deposits_kept (update_user chat guard f).
Proof. by apply moves_update_user; [exact _|]. Qed.
Lemma deposits_kept_lift {A} (r : result money_err A) : moves deposits_kept (lift_money r).
Proof. unfold lift_money. walk. Qed.
#[export] Hint Resolve kept_insert_ledger kept_update_user deposits_kept_lift : moves.
#[export] Hint Extern 2 (moves deposits_kept (exec _)) => by apply moves_kept : moves.
Lemma kept_rebate dep micro now cfg : moves deposits_kept (rebateFor dep micro now cfg).
Proof. unfold rebateFor. walk. Qed.
#[export] Hint Resolve kept_rebate : moves.

(** An UPDATE that leaves no row credited that was not, with its columns. *)
Lemma nothing_update i f :
  (forall a, d_status (f a) = Credited -> d_status a = Credited /\ same_dep a (f a)) ->
  moves (credits_by nobody) (update_dep i f).
Proof.
  intros Hf. apply moves_exec. intros d j row Hj Hs. left. cbn in Hj.
  destruct (decide (i = j)) as [->|Hne].
  - rewrite lookup_alter_eq in Hj. destruct (pcn_deposits d !! j) as [a|]; [|done].
    injection Hj as <-. destruct (Hf a Hs). by exists a.
  - rewrite lookup_alter_ne in Hj by done. by exists row.
Qed.
#[export] Hint Extern 1 (moves (credits_by nobody) (update_dep _ _)) =>
  apply nothing_update; intros ?; cbn; first [discriminate | by repeat split] : moves.

Lemma nothing_kept {A} (m : op A) : moves deposits_kept m -> moves (credits_by nobody) m.
Proof. intros H d. apply credits_kept, H. Qed.

Lemma nothing_exec f : (forall d, pcn_deposits (f d) = pcn_deposits d) -> moves (credits_by nobody) (exec f).
Proof. intros H. by apply nothing_kept, moves_kept. Qed.
#[export] Hint Extern 2 (moves (credits_by nobody) (exec _)) => by apply nothing_exec : moves.

Lemma nothing_insert t a c s r h b now : s <> Credited -> moves (credits_by nobody) (insert_deposit t a c s r h b now).
Proof.
  intros Hs. unfold insert_deposit. apply moves_bind; [exact _|by apply moves_query; exact _|]. intros [].
  { apply moves_ret; exact _. }
  apply moves_bind; [exact _| |intros u; apply moves_ret; exact _].
  apply moves_exec. intros d i row Hi Hc. left. cbn in Hi.
  destruct (decide (i = fresh_id (pcn_deposits d))) as [->|Hne].
  - rewrite lookup_insert_eq in Hi. by injection Hi as <-.
  - rewrite lookup_insert_ne in Hi by done. by exists row.
Qed.
#[export] Hint Extern 1 (moves (credits_by nobody) (insert_deposit _ _ _ _ _ _ _ _)) =>
  by apply nothing_insert : moves.

Lemma nothing_hold i why : moves (credits_by nobody) (hold_dep i why).
Proof. unfold hold_dep. walk. Qed.
Lemma nothing_unconfirmed i dep reach : moves (credits_by nobody) (unconfirmed i dep reach).
Proof. unfold unconfirmed. walk. Qed.
#[export] Hint Resolve nothing_hold nothing_unconfirmed : moves.
Lemma nothing_mempool addr chat known items now : moves (credits_by nobody) (mempool_pass addr chat known items now).
Proof. unfold mempool_pass. walk. Qed.
Lemma nothing_take_entry w e : moves (credits_by nobody) (take_entry w e).
Proof. unfold take_entry. walk. Qed.
#[export] Hint Resolve nothing_mempool nothing_take_entry : moves.
Lemma nothing_batches fuel n answers w rest : moves (credits_by nobody) (take_batches fuel n answers w rest).
Proof.
  revert n rest. induction fuel as [|fuel IH]; intros n rest; cbn [take_batches]; [walk|]. destruct rest; walk.
Qed.
Lemma nothing_recheck_one now ex x p : moves (credits_by nobody) (recheck_one now ex x p).
Proof. unfold recheck_one. walk. Qed.
Lemma nothing_recheck now ex : moves (credits_by nobody) (reorgRecheck now ex).
Proof.
  assert (forall l p, moves (credits_by nobody) (each (recheck_one now ex) l p)) as H
    by (intros; apply moves_each; [exact _|]; intros; apply nothing_recheck_one).
  unfold reorgRecheck. walk.
Qed.

(** ** The step that credits *)

Lemma kept_at {A} (m : op A) d r d' : m d = (r, d') -> moves deposits_kept m -> pcn_deposits d' = pcn_deposits d.
Proof. intros H Hm. specialize (Hm d). by rewrite H in Hm. Qed.

(** The write of [creditDeposit]: none, or its one row. *)
Lemma creditDeposit_row i rate mn obs cfg now d v d' :
  creditDeposit i rate mn obs cfg now d = (Ok v, d') ->
  pcn_deposits d' = pcn_deposits d \/
  (cr_result v = CREDITED /\ exists row micro dust, pcn_deposits d !! i = Some row /\
     pcn_deposits d' = <[i := credited_row row micro rate obs dust now]> (pcn_deposits d)).
Proof.
  unfold creditDeposit. intros H. destruct (negb _); [by op_inv|]. destruct (_ <=? _)%Z; [by op_inv|]. op_inv.
  destruct (pcn_deposits d !! i) as [dep|] eqn:Hi; [|by op_inv].
  destruct (bool_decide (d_status dep = Credited)); [op_inv; by left|]. op_inv.
  destruct (find_row _ _) as [[ai addr]|]; [|by op_inv]. cbv zeta in H. op_inv.
  match goal with x : (Z * Z)%type |- _ => destruct x as [micro remainder] end. op_inv.
  right. split; [done|]. exists dep, micro, (d_amount_sat dep <? mn)%Z. split; [done|].
  apply kept_at in Hs, Hs0, Hs1, Hs2, Hs5; [|walk..]. cbn in Hs5. congruence.
Qed.

Lemma creditDepositSafe_credits i rate mn obs cfg now d row :
  pcn_deposits d !! i = Some row ->
  credits_by (fun j r => j = i /\ same_dep row r /\
      exists v, (creditDepositSafe i rate mn obs cfg now d).1 = Ok v /\ cr_result v = CREDITED)
    d (creditDepositSafe i rate mn obs cfg now d).2.
Proof.
  intros Hi. unfold creditDepositSafe, try_catch.
  destruct (creditDeposit i rate mn obs cfg now d) as [[v|e] d1] eqn:E; cbn [fst snd].
  - apply creditDeposit_row in E as [Hk|(Hv & row0 & micro & dust & Hi0 & Hd)]; [by apply credits_kept|].
    assert (row0 = row) as -> by congruence. intros j r Hj Hs. rewrite Hd in Hj.
    destruct (decide (j = i)) as [->|Hne].
    + rewrite lookup_insert_eq in Hj. injection Hj as <-. right. split_and!; [done|by repeat split|by exists v].
    + rewrite lookup_insert_ne in Hj by done. left. by exists r.
  - assert (d1 = d) as ->.
    { revert E. unfold creditDeposit. destruct (negb _); [by intros [= _ <-]|]. cbv zeta.
      destruct (_ <=? _)%Z; [by intros [= _ <-]|]. unfold immediate.
      match goal with |- context [match ?m with pair _ _ => _ end] => destruct m as [[]] end; by intros [= _ <-]. }
    by destruct e; apply credits_kept.
Qed.

(** The outcome says it: a row is credited only when [RCredited] comes back, and
    it is the deposit's own. *)
Section redrive_credits.
Context (cfg : watch_cfg) (rate : rate_reading) (floorFlag : bool) (now : Z).

Definition reported (i : Z) (row : deposit) (r : result exn redriven) (j : Z) (r' : deposit) : Prop :=
  j = i /\ same_dep row r' /\ r = Ok RCredited.

Lemma reported_respects i row r : respects (reported i row r).
Proof. intros j a b Hab (-> & Ha & ->). split_and!; [done|by etransitivity|done]. Qed.
#[local] Instance reported_preorder i row r : PreOrder (credits_by (reported i row r)).
Proof. apply credits_preorder, reported_respects. Qed.

(** A first part that credits nothing, then the rest from where it ended. *)
Lemma credits_bind {A} i row (m : op A) f d :
  moves (credits_by nobody) m ->
  (forall a d1, m d = (Ok a, d1) -> credits_by (reported i row (f a d1).1) d1 (f a d1).2) ->
  credits_by (reported i row ((m ≫= f) d).1) d ((m ≫= f) d).2.
Proof.
  intros Hm Hf. specialize (Hm d). unfold mbind, op_bind. destruct (m d) as [[a|e] d1].
  - etransitivity; [apply credits_none, Hm|by apply Hf].
  - by apply credits_none.
Qed.

Lemma credits_nothing i row (m : op redriven) d :
  moves (credits_by nobody) m -> credits_by (reported i row (m d).1) d (m d).2.
Proof. intros Hm. apply credits_none, Hm. Qed.

(** From the credit on: the flags touch no column that says which payment it is. *)
Lemma credit_then_flags i row rate' mn obs rb (flags : list string) d :
  pcn_deposits d !! i = Some row ->
  let m := (res ← creditDepositSafe i rate' mn obs rb now;
            _ ← (match flags with [] => mret tt | _ => update_dep i (add_flag None (String.concat "," flags)) end);
            mret (match cr_result res with CREDITED => RCredited | r => RResult r end)) d in
  credits_by (reported i row m.1) d m.2.
Proof.
  intros Hi. cbv zeta. unfold mbind at 1, op_bind at 1.
  unfold mbind at 2, op_bind at 2.
  pose proof (creditDepositSafe_credits i rate' mn obs rb now d row Hi) as Hc.
  destruct (creditDepositSafe i rate' mn obs rb now d) as [[res|e] d1]; cbn [fst snd] in *.
  - match goal with |- context [reported i row (?n d1).1] =>
      assert ((n d1).1 = Ok (match cr_result res with CREDITED => RCredited | r => RResult r end)) as Hr
        by (by destruct flags);
      assert (moves (credits_by nobody) n) as Hn by walk; rewrite Hr end.
    etransitivity; [|apply credits_none, Hn].
    intros j r Hj Hs. destruct (Hc j r Hj Hs) as [?|(-> & Hd & v & [= <-] & Hv)]; [by left|right].
    by rewrite Hv.
  - intros j r Hj Hs. destruct (Hc j r Hj Hs) as [?|(-> & Hd & v & [=] & Hv)]; by left.
Qed.

Lemma credit_confirmed_credits i dep tx confs coinbase d row :
  pcn_deposits d !! i = Some row ->
  let m := credit_confirmed cfg rate floorFlag now i dep tx confs coinbase d in
  credits_by (reported i row m.1) d m.2.
Proof.
  intros Hi. cbv zeta. unfold credit_confirmed.
  apply credits_bind; [by apply nothing_kept; walk|]. intros nano d1 [_ ->]%lift_money_Ok.
  apply credits_bind; [by apply nothing_kept; walk|]. intros [value rest] d1 [_ ->]%lift_money_Ok.
  apply credits_bind; [walk|]. intros [r|] d1 Hm; [by apply credits_nothing, moves_ret; exact _|].
  assert (d1 = d) as ->.
  { destruct (_ <? _)%Z; [by op_inv|]. destruct (corroborator cfg) as [ask|]; [|by op_inv].
    destruct (ask _); [by op_inv..|]. destruct (_ || _); by op_inv. }
  do 2 (apply credits_bind; [walk|]; intros ? ? [-> ->]%query_Ok). by apply credit_then_flags.
Qed.
End redrive_credits.

(** ** Rows of other deposits *)

Definition others_kept (i : Z) (d d' : db) : Prop :=
  forall j, j <> i -> pcn_deposits d' !! j = pcn_deposits d !! j.
#[export] Instance others_kept_preorder i : PreOrder (others_kept i).
Proof. split; [done|]. intros p q r Hpq Hqr j Hj. by rewrite (Hqr j Hj), (Hpq j Hj). Qed.

Lemma others_deposits {A} i (m : op A) : moves deposits_kept m -> moves (others_kept i) m.
Proof. intros H d j _. by rewrite (H d). Qed.
Lemma others_update i f : moves (others_kept i) (update_dep i f).
Proof. apply moves_exec. intros d j Hj. cbn. by rewrite lookup_alter_ne. Qed.
Lemma others_put i a : moves (others_kept i) (exec (on_pcn_deposits <[i := a]>)).
Proof. apply moves_exec. intros d j Hj. cbn. by rewrite lookup_insert_ne. Qed.
#[export] Hint Resolve others_update others_put : moves.
#[export] Hint Extern 2 (moves (others_kept _) (exec _)) => apply others_deposits; by apply moves_kept : moves.
#[export] Hint Extern 1 (moves (others_kept _) (insert_ledger _ _ _ _ _ _ _)) =>
  apply others_deposits, kept_insert_ledger : moves.
#[export] Hint Extern 1 (moves (others_kept _) (update_user _ _ _)) => apply others_deposits, kept_update_user : moves.
#[export] Hint Extern 1 (moves (others_kept _) (lift_money _)) => apply others_deposits, deposits_kept_lift : moves.
#[export] Hint Extern 1 (moves (others_kept _) (rebateFor _ _ _ _)) => apply others_deposits, kept_rebate : moves.

Lemma others_credit i rate mn obs cfg now : moves (others_kept i) (creditDepositSafe i rate mn obs cfg now).
Proof. unfold creditDepositSafe, creditDeposit. walk. Qed.
#[export] Hint Resolve others_credit : moves.
Lemma others_redrive cfg rate flag now i dep ans : moves (others_kept i) (redriveDeposit cfg rate flag now i dep ans).
Proof. unfold redriveDeposit, credit_confirmed, unconfirmed, hold_dep. walk. Qed.
Lemma others_redrive_row cfg rate flag now ex x p :
  moves (others_kept x.1) (redrive_row cfg rate flag now ex x p).
Proof.
  assert (moves (others_kept x.1) (redriveDeposit cfg rate flag now x.1 x.2 (ex_redrive ex x.1))) as H
    by apply others_redrive.
  unfold redrive_row. walk.
Qed.

(** ** The rows of the sweep are those of the table *)

Lemma insert_key_perm {A} (key : A -> Z) x l : insert_key key x l ≡ₚ x :: l.
Proof.
  induction l as [|y l IH]; cbn; [done|]. destruct (_ <=? _)%Z; [done|]. rewrite IH. by apply perm_swap.
Qed.
Lemma sort_key_perm {A} (key : A -> Z) l : sort_key key l ≡ₚ l.
Proof. induction l as [|x l IH]; cbn; [done|]. by rewrite insert_key_perm, IH. Qed.

Lemma NoDup_take {A} n (l : list A) : NoDup l -> NoDup (take n l).
Proof. rewrite <- (take_drop n l) at 1. by intros (? & _)%NoDup_app. Qed.

Definition as_stored (d : db) (l : list (Z * deposit)) : Prop :=
  NoDup l.*1 /\ forall x, x ∈ l -> pcn_deposits d !! x.1 = Some x.2.

Lemma open_deposits_stored d : as_stored d (open_deposits d).
Proof.
  assert (forall x, x ∈ open_deposits d -> pcn_deposits d !! x.1 = Some x.2) as Hin.
  { intros [i row] Hx. unfold open_deposits in Hx. apply (sublist_subseteq _ _ (sublist_take _ _)) in Hx.
    rewrite sort_key_perm in Hx. apply list_elem_of_filter in Hx as [_ Hx]. by apply elem_of_map_to_list in Hx. }
  split; [|done]. apply NoDup_fmap_fst.
  { intros i a b Ha%Hin Hb%Hin. cbn in *. congruence. }
  unfold open_deposits. apply NoDup_take. rewrite sort_key_perm. apply NoDup_filter, NoDup_map_to_list.
Qed.

(** ** A whole tick *)

Lemma went_through_same cfg rate a b ans : same_dep a b -> went_through cfg rate a ans -> went_through cfg rate b ans.
Proof.
  intros (Ht & _ & Hc & Hs & Hh) (tx & reach & height & cb & confs & nano & v & rest & H).
  exists tx, reach, height, cb, confs, nano, v, rest. unfold agreed in *. by rewrite Ht, Hc, Hs, Hh.
Qed.

Section tick_gates.
Context (cfg : watch_cfg) (rate : rate_reading) (floorFlag : bool) (now : Z) (ex : explorer).

(** The answer that vouches for the row: the one to the sweep's question about it,
    or the one to the question about its transaction, asked because a healthy
    index's history of its address showed it. *)
Definition asked (i : Z) (row : deposit) (answer : tx_answer) : Prop :=
  answer = ex_redrive ex i \/
  (answer = ex_tx ex (d_txid row) (d_address row) /\
   exists index known unconfirmed confirmed,
     ex_txs ex (d_address row) = TxsRead index known unconfirmed confirmed /\ indexHealth index = true).

Definition gated (i : Z) (row : deposit) : Prop :=
  exists answer, asked i row answer /\ went_through cfg rate row answer.

Lemma gated_respects : respects gated.
Proof.
  intros i a b Hab (ans & Hask & Hw). exists ans. split; [|by eapply went_through_same].
  destruct Hab as (Ht & Ha & _). unfold asked in *. by rewrite Ht, Ha.
Qed.
#[local] Instance gated_preorder : PreOrder (credits_by gated).
Proof. apply credits_preorder, gated_respects. Qed.

Lemma gated_nothing {A} (m : op A) : moves (credits_by nobody) m -> moves (credits_by gated) m.
Proof. intros H d. apply credits_none, H. Qed.

Lemma redrive_credits i dep ans d :
  pcn_deposits d !! i = Some dep -> (forall r, same_dep dep r -> asked i r ans) ->
  credits_by gated d (redriveDeposit cfg rate floorFlag now i dep ans d).2.
Proof.
  intros Hi Hask.
  assert (credits_by (reported i dep (redriveDeposit cfg rate floorFlag now i dep ans d).1) d
            (redriveDeposit cfg rate floorFlag now i dep ans d).2) as H.
  { unfold redriveDeposit. destruct ans as [|w|tx n]; [apply credits_nothing; walk..|].
    repeat (match goal with |- context [match ?x with _ => _ end] => destruct x end;
            try solve [apply credits_nothing; walk]); by apply credit_confirmed_credits. }
  intros j r Hj Hs. destruct (H j r Hj Hs) as [?|(-> & Hd & Hr)]; [by left|right].
  exists ans. split; [by apply Hask|]. eapply went_through_same; [exact Hd|].
  eapply (redrive_gates cfg rate floorFlag now i). rewrite <- Hr. apply surjective_pairing.
Qed.

(** Items of an address whose history a healthy index gave. *)
Lemma item_credits item addr chat index known unconf confirmed :
  ex_txs ex addr = TxsRead index known unconf confirmed -> indexHealth index = true ->
  moves (credits_by gated) (handleConfirmedItem cfg rate floorFlag now item addr chat (ex_tx ex (it_txid item) addr)).
Proof.
  intros Hx Hh d. unfold handleConfirmedItem. destruct (item_amount item); [|apply credits_kept; done].
  unfold mbind at 1, op_bind at 1, query at 1.
  destruct (find_row _ _) as [[i dep]|] eqn:Hf.
  - apply find_row_Some in Hf as [Hi Hd]. unfold dep_is in Hd. apply andb_true_iff in Hd as [Ht Ha].
    apply bool_decide_eq_true_1 in Ht, Ha.
    assert (credits_by gated d (redriveDeposit cfg rate floorFlag now i dep (ex_tx ex (it_txid item) addr) d).2) as H.
    { apply redrive_credits; [done|]. intros r (Htr & Har & _). right. rewrite Htr, Har, Ht, Ha. split; [done|eauto 6]. }
    destruct (d_status dep); try (by apply credits_kept); unfold mbind, op_bind;
      by destruct (redriveDeposit _ _ _ _ _ _ _ d) as [[r|e] d1].
  - apply gated_nothing. walk.
Qed.

Lemma address_credits w addr p : moves (credits_by gated) (take_address cfg rate floorFlag now ex w addr p).
Proof.
  unfold take_address. destruct (ex_txs ex addr) as [| |index known unconf confirmed] eqn:Hx;
    [apply moves_throw; exact _|apply moves_ret; exact _|].
  destruct (indexHealth index) eqn:Hh; cbn [negb]; [|apply moves_ret; exact _].
  destruct (watched_row w addr) as [[i row]|]; [|apply moves_ret; exact _].
  apply moves_bind; [exact _|apply gated_nothing, nothing_mempool|]. intros u.
  apply moves_each; [exact _|]. intros it q.
  apply moves_bind; [exact _|by eapply item_credits|]. intros r. apply moves_ret. exact _.
Qed.

Lemma redrive_row_credits x p d :
  pcn_deposits d !! x.1 = Some x.2 -> credits_by gated d (redrive_row cfg rate floorFlag now ex x p d).2.
Proof.
  intros Hx. assert (credits_by gated d
      (redriveDeposit cfg rate floorFlag now x.1 x.2 (ex_redrive ex x.1) d).2) as H
    by (apply redrive_credits; [done|by left]).
  unfold redrive_row, try_catch, mbind, op_bind.
  destruct (redriveDeposit _ _ _ _ _ _ _ d) as [[r|e] d1]; [done|].
  etransitivity; [exact H|]. clear H. cbn [snd].
  match goal with |- credits_by _ d1 (?m d1).2 => apply (gated_nothing m) end. walk.
Qed.

(** The sweep meets each row as the snapshot read it. *)
Lemma sweep_credits l : forall p d, as_stored d l ->
  credits_by gated d (each (redrive_row cfg rate floorFlag now ex) l p d).2.
Proof.
  induction l as [|x l IH]; intros p d [Hnd Hin]; cbn [each]; [by apply credits_kept|].
  destruct (pr_stop p); [by apply credits_kept|].
  pose proof (redrive_row_credits x p d (Hin x ltac:(by left))) as H.
  pose proof (others_redrive_row cfg rate floorFlag now ex x p d) as Ho.
  apply NoDup_cons in Hnd as [Hx Hnd].
  unfold mbind, op_bind, try_catch. destruct (redrive_row cfg rate floorFlag now ex x p d) as [r d1].
  assert (as_stored d1 l) as Hst.
  { split; [done|]. intros y Hy. cbn [snd] in Ho. rewrite Ho; [by apply Hin; right|].
    intros He. apply Hx. rewrite <- He. by apply list_elem_of_fmap_2. }
  destruct r as [p'|e]; (etransitivity; [exact H|]); by apply IH.
Qed.

Lemma work_credits w p : moves (credits_by gated) (tick_work cfg rate floorFlag now ex w p).
Proof.
  unfold tick_work. apply moves_bind; [exact _|apply gated_nothing; pose proof nothing_batches; walk|].
  intros [touched|e]; [|apply moves_ret; exact _].
  apply moves_bind; [exact _|apply moves_each; [exact _|]; intros; apply address_credits|]. intros p1. cbv zeta.
  destruct (pr_stop (clear_break p1)); [apply moves_ret; exact _|].
  intros d. unfold mbind at 1, op_bind at 1, query at 1.
  pose proof (sweep_credits _ (clear_break p1) d (open_deposits_stored d)) as H.
  unfold mbind at 1, op_bind at 1. destruct (each _ _ _ d) as [[p2|e] d1]; [|done].
  etransitivity; [exact H|]. clear H. destruct (pr_stop p2); [by apply credits_kept|].
  pose proof (gated_nothing _ (nothing_recheck now ex) d1) as H. unfold mbind, op_bind.
  by destruct (reorgRecheck now ex d1) as [[u|e] d2].
Qed.

(** C29: A tick credits a deposit only when every gate is open: the watcher is
    enabled, the explorer's status was read and its index is neither stale nor
    behind nor without its node, and the deposit's own answer in this tick went
    through every gate - an integer height at or above the consensus floor and
    equal to the recorded one, a coinbase flag, the confirmations that kind needs,
    no status but confirmed, an owner, a usable rate, and above the threshold a
    second source with the same height and block hash. *)
Theorem credited_only_through_the_gates enabled d i row' :
  pcn_deposits (tick cfg rate floorFlag now ex enabled d).2 !! i = Some row' -> d_status row' = Credited ->
  (forall row, pcn_deposits d !! i = Some row -> d_status row <> Credited) ->
  enabled = true /\ (exists index, ex_status ex = StatusRead index /\ indexHealth index = true) /\
  exists answer, asked i row' answer /\ went_through cfg rate row' answer.
Proof.
  intros Hi Hs Hnew. unfold tick in Hi. destruct enabled; cbn [negb] in Hi; [|by apply Hnew in Hi].
  unfold mbind at 1, op_bind at 1, query at 1 in Hi.
  destruct (ex_status ex) as [|index]; [by apply Hnew in Hi|].
  destruct (indexHealth index) eqn:Hh; cbn [negb] in Hi; [|by apply Hnew in Hi].
  split; [done|]. split; [by exists index|].
  unfold mbind at 1, op_bind at 1 in Hi.
  pose proof (work_credits (issuedAddresses d) progress0 d) as H.
  destruct (tick_work _ _ _ _ _ _ _ d) as [[p|e] d1]; cbn [snd] in *.
  - assert (pcn_deposits d1 !! i = Some row') as Hi1.
    { revert Hi. by destruct (pr_stop p) as [[[]|]|]. }
    destruct (H i row' Hi1 Hs) as [(row & Hr & Hc & _)|?]; [by apply Hnew in Hr|done].
  - destruct (H i row' Hi Hs) as [(row & Hr & Hc & _)|?]; [by apply Hnew in Hr|done].
Qed.
End tick_gates.

(** ** An example *)

(** The explorer of [BotWatch]'s example over its one open deposit. *)
Definition credited_tick : db :=
  (tick example_cfg example_rate false 2000 (example_explorer example_history) true example_db_deposit).2.

(** Three US dollars and fifty-nine cents for a hundred coins. *)
Lemma credited_only_through_the_gates_witness :
  bal credited_tick 7 = 3590242 /\
  exists row', pcn_deposits credited_tick !! 1 = Some row' /\ d_status row' = Credited /\
    (exists index, StatusRead example_index = StatusRead index /\ indexHealth index = true) /\
    exists answer, asked (example_explorer example_history) 1 row' answer /\
      went_through example_cfg example_rate row' answer.
Proof.
  split; [vm_compute; reflexivity|].
  destruct (pcn_deposits credited_tick !! 1) as [row'|] eqn:Hi; [|vm_compute in Hi; discriminate].
  assert (d_status row' = Credited) as Hs.
  { assert (d_status <$> (pcn_deposits credited_tick !! 1) = Some Credited) as H by (vm_compute; reflexivity).
    rewrite Hi in H. by injection H. }
  exists row'. split; [done|]. split; [done|].
  refine (proj2 (credited_only_through_the_gates example_cfg example_rate false 2000
            (example_explorer example_history) true example_db_deposit 1 row' Hi Hs _)).
  intros row Hr. vm_compute in Hr. injection Hr as <-. discriminate.
Defined.
