(* ===== verification/BotRun.v ===== *)
(** * Histories of the bot

    Every operation of the bot on its database as a command, a command's effect
    whether it returns or throws, and the databases that sequences of commands
    lead to from an empty one. A refund is two commands, so anything may happen
    while Telegram has not answered; what the outside answers is in the commands. *)

From S2P Require Import Prelude JsInt BotMoney BotDb BotInv BotBilling BotDeposits BotRewards BotStars BotJobs BotAddress BotPool BotWpcn BotWatch BotHistory.
Local Open Scope Z_scope.

Inductive command :=
  (* billing.mjs *)
  | Lock (chat stale : Z) | Unlock (chat : Z)
  | Reserve (chat : Z) (updateId : option Z) (reqKey : option string) (model : string) (micro : Z) (overdraft : bool)
  | Settle (id actual : Z) (note : option string) | Release (id : Z) (reason : option string)
  | Hold (id : Z) (reason : option string) | AgeOut (minutes : Z) | FreeTurn (chat perHour : Z)
  (* rewards.mjs, admin-api.mjs *)
  | Account (chat : Z) (model : string) (lang : option string) (gift cap : Z) (invitedBy : option Z)
  | Reward (referred : Z) (item : option Z) (reward minTopup : Z) (enabled : bool)
  | AdminCredit (chat micro : Z) (note requestId : string)
  (* stars.mjs, updates.mjs *)
  | SendInvoice (chat : Z) (s : stars_settings) (index : nat) (rand : string)
  | InvoiceNotSent (payload : string) | ExpireInvoices
  | PaymentUpdate (updateId chat : Z) (sp : successful_payment) (tries : gmap Z Z)
  | RetryParked
  | BeginRefund (id : Z) (note : string) (clawback : bool)
  | AnswerRefund (p : payment) (id : Z) (r : tg_answer)
  (* jobs.mjs *)
  | Propose (chat : Z) (spec : job_spec) (price : Z) (apiModel : string) (ttl : Z)
  | CancelCard (chat id : Z) | ExpireCards
  | Button (chat id : Z) (offer : gmap string offer_entry) (margin : Z)
  | Unwind (b : begun) (e : failure)
  | SettleCapped (id : Z) (credits : js_credits) (margin cap : Z) (note : option string)
  | FinishJob (b : begun) (f : card_facts) (k : media_kind) (credits url : option string) (expires : option Z)
  | PollVideos (answer : string -> video_answer) (giveUp margin : Z)
  | Deliver (item : Z) (bytes download : bool) (sent : option (option string * option Z))
  | Redeliver (download : Z -> bool) (sent : Z -> option (option string * option Z))
  | Recover
  (* wpcn.mjs *)
  | RecordCheck (chat : Z) (txhash : string) | NoteCheck (chat : Z) (txhash : string) (s : wstate) | DueChecks
  | Verify (enabled : bool) (chat : Z) (txhash : string) (reply : verify_reply) (own : option (list transfer))
  (* pool.mjs, watch.mjs *)
  | ImportPool (text : string) (start : option Z) (first last : option string)
  | Allocate (chat : Z)
  | Tick (cfg : watch_cfg) (rate : rate_reading) (floorFlag : bool) (ex : explorer) (enabled : bool).

Definition ignore {A} (m : op A) : op () := _ ← m; mret tt.

(** What the command does at the time [now]. *)
Definition perform (now : Z) (c : command) : op () :=
  match c with
  | Lock chat stale => ignore (acquireUserLock chat stale now)
  | Unlock chat => ignore (releaseUserLock chat)
  | Reserve chat u k m micro o => ignore (reserve chat u k m micro o now)
  | Settle i a n => ignore (settle i a n now)
  | Release i r => ignore (release i r now)
  | Hold i r => ignore (hold i r)
  | AgeOut m => ignore (ageOutReservations m now)
  | FreeTurn chat h => ignore (takeFreeTurn chat h now)
  | Account chat m l g cap by_ => ignore (openAccount chat m l g cap by_ now)
  | Reward r i m t e => ignore (payInviteReward r i m t e now)
  | AdminCredit chat m n r => ignore (adminCredit chat m n r now)
  | SendInvoice chat s i r => ignore (sendStarsInvoice chat s i r now)
  | InvoiceNotSent p => ignore (invoice_not_sent p)
  | ExpireInvoices => ignore (expireInvoices now)
  | PaymentUpdate u chat sp tries => ignore (takePaymentUpdate u chat sp (creditStarsPayment chat sp now) tries now)
  | RetryParked => ignore (retryParked (fun k => creditStarsPayment (k_chat_id k) (k_payment k) now))
  | BeginRefund i n cb => ignore (beginRefund i n cb now)
  | AnswerRefund p i r => ignore (refund_answer p i r now)
  | Propose chat s p a t => ignore (createProposal chat s p a now t)
  | CancelCard chat i => ignore (cancelProposal chat i now)
  | ExpireCards => ignore (expireCards now)
  | Button chat i o m => ignore (beginJob chat i o m now)
  | Unwind b e => ignore (unwind b e now)
  | SettleCapped i c m cap n => ignore (settleCapped i c m cap n now)
  | FinishJob b f k c u e => ignore (finishJob b f k c u e now)
  | PollVideos a g m => ignore (pollVideos a g m now)
  | Deliver i b dl s => ignore (deliverItem i b dl s now)
  | Redeliver dl s => ignore (redeliverSweep dl s now)
  | Recover => ignore (recoverAfterRestart now)
  | RecordCheck chat t => ignore (recordCheck chat t now)
  | NoteCheck chat t s => ignore (noteCheck chat t s now)
  | DueChecks => ignore (dueChecks now)
  | Verify e chat t r own => ignore (verifyAndCredit e chat t r own now)
  | ImportPool t s f l => ignore (importPool t s f l)
  | Allocate chat => ignore (allocateAddress chat now)
  | Tick cfg rate fl ex e => ignore (tick cfg rate fl now ex e)
  end.

(** Amounts to reserve and margins are never negative: they come from prices and settings. *)
Definition command_ok (c : command) : bool :=
  match c with
  | Reserve _ _ _ _ micro _ => 0 <=? micro
  | Button _ _ _ margin => 0 <=? margin
  | _ => true
  end.

(** A command and the time it runs at; one that throws leaves what it had written. *)
Definition step (d : db) (c : Z * command) : db := (perform c.1 c.2 d).2.
Definition run (d : db) (cs : list (Z * command)) : db := foldl step d cs.
Definition commands_ok (cs : list (Z * command)) : Prop := Forall (fun c => command_ok c.2 = true) cs.

(** The databases the bot can be in. *)
Inductive reachable : db -> Prop :=
  | reach_start : reachable empty_db
  | reach_step d now c : reachable d -> command_ok c = true -> reachable (step d (now, c)).

(** ** Every history *)

Create HintDb keeps.
#[export] Hint Resolve keeps_lock keeps_unlock keeps_settle keeps_release keeps_hold keeps_age_out
  keeps_free_turn keeps_openAccount keeps_payInviteReward keeps_adminCredit keeps_sendStarsInvoice
  keeps_invoice_not_sent keeps_expireInvoices keeps_creditStars keeps_retryParked keeps_beginRefund
  keeps_refund_answer keeps_createProposal keeps_cancelProposal keeps_expireCards keeps_unwind
  keeps_settleCapped keeps_finishJob keeps_pollVideos keeps_deliverItem keeps_redeliverSweep keeps_recover
  keeps_recordCheck keeps_noteCheck keeps_dueChecks keeps_verifyAndCredit keeps_tick keeps_take : keeps.
#[export] Hint Resolve moves_lock moves_unlock moves_settle moves_release moves_hold moves_age_out
  moves_free_turn moves_openAccount moves_reward moves_adminCredit moves_sendStarsInvoice
  moves_invoice_not_sent moves_expireInvoices moves_retryParked moves_take moves_createProposal
  moves_cancelProposal moves_expireCards moves_beginJob moves_pollVideos moves_redeliverSweep moves_recover
  moves_recordCheck moves_noteCheck moves_dueChecks moves_verifyAndCredit moves_tick moves_importPool
  moves_allocate : moves.

Lemma keeps_ignore P {A} (m : op A) : keeps P m -> keeps P (ignore m).
Proof. intros Hm. apply keeps_bind; [done|]. intros a. apply keeps_ret. Qed.
Lemma moves_ignore {A} (m : op A) : moves grows m -> moves grows (ignore m).
Proof. intros Hm. apply moves_bind; [exact _|done|]. intros a. apply moves_ret. exact _. Qed.

(** The address pool's operations do not touch what the books are about. *)
Lemma keeps_addresses {A} (m : op A) : moves only_addresses m -> keeps bot_inv m.
Proof. intros Hm d Hd. destruct (Hm d) as [[t ->] _]. by eapply inv_frame. Qed.

Lemma command_inv now c : command_ok c = true -> keeps bot_inv (perform now c).
Proof.
  intros Hc. destruct c; cbn [perform command_ok] in *; apply keeps_ignore; auto with keeps.
  - apply keeps_reserve. by apply Z.leb_le.
  - apply keeps_beginJob. by apply Z.leb_le.
  - apply keeps_addresses, only_import.
  - apply keeps_addresses, only_allocate.
Qed.

Lemma perform_grows now c : moves grows (perform now c).
Proof. destruct c; cbn [perform]; apply moves_ignore; auto with moves. Qed.

Lemma step_grows d c : grows d (step d c).
Proof. apply perform_grows. Qed.
Lemma run_grows d cs : grows d (run d cs).
Proof.
  revert d. induction cs as [|c cs IH]; intros d; [reflexivity|].
  etransitivity; [apply step_grows|apply IH].
Qed.

Lemma reachable_run d cs : reachable d -> commands_ok cs -> reachable (run d cs).
Proof.
  intros Hd Hcs. revert d Hd. induction Hcs as [|[now c] cs Hc Hcs IH]; intros d Hd; [done|].
  apply IH. by constructor.
Qed.

Lemma empty_inv : bot_inv empty_db.
Proof.
  split.
  - intros c. split; reflexivity.
  - split; cbn; intros *; rewrite ?lookup_empty; try done; by intros ?%elem_of_nil.
Qed.

Lemma reachable_inv d : reachable d -> bot_inv d.
Proof. induction 1 as [|d now c _ IH Hc]; [apply empty_inv|]. by apply command_inv. Qed.

Lemma reachable_grows d : reachable d -> grows empty_db d.
Proof. induction 1 as [|d now c _ IH Hc]; [reflexivity|]. etransitivity; [exact IH|apply step_grows]. Qed.

Lemma reachable_keys d : reachable d -> NoDup (l_idem_key <$> ledger d).
Proof. intros Hd. apply (gr_keys _ _ (reachable_grows _ Hd)). constructor. Qed.

Lemma reachable_pool d : reachable d -> pool_inv d.
Proof.
  intros Hd. apply (gr_pool _ _ (reachable_grows _ Hd)). by split; cbn; intros *; rewrite ?lookup_empty.
Qed.
