(* ===== verification/BotTheorems.v ===== *)
(** * What every history of the bot guarantees

    The theorems about the bot's money, over every sequence of its operations:
    the books balance, every movement is on the ledger once, a turn is billed
    once, a deposit, a Stars payment and a wPCN transfer are credited once, a
    button charges the price shown and starts one job, a refund follows its
    payment's state, an address stays with its chat. *)

From S2P Require Import Prelude JsInt JsNum BotMoney BotDb BotInv BotBilling BotDeposits BotRewards BotStars BotJobs BotAddress BotPool BotWpcn BotWatch BotHistory BotRun.
Local Open Scope Z_scope.

(** ** Example histories *)

Section examples.
Definition example_account : list (Z * command) :=
  [(1000, Account 7 "chat-model" None 0 0 None); (1001, AdminCredit 7 5000000 "hello" "request-1")].

(** Chat 7 with five dollars. *)
Definition example_funded : db := run empty_db example_account.

Definition example_turn : list (Z * command) :=
  app example_account [(1002, Reserve 7 (Some 44) None "chat-model" 2000000 false)].

Lemma example_account_ok : commands_ok example_account.
Proof. repeat constructor. Qed.
Lemma example_turn_ok : commands_ok example_turn.
Proof. repeat constructor. Qed.
Lemma example_turn_reachable : reachable (run empty_db example_turn).
Proof. apply reachable_run; [constructor|apply example_turn_ok]. Qed.
End examples.

(** ** The books *)

Lemma books_reconcile d : bot_inv d -> rc_ok (reconcile d) = true.
Proof. intros [Hb _]. apply reconcile_iff. intros chat _. apply Hb. Qed.

(** C10: After any history of operations, completed or thrown, the reconciliation
    finds no drift: every account's ledger adds up to its balance and what it has
    reserved, and the reserved amount to its open and held reservations. *)
Theorem reconcile_never_drifts cs :
  commands_ok cs ->
  let d := run empty_db cs in
  rc_ok (reconcile d) = true /\ rc_drifts (reconcile d) = [] /\
  forall chat u, users d !! chat = Some u ->
    ledger_sum d chat = balance_micro_usd u + reserved_micro_usd u /\ reserved_micro_usd u = open_sum d chat.
Proof.
  intros Hcs d. assert (bot_inv d) as Hd by (apply reachable_inv, reachable_run; [constructor|done]).
  pose proof (books_reconcile d Hd) as Hr. split; [done|]. split.
  - unfold reconcile in Hr |- *. cbn in *. by destruct (concat _).
  - intros chat u Hu. destruct Hd as [Hb _]. destruct (Hb chat). by rewrite <- (bal_some _ _ _ Hu), <- (res_some _ _ _ Hu).
Qed.

Lemma reconcile_never_drifts_witness :
  let d := run empty_db example_turn in
  (rc_ok (reconcile d) = true /\ rc_drifts (reconcile d) = [] /\
   forall chat u, users d !! chat = Some u ->
     ledger_sum d chat = balance_micro_usd u + reserved_micro_usd u /\ reserved_micro_usd u = open_sum d chat)
  /\ bal d 7 = 3000000 /\ res d 7 = 2000000.
Proof.
  split; [apply (reconcile_never_drifts example_turn); repeat constructor|]. vm_compute. done.
Defined.

(** From any database a history has led to, whatever runs next only adds rows
    at the end of the ledger, and no two rows ever carry the same key: one row
    per turn, deposit, charge, transfer log, gift, reward and refund attempt. *)
Theorem ledger_only_grows cs after :
  let d := run empty_db cs in let d' := run d after in
  (exists rows, ledger d' = (ledger d ++ rows)%list) /\
  (forall i j l k key, ledger d' !! i = Some l -> ledger d' !! j = Some k ->
     l_idem_key l = Some key -> l_idem_key k = Some key -> i = j).
Proof.
  intros d d'. split; [apply gr_ledger, run_grows|]. intros i j l k key Hi Hj Hl Hk.
  assert (NoDup (l_idem_key <$> ledger d')) as Hn.
  { apply (gr_keys _ _ (run_grows d after)), (gr_keys _ _ (run_grows empty_db cs)). constructor. }
  eapply (NoDup_lookup _ i j (Some key) Hn); rewrite list_lookup_fmap; [by rewrite Hi; cbn; rewrite Hl|].
  by rewrite Hj; cbn; rewrite Hk.
Qed.

(** ** A turn is billed once *)

Lemma settled_stays d cs i r : reservations d !! i = Some r -> r_state r = Settled ->
  exists s, reservations (run d cs) !! i = Some s /\ r_state s = Settled.
Proof.
  intros Hi Hr. destruct (gr_reservations _ _ (run_grows d cs) _ _ Hi) as (s & Hs & _ & _ & _ & _ & He).
  exists s. auto.
Qed.

(** Settling a reservation that is open, or that aged out before its usage
    arrived, always succeeds: the hold comes back if it was still there, the
    charge is taken from the balance and written to the ledger, no other account
    moves; and settling it again, after anything else has happened, does nothing. *)
Theorem settle_bills_once d i r actual note now :
  reachable d -> reservations d !! i = Some r -> (r_state r = Open \/ r_state r = Expired) ->
  let back := if holds (r_state r) then r_micro_usd r else 0 in
  exists s d', settle i actual note now d = (Ok (SettledNow s), d') /\
    effect d d' (r_chat_id r) (back - taken actual) (- back) (- taken actual) (- back) /\
    st_actual s = actual /\ st_late s = bool_decide (r_state r = Expired) /\
    st_balance_after s = bal d' (r_chat_id r) /\
    forall cs actual' note' now',
      settle i actual' note' now' (run d' cs) = (Ok (AlreadyClosed Settled), run d' cs).
Proof.
  intros Hd Hi Hr back.
  destruct (settle_spec d i r actual note now (reachable_inv _ Hd) Hi Hr)
    as (s & d' & r' & Hs & _ & He & Hi' & Hr' & Ha & Hl & Hb).
  exists s, d'. split_and!; try done. intros cs actual' note' now'.
  destruct (settled_stays d' cs i r' Hi' Hr') as (x & Hx & Hxs).
  rewrite (settle_closed _ _ _ actual' note' now' Hx) by (by rewrite Hxs). by rewrite Hxs.
Qed.

Lemma settle_bills_once_witness :
  let d := run empty_db example_turn in
  exists r, reservations d !! 1 = Some r /\ r_state r = Open /\
  exists s d', settle 1 1500000 None 1003 d = (Ok (SettledNow s), d') /\
    effect d d' 7 (2000000 - taken 1500000) (- 2000000) (- taken 1500000) (- 2000000) /\
    st_actual s = 1500000 /\ st_late s = false /\ st_balance_after s = bal d' 7 /\
    forall cs actual' note' now',
      settle 1 actual' note' now' (run d' cs) = (Ok (AlreadyClosed Settled), run d' cs).
Proof.
  assert (exists r, reservations (run empty_db example_turn) !! 1 = Some r /\ r_state r = Open /\
                    r_chat_id r = 7 /\ r_micro_usd r = 2000000) as (r & Hi & Hs & Hc & Hm)
    by (eexists; split; [vm_compute; reflexivity|by repeat split]).
  exists r. split; [exact Hi|]. split; [exact Hs|].
  pose proof (settle_bills_once _ 1 r 1500000 None 1003 example_turn_reachable Hi (or_introl Hs)) as H.
  rewrite Hs, Hc, Hm in H. exact H.
Defined.

(** ** Deposits *)

Lemma moved {A} (m : op A) d a d' : moves grows m -> m d = (Ok a, d') -> grows d d'.
Proof. intros Hm H. specialize (Hm d). by rewrite H in Hm. Qed.

Lemma rethrown_Ok {A} (m : op A) (h : exn -> op A) d a d' :
  (forall e x, (h e x).1 <> Ok a) -> try_catch m h d = (Ok a, d') -> m d = (Ok a, d').
Proof.
  unfold try_catch. intros Hh H. destruct (m d) as [[b|e] x]; [done|]. by destruct (Hh e x); rewrite H.
Qed.

(** A row that was written had a free key, and its key is taken. *)
Lemma inserted_key c x k idem rate note now d u d' :
  insert_ledger c x k idem rate note now d = (Ok u, d') -> key_taken idem d = false /\ key_taken idem d' = true.
Proof.
  intros (c' & _ & Hk & ->)%insert_ledger_Ok. split; [done|]. apply key_taken_spec. cbn.
  rewrite fmap_app, elem_of_app. right. by constructor.
Qed.

(** A credit writes the deposit's row in the ledger, so its key was free. *)
Lemma credit_key i rate mn obs cfg now d v d' :
  creditDeposit i rate mn obs cfg now d = (Ok v, d') -> cr_result v = CREDITED ->
  exists dep, pcn_deposits d !! i = Some dep /\
    key_taken (deposit_key dep) d = false /\ key_taken (deposit_key dep) d' = true.
Proof.
  unfold creditDeposit. intros H Hc. destruct (negb _); [by op_inv|]. destruct (_ <=? 0); [by op_inv|].
  op_inv. destruct (pcn_deposits d !! i) as [dep|] eqn:Hi; [|by op_inv]. exists dep. split; [done|].
  destruct (bool_decide _); [op_inv; done|]. op_inv.
  destruct (find_row _ _) as [[ai addr]|]; [|by op_inv]. op_inv.
  match goal with H : lift_money _ _ = _ |- _ => apply lift_money_Ok in H as [_ ->] end.
  match goal with x : (Z * Z)%type |- _ => destruct x as [micro rest] end.
  assert (forall x e, (if d_amount_sat dep <? mn then mret (0, x) else lift_money (splitNano x)) d = (Ok (micro, rest), e) ->
    e = d) as Hsame.
  { intros x e. destruct (_ <? _); intros ?; [by op_inv|]. by apply (lift_money_Ok (splitNano x)) in H0 as [_ ->]. }
  match goal with H : (if _ then _ else _) d = (Ok (micro, rest), _) |- _ => apply Hsame in H as -> end.
  op_inv.
  match goal with H : try_catch (insert_ledger _ _ _ _ _ _ _) _ _ = _ |- _ =>
    apply rethrown_Ok in H; [|by intros [] ?]; apply inserted_key in H as [Hk Ht] end.
  split; [exact Hk|]. eapply key_taken_grows; [|exact Ht].
  match goal with H : (match d_chat_id dep with Some _ => _ | None => _ end) _ = _ |- _ =>
    apply moved in H; [|walk] end.
  match goal with H : try_catch (rebateFor _ _ _ _) _ _ = _ |- _ => apply moved in H; [|walk] end.
  etransitivity; [eassumption|]. etransitivity; [|eassumption].
  etransitivity; [apply (grows_alter_address _ ai (set_remainder (Number rest))); intros; by repeat split|by apply grows_frame].
Qed.

(** C11: A deposit is credited once: the first credit pays into its chat the value
    at the rate with the address's carry added and the new carry kept (below the
    minimum everything is carried), plus the rebate; and whatever runs after it,
    no row with the same transaction and address is ever credited again. *)
Theorem deposit_credited_once d i rate mn obs cfg now v d' :
  reachable d -> creditDeposit i rate mn obs cfg now d = (Ok v, d') -> cr_result v = CREDITED ->
  exists dep chat ai addr nano g,
    pcn_deposits d !! i = Some dep /\ d_status dep <> Credited /\ d_chat_id dep = Some chat /\
    pcn_addresses d !! ai = Some addr /\ a_address addr = d_address dep /\
    satsToNanoUsd (d_amount_sat dep) (rt_e12 rate) = Ok nano /\
    effect d d' chat (Number (cr_micro_usd v) + g) 0 (Number (cr_micro_usd v) + g) 0 /\
    (exists r, cr_rebate v = Some r /\ g = Number (rb_granted r)) /\
    1000 * cr_micro_usd v + cr_remainder v = a_remainder addr + nano /\
    (if d_amount_sat dep <? mn then cr_micro_usd v = 0 else 0 <= cr_remainder v < 1000) /\
    pcn_addresses d' !! ai = Some (set_remainder (Number (cr_remainder v)) addr) /\
    pcn_deposits d' = <[i := credited_row dep (cr_micro_usd v) rate obs (d_amount_sat dep <? mn) now]> (pcn_deposits d) /\
    forall cs j dep' rate' mn' obs' cfg' now' v' d'',
      pcn_deposits (run d' cs) !! j = Some dep' ->
      d_txid dep' = d_txid dep -> d_address dep' = d_address dep ->
      creditDeposit j rate' mn' obs' cfg' now' (run d' cs) = (Ok v', d'') -> cr_result v' <> CREDITED.
Proof.
  intros Hd H Hc. destruct (credit_key _ _ _ _ _ _ _ _ _ H Hc) as (dep & Hi & Hk & Ht).
  destruct (credit_Ok _ _ _ _ _ _ _ _ _ H (reachable_inv _ Hd)) as (dep0 & Hi0 & [(_ & _ & ? & _)|Hok]); [congruence|].
  assert (dep0 = dep) as -> by congruence.
  destruct Hok as (Hst & _ & _ & chat & ai & addr & nano & g & H1 & H2 & H3 & H4 & H5 & H6 & H7 & H8 & H9 & H10 & H11 & H12).
  exists dep, chat, ai, addr, nano, g. rewrite H8 in H7, H9, H12. split_and!; try done.
  - destruct (d_amount_sat dep <? mn); auto.
  - intros cs j dep' rate' mn' obs' cfg' now' v' d'' Hj Htx Hadd Hcr Hc'.
    destruct (credit_key _ _ _ _ _ _ _ _ _ Hcr Hc') as (dep1 & Hj1 & Hk1 & _).
    assert (dep1 = dep') as -> by congruence.
    assert (deposit_key dep' = deposit_key dep) as He by (unfold deposit_key; by rewrite Htx, Hadd).
    rewrite He, (key_taken_grows _ _ _ (run_grows d' cs) Ht) in Hk1. done.
Qed.

(** Chat 7 has an address, and the watcher has recorded a payment to it. *)
Definition example_pool_file : string := "0 pc1qrgase7g8zvvrepxmh8kgnmf09freyqual7y7c6".
Definition example_paid : list (Z * command) :=
  app example_account
    [(1002, ImportPool example_pool_file None None None); (1003, Allocate 7);
     (2000, Tick example_cfg {| rt_usable := false; rt_e12 := 0; rt_text := None; rt_cache := false; rt_read_at := None |}
              false (example_explorer example_history) true)].
Lemma example_paid_reachable : reachable (run empty_db example_paid).
Proof. apply reachable_run; [constructor|]. repeat constructor. Qed.

(** The paid hundred coins, credited by hand. *)
Definition example_credit : op credit_result :=
  creditDeposit 1 example_rate 100000000 None {| rb_ppm := 0; rb_cap_sat := 0; rb_from := 0 |} 2001.

Lemma deposit_credited_once_witness :
  exists v d', example_credit (run empty_db example_paid) = (Ok v, d') /\ cr_result v = CREDITED /\
    bal d' 7 = 8590242 /\
    forall cs j dep' rate' mn' obs' cfg' now' v' d'',
      pcn_deposits (run d' cs) !! j = Some dep' ->
      d_txid dep' = example_txid -> d_address dep' = example_address ->
      creditDeposit j rate' mn' obs' cfg' now' (run d' cs) = (Ok v', d'') -> cr_result v' <> CREDITED.
Proof.
  eexists _, _. split; [vm_compute; reflexivity|]. split; [reflexivity|]. split; [vm_compute; reflexivity|].
  edestruct (deposit_credited_once (run empty_db example_paid) 1 example_rate 100000000 None
    {| rb_ppm := 0; rb_cap_sat := 0; rb_from := 0 |} 2001) as (dep & H);
    [apply example_paid_reachable|vm_compute; reflexivity|reflexivity|].
  destruct H as (chat & ai & addr & nano & g & Hi & _ & _ & _ & _ & _ & _ & _ & _ & _ & _ & _ & H).
  vm_compute in Hi. injection Hi as <-. exact H.
Defined.

(** ** Stars *)

(** What an operation threw at. *)
Lemma op_bind_Err {A B} (m : op A) (f : A -> op B) d e d' :
  (m ≫= f) d = (Err e, d') -> m d = (Err e, d') \/ exists a d1, m d = (Ok a, d1) /\ f a d1 = (Err e, d').
Proof. unfold mbind, op_bind. destruct (m d) as [[a|x] d1]; [eauto|]. intros [= -> ->]. by left. Qed.
Lemma immediate_threw {A} (m : op A) d e d' : immediate m d = (Err e, d') -> d' = d /\ exists d1, m d = (Err e, d1).
Proof. unfold immediate. destruct (m d) as [[a|x] d1]; [discriminate|]. intros [= -> ->]. eauto. Qed.
Lemma insert_ledger_threw chat delta k idem rate note now d e d' :
  insert_ledger (Some chat) delta k idem rate note now d = (Err e, d') -> key_taken idem d = true.
Proof. unfold insert_ledger. by destruct (key_taken idem d). Qed.
Lemma update_user_threw chat guard f d e d' : update_user chat guard f d <> (Err e, d').
Proof. unfold update_user. destruct (users d !! chat) as [u|]; [by destruct (guard u)|done]. Qed.

(** Takes apart every hypothesis that says an operation threw. *)
Ltac err_inv :=
  repeat match goal with
  | H : (_ ≫= _) _ = (Err _, _) |- _ => apply op_bind_Err in H as [H|(? & ? & ? & H)]
  | H : query _ _ = (Err _, _) |- _ => discriminate H
  | H : exec _ _ = (Err _, _) |- _ => discriminate H
  | H : mret _ _ = (Err _, _) |- _ => discriminate H
  | H : update_user _ _ _ _ = (Err _, _) |- _ => by apply update_user_threw in H
  | H : insert_ledger _ _ _ _ _ _ _ _ = (Err _, _) |- _ => apply insert_ledger_threw in H
  | _ => progress op_inv
  end.














(** A one-dollar invoice, paid. *)
Definition example_settings : stars_settings := {| starsEnabled := true; starsPackages := [(num_of_Z 1, 77)] |}.
Definition example_payment : successful_payment := {|
  sp_charge_id := "charge-1"; sp_payload := "stars:7:1002:a1b2c3d4"; sp_currency := "XTR"; sp_total_amount := 77 |}.
Definition example_invoiced : list (Z * command) :=
  app example_account [(1002, SendInvoice 7 example_settings 0 "a1b2c3d4")].


(** ** wPCN *)

Lemma take_rows_claimed txhash chat rows now d taken d' r :
  take_rows txhash chat rows now d = (Ok taken, d') -> r ∈ rows -> is_Some (wpcn_claims d' !! (txhash, cw_log r)).
Proof.
  revert d taken. induction rows as [|x rows IH]; intros d taken H Hr; [by apply elem_of_nil in Hr|].
  cbn in H. op_inv. apply elem_of_cons in Hr as [->|Hr].
  - destruct (bool_decide _) eqn:Hb.
    + apply bool_decide_eq_true_1 in Hb. exact (gr_claims _ _ (moved _ _ _ _ (moves_take_rows _ _ _ _) H) _ Hb).
    + op_inv. match goal with H : lift_money _ _ = _ |- _ => apply lift_money_Ok in H as [_ ->] end.
      match goal with H : take_rows _ _ _ _ _ = _ |- _ =>
        apply (gr_claims _ _ (moved _ _ _ _ (moves_take_rows _ _ _ _) H)) end.
      cbn. rewrite lookup_insert_eq. by eexists.
  - destruct (bool_decide _); [by eapply IH|]. op_inv. by eapply IH.
Qed.

Lemma take_rows_again txhash chat rows now d :
  (forall r, r ∈ rows -> is_Some (wpcn_claims d !! (txhash, cw_log r))) -> take_rows txhash chat rows now d = (Ok [], d).
Proof.
  induction rows as [|x rows IH]; intros Hr; [done|]. cbn. unfold mbind, op_bind, query.
  rewrite bool_decide_eq_true_2 by (apply Hr; by left). apply IH. intros r ?. apply Hr. by right.
Qed.

(** C15: A wPCN transfer is credited once: what is not claimed yet is claimed and
    paid in one movement, whole micro-dollars to the balance and the rest kept on
    the account; and whatever runs after it, crediting those logs again, to
    anyone, claims nothing and moves nothing. *)
Theorem wpcn_credited_once d chat txhash rows out now v d' :
  reachable d -> credit chat txhash rows out now d = (Ok v, d') ->
  ((wr_duplicate v = true /\ wr_credited v = 0 /\ effect d d' chat 0 0 0 0) \/
   exists u u' taken rem,
     wr_duplicate v = false /\ users d !! chat = Some u /\ users d' !! chat = Some u' /\ taken <> [] /\
     (forall x, x ∈ taken -> wpcn_claims d !! (txhash, cw_log x.1) = None /\ row_nano x.1 = Ok x.2) /\
     effect d d' chat (Number (wr_credited v)) 0 (Number (wr_credited v)) 0 /\
     0 <= rem < 1000 /\ wpcn_remainder_nano_usd u' = Number rem /\
     1000 * wr_credited v + rem = nano_of taken + wpcn_remainder_nano_usd u) /\
  forall cs chat' rows' out' now',
    (forall r, r ∈ rows' -> exists r0, r0 ∈ rows /\ cw_log r0 = cw_log r) ->
    credit chat' txhash rows' out' now' (run d' cs)
    = (Ok {| wr_state := WCredited; wr_credited := 0; wr_duplicate := true; wr_yours := wr_yours out';
             wr_healed := wr_healed out' |}, run d' cs).
Proof.
  intros Hd H. split.
  - destruct (wpcn_credit_Ok _ _ _ _ _ _ _ _ H (reachable_inv _ Hd))
      as (_ & _ & [(? & ? & ?)|(u & u' & taken & ? & ? & ? & ? & ? & _ & ? & rem & ? & ? & ?)]); [by left|].
    right. exists u, u', taken, rem. split_and!; done || lia.
  - intros cs chat' rows' out' now' Hr. unfold credit, immediate, mbind, op_bind.
    rewrite take_rows_again; [reflexivity|]. intros r (r0 & Hr0 & <-)%Hr.
    apply (gr_claims _ _ (run_grows d' cs)). unfold credit in H. op_inv.
    match goal with H1 : take_rows _ _ _ _ _ = (_, ?d1), H2 : _ ?d1 = _ |- _ =>
      pose proof (take_rows_claimed _ _ _ _ _ _ _ _ H1 Hr0) as Hcl;
      refine (gr_claims _ _ (moved _ _ _ _ _ H2) _ Hcl) end.
    walk.
Qed.

(** One transfer of fifty wPCN at a cent each. *)
Definition example_transfer : creditable := {|
  cw_log := 3; cw_usd_nano := 500000000; cw_rate_e12 := 10000000000; cw_wpcn_sat := 5000000000; cw_bonus := 5 |}.
Definition example_hash : string := "0x00000000000000000000000000000000000000000000000000000000000000cd".
Definition example_out : wpcn_result := {|
  wr_state := WUnreadable; wr_credited := 0; wr_duplicate := false; wr_yours := false; wr_healed := false |}.
Lemma example_funded_reachable : reachable example_funded.
Proof. apply reachable_run; [constructor|apply example_account_ok]. Qed.

Lemma wpcn_credited_once_witness :
  exists v d', credit 7 example_hash [example_transfer] example_out 1005 example_funded = (Ok v, d') /\
    wr_credited v = 500000 /\ bal d' 7 = 5500000 /\
    forall cs chat' rows' out' now',
      (forall r, r ∈ rows' -> exists r0, r0 ∈ [example_transfer] /\ cw_log r0 = cw_log r) ->
      credit chat' example_hash rows' out' now' (run d' cs)
      = (Ok {| wr_state := WCredited; wr_credited := 0; wr_duplicate := true; wr_yours := wr_yours out';
               wr_healed := wr_healed out' |}, run d' cs).
Proof.
  eexists _, _. split; [vm_compute; reflexivity|]. split; [reflexivity|]. split; [vm_compute; reflexivity|].
  eapply (wpcn_credited_once example_funded 7 example_hash [example_transfer] example_out 1005);
    [apply example_funded_reachable|vm_compute; reflexivity].
Defined.

(** ** The button *)

Lemma reserve_fresh chat u k m micro o now d v d' :
  reserve chat u k m micro o now d = (Ok v, d') -> rv_duplicate v = false ->
  (forall x i r, k = Some x -> u = None -> reservations d !! i = Some r -> r_req_key r <> Some x).
Proof.
  intros H Hv x i r -> -> Hi Hk. unfold reserve in H. cbn in H. op_inv.
  destruct (find_row (with_req_key x) (reservations d)) as [[j s]|] eqn:Hf; [by op_inv|].
  pose proof (find_row_absent _ _ _ _ Hf Hi) as Hb. by apply bool_decide_eq_false_1 in Hb.
Qed.

(** A call whose failures are answered with another kind of value. *)
Lemma caught_Ok {A B} (m : op A) (h : exn -> op (A + B)) (Q : B -> Prop) d x d' :
  (forall e y z w, h e y = (Ok z, w) -> exists b, z = inr b /\ Q b) ->
  try_catch (r ← m; mret (inl r)) h d = (Ok x, d') ->
  (exists a, x = inl a /\ m d = (Ok a, d')) \/ (exists b, x = inr b /\ Q b).
Proof.
  intros Hh. unfold try_catch, mbind, op_bind. destruct (m d) as [[a|e] d1]; [intros [= <- <-]; eauto|].
  intros H. right. by eapply Hh.
Qed.

(** What a job that starts has done: the price held, one reservation under the
    card's key, one job row, the card started. *)
Lemma start_job_Ok chat id p now d q r j d' :
  start_job chat id p now d = (Ok (Begun q r j), d') -> bot_inv d -> 0 <= c_price_micro p ->
  let price := Number (c_price_micro p) in
  exists u, users d !! chat = Some u /\ (price = 0 \/ price <= balance_micro_usd u) /\
    (forall i s, reservations d !! i = Some s -> r_req_key s <> Some (proposal_key id)) /\
    reservations d' !! r = Some {| r_chat_id := chat; r_update_id := None; r_req_key := Some (proposal_key id);
      r_model := c_model p; r_micro_usd := price; r_state := Open; r_created_at := now;
      r_closed_at := None; r_note := None |} /\
    effect d d' chat (- price) price 0 price /\
    proposals d' = alter (set_card Started (Some now)) id (proposals d) /\
    media_jobs d !! j = None /\ media_jobs d' = <[j := new_job p r id now]> (media_jobs d).
Proof.
  intros H Hd Hp price. unfold start_job, put_card in H. op_inv.
  match goal with H : try_catch _ _ ?e = _ |- _ => set (d0 := e) in *;
    apply (caught_Ok _ _ (fun o => exists n h, o = Short n h)) in H as [(rr & -> & H)|(o & -> & n & h & ->)] end.
  2: by op_inv.
  2: { intros e x z w He. op_inv. destruct e; op_inv; eauto. }
  destruct (rv_duplicate rr) eqn:Hdup; [by op_inv|]. op_inv.
  match goal with H : reserve _ _ _ _ _ _ _ _ = _ |- _ =>
    pose proof (reserve_fresh _ _ _ _ _ _ _ _ _ _ H Hdup) as Hnew;
    apply reserve_Ok in H as [(? & ? & _ & ? & _)|(u & Hu & _ & _ & Hno & Hfl & -> & _)]; [congruence| |by eapply inv_frame|done] end.
  exists u. split; [exact Hu|]. fold price in Hfl. split; [exact Hfl|]. fold price.
  set (d1 := if 0 <? price then _ else d0).
  assert (proposals d1 = proposals d0 /\ media_jobs d1 = media_jobs d /\ reservations d1 = reservations d /\
          effect d d1 chat (- price) price 0 0) as (Hp1 & Hj1 & Hr1 & He1).
  { subst d1. destruct (Z.ltb_spec 0 price) as [Hlt|Hge]; split_and!; try done.
    - eapply effect_eq; [eapply effect_trans; [by apply (effect_frame d d0)|by apply (effect_users d0)]|cbn; lia..].
    - assert (price = 0) as -> by (pose proof (round53_nonneg _ Hp); unfold price, Number in *; lia).
      by apply effect_frame. }
  split_and!.
  - intros i s Hi. by eapply Hnew.
  - cbn. by rewrite lookup_insert_eq.
  - set (nr := {| r_chat_id := chat |}) in *.
    pose proof (effect_new_resv d1 (rv_id rr) nr ltac:(by rewrite Hr1)) as He2.
    eapply effect_eq; [exact (effect_trans (effect_trans He1 He2) (effect_frame _ _ chat eq_refl eq_refl eq_refl))|cbn; lia..].
  - exact Hp1.
  - cbn. rewrite Hj1. apply fresh_id_fresh.
  - cbn. by rewrite Hj1.
Qed.

(** A button that starts a job went through every check. *)
Lemma beginJob_start chat id offer margin now d q r j d' :
  beginJob chat id offer margin now d = (Ok (Begun q r j), d') ->
  exists card o, proposals d !! id = Some card /\ c_chat_id card = chat /\ c_state card = CardOpen /\
    now <= c_expires_at card /\ offer !! c_model card = Some o /\
    quoteSpec o (spec_of_card card) margin = Some (c_price_micro card, c_api_model card) /\
    (forall s, s ∈ c_sources card -> exists it, items d !! s = Some it /\ i_chat_id it = chat) /\
    (forall k jb, media_jobs d !! k = Some jb -> j_chat_id jb = chat -> j_kind jb = c_kind card -> j_state jb <> Running) /\
    start_job chat id card now d = (Ok (Begun q r j), d').
Proof.
  unfold beginJob, put_card. intros H. op_inv. destruct (proposals d !! id) as [p|] eqn:Hp; [|by op_inv].
  destruct (Z.eqb_spec (c_chat_id p) chat) as [Hc|]; cbn [negb] in H; [|by op_inv].
  destruct (bool_decide (c_state p = CardOpen)) eqn:Ho; cbn [negb] in H; [|by op_inv].
  apply bool_decide_eq_true_1 in Ho.
  destruct (Z.ltb_spec (c_expires_at p) now); [by op_inv|].
  destruct (offer !! c_model p) as [o|] eqn:Hof; [|by op_inv]. op_inv.
  destruct (forallb _ _) eqn:Hs; cbn [negb] in H; [|by op_inv].
  destruct (quoteSpec o (spec_of_card p) margin) as [[price api]|] eqn:Hq; [|by op_inv].
  destruct (Z.eqb_spec price (c_price_micro p)) as [->|]; cbn [negb orb] in H; [|by op_inv].
  destruct (bool_decide (api = c_api_model p)) eqn:Ha; cbn [negb] in H; [|by op_inv].
  apply bool_decide_eq_true_1 in Ha as ->. op_inv.
  destruct (exists_row _ _) eqn:Hr; [by op_inv|].
  exists p, o. split_and!; try done.
  - intros s Hin. rewrite forallb_forall in Hs. specialize (Hs s (proj1 (list_elem_of_In _ _) Hin)).
    destruct (items d !! s) as [it|]; [|done]. exists it. split; [done|]. by apply Z.eqb_eq.
  - intros k jb Hk Hjc Hjk Hrun. pose proof (exists_row_false _ _ _ _ Hr Hk) as Hf.
    cbn in Hf. rewrite Hjc, Hjk, Hrun, Z.eqb_refl, !bool_decide_eq_true_2 in Hf by done. done.
Qed.

Lemma start_job_fresh chat id p now d q r j d' :
  start_job chat id p now d = (Ok (Begun q r j), d') ->
  forall i s, reservations d !! i = Some s -> r_req_key s <> Some (proposal_key id).
Proof.
  unfold start_job, put_card. intros H. op_inv.
  match goal with H : try_catch _ _ ?e = _ |- _ => set (d0 := e) in *;
    apply (caught_Ok _ _ (fun o => exists n h, o = Short n h)) in H as [(rr & -> & H)|(o & -> & n & h & ->)] end.
  2: by op_inv.
  2: { intros e x z w He. op_inv. destruct e; op_inv; eauto. }
  destruct (rv_duplicate rr) eqn:Hdup; [by op_inv|]. intros i s Hi.
  match goal with H : reserve _ _ _ _ _ _ _ _ = _ |- _ => by eapply (reserve_fresh _ _ _ _ _ _ _ _ _ _ H Hdup) end.
Qed.

(** C12: A button starts a job only from an open, unexpired card of its own chat,
    at today's price equal to the one shown, with the chat's own sources and no
    other job of that kind running; exactly the price shown is held and the
    balance covers it, one job row refers to the hold; and whatever runs after
    it, that card never starts another job. *)
Theorem button_charges_the_shown_price d chat id offer margin now q r j d' :
  reachable d -> 0 <= margin -> beginJob chat id offer margin now d = (Ok (Begun q r j), d') ->
  exists card u o, proposals d !! id = Some card /\ c_chat_id card = chat /\ c_state card = CardOpen /\
    now <= c_expires_at card /\ offer !! c_model card = Some o /\
    quoteSpec o (spec_of_card card) margin = Some (c_price_micro card, c_api_model card) /\
    (forall s, s ∈ c_sources card -> exists it, items d !! s = Some it /\ i_chat_id it = chat) /\
    (forall k jb, media_jobs d !! k = Some jb -> j_chat_id jb = chat -> j_kind jb = c_kind card -> j_state jb <> Running) /\
    let price := Number (c_price_micro card) in
    users d !! chat = Some u /\ (price = 0 \/ price <= balance_micro_usd u) /\
    effect d d' chat (- price) price 0 price /\
    (exists s, reservations d' !! r = Some s /\ r_state s = Open /\ r_micro_usd s = price /\ r_chat_id s = chat) /\
    media_jobs d' !! j = Some (new_job card r id now) /\
    c_state <$> proposals d' !! id = Some Started /\
    forall cs chat' offer' margin' now' q' r' j' d'',
      beginJob chat' id offer' margin' now' (run d' cs) <> (Ok (Begun q' r' j'), d'').
Proof.
  intros Hd Hm H. destruct (beginJob_start _ _ _ _ _ _ _ _ _ _ H)
    as (card & o & Hp & Hc & Ho & He & Hof & Hq & Hsrc & Hrun & Hs).
  pose proof (quote_nonneg _ _ _ _ _ Hm Hq) as Hpos.
  destruct (start_job_Ok _ _ _ _ _ _ _ _ _ Hs (reachable_inv _ Hd) Hpos)
    as (u & Hu & Hfl & _ & Hr & Heff & Hprop & _ & Hj).
  exists card, u, o. do 8 (split; [assumption|]). cbv zeta. do 3 (split; [assumption|]). split_and!.
  - eexists. split; [exact Hr|]. done.
  - by rewrite Hj, lookup_insert_eq.
  - by rewrite Hprop, lookup_alter_eq, Hp.
  - intros cs chat' offer' margin' now' q' r' j' d'' H'.
    apply beginJob_start in H' as (card' & o' & _ & _ & _ & _ & _ & _ & _ & _ & Hs').
    destruct (gr_reservations _ _ (run_grows d' cs) _ _ Hr) as (s & Hsr & _ & _ & Hk & _).
    by apply (start_job_fresh _ _ _ _ _ _ _ _ _ Hs' _ _ Hsr).
Qed.

Definition example_offer : gmap string offer_entry :=
  {[ "pix"%string := ImageOffer {| ip_id := "pix-1"; ip_tiers := [num_of_Z 1]; ip_input_image := num_of_Z 0 |} ]}.
Definition example_spec : job_spec := {|
  s_kind := Image; s_model := "pix"; s_prompt := "a tree"; s_summary := "a tree"; s_shape := "1:1";
  s_seconds := None; s_resolution := None; s_sources := []; s_start_item := None; s_new_version_of := None |}.
Definition example_card : list (Z * command) :=
  app example_account [(1002, Propose 7 example_spec 1150000 "pix-1" CARD_TTL_SEC)].
Lemma example_card_reachable : reachable (run empty_db example_card).
Proof. apply reachable_run; [constructor|]. repeat constructor. Qed.

(** A dollar fifteen held for a picture; the same card never starts again. *)
Lemma button_charges_the_shown_price_witness :
  exists q r j d', beginJob 7 1 example_offer 1150000 1003 (run empty_db example_card) = (Ok (Begun q r j), d') /\
  bal d' 7 = 3850000 /\ res d' 7 = 1150000 /\
  forall cs chat' offer' margin' now' q' r' j' d'',
    beginJob chat' 1 offer' margin' now' (run d' cs) <> (Ok (Begun q' r' j'), d'').
Proof.
  eexists _, _, _, _. split; [vm_compute; reflexivity|]. split; [vm_compute; reflexivity|].
  split; [vm_compute; reflexivity|].
  edestruct (button_charges_the_shown_price (run empty_db example_card) 7 1 example_offer 1150000 1003) as (card & u & o & H);
    [apply example_card_reachable|done|vm_compute; reflexivity|]. apply H.
Defined.

(** ** Refunds *)

Definition refund_of (d : db) (i : Z) : option (option refund_state) := p_refund_state <$> stars_payments d !! i.

Lemma refund_after d i f p : stars_payments d !! i = Some p ->
  refund_of (on_stars_payments (alter f i) d) i = Some (p_refund_state (f p)).
Proof. intros Hi. unfold refund_of. cbn. by rewrite lookup_alter_eq, Hi. Qed.

Lemma debit_pair_rest chat guard x k idem rate note now d d1 d2 u n :
  update_user chat guard (credit_balance x) d = (Ok n, d1) ->
  insert_ledger (Some chat) x k idem rate note now d1 = (Ok u, d2) -> stars_payments d2 = stars_payments d.
Proof.
  intros H1 H2. apply update_user_rest in H1 as (_ & _ & H1 & _).
  by apply insert_ledger_Ok in H2 as (? & _ & _ & ->).
Qed.

(** Why a refund cannot begin: it is done, an invite reward stands on the top-up and
    may not be taken back, the balance does not cover it, or the ledger has the row of
    the attempt. *)
Definition not_refundable (d : db) (p : payment) (clawback : bool) : Prop :=
  p_refund_state p = Some RefundDone \/ truthy (p_refunded_at p) = true \/
  (is_Some (inviteDependency (p_chat_id p) (p_micro_usd p) d) /\ clawback = false) \/
  bal d (p_chat_id p) < p_micro_usd p \/
  key_taken (refund_key (p_charge_id p) (refund_attempts (p_charge_id p) d + 1)) d = true.

(** The rows an answer adds: of the money that comes back, of the reward taken back. *)
Definition undo_key (d : db) (p : payment) : string :=
  refund_key (p_charge_id p) (refund_attempts (p_charge_id p) d) ++ ":undo".
Definition clawback_key (p : payment) : string := "referral-clawback:" ++ show (p_chat_id p).

(** The reward a refund takes back: asked for when it began, and still standing. *)
Definition reward_due (d : db) (p : payment) : option (Z * Z) :=
  if p_refund_clawback p then
    match find_row (rewarded_of (p_chat_id p)) (referrals d) with
    | Some (_, f) => if 0 <? default 0 (f_reward f) then Some (f_referrer f, default 0 (f_reward f)) else None
    | None => None
    end
  else None.

Section refund.
Context (d : db) (i : Z) (p : payment) (Hd : bot_inv d) (Hi : stars_payments d !! i = Some p).

Lemma begin_threw note cb now e d' : beginRefund i note cb now d = (Err e, d') -> d' = d /\ not_refundable d p cb.
Proof.
  intros (-> & d1 & H)%immediate_threw. split; [done|]. unfold not_refundable.
  apply op_bind_Err in H as [H|(row & d2 & H1 & H)]; [discriminate H|]. apply query_Ok in H1 as [-> ->].
  rewrite Hi in H. case_bool_decide as Hdone; [by left|]. cbn [orb] in H. right.
  destruct (truthy (p_refunded_at p)); [by left|]. right. case_bool_decide; [by err_inv|].
  apply op_bind_Err in H as [H|(dep & d2 & H1 & H)]; [discriminate H|]. apply query_Ok in H1 as [-> ->].
  case_bool_decide as Hdep; cbn [andb] in H; [destruct cb; cbn [negb] in H; [|by left]|]; right.
  all: apply op_bind_Err in H as [H|(n & d2 & H1 & H)]; [by apply update_user_threw in H|].
  all: apply update_user_Ok in H1 as [(u & Hu & Hg & -> & ->)|(-> & -> & Hno)];
    [|left; destruct Hno as [Hno|(u & Hu & Hg)];
      [by destruct (lk_pay_user _ (proj2 Hd) _ _ Hi) as [? ?]; congruence|];
      rewrite (bal_some _ _ _ Hu); by apply Z.leb_gt].
  all: right; cbn [Z.eqb negb Pos.eqb] in H;
    apply op_bind_Err in H as [H|(m & d3 & H1 & H)]; [discriminate H|]; apply query_Ok in H1 as [-> ->];
    apply op_bind_Err in H as [H|(m & d4 & _ & H)]; [by apply insert_ledger_threw in H|by err_inv].
Qed.

Lemma begin_step note cb now :
  match beginRefund i note cb now d with
  | (Ok (q, true), d') => d' = d /\ q = p /\ p_refund_state p = Some RefundPending
  | (Ok (q, false), d') => p_refund_state p = None /\ ~ not_refundable d p cb /\
      effect d d' (p_chat_id p) (- p_micro_usd p) 0 (- p_micro_usd p) 0 /\ refund_of d' i = Some (Some RefundPending)
  | (Err _, d') => d' = d /\ not_refundable d p cb
  end.
Proof.
  destruct (beginRefund i note cb now d) as [[[q again]|e] d'] eqn:H; [|by apply begin_threw in H].
  unfold beginRefund in H. op_inv. rewrite Hi in H.
  destruct (bool_decide (p_refund_state p = Some RefundDone)) eqn:Hdone; cbn [orb] in H; [by op_inv|].
  apply bool_decide_eq_false_1 in Hdone. destruct (truthy _) eqn:Htr; [by op_inv|].
  destruct (bool_decide (p_refund_state p = Some RefundPending)) eqn:Hpend.
  { op_inv. apply bool_decide_eq_true_1 in Hpend. done. }
  apply bool_decide_eq_false_1 in Hpend. op_inv. destruct (_ && _)%bool eqn:Hdep; [by op_inv|]. op_inv.
  match type of H with (if negb (?a =? 1) then _ else _) _ = _ => destruct (Z.eqb_spec a 1) as [->|] end;
    cbn [negb] in H; [|by op_inv]. op_inv.
  match goal with H1 : update_user _ _ _ _ = _, H2 : insert_ledger _ _ _ _ _ _ _ _ = _ |- _ =>
    destruct (debit_pair_inv _ _ _ _ _ _ _ _ _ _ _ _ _ H1 eq_refl H2 (refund_key_plain _ _) Hd) as [_ He];
    pose proof (debit_pair_rest _ _ _ _ _ _ _ _ _ _ _ _ _ H1 H2) as Hpay;
    apply update_user_Ok in H1 as [(u & Hu & Hg & _ & ->)|(? & _)]; [|lia];
    apply insert_ledger_Ok in H2 as (? & _ & Hkey & _) end.
  split; [destruct (p_refund_state p) as [[]|]; congruence|]. split.
  { intros [?|[?|[[Hd1 ->]|[Hb|Hk]]]]; [done|congruence| | |].
    - by rewrite bool_decide_eq_true_2 in Hdep.
    - rewrite (bal_some _ _ _ Hu) in Hb. apply Z.leb_le in Hg. lia.
    - change (key_taken (refund_key (p_charge_id p) (refund_attempts (p_charge_id p) d + 1)) d = false) in Hkey. congruence. }
  split; [|by erewrite refund_after by (rewrite Hpay; exact Hi)].
  eapply effect_eq; [eapply effect_trans; [exact He|by apply effect_frame]|lia..].
Qed.

Lemma finish_threw now e d' : finishRefund i now d = (Err e, d') ->
  d' = d /\ p_refund_state p = Some RefundPending /\ is_Some (reward_due d p) /\ key_taken (clawback_key p) d = true.
Proof.
  intros (-> & d1 & H)%immediate_threw. split; [done|].
  apply op_bind_Err in H as [H|(row & d2 & H1 & H)]; [discriminate H|]. apply query_Ok in H1 as [-> ->].
  rewrite Hi in H. case_bool_decide as Hp; cbn [negb] in H; [split; [done|]|by err_inv].
  apply op_bind_Err in H as [H|(row & d2 & H1 & H)]; [discriminate H|]. apply exec_Ok in H1 as ->.
  unfold reward_due. destruct (p_refund_clawback p); cbn [negb] in H; [|by err_inv].
  apply op_bind_Err in H as [H|(row' & d2 & H1 & H)]; [discriminate H|]. apply query_Ok in H1 as [-> ->].
  cbn [referrals on_stars_payments] in H. destruct (find_row _ (referrals d)) as [[j f]|]; [|by err_inv].
  destruct (0 <? default 0 (f_reward f)); [split; [by eexists|]|by err_inv].
  apply op_bind_Err in H as [H|(m & d4 & _ & H)]; [by apply insert_ledger_threw in H|]. by err_inv.
Qed.

Lemma finish_step now :
  match finishRefund i now d with
  | (Ok (Finished c), d') => p_refund_state p = Some RefundPending /\ refund_of d' i = Some (Some RefundDone) /\
      c = reward_due d p /\
      match c with
      | None => forall chat, effect d d' chat 0 0 0 0
      | Some (referrer, reward) => 0 < reward /\ effect d d' referrer (- reward) 0 (- reward) 0
      end
  | (Ok AlreadyFinished, d') => d' = d /\ p_refund_state p <> Some RefundPending
  | (Err _, d') => d' = d /\ p_refund_state p = Some RefundPending /\ is_Some (reward_due d p) /\
      key_taken (clawback_key p) d = true
  end.
Proof.
  destruct (finishRefund i now d) as [[o|e] d'] eqn:H; [|by apply finish_threw in H].
  unfold finishRefund in H. op_inv. rewrite Hi in H. unfold reward_due.
  destruct (bool_decide (p_refund_state p = Some RefundPending)) eqn:Hp; cbn [negb] in H;
    [apply bool_decide_eq_true_1 in Hp|apply bool_decide_eq_false_1 in Hp; by op_inv]. op_inv.
  match type of H with _ ?e = _ => set (d0 := e) in * end.
  assert (refund_of d0 i = Some (Some RefundDone)) as Hr0 by (subst d0; by erewrite refund_after by exact Hi).
  assert (forall chat, effect d d0 chat 0 0 0 0) as He0 by (intros chat; by apply effect_frame).
  destruct (p_refund_clawback p) eqn:Hcb; cbn [negb] in H; [|by op_inv]. op_inv.
  change (referrals d0) with (referrals d) in H.
  destruct (find_row _ (referrals d)) as [[j f]|] eqn:Hf; [|by op_inv].
  destruct (Z.ltb_spec 0 (default 0 (f_reward f))); [|by op_inv]. op_inv. split; [done|].
  apply find_row_Some in Hf as [Hf _]. pose proof (lk_ref_user _ (proj2 Hd) _ _ Hf) as Hu.
  match goal with H1 : insert_ledger _ _ _ _ _ _ _ _ = _, H2 : update_user _ _ _ _ = _ |- _ =>
    destruct (credit_pair_inv _ _ _ _ _ _ _ d0 _ _ _ _ H1 H2 ltac:(split; reflexivity) Hu ltac:(by apply inv_alter_payment)) as (_ & He & _);
    pose proof (insert_ledger_Ok _ _ _ _ _ _ _ _ _ _ H1) as (? & _ & _ & E1);
    pose proof (update_user_rest _ _ _ _ _ _ H2) as (_ & _ & E2 & _) end.
  split; [unfold refund_of in *; cbn; by rewrite E2, E1|]. split; [done|]. split; [done|].
  eapply effect_eq; [exact (effect_trans (effect_trans (He0 _) He) (effect_frame _ _ _ eq_refl eq_refl eq_refl))|lia..].
Qed.

Lemma undo_threw why now e d' : undoRefund i why now d = (Err e, d') ->
  d' = d /\ p_refund_state p = Some RefundPending /\ key_taken (undo_key d p) d = true.
Proof.
  intros (-> & d1 & H)%immediate_threw. split; [done|].
  apply op_bind_Err in H as [H|(row & d2 & H1 & H)]; [discriminate H|]. apply query_Ok in H1 as [-> ->].
  rewrite Hi in H. case_bool_decide as Hp; cbn [negb] in H; [split; [done|]|by err_inv].
  apply op_bind_Err in H as [H|(n & d2 & H1 & H)]; [discriminate H|]. apply query_Ok in H1 as [-> ->].
  apply op_bind_Err in H as [H|(m & d4 & _ & H)]; [by apply insert_ledger_threw in H|]. by err_inv.
Qed.

Lemma undo_step why now :
  match undoRefund i why now d with
  | (Ok (Some m), d') => p_refund_state p = Some RefundPending /\ key_taken (undo_key d p) d = false /\ m = p_micro_usd p /\
      effect d d' (p_chat_id p) (p_micro_usd p) 0 (p_micro_usd p) 0 /\ refund_of d' i = Some None
  | (Ok None, d') => d' = d /\ p_refund_state p <> Some RefundPending
  | (Err _, d') => d' = d /\ p_refund_state p = Some RefundPending /\ key_taken (undo_key d p) d = true
  end.
Proof.
  destruct (undoRefund i why now d) as [[o|e] d'] eqn:H; [|by apply undo_threw in H].
  unfold undoRefund in H. op_inv. rewrite Hi in H.
  destruct (bool_decide (p_refund_state p = Some RefundPending)) eqn:Hp; cbn [negb] in H;
    [apply bool_decide_eq_true_1 in Hp|apply bool_decide_eq_false_1 in Hp; by op_inv]. op_inv.
  pose proof (lk_pay_user _ (proj2 Hd) _ _ Hi) as Hu.
  match goal with H1 : insert_ledger _ _ _ _ _ _ _ _ = _, H2 : update_user _ _ _ _ = _ |- _ =>
    destruct (credit_pair_inv _ _ _ _ _ _ _ _ _ _ _ _ H1 H2 ltac:(split; reflexivity) Hu Hd) as (_ & He & _);
    pose proof (insert_ledger_Ok _ _ _ _ _ _ _ _ _ _ H1) as (? & _ & Hkey & E1);
    pose proof (update_user_rest _ _ _ _ _ _ H2) as (_ & _ & E2 & _) end.
  split; [done|]. split; [exact Hkey|]. split; [done|]. split.
  - eapply effect_eq; [exact (effect_trans He (effect_frame _ _ _ eq_refl eq_refl eq_refl))|lia..].
  - erewrite refund_after; [reflexivity|]. by rewrite E2, E1.
Qed.
End refund.

(** C14: A refund follows the state of its payment. Beginning one takes the money
    off the payer exactly when none is under way and nothing stands against it; beginning
    it again while it is under way changes nothing; and it is refused, with no trace,
    only when it was done before, an invite reward stands on the top-up, the balance does
    not cover it, or the ledger has the row of that attempt. When Telegram says yes, a
    pending payment is done, and no money moves but the invite reward that was to be taken
    back and still stands; when it says no, the money of a pending payment comes back and
    it may begin anew; when it does not answer nothing changes. Where no refund is under
    way an answer changes nothing. An answer fails, and leaves no trace, only when the
    ledger already has the row it is about to add. *)
Theorem refund_protocol d i p :
  reachable d -> stars_payments d !! i = Some p ->
  (forall note cb now,
     match beginRefund i note cb now d with
     | (Ok (q, true), d') => d' = d /\ q = p /\ p_refund_state p = Some RefundPending
     | (Ok (q, false), d') => p_refund_state p = None /\ ~ not_refundable d p cb /\
         effect d d' (p_chat_id p) (- p_micro_usd p) 0 (- p_micro_usd p) 0 /\ refund_of d' i = Some (Some RefundPending)
     | (Err _, d') => d' = d /\ not_refundable d p cb
     end) /\
  (forall r now,
     match r, refund_answer p i r now d with
     | TgUnknown, (o, d') => d' = d /\ o = Err (Refused "Telegram did not answer")
     | TgRefused _, (o, d') => is_ok o = false /\
         if bool_decide (p_refund_state p = Some RefundPending) then
           (key_taken (undo_key d p) d = true /\ d' = d) \/
           (key_taken (undo_key d p) d = false /\ refund_of d' i = Some None /\
            effect d d' (p_chat_id p) (p_micro_usd p) 0 (p_micro_usd p) 0)
         else d' = d
     | _, (Ok (RefundOk stars micro c), d') => stars = p_stars p /\ micro = p_micro_usd p /\
         if bool_decide (p_refund_state p = Some RefundPending) then
           refund_of d' i = Some (Some RefundDone) /\ c = reward_due d p /\
           match c with
           | None => forall chat, effect d d' chat 0 0 0 0
           | Some (referrer, reward) => 0 < reward /\ effect d d' referrer (- reward) 0 (- reward) 0
           end
         else d' = d /\ c = None
     | _, (Ok (RefundFailed _), _) => False
     | _, (Err _, d') => d' = d /\ p_refund_state p = Some RefundPending /\ is_Some (reward_due d p) /\
         key_taken (clawback_key p) d = true
     end).
Proof.
  intros Hd Hi. pose proof (reachable_inv _ Hd) as Hinv. split; [intros; by apply begin_step|].
  intros r now. unfold refund_answer, mbind, op_bind.
  pose proof (finish_step d i p Hinv Hi now) as Hf.
  destruct r as [| |why|]; [| | |done].
  3: { pose proof (undo_step d i p Hinv Hi why now) as Hu.
       destruct (undoRefund i why now d) as [[[m|]|e] d']; cbn; (split; [done|]).
       - rewrite bool_decide_eq_true_2 by apply Hu. right. tauto.
       - by rewrite bool_decide_eq_false_2 by apply Hu; destruct Hu.
       - rewrite bool_decide_eq_true_2 by apply Hu. left. tauto. }
  all: destruct (finishRefund i now d) as [[[|c]|e] d']; cbn in Hf |- *; [| |done].
  all: (split; [done|]); (split; [done|]).
  1,3: by rewrite bool_decide_eq_false_2 by apply Hf; destruct Hf.
  all: by rewrite bool_decide_eq_true_2 by apply Hf; destruct Hf as [_ Hf].
Qed.

Definition example_refunding : list (Z * command) :=
  app example_invoiced [(1003, PaymentUpdate 9 7 example_payment ∅)].
Lemma example_refunding_reachable : reachable (run empty_db example_refunding).
Proof. apply reachable_run; [constructor|]. repeat constructor. Qed.

(** The payment of the invoice above, refunded: the money is off at once, back
    when Telegram refuses. *)
Lemma refund_protocol_witness :
  let d := run empty_db example_refunding in
  let begun := beginRefund 1 "asked" false 1004 d in
  exists p q, stars_payments d !! 1 = Some p /\ begun.1 = Ok (q, false) /\
    effect d begun.2 (p_chat_id p) (- p_micro_usd p) 0 (- p_micro_usd p) 0 /\
    bal d 7 = 6000000 /\ bal begun.2 7 = 5000000 /\
    bal (refund_answer q 1 (TgRefused "no") 1005 begun.2).2 7 = 6000000.
Proof.
  assert (exists p q, stars_payments (run empty_db example_refunding) !! 1 = Some p /\
    (beginRefund 1 "asked" false 1004 (run empty_db example_refunding)).1 = Ok (q, false) /\
    bal (refund_answer q 1 (TgRefused "no") 1005 (beginRefund 1 "asked" false 1004 (run empty_db example_refunding)).2).2 7
      = 6000000) as (p & q & Hp & Hq & Hb).
  { eexists _, _. split; [vm_compute; reflexivity|]. split; [vm_compute; reflexivity|]. vm_compute. reflexivity. }
  exists p, q. split; [exact Hp|]. split; [exact Hq|].
  split; [|split; [vm_compute; reflexivity|split; [vm_compute; reflexivity|exact Hb]]].
  destruct (refund_protocol (run empty_db example_refunding) 1 p example_refunding_reachable Hp) as [H _].
  specialize (H "asked"%string false 1004). revert Hq H.
  destruct (beginRefund 1 "asked" false 1004 (run empty_db example_refunding)) as [[[q' []]|e] d1]; cbn; intros Hq H;
    [discriminate Hq| |discriminate Hq]. apply H.
Defined.

(** ** Addresses *)

(** Asking again returns the row the chat has. *)
Lemma allocate_again d c now i a :
  pool_inv d -> pcn_addresses d !! i = Some a -> a_chat_id a = Some c ->
  allocateAddress c now d = (Ok {| al_address := a_address a; al_index := a_index a; al_fresh := false |}, d).
Proof.
  intros Hp Hi Hc. unfold allocateAddress, immediate, mbind, op_bind, query.
  destruct (find_row (chat_owns c) (pcn_addresses d)) as [[j b]|] eqn:Hf.
  - apply find_row_Some in Hf as [Hj Hb]. apply bool_decide_eq_true_1 in Hb.
    assert (j = i) as -> by by eapply (pl_chat _ Hp). assert (b = a) as -> by congruence. done.
  - apply (find_row_absent _ _ _ _ Hf) in Hi. by apply bool_decide_eq_false_1 in Hi.
Qed.

(** A chat that asks for an address gets one the mining pool can pay: its own
    if it has one, else the free one of the lowest index, unless every address is
    issued. From then on, whatever else runs, asking again gives the same address
    and writes nothing, and no other chat is ever given it. *)
Theorem address_stays_with_its_chat d c now :
  reachable d ->
  (exists v d', allocateAddress c now d = (Ok v, d') /\ payable (al_address v) /\
     (al_fresh v = true -> forall j e, pcn_addresses d !! j = Some e -> a_assigned_at e = None -> al_index v <= a_index e) /\
     (al_fresh v = false -> d' = d) /\
     forall cs,
       (forall now', allocateAddress c now' (run d' cs)
          = (Ok {| al_address := al_address v; al_index := al_index v; al_fresh := false |}, run d' cs)) /\
       (forall c' now' v' d'', allocateAddress c' now' (run d' cs) = (Ok v', d'') ->
          al_address v' = al_address v -> c' = c))
  \/ (allocateAddress c now d = (Err PoolEmpty, d) /\
      forall i a, pcn_addresses d !! i = Some a -> is_Some (a_assigned_at a) /\ a_chat_id a <> Some c).
Proof.
  intros Hd. destruct (allocate_spec c now d (reachable_pool _ Hd)) as [(v & d' & i & a & H & Hp & Hi & Hc & Ha & Hx & _ & Hf)|H];
    [left|by right].
  exists v, d'. split; [exact H|]. split; [rewrite Ha; by eapply pl_payable|]. split.
  { intros Hfr j e Hj He. rewrite Hfr in Hf. destruct Hf as (b & Hb & -> & _ & Hmin). rewrite Hx. by eapply (Hmin j e). }
  split; [intros Hfr; by rewrite Hfr in Hf|]. intros cs. pose proof (run_grows d' cs) as Hg.
  pose proof (gr_pool _ _ Hg Hp) as Hp'. destruct (gr_addresses _ _ Hg _ _ Hi) as (b & Hb & Ei & Ea & Ec & _).
  split.
  - intros now'. rewrite Ha, Hx, <- Ei, <- Ea. eapply allocate_again; [exact Hp'|exact Hb|by apply Ec].
  - intros c' now' v' d'' H' Hv.
    pose proof (moved _ _ _ _ (moves_allocate c' now') H') as Hg'. pose proof (gr_pool _ _ Hg' Hp') as Hp''.
    destruct (gr_addresses _ _ Hg' _ _ Hb) as (b2 & Hb2 & _ & Ea2 & Ec2 & _).
    destruct (allocate_spec c' now' _ Hp') as [(v2 & d2 & k & e & H2 & _ & Hk & Hck & Hak & _)|[H2 _]]; [|congruence].
    rewrite H' in H2. injection H2 as <- <-.
    assert (k = i) as -> by (eapply (pl_address _ Hp'' k i); [exact Hk|exact Hb2|congruence]).
    specialize (Ec2 c (Ec c Hc)). congruence.
Qed.

Definition example_stocked : list (Z * command) :=
  app example_account [(1002, ImportPool example_pool_file None None None)].
Lemma example_stocked_reachable : reachable (run empty_db example_stocked).
Proof. apply reachable_run; [constructor|]. repeat constructor. Qed.

Lemma address_stays_with_its_chat_witness :
  exists v d', allocateAddress 7 1003 (run empty_db example_stocked) = (Ok v, d') /\
    v = {| al_address := example_address; al_index := 0; al_fresh := true |} /\ payable (al_address v) /\
    forall cs now', allocateAddress 7 now' (run d' cs)
      = (Ok {| al_address := example_address; al_index := 0; al_fresh := false |}, run d' cs).
Proof.
  destruct (address_stays_with_its_chat _ 7 1003 example_stocked_reachable) as [(v & d' & H & Hp & _ & _ & Hcs)|[H _]].
  - assert (v = {| al_address := example_address; al_index := 0; al_fresh := true |}) as ->.
    { pose proof (f_equal fst H) as E. vm_compute in E. by injection E as <-. }
    exists {| al_address := example_address; al_index := 0; al_fresh := true |}, d'.
    split; [exact H|]. split; [reflexivity|]. split; [exact Hp|]. intros cs. apply (Hcs cs).
  - exfalso. pose proof (f_equal fst H) as E. vm_compute in E. discriminate E.
Defined.

(** An import of address lines is all or nothing: it refuses the file, or a row
    that disagrees with one it has, and writes nothing; or every line it read is in
    the pool at its index, as an address the mining pool can pay, nothing that was
    there is changed, and lines without an index of their own got the indexes from
    the expected start on, without a gap. *)
Theorem import_is_all_or_nothing d text start f l :
  reachable d ->
  match importPool text start f l d with
  | (Ok r, d') =>
      (parsePoolFile text start).2 = [] /\
      Forall (fun r => payable r.2 /\ holds_row d' r) (parsePoolFile text start).1 /\
      im_total r = Z.of_nat (length (parsePoolFile text start).1) /\ pool_grows d d' /\ pool_inv d' /\
      (forall i, start = Some i -> forallb bare_line (split_lines text) = true ->
         (parsePoolFile text start).1.*1 = seqZ i (im_total r))
  | (Err _, d') => d' = d
  end.
Proof.
  intros Hd. destruct (importPool text start f l d) as [[r|e] d'] eqn:H; [|by apply import_Err in H].
  destruct (import_Ok _ _ _ _ _ _ _ H (reachable_pool _ Hd)) as (Hp & Hg & Hrows & Hpr & Ht). split_and!; try done.
  - rewrite Forall_forall. intros x Hx. split.
    + by apply (proj1 (Forall_forall _ _) (parse_payable text start)).
    + by apply (proj1 (Forall_forall _ _) Hrows).
  - intros i -> Hb. rewrite Ht. by apply parse_aligned.
Qed.

Lemma import_is_all_or_nothing_witness :
  exists r d', importPool example_pool_file None None None (run empty_db example_account) = (Ok r, d') /\
    im_total r = 1 /\ Forall (fun r => payable r.2 /\ holds_row d' r) [(0, example_address)].
Proof.
  pose proof (import_is_all_or_nothing (run empty_db example_account) example_pool_file None None None
    (reachable_run _ _ reach_start example_account_ok)) as H.
  destruct (importPool example_pool_file None None None (run empty_db example_account)) as [[r|e] d'] eqn:E.
  - exists r, d'. split; [reflexivity|]. destruct H as (_ & H & Ht & _).
    assert ((parsePoolFile example_pool_file None).1 = [(0, example_address)]) as Hr by (vm_compute; reflexivity).
    rewrite Hr in H, Ht. split; [exact Ht|exact H].
  - exfalso. pose proof (f_equal fst E) as E'. vm_compute in E'. discriminate E'.
Defined.
