(* ===== verification/BotInbox.v ===== *)
(** * Chat messages from claim to answer (contrib/pcnaibot/lib/inbox.mjs, lib/turns.mjs,
    and the poll loop and [runTurn] of bot.mjs that join them)

    A message's claim carries the message, a turn starts from its claim, and a
    start of the process deals with what the last one left. The process is the
    database, the turn queue and the message the poll loop holds between its claim
    and the queue; a step is one segment between two awaits, or the end of the
    process and the start of the next. What a turn answers is not modelled. *)

From S2P Require Import Prelude JsInt BotDb BotInv BotStars.
Local Open Scope Z_scope.

Definition TURN_RECOVERY_MAX_AGE_SEC : Z := 30 * 60.

(** ** The rows (inbox.mjs) *)

Definition put_turn (s : turn_state) (body : option message) (started : option Z) (r : tg_update) : tg_update := {|
  t_claimed_at := t_claimed_at r; t_state := Some s; t_chat_id := t_chat_id r; t_body := body;
  t_started_at := started |}.

(** The claim, carrying the message; false when the update was claimed before. *)
Definition claimMessage (updateId : Z) (msg : message) (now : Z) : op bool := fun d =>
  match tg_updates d !! updateId with
  | Some _ => (Ok false, d)
  | None => (Ok true, on_tg_updates <[updateId := {| t_claimed_at := now; t_state := Some Queued;
               t_chat_id := m_chat msg; t_body := Some msg; t_started_at := None |}]> d)
  end.

(** [UPDATE tg_updates SET ... WHERE update_id = ? AND state = s] *)
Definition update_turn (updateId : Z) (s : turn_state) (f : tg_update -> tg_update) : op bool := fun d =>
  match tg_updates d !! updateId with
  | Some r => if bool_decide (t_state r = Some s) then (Ok true, on_tg_updates <[updateId := f r]> d) else (Ok false, d)
  | None => (Ok false, d)
  end.

Definition startTurn (updateId now : Z) : op bool :=
  update_turn updateId Queued (fun r => put_turn TurnStarted (t_body r) (Some now) r).

Definition finishTurn (updateId : Z) : op () :=
  _ ← update_turn updateId TurnStarted (fun r => put_turn TurnDone None (t_started_at r) r); mret tt.

Record recovered := { rc_resume : list (Z * message); rc_lost : list (Z * option Z * turn_state) }.

(** What becomes of one row: run again with its message, or given up. *)
Definition resumable (maxAgeSec now : Z) (r : tg_update) : option message :=
  msg ← (if bool_decide (t_state r = Some Queued) && (now - t_claimed_at r <=? maxAgeSec) then t_body r else None);
  if bool_decide (m_chat msg = None) then None else Some msg.

Definition unfinished (r : tg_update) : option turn_state :=
  match t_state r with Some Queued => Some Queued | Some TurnStarted => Some TurnStarted | _ => None end.

(** The loop over the rows, in the order of their ids. *)
Fixpoint recover_rows (maxAgeSec now : Z) (rows : list (Z * tg_update)) : op recovered :=
  match rows with
  | [] => mret {| rc_resume := []; rc_lost := [] |}
  | (u, r) :: rows' =>
      match unfinished r with
      | None => recover_rows maxAgeSec now rows'
      | Some s =>
          match resumable maxAgeSec now r with
          | Some msg =>
              rest ← recover_rows maxAgeSec now rows';
              mret {| rc_resume := (u, msg) :: rc_resume rest; rc_lost := rc_lost rest |}
          | None =>
              _ ← exec (on_tg_updates (alter (put_turn Lost None (t_started_at r)) u));
              rest ← recover_rows maxAgeSec now rows';
              mret {| rc_resume := rc_resume rest; rc_lost := (u, t_chat_id r, s) :: rc_lost rest |}
          end
      end
  end.

Definition recoverTurns (maxAgeSec now : Z) : op recovered := immediate (
  rows ← query (fun d => by_id (tg_updates d));
  recover_rows maxAgeSec now rows).

(** ** The queue (turns.mjs) *)

(** What runs: a turn before and after its [startTurn], or other tracked work. *)
Inductive slot := Scheduled (u : Z) | Working (u : Z) | Tracked (k : Z).
#[export] Instance slot_eq_dec : EqDecision slot.
Proof. solve_decision. Defined.

Record queue := { q_running : list slot; q_waiting : list Z; q_paused : bool }.

(** [pump]: the oldest waiting turn while there is room. *)
Fixpoint pump_turns (max : nat) (running : list slot) (waiting : list Z) : list slot * list Z :=
  match waiting with
  | [] => (running, [])
  | u :: waiting' => if (length running <? max)%nat then pump_turns max (running ++ [Scheduled u]) waiting'
                     else (running, waiting)
  end.
Definition pump (max : nat) (q : queue) : queue :=
  if q_paused q then q else
  let '(r, w) := pump_turns max (q_running q) (q_waiting q) in
  {| q_running := r; q_waiting := w; q_paused := q_paused q |}.

Definition track (s : slot) (q : queue) : queue := {|
  q_running := if decide (s ∈ q_running q) then q_running q else q_running q ++ [s]; q_waiting := q_waiting q; q_paused := q_paused q |}.
Definition submit (max : nat) (u : Z) (q : queue) : queue :=
  pump max {| q_running := q_running q; q_waiting := q_waiting q ++ [u]; q_paused := q_paused q |}.
Definition pause (q : queue) : queue := {|
  q_running := q_running q; q_waiting := q_waiting q; q_paused := true |}.
(** [settle]: a promise that ended leaves, and the next ones start. *)
Definition settle_turn (max : nat) (s : slot) (q : queue) : queue :=
  pump max {| q_running := filter (fun x => x <> s) (q_running q); q_waiting := q_waiting q; q_paused := q_paused q |}.

Definition empty_queue : queue := {| q_running := []; q_waiting := []; q_paused := false |}.

(** ** The process (bot.mjs) *)

Record process := { ps_db : db; ps_queue : queue; ps_held : option Z }.
Definition first_start : process := {| ps_db := empty_db; ps_queue := empty_queue; ps_held := None |}.

Inductive event :=
  | Claim (u : Z) (msg : message) (now : Z)
  | ClaimOther (u now : Z)
  | Enqueue
  | Begin (u now : Z)
  | End_ (u : Z)
  | TrackWork (k : Z) | EndWork (k : Z)
  | Shutdown
  | Restart (now : Z).

(** What a step does outside: a turn that is answered, a message given up. *)
Inductive note := Answering (u : Z) | GaveUp (u : Z).
#[export] Instance note_eq_dec : EqDecision note.
Proof. solve_decision. Defined.

(** The statement returns, and what it returns. *)
Definition call {A} (m : op A) (default : A) (s : process) : A * process :=
  match m (ps_db s) with
  | (Ok a, d) => (a, {| ps_db := d; ps_queue := ps_queue s; ps_held := ps_held s |})
  | (Err _, d) => (default, {| ps_db := d; ps_queue := ps_queue s; ps_held := ps_held s |})
  end.
Definition with_queue (f : queue -> queue) (s : process) : process := {|
  ps_db := ps_db s; ps_queue := f (ps_queue s); ps_held := ps_held s |}.
Definition hold_message (u : option Z) (s : process) : process := {|
  ps_db := ps_db s; ps_queue := ps_queue s; ps_held := u |}.

(** [runTurn] up to the work: [startTurn] says whether to go on. *)
Definition begin_turn (max : nat) (u now : Z) (s : process) : process * list note :=
  let '(started, s) := call (startTurn u now) false s in
  if started : bool then
    (with_queue (fun q => {| q_running := (fun x => if decide (x = Scheduled u) then Working u else x) <$> q_running q;
                             q_waiting := q_waiting q; q_paused := q_paused q |}) s, [Answering u])
  else (with_queue (settle_turn max (Scheduled u)) s, []).

(** The start of a process: recent queued messages are submitted, the rest given up. *)
Definition restart (max : nat) (now : Z) (s : process) : process * list note :=
  let '(r, s) := call (recoverTurns TURN_RECOVERY_MAX_AGE_SEC now) {| rc_resume := []; rc_lost := [] |} s in
  ({| ps_db := ps_db s; ps_queue := foldl (fun q x => submit max x.1 q) empty_queue (rc_resume r); ps_held := None |},
   (fun x => GaveUp x.1.1) <$> rc_lost r).

Definition handle_event (max : nat) (s : process) (e : event) : process * list note :=
  match e with
  | Claim u msg now =>
      match ps_held s with
      | Some _ => (s, [])
      | None => let '(claimed, s) := call (claimMessage u msg now) false s in
                ((if claimed : bool then hold_message (Some u) s else s), [])
      end
  | ClaimOther u now =>
      match ps_held s with Some _ => (s, []) | None => ((call (claim_update u now) false s).2, []) end
  | Enqueue => match ps_held s with
               | Some u => (with_queue (submit max u) (hold_message None s), [])
               | None => (s, []) end
  | Begin u now => if decide (Scheduled u ∈ q_running (ps_queue s)) then begin_turn max u now s else (s, [])
  | End_ u => if decide (Working u ∈ q_running (ps_queue s))
              then (with_queue (settle_turn max (Working u)) (call (finishTurn u) tt s).2, []) else (s, [])
  | TrackWork k => (with_queue (track (Tracked k)) s, [])
  | EndWork k => (with_queue (settle_turn max (Tracked k)) s, [])
  | Shutdown => (with_queue pause s, [])
  | Restart now => restart max now s
  end.

(** A run of processes, with everything it did outside. *)
Definition live (max : nat) (x : process * list note) (e : event) : process * list note :=
  let '(s, out) := handle_event max x.1 e in (s, app x.2 out).
Definition lives (max : nat) (es : list event) : process * list note := foldl (live max) (first_start, []) es.

(** ** Occurrences *)

Definition occ {A} `{EqDecision A} (a : A) (l : list A) : nat := length (filter (fun x => x = a) l).

Section occ.
Context {A : Type} `{EqDecision A}.
Implicit Types (a b : A) (l k : list A).

Lemma occ_cons a b l : occ a (b :: l) = ((if decide (b = a) then 1 else 0) + occ a l)%nat.
Proof. unfold occ. rewrite filter_cons. by case_decide. Qed.
Lemma occ_nil a : occ a [] = 0%nat.
Proof. reflexivity. Qed.
Lemma occ_app a l k : occ a (l ++ k) = (occ a l + occ a k)%nat.
Proof. unfold occ. by rewrite filter_app, length_app. Qed.
Lemma occ_zero a l : occ a l = 0%nat <-> a ∉ l.
Proof.
  induction l as [|b l IH]; [split; [by intros _ ?%elem_of_nil|done]|].
  rewrite occ_cons, not_elem_of_cons, <- IH. case_decide as E; split; [lia|by intros [[] _]|split; [congruence|lia]|].
  intros [_ ->]. done.
Qed.
Lemma occ_elem a l : a ∈ l -> (1 <= occ a l)%nat.
Proof. intros Ha. destruct (occ a l) eqn:E; [by apply occ_zero in E|lia]. Qed.
Lemma occ_remove a b l : occ a (filter (fun x => x <> b) l) = if decide (a = b) then 0%nat else occ a l.
Proof.
  induction l as [|c l IH]; [by case_decide|]. rewrite filter_cons, occ_cons.
  destruct (decide (c <> b)) as [Hc|Hc]; rewrite ?occ_cons, IH; repeat case_decide; subst; done || congruence || tauto.
Qed.
End occ.

(** ** The queue keeps what it is given *)

Definition is_turn (s : slot) : bool := match s with Tracked _ => false | _ => true end.
Definition turns (q : queue) : nat := length (filter (fun s => is_turn s = true) (q_running q)).
(** Where a turn can be before it starts, and while it runs. *)
Definition in_queue (u : Z) (q : queue) : nat := (occ u (q_waiting q) + occ (Scheduled u) (q_running q))%nat.
Definition in_work (u : Z) (q : queue) : nat := occ (Working u) (q_running q).

(** The ceiling holds, and nothing waits while there is room. *)
Definition well_run (max : nat) (q : queue) : Prop :=
  (turns q <= max)%nat /\ (q_paused q = true \/ q_waiting q = [] \/ (max <= length (q_running q))%nat).

Lemma pump_turns_keeps max r w u :
  let '(r', w') := pump_turns max r w in
  (occ u w' + occ (Scheduled u) r' = occ u w + occ (Scheduled u) r)%nat /\
  occ (Working u) r' = occ (Working u) r /\
  ((length (filter (fun s => is_turn s = true) r) <= max)%nat ->
   (length (filter (fun s => is_turn s = true) r') <= max)%nat) /\
  (w' = [] \/ (max <= length r')%nat).
Proof.
  revert r. induction w as [|x w IH]; intros r; cbn [pump_turns]; [by split_and!; auto|].
  destruct (Nat.ltb_spec (length r) max) as [Hlt|Hge]; [|by split_and!; auto].
  specialize (IH (app r [Scheduled x])). destruct (pump_turns max (app r [Scheduled x]) w) as [r' w'].
  destruct IH as (H1 & H2 & H3 & H4). split_and!; [| |intros _; apply H3|done].
  - rewrite H1, occ_app, !occ_cons, occ_nil. repeat case_decide; simplify_eq; try lia; congruence.
  - rewrite H2, occ_app, occ_cons, occ_nil. rewrite decide_False by done. lia.
  - rewrite filter_app, length_app. cbn. rewrite decide_True by done. cbn.
    pose proof (length_filter (fun s => is_turn s = true) r). lia.
Qed.

Lemma pump_keeps max q u :
  in_queue u (pump max q) = in_queue u q /\ in_work u (pump max q) = in_work u q /\
  ((turns q <= max)%nat -> well_run max (pump max q)) /\ q_paused (pump max q) = q_paused q.
Proof.
  unfold pump, in_queue, in_work, well_run, turns. destruct (q_paused q) eqn:Hp; [by split_and!; auto|].
  pose proof (pump_turns_keeps max (q_running q) (q_waiting q) u) as H.
  destruct (pump_turns max (q_running q) (q_waiting q)) as [r w]. destruct H as (H1 & H2 & H3 & H4).
  cbn. split_and!; auto.
Qed.

Lemma submit_keeps max x q u :
  well_run max q ->
  in_queue u (submit max x q) = (in_queue u q + if decide (u = x) then 1 else 0)%nat /\
  in_work u (submit max x q) = in_work u q /\ well_run max (submit max x q).
Proof.
  intros [Ht _]. unfold submit. edestruct (pump_keeps max {| q_running := q_running q; q_waiting := app (q_waiting q) [x]; q_paused := q_paused q |} u)
    as (-> & -> & H & _). unfold in_queue, in_work. cbn [q_running q_waiting]. rewrite occ_app, occ_cons, occ_nil.
  split_and!; [repeat case_decide; subst; try done; lia|done|by apply H].
Qed.

Lemma filter_fewer {A} (P Q : A -> Prop) `{!forall a, Decision (P a), !forall a, Decision (Q a)} (l : list A) :
  (length (filter P (filter Q l)) <= length (filter P l))%nat.
Proof.
  induction l as [|a l IH]; [done|]. rewrite (filter_cons Q), (filter_cons P a l).
  destruct (decide (Q a)); rewrite ?filter_cons; destruct (decide (P a)); cbn; lia.
Qed.

Lemma settle_keeps max s q u :
  well_run max q ->
  in_queue u (settle_turn max s q) = (if decide (Scheduled u = s) then occ u (q_waiting q) else in_queue u q) /\
  in_work u (settle_turn max s q) = (if decide (Working u = s) then 0%nat else in_work u q) /\
  well_run max (settle_turn max s q).
Proof.
  intros [Ht _]. unfold settle_turn.
  edestruct (pump_keeps max {| q_running := filter (fun x => x <> s) (q_running q); q_waiting := q_waiting q; q_paused := q_paused q |} u)
    as (-> & -> & H & _). unfold in_queue, in_work. cbn [q_running q_waiting]. rewrite !occ_remove. split_and!.
  - case_decide; lia.
  - done.
  - apply H. unfold turns. cbn. etransitivity; [|exact Ht]. apply filter_fewer.
Qed.

(** ** Every message has one place *)

Definition state_of (s : process) (u : Z) : option turn_state := tg_updates (ps_db s) !! u ≫= t_state.
Definition pending (s : process) (u : Z) : nat :=
  (in_queue u (ps_queue s) + if decide (ps_held s = Some u) then 1 else 0)%nat.

Definition place_ok (s : process) (out : list note) (u : Z) : Prop :=
  let q := if decide (state_of s u = Some Queued) then 1%nat else 0%nat in
  let w := if decide (state_of s u = Some TurnStarted) then 1%nat else 0%nat in
  pending s u = q /\ in_work u (ps_queue s) = w /\
  occ (GaveUp u) out = (if decide (state_of s u = Some Lost) then 1%nat else 0%nat) /\
  match state_of s u with
  | Some TurnStarted | Some TurnDone => occ (Answering u) out = 1%nat
  | Some Lost => (occ (Answering u) out <= 1)%nat
  | _ => occ (Answering u) out = 0%nat
  end.

Definition live_inv (max : nat) (s : process) (out : list note) : Prop :=
  (forall u, place_ok s out u) /\ well_run max (ps_queue s).

(** A place depends on nothing but these. *)
Lemma place_frame s out s' out' u :
  place_ok s out u -> state_of s' u = state_of s u -> pending s' u = pending s u ->
  in_work u (ps_queue s') = in_work u (ps_queue s) ->
  occ (GaveUp u) out' = occ (GaveUp u) out -> occ (Answering u) out' = occ (Answering u) out ->
  place_ok s' out' u.
Proof. unfold place_ok. intros H -> -> -> -> ->. exact H. Qed.

Lemma update_turn_run u x f d :
  update_turn u x f d =
    (Ok (bool_decide (tg_updates d !! u ≫= t_state = Some x)),
     if bool_decide (tg_updates d !! u ≫= t_state = Some x) then on_tg_updates (alter f u) d else d).
Proof.
  unfold update_turn. destruct (tg_updates d !! u) as [r|] eqn:Hu; cbn; [|done].
  case_bool_decide; [|done]. f_equal. unfold on_tg_updates. by rewrite (alter_put _ _ _ _ Hu).
Qed.

Lemma state_alter d u v f x :
  (forall r, t_state (f r) = Some x) -> is_Some (tg_updates d !! u) ->
  tg_updates (on_tg_updates (alter f u) d) !! v ≫= t_state
  = if decide (v = u) then Some x else tg_updates d !! v ≫= t_state.
Proof.
  intros Hf [r Hr]. cbn. case_decide; subst.
  - rewrite lookup_alter_eq, Hr. cbn. by rewrite Hf.
  - by rewrite lookup_alter_ne.
Qed.

(** ** Each step *)

Section steps.
Context (max : nat).
Implicit Types (s : process) (out : list note).

Lemma call_update u x y f s :
  (forall r, t_state (f r) = Some y) ->
  exists d, call (update_turn u x f) false s =
      (bool_decide (state_of s u = Some x), {| ps_db := d; ps_queue := ps_queue s; ps_held := ps_held s |}) /\
    forall q h v, state_of {| ps_db := d; ps_queue := q; ps_held := h |} v
      = if decide (v = u /\ state_of s u = Some x) then Some y else state_of s v.
Proof.
  intros Hf. unfold call. rewrite update_turn_run. fold (state_of s u). case_bool_decide as H.
  - eexists. split; [reflexivity|]. intros q h v. unfold state_of at 1. cbn [ps_db]. rewrite (state_alter _ _ _ _ y Hf).
    + repeat case_decide; try done; tauto.
    + unfold state_of in H. by destruct (tg_updates (ps_db s) !! u); [eexists|].
  - eexists. split; [reflexivity|]. intros q h v. rewrite decide_False by tauto. reflexivity.
Qed.

Lemma claim_step u msg now s out :
  live_inv max s out -> let '(s', o) := handle_event max s (Claim u msg now) in live_inv max s' (app out o).
Proof.
  intros [Hp Hw]. cbn. destruct (ps_held s) eqn:Hh; [by rewrite app_nil_r|].
  unfold call, claimMessage. destruct (tg_updates (ps_db s) !! u) eqn:Hu; cbn; rewrite app_nil_r.
  - split; [|done]. intros v. eapply place_frame; [exact (Hp v)|done..].
  - split; [|done]. intros v. specialize (Hp v). unfold place_ok, pending, state_of in *. cbn in *. rewrite Hh in Hp.
    destruct (decide (v = u)) as [->|Hne].
    + rewrite lookup_insert_eq. rewrite Hu in Hp. cbn in *.
      destruct Hp as (Hq & Hk & Hg & Ha). repeat case_decide; simplify_eq; split_and!; lia || done.
    + rewrite lookup_insert_ne by done. rewrite (decide_False (P := Some u = Some v)) by congruence.
      rewrite (decide_False (P := None = Some v)) in Hp by done. exact Hp.
Qed.

Lemma claim_other_step u now s out :
  live_inv max s out -> let '(s', o) := handle_event max s (ClaimOther u now) in live_inv max s' (app out o).
Proof.
  intros [Hp Hw]. cbn. destruct (ps_held s) eqn:Hh; [by rewrite app_nil_r|]. rewrite app_nil_r.
  unfold call, claim_update. destruct (tg_updates (ps_db s) !! u) eqn:Hu; cbn.
  - split; [|done]. intros v. by eapply place_frame; [exact (Hp v)|..].
  - split; [|done]. intros v. eapply place_frame; [exact (Hp v)| |done..].
    unfold state_of. cbn. destruct (decide (v = u)) as [->|Hne]; [by rewrite lookup_insert_eq, Hu|by rewrite lookup_insert_ne].
Qed.

Lemma enqueue_step s out :
  live_inv max s out -> let '(s', o) := handle_event max s Enqueue in live_inv max s' (app out o).
Proof.
  intros [Hp Hw]. cbn. destruct (ps_held s) as [u|] eqn:Hh; rewrite app_nil_r; [|done].
  destruct (submit_keeps max u (ps_queue s) u Hw) as (_ & _ & Hw').
  split; [|exact Hw']. intros v. destruct (submit_keeps max u (ps_queue s) v Hw) as (Hq & Hk & _).
  eapply place_frame; [exact (Hp v)|done| |exact Hk|done|done].
  unfold pending. cbn. rewrite Hq, Hh. repeat case_decide; simplify_eq; try lia; congruence.
Qed.

(** Turning [Scheduled u] into [Working u]. *)
Definition started_slot (u : Z) (x : slot) : slot := if decide (x = Scheduled u) then Working u else x.
Lemma started_scheduled u v l :
  occ (Scheduled v) (started_slot u <$> l) = if decide (v = u) then 0%nat else occ (Scheduled v) l.
Proof.
  induction l as [|x l IH]; [by case_decide|]. rewrite fmap_cons, !occ_cons, IH. unfold started_slot.
  repeat case_decide; simplify_eq; try done; congruence.
Qed.
Lemma started_working u v l :
  occ (Working v) (started_slot u <$> l)
  = (occ (Working v) l + if decide (v = u) then occ (Scheduled u) l else 0)%nat.
Proof.
  induction l as [|x l IH]; [by case_decide|]. rewrite fmap_cons, !occ_cons, IH. unfold started_slot.
  repeat case_decide; simplify_eq; try done; try lia; congruence.
Qed.
Lemma started_turns u l :
  length (filter (fun x => is_turn x = true) (started_slot u <$> l)) = length (filter (fun x => is_turn x = true) l).
Proof.
  assert (forall x, is_turn (started_slot u x) = is_turn x) as Hx
    by (intros x; unfold started_slot; case_decide; by subst).
  induction l as [|x l IH]; [done|]. rewrite fmap_cons, !filter_cons.
  repeat case_decide; rewrite ?Hx in *; cbn; congruence.
Qed.

Lemma begin_step_inbox u now s out :
  live_inv max s out -> let '(s', o) := handle_event max s (Begin u now) in live_inv max s' (app out o).
Proof.
  intros [Hp Hw]. cbn. case_decide as Hin; [|by rewrite app_nil_r].
  assert (state_of s u = Some Queued) as Hst.
  { destruct (Hp u) as (Hq & _). case_decide as E; [done|].
    apply occ_elem in Hin. unfold pending, in_queue in Hq. lia. }
  unfold begin_turn, startTurn.
  destruct (call_update u Queued TurnStarted (fun r => put_turn TurnStarted (t_body r) (Some now) r) s ltac:(done)) as (d & -> & Hd).
  rewrite bool_decide_eq_true_2 by done. fold (started_slot u).
  split.
  - intros v. specialize (Hp v). unfold place_ok, pending, in_queue, in_work, with_queue in *.
    cbn [ps_queue ps_held ps_db q_running q_waiting] in *.
    rewrite Hd, started_scheduled, started_working, !occ_app, !occ_cons, !occ_nil.
    apply occ_elem in Hin. destruct (decide (v = u)) as [->|Hne].
    + rewrite (decide_True (P := u = u /\ _)) by done. rewrite Hst in *.
      destruct Hp as (Hq & Hk & Hg & Ha).
      repeat case_decide; simplify_eq; split_and!; lia || done.
    + rewrite (decide_False (P := v = u /\ _)) by tauto.
      rewrite (decide_False (P := Answering u = Answering v)) by congruence.
      rewrite (decide_False (P := Answering u = GaveUp v)) by congruence. rewrite !Nat.add_0_r. exact Hp.
  - destruct Hw as [Ht Hb]. split; cbn.
    + unfold turns. cbn. by rewrite started_turns.
    + by rewrite length_fmap.
Qed.

Lemma end_step u s out :
  live_inv max s out -> let '(s', o) := handle_event max s (End_ u) in live_inv max s' (app out o).
Proof.
  intros [Hp Hw]. cbn. case_decide as Hin; rewrite app_nil_r; [|done].
  assert (state_of s u = Some TurnStarted) as Hst.
  { destruct (Hp u) as (_ & Hk & _). unfold in_work in Hk. apply occ_elem in Hin.
    destruct (decide (state_of s u = Some TurnStarted)); [done|lia]. }
  assert ((call (finishTurn u) tt s).2 = (call (update_turn u TurnStarted (fun r => put_turn TurnDone None (t_started_at r) r)) false s).2) as ->.
  { unfold call, finishTurn, mbind, op_bind. destruct (update_turn _ _ _ _) as [[b|e] d]; done. }
  destruct (call_update u TurnStarted TurnDone (fun r => put_turn TurnDone None (t_started_at r) r) s ltac:(done)) as (d & -> & Hd).
  cbn. split; [|by destruct (settle_keeps max (Working u) (ps_queue s) u Hw) as (_ & _ & ?)].
  intros v. destruct (settle_keeps max (Working u) (ps_queue s) v Hw) as (Hq' & Hk' & _).
  rewrite decide_False in Hq' by done. specialize (Hp v).
  unfold place_ok, pending, with_queue in *. cbn [ps_queue ps_held ps_db]. rewrite Hq', Hk', Hd.
  destruct (decide (v = u)) as [->|Hne].
  - rewrite (decide_True (P := u = u /\ _)) by done. rewrite Hst in Hp. destruct Hp as (Hq & _ & Hg & Ha).
    repeat case_decide; simplify_eq; split_and!; lia || done.
  - rewrite (decide_False (P := v = u /\ _)) by tauto. rewrite (decide_False (P := Working v = Working u)) by congruence. exact Hp.
Qed.

Lemma track_step k s out :
  live_inv max s out -> let '(s', o) := handle_event max s (TrackWork k) in live_inv max s' (app out o).
Proof.
  intros [Hp [Ht Hb]]. cbn. rewrite app_nil_r. unfold with_queue, track. destruct (decide (Tracked k ∈ q_running (ps_queue s))).
  { split; [|exact (conj Ht Hb)]. intros v. eapply place_frame; [exact (Hp v)|reflexivity..]. }
  split.
  - intros v. eapply place_frame; [exact (Hp v)|done|..|done|done]; unfold pending, in_queue, in_work; cbn [ps_queue ps_held q_running q_waiting];
      rewrite occ_app, occ_cons, occ_nil, decide_False by done; lia.
  - split; cbn.
    + unfold turns. cbn. rewrite filter_app, length_app, filter_cons, decide_False by done. cbn. unfold turns in Ht. lia.
    + rewrite length_app. cbn. destruct Hb as [|[|]]; auto. right. right. lia.
Qed.

Lemma end_work_step k s out :
  live_inv max s out -> let '(s', o) := handle_event max s (EndWork k) in live_inv max s' (app out o).
Proof.
  intros [Hp Hw]. cbn. rewrite app_nil_r.
  split; [|by destruct (settle_keeps max (Tracked k) (ps_queue s) 0 Hw) as (_ & _ & ?)].
  intros v. destruct (settle_keeps max (Tracked k) (ps_queue s) v Hw) as (Hq & Hk & _).
  rewrite decide_False in Hq by done. rewrite decide_False in Hk by done.
  eapply place_frame; [exact (Hp v)|done| |exact Hk|done|done]. unfold pending. cbn. by rewrite Hq.
Qed.

Lemma shutdown_step s out :
  live_inv max s out -> let '(s', o) := handle_event max s Shutdown in live_inv max s' (app out o).
Proof.
  intros [Hp [Ht Hb]]. cbn. rewrite app_nil_r. split; [|split; [exact Ht|by left]].
  intros v. by eapply place_frame; [exact (Hp v)|..].
Qed.

(** *** The start after an end *)

Definition lost_ids (r : recovered) : list Z := (fun x => x.1.1) <$> rc_lost r.

(** What the start does with the row of [v] it read, if it read one. *)
Definition fate (maxAge now : Z) (d d' : db) (r : recovered) (v : Z) (o : option tg_update) : Prop :=
  let kept := tg_updates d' !! v = tg_updates d !! v in
  let back := occ v (rc_resume r).*1 in
  let lost := occ v (lost_ids r) in
  match o ≫= unfinished, o ≫= resumable maxAge now with
  | None, _ => kept /\ back = 0%nat /\ lost = 0%nat
  | Some _, Some _ => kept /\ back = 1%nat /\ lost = 0%nat
  | Some _, None => (tg_updates d' !! v ≫= t_state) = Some Lost /\ back = 0%nat /\ lost = 1%nat
  end.

Lemma recover_rows_run maxAge now rows d :
  NoDup rows.*1 -> (forall x, x ∈ rows -> tg_updates d !! x.1 = Some x.2) ->
  exists r d', recover_rows maxAge now rows d = (Ok r, d') /\
    forall v, fate maxAge now d d' r v (if decide (v ∈ rows.*1) then tg_updates d !! v else None).
Proof.
  revert d. induction rows as [|[u row] rows IH]; intros d Hn Hin.
  { eexists _, d. split; [reflexivity|]. intros v. done. }
  apply NoDup_cons in Hn as [Hu Hn]. cbn [recover_rows].
  pose proof (Hin (u, row) ltac:(by left)) as Hrow. cbn in Hrow, Hu.
  assert (forall d1, (forall v, v <> u -> tg_updates d1 !! v = tg_updates d !! v) -> exists r d', recover_rows maxAge now rows d1 = (Ok r, d') /\
    fate maxAge now d1 d' r u None /\
    forall v, v <> u -> fate maxAge now d d' r v (if decide (v ∈ u :: rows.*1) then tg_updates d !! v else None)) as Hrest.
  { intros d1 Hd1. destruct (IH d1 Hn) as (r & d' & H & Hv).
    { intros x Hx. rewrite Hd1; [apply Hin; by right|]. intros Hxu. apply Hu. rewrite <- Hxu. by apply list_elem_of_fmap_2. }
    exists r, d'. split; [exact H|]. split; [specialize (Hv u); by rewrite decide_False in Hv|].
    intros v Hne. specialize (Hv v). rewrite (decide_ext _ (v ∈ rows.*1)) by (rewrite elem_of_cons; tauto).
    unfold fate in *. rewrite (Hd1 v Hne) in Hv. exact Hv. }
  destruct (unfinished row) as [st|] eqn:Hs; [destruct (resumable maxAge now row) as [msg|] eqn:Hr|].
  - destruct (Hrest d ltac:(done)) as (r & d' & H & (H1 & H2 & H3) & Hv).
    unfold mbind at 1, op_bind. rewrite H. eexists _, d'. split; [reflexivity|]. intros v. cbn [fmap list_fmap fst].
    destruct (decide (v = u)) as [->|Hne].
    + rewrite decide_True by by left. rewrite Hrow. unfold fate. cbn [mbind option_bind rc_resume rc_lost]. rewrite Hs, Hr, fmap_cons, occ_cons, decide_True by done.
      split_and!; [by rewrite H1|lia|done].
    + specialize (Hv v Hne). unfold fate in *. cbn [rc_resume]. rewrite fmap_cons, occ_cons, (decide_False (P := (u, msg).1 = v)) by (cbn; congruence). exact Hv.
  - set (d1 := on_tg_updates (alter (put_turn Lost None (t_started_at row)) u) d).
    destruct (Hrest d1) as (r & d' & H & (H1 & H2 & H3) & Hv).
    { intros v Hne. unfold d1. cbn. by rewrite lookup_alter_ne. }
    unfold mbind, op_bind, exec. fold d1. rewrite H. eexists _, d'. split; [reflexivity|]. intros v. cbn [fmap list_fmap fst].
    destruct (decide (v = u)) as [->|Hne].
    + rewrite decide_True by by left. rewrite Hrow. unfold fate, lost_ids in *. cbn [mbind option_bind rc_resume rc_lost]. rewrite Hs, Hr, fmap_cons, occ_cons, decide_True by done.
      split_and!; [|done|lia]. rewrite H1. unfold d1. cbn. by rewrite lookup_alter_eq, Hrow.
    + specialize (Hv v Hne). unfold fate, lost_ids in *. cbn [rc_lost rc_resume]. rewrite fmap_cons, occ_cons, (decide_False (P := (u, t_chat_id row, st).1.1 = v)) by (cbn; congruence). exact Hv.
  - destruct (Hrest d ltac:(done)) as (r & d' & H & (H1 & H2 & H3) & Hv).
    exists r, d'. split; [exact H|]. intros v. cbn [fmap list_fmap fst]. destruct (decide (v = u)) as [->|Hne]; [|by apply Hv].
    rewrite decide_True by by left. rewrite Hrow. unfold fate. cbn. rewrite Hs. split_and!; [by rewrite H1|done|done].
Qed.

Lemma recoverTurns_run maxAge now d :
  exists r d', recoverTurns maxAge now d = (Ok r, d') /\ forall v, fate maxAge now d d' r v (tg_updates d !! v).
Proof.
  pose proof (by_id_perm (tg_updates d)) as Hp.
  destruct (recover_rows_run maxAge now (by_id (tg_updates d)) d) as (r & d' & H & Hv).
  - rewrite Hp. apply NoDup_fst_map_to_list.
  - intros [u row]. rewrite Hp. apply elem_of_map_to_list.
  - exists r, d'. split; [unfold recoverTurns, immediate, mbind, op_bind, query; by rewrite H|].
    intros v. specialize (Hv v). case_decide as E; [done|].
    destruct (tg_updates d !! v) eqn:Hd; [|done]. destruct E. rewrite Hp.
    apply list_elem_of_fmap. exists (v, t). split; [done|]. by apply elem_of_map_to_list.
Qed.
Lemma submits_keep l q v :
  well_run max q ->
  let q' := foldl (fun q (x : Z * message) => submit max x.1 q) q l in
  in_queue v q' = (in_queue v q + occ v l.*1)%nat /\ in_work v q' = in_work v q /\ well_run max q'.
Proof.
  revert q. induction l as [|[u m] l IH]; intros q Hw; cbn [foldl]; [split_and!; [by rewrite Nat.add_0_r|done..]|].
  destruct (submit_keeps max u q v Hw) as (Hq & Hk & Hw'). destruct (IH _ Hw') as (H1 & H2 & ?). cbn [fst] in *. rewrite H1, H2.
  rewrite fmap_cons, occ_cons. cbn [fst]. split_and!; [|done..].
  rewrite Hq. repeat case_decide; subst; done || lia.
Qed.

Lemma gave_up_occ (l : list (Z * option Z * turn_state)) v :
  occ (GaveUp v) ((fun x => GaveUp x.1.1) <$> l) = occ v ((fun x => x.1.1) <$> l) /\
  occ (Answering v) ((fun x => GaveUp x.1.1) <$> l) = 0%nat.
Proof.
  induction l as [|x l [IH1 IH2]]; [done|]. rewrite !fmap_cons, !occ_cons, IH1, IH2. split; [|by case_decide].
  repeat case_decide; simplify_eq; congruence.
Qed.

Lemma empty_well_run : well_run max empty_queue.
Proof. split; [cbn; lia|right; by left]. Qed.

Lemma resumable_queued maxAge now r : is_Some (resumable maxAge now r) -> t_state r = Some Queued.
Proof. unfold resumable. case_bool_decide; [done|]. intros [? Hx]. discriminate Hx. Qed.

Lemma restart_step now s out :
  live_inv max s out -> let '(s', o) := handle_event max s (Restart now) in live_inv max s' (app out o).
Proof.
  intros [Hp Hw]. cbn. unfold restart, call.
  destruct (recoverTurns_run TURN_RECOVERY_MAX_AGE_SEC now (ps_db s)) as (r & d' & -> & Hv). cbn.
  split; [|by destruct (submits_keep (rc_resume r) empty_queue 0 empty_well_run) as (_ & _ & ?)].
  intros v. specialize (Hp v). specialize (Hv v).
  destruct (submits_keep (rc_resume r) empty_queue v empty_well_run) as (Hq & Hk & _).
  destruct (gave_up_occ (rc_lost r) v) as [Hg Ha].
  unfold place_ok, pending, state_of in *. cbn [ps_queue ps_held ps_db] in *.
  rewrite Hq, Hk, !occ_app, Hg, Ha, (decide_False (P := None = Some v)) by done. cbn [in_queue in_work]. clear Hq Hk Hg Ha.
  unfold fate, lost_ids in Hv. destruct (tg_updates (ps_db s) !! v) as [row|]; cbn [mbind option_bind] in Hv, Hp.
  - destruct Hp as (_ & _ & Hg & Ha). pose proof (resumable_queued TURN_RECOVERY_MAX_AGE_SEC now row) as Hres.
    unfold unfinished in Hv. destruct (t_state row) as [[]|] eqn:Es;
      (destruct (resumable TURN_RECOVERY_MAX_AGE_SEC now row) as [msg|]; [specialize (Hres (ltac:(by eexists))); try done|]);
      destruct Hv as (H1 & H2 & H3); rewrite H1, H2, H3; cbn; rewrite ?Es, ?Nat.add_0_r, ?Hg; split_and!; lia || done.
  - destruct Hv as (-> & -> & ->), Hp as (_ & _ & -> & ->). done.
Qed.

Lemma handle_event_step e s out :
  live_inv max s out -> let '(s', o) := handle_event max s e in live_inv max s' (app out o).
Proof.
  destruct e; [apply claim_step|apply claim_other_step|apply enqueue_step|apply begin_step_inbox|apply end_step
              |apply track_step|apply end_work_step|apply shutdown_step|apply restart_step].
Qed.

Lemma lives_inv es : live_inv max (lives max es).1 (lives max es).2.
Proof.
  unfold lives. assert (live_inv max (first_start, @nil note).1 (first_start, @nil note).2) as H.
  { split; [|apply empty_well_run]. intros u. done. }
  revert H. generalize (first_start, @nil note). induction es as [|e es IH]; intros x H; [done|]. cbn [foldl]. apply IH.
  unfold live. pose proof (handle_event_step e x.1 x.2 H) as H'. by destruct (handle_event max x.1 e).
Qed.
End steps.

(** A row, once claimed, keeps a state: it is never forgotten. *)
Lemma state_kept max s e u : is_Some (state_of s u) -> is_Some (state_of (handle_event max s e).1 u).
Proof.
  intros [x Hx].
  destruct e as [v msg now|v now| |v now|v|k|k| |now]; cbn.
  - destruct (ps_held s); [by exists x|]. unfold call, claimMessage. destruct (tg_updates (ps_db s) !! v) eqn:Hv; [by exists x|].
    cbn. unfold state_of in *. cbn. destruct (decide (u = v)) as [->|]; [rewrite lookup_insert_eq; by eexists|rewrite lookup_insert_ne by done; by exists x].
  - destruct (ps_held s); [by exists x|]. unfold call, claim_update. destruct (tg_updates (ps_db s) !! v) eqn:Hv; [by exists x|].
    cbn. unfold state_of in *. cbn. destruct (decide (u = v)) as [->|]; [by rewrite Hv in Hx|rewrite lookup_insert_ne by done; by exists x].
  - destruct (ps_held s); by exists x.
  - case_decide; [|by exists x]. unfold begin_turn, startTurn.
    destruct (call_update v Queued TurnStarted (fun r => put_turn TurnStarted (t_body r) (Some now) r) s ltac:(done)) as (d & -> & Hd).
    case_bool_decide; cbn; unfold with_queue; cbn; rewrite Hd; repeat case_decide; (by exists x) || by eexists.
  - case_decide; [|by exists x].
    assert ((call (finishTurn v) tt s).2 = (call (update_turn v TurnStarted (fun r => put_turn TurnDone None (t_started_at r) r)) false s).2) as ->.
    { unfold call, finishTurn, mbind, op_bind. destruct (update_turn _ _ _ _) as [[b|er] d]; done. }
    destruct (call_update v TurnStarted TurnDone (fun r => put_turn TurnDone None (t_started_at r) r) s ltac:(done)) as (d & -> & Hd).
    cbn. unfold with_queue. cbn. rewrite Hd. repeat case_decide; (by exists x) || by eexists.
  - by exists x.
  - by exists x.
  - by exists x.
  - unfold restart, call. destruct (recoverTurns_run TURN_RECOVERY_MAX_AGE_SEC now (ps_db s)) as (r & d' & -> & Hv).
    specialize (Hv u). unfold state_of in *. cbn. unfold fate in Hv. repeat case_match; destruct Hv as (H1 & _); rewrite H1; (by exists x) || by eexists.
Qed.

Lemma lives_app max es es' : lives max (es ++ es') = foldl (live max) (lives max es) es'.
Proof. unfold lives. by rewrite foldl_app. Qed.
Lemma live_fst max x e : (live max x e).1 = (handle_event max x.1 e).1.
Proof. unfold live. by destruct (handle_event max x.1 e). Qed.

Lemma lives_kept max es es' u : is_Some (state_of (lives max es).1 u) -> is_Some (state_of (lives max (es ++ es')).1 u).
Proof.
  rewrite lives_app. generalize (lives max es). induction es' as [|e es' IH]; intros x H; [done|]. cbn [foldl].
  apply IH. rewrite live_fst. by apply state_kept.
Qed.

(** ** The promises *)

(** whatever the order of claims, turns, shutdowns and crashes, a message
    is answered at most once and given up at most once; as long as its row says
    queued it is in exactly one place from where a turn can start, a turn runs
    exactly for the rows that say started, a finished one was answered, a lost
    one was given up, and at most the allowed number of turns run. *)
Theorem message_has_one_place max es u :
  let '(s, out) := lives max es in
  (occ (Answering u) out <= 1)%nat /\ (occ (GaveUp u) out <= 1)%nat /\
  (pending s u + in_work u (ps_queue s) <= 1)%nat /\
  (state_of s u = Some Queued <-> pending s u = 1%nat) /\
  (state_of s u = Some TurnStarted <-> in_work u (ps_queue s) = 1%nat) /\
  (state_of s u = Some Lost <-> occ (GaveUp u) out = 1%nat) /\
  (state_of s u = Some TurnDone -> occ (Answering u) out = 1%nat) /\
  (turns (ps_queue s) <= max)%nat.
Proof.
  pose proof (lives_inv max es) as [Hp [Ht _]]. destruct (lives max es) as [s out]. cbn [fst snd] in *.
  destruct (Hp u) as (H1 & H2 & H3 & H4). rewrite H1, H2, H3.
  revert H4 Ht. generalize (occ (Answering u) out) (turns (ps_queue s)). clear. intros n t H4 Ht.
  destruct (state_of s u) as [[]|]; cbn in H4 |- *; split_and!; try split; intros; try done; repeat case_decide; simplify_eq; lia.
Qed.

(** C40: a message that was claimed is never forgotten. However the process went
    on - turns, shutdowns, crashes, starts - its row says queued and a turn can
    start from the queue or the poll loop's hand, a turn is at work on it, it
    was answered, or a start gave it up. *)
Theorem claimed_message_is_accounted max es es' u :
  is_Some (state_of (lives max es).1 u) ->
  let '(s, out) := lives max (es ++ es') in
  (pending s u + in_work u (ps_queue s) + (if decide (state_of s u = Some TurnDone) then 1 else 0) + occ (GaveUp u) out)%nat = 1%nat /\
  (state_of s u = Some TurnDone -> Answering u ∈ out).
Proof.
  intros H. apply (lives_kept max es es' u) in H. pose proof (lives_inv max (es ++ es')) as [Hp _].
  destruct (lives max (es ++ es')) as [s out]. cbn [fst snd] in *. destruct (Hp u) as (H1 & H2 & H3 & H4).
  rewrite H1, H2, H3. pose proof (occ_zero (Answering u) out) as [_ Hz]. destruct H as [x Hx]. rewrite Hx in *.
  destruct x; split; try done; intros _; destruct (decide (Answering u ∈ out)) as [|Hn]; try done;
    apply Hz in Hn; rewrite Hn in H4; discriminate H4.
Qed.

(** Two messages, one slot: the first is answered, the second is queued when the
    process dies and runs after the start, and a third, half answered, is given up. *)
Definition inbox_msg (chat : Z) : message := {| m_chat := Some chat; m_text := "hello" |}.
Definition example_lives : list event :=
  [ Claim 1 (inbox_msg 7) 100; Enqueue; Claim 2 (inbox_msg 7) 101; Enqueue; Begin 1 102; End_ 1;
    Claim 3 (inbox_msg 8) 103; Enqueue; Begin 2 104 ].
Definition example_crash : list event := [ Restart 200; Begin 3 201; End_ 3 ].

Example restart_answers_the_queued_and_gives_up_the_started :
  (lives 1 (example_lives ++ example_crash)).2 = [Answering 1; Answering 2; GaveUp 2; Answering 3] /\
  (fun u => state_of (lives 1 (example_lives ++ example_crash)).1 u) <$> [1; 2; 3; 4]
    = [Some TurnDone; Some Lost; Some TurnDone; None].
Proof. split; vm_compute; reflexivity. Qed.

Lemma message_has_one_place_witness :
  let '(s, out) := lives 1 (example_lives ++ example_crash) in
  (occ (Answering 2) out <= 1)%nat /\ (occ (GaveUp 2) out <= 1)%nat /\ state_of s 2 = Some Lost.
Proof.
  pose proof (message_has_one_place 1 (example_lives ++ example_crash) 2) as H.
  assert (state_of (lives 1 (example_lives ++ example_crash)).1 2 = Some Lost) as Hl by (vm_compute; reflexivity).
  destruct (lives 1 (example_lives ++ example_crash)) as [s out]. cbn [fst] in Hl.
  destruct H as (? & ? & _). by split_and!.
Defined.

Lemma claimed_message_is_accounted_witness :
  is_Some (state_of (lives 1 example_lives).1 2) /\
  let '(s, out) := lives 1 (example_lives ++ example_crash) in
  (pending s 2 + in_work 2 (ps_queue s) + (if decide (state_of s 2 = Some TurnDone) then 1 else 0) + occ (GaveUp 2) out)%nat = 1%nat /\
  (state_of s 2 = Some TurnDone -> Answering 2 ∈ out).
Proof.
  assert (is_Some (state_of (lives 1 example_lives).1 2)) as H by (eexists; vm_compute; reflexivity).
  split; [exact H|]. apply (claimed_message_is_accounted 1 example_lives example_crash 2 H).
Defined.
