(* ===== verification/Tasks.v ===== *)
(** * Asynchronous functions on one thread

    An [async] function as a program that stops at each [await]: what is awaited
    happens atomically on a shared world, with an oracle for what the outside
    decides, and the rest of the function goes on with the answer. A machine runs
    many of them in any order, may lose a process with all it was doing, and lets
    the outside move. [safe] is the logic for such programs: an invariant of the
    world and of a ghost note per task, which every await keeps. *)

From S2P Require Import Prelude.

Section io.
Context {E O W : Type}.

Inductive io (A : Type) : Type :=
  | Ret (r : result E A)
  | Await {B : Type} (f : O -> W -> result E B * W) (k : result E B -> io A).
Arguments Ret {A} r.
Arguments Await {A B} f k.

Fixpoint io_bind {A B} (g : A -> io B) (m : io A) : io B :=
  match m with
  | Ret (Ok a) => g a
  | Ret (Err e) => Ret (Err e)
  | Await f k => Await f (fun r => io_bind g (k r))
  end.

(** [try { m } catch (e) { h(e) }] *)
Fixpoint try_io {A} (m : io A) (h : E -> io A) : io A :=
  match m with
  | Ret (Ok a) => Ret (Ok a)
  | Ret (Err e) => h e
  | Await f k => Await f (fun r => try_io (k r) h)
  end.

(** [try { m } finally { fin }] *)
Fixpoint finally_io {A} (m : io A) (fin : io ()) : io A :=
  match m with
  | Ret r => io_bind (fun _ => Ret r) fin
  | Await f k => Await f (fun r => finally_io (k r) fin)
  end.

Definition await {A} (f : O -> W -> result E A * W) : io A := Await f Ret.
Definition throw_io {A} (e : E) : io A := Ret (Err e).

(** What a program that runs alone does, given an answer for each await. *)
Fixpoint run_alone {A} (m : io A) (os : list O) (w : W) : option (result E A * W) :=
  match m, os with
  | Ret r, _ => Some (r, w)
  | Await f k, o :: os => let '(r, w') := f o w in run_alone (k r) os w'
  | Await _ _, [] => None
  end.

(** ... and given one answer for all of them. *)
Fixpoint run_steady {A} (o : O) (m : io A) (w : W) : result E A * W :=
  match m with
  | Ret r => (r, w)
  | Await f k => let '(r, w') := f o w in run_steady o (k r) w'
  end.

Lemma run_steady_bind {A B} (g : A -> io B) (m : io A) o w :
  run_steady o (io_bind g m) w
  = match run_steady o m w with (Ok a, w') => run_steady o (g a) w' | (Err e, w') => (Err e, w') end.
Proof. revert w. induction m as [[a|e]|C f k IH]; intros w; cbn; [done..|]. destruct (f o w) as [r w']. apply IH. Qed.
Lemma run_steady_try {A} (m : io A) (h : E -> io A) o w :
  run_steady o (try_io m h) w
  = match run_steady o m w with (Ok a, w') => (Ok a, w') | (Err e, w') => run_steady o (h e) w' end.
Proof. revert w. induction m as [[a|e]|C f k IH]; intros w; cbn; [done..|]. destruct (f o w) as [r w']. apply IH. Qed.
End io.
Arguments io E O W A : clear implicits.
Arguments Ret {E O W A} r.
Arguments Await {E O W A B} f k.

#[export] Instance io_ret {E O W} : MRet (io E O W) := fun A a => Ret (Ok a).
#[export] Instance io_mbind {E O W} : MBind (io E O W) := fun A B f m => io_bind f m.

(** ** A program that runs alone

    [alone n m Q w]: from [w], with answers that are [Good], [m] stops within [n]
    awaits and its result and world are as [Q] says. *)

Section alone.
Context {E O W : Type} (Good : O -> Prop).

Fixpoint alone (n : nat) {A} (m : io E O W A) (Q : result E A -> W -> Prop) (w : W) {struct m} : Prop :=
  match m with
  | Ret r => Q r w
  | Await f k => match n with S n' => forall o, Good o -> alone n' (k (f o w).1) Q (f o w).2 | O => False end
  end.

Lemma alone_mono {A} n n' (m : io E O W A) (Q Q' : result E A -> W -> Prop) w :
  (n <= n')%nat -> (forall r w', Q r w' -> Q' r w') -> alone n m Q w -> alone n' m Q' w.
Proof.
  intros Hn HQ. revert n n' w Hn. induction m as [r|B f k IH]; intros [|n] [|n'] w Hn; cbn; try done || lia; try apply HQ.
  intros H o Ho. apply (IH _ n); [lia|]. by apply H.
Qed.

Lemma alone_seq {A B} n k (m : io E O W A) (f : A -> io E O W B) Q w :
  alone n m (fun r w' => match r with Ok a => alone k (f a) Q w' | Err e => Q (Err e) w' end) w ->
  alone (n + k) (m ≫= f) Q w.
Proof.
  unfold mbind, io_mbind. revert n w. induction m as [[a|e]|C h j IH]; intros n w; cbn.
  - apply alone_mono; [lia|done].
  - done.
  - destruct n as [|n]; [done|]. cbn. intros H o Ho. by apply IH, H.
Qed.

Lemma alone_await {A B} n (f : O -> W -> result E A * W) (k : A -> io E O W B) Q w :
  (forall o, Good o -> match (f o w).1 with Ok a => alone n (k a) Q (f o w).2 | Err e => Q (Err e) (f o w).2 end) ->
  alone (S n) (await f ≫= k) Q w.
Proof. intros H. apply (alone_seq 1). intros o Ho. cbn. by apply H. Qed.

Lemma alone_finally {A} n k (m : io E O W A) (fin : io E O W ()) Q w :
  alone n m (fun r w' => alone k fin (fun r' w2 => match r' with Ok _ => Q r w2 | Err e => Q (Err e) w2 end) w') w ->
  alone (n + k) (finally_io m fin) Q w.
Proof.
  revert n w. induction m as [r|C h j IH]; intros n w; cbn.
  - intros H. rewrite Nat.add_comm, <- (Nat.add_0_r k). rewrite <- Nat.add_assoc. apply (alone_seq k).
    eapply (alone_mono k k); [done| |exact H]. intros [u|e] w' H'; [exact H'|exact H'].
  - destruct n as [|n]; [done|]. cbn. intros H o Ho. by apply IH, H.
Qed.

(** What it says of a run that returned ... *)
Lemma alone_run {A} n (m : io E O W A) Q os w r w' :
  Forall Good os -> run_alone m os w = Some (r, w') -> alone n m Q w -> Q r w'.
Proof.
  revert n os w. induction m as [x|B f k IH]; intros n os w; cbn; [by intros _ [= <- <-]|].
  intros [|o os' Ho Hos]; [done|]. destruct n as [|n]; [done|]. intros Hr H. specialize (H o Ho).
  destruct (f o w) as [x w1]. by eapply IH.
Qed.
(** ... and that enough answers make it return. *)
Lemma alone_returns {A} n (m : io E O W A) Q os w :
  Forall Good os -> (n <= length os)%nat -> alone n m Q w -> exists r w', run_alone m os w = Some (r, w') /\ Q r w'.
Proof.
  revert n os w. induction m as [x|B f k IH]; intros n os w Hos Hl H; cbn in *; [by exists x, w|].
  destruct n as [|n]; [done|]. destruct Hos as [|o os' Ho Hos]; cbn in *; [lia|]. specialize (H o Ho).
  destruct (f o w) as [x w1]. apply (IH _ n); [done|lia|done].
Qed.
End alone.

(** ** Programs whose every await is of a kind *)

Section does.
Context {E O W : Type} (R : W -> W -> Prop).

Fixpoint does {A} (m : io E O W A) : Prop :=
  match m with
  | Ret _ => True
  | Await f k => (forall o w, R w (f o w).2) /\ forall r, does (k r)
  end.

Lemma does_ret {A} (a : A) : does (mret a).
Proof. done. Qed.
Lemma does_throw {A} e : does (throw_io (A := A) e).
Proof. done. Qed.
Lemma does_await {A} (f : O -> W -> result E A * W) : (forall o w, R w (f o w).2) -> does (await f).
Proof. done. Qed.
Lemma does_bind {A B} (m : io E O W A) (f : A -> io E O W B) : does m -> (forall a, does (f a)) -> does (m ≫= f).
Proof. intros Hm Hf. induction m as [[a|e]|C h k IH]; cbn in *; [apply Hf|done|]. split; [apply Hm|]. intros r. apply IH, Hm. Qed.
Lemma does_try {A} (m : io E O W A) (h : E -> io E O W A) : does m -> (forall e, does (h e)) -> does (try_io m h).
Proof. intros Hm Hf. induction m as [[a|e]|C f k IH]; cbn in *; [done|apply Hf|]. split; [apply Hm|]. intros r. apply IH, Hm. Qed.
Lemma does_finally {A} (m : io E O W A) (fin : io E O W ()) : does m -> does fin -> does (finally_io m fin).
Proof.
  intros Hm Hf. induction m as [r|C f k IH]; cbn in *; [by apply (does_bind fin (fun _ => Ret r))|].
  split; [apply Hm|]. intros r. apply IH, Hm.
Qed.
End does.

Lemma does_mono {E O W} (R R' : W -> W -> Prop) {A} (m : io E O W A) :
  (forall w w', R w w' -> R' w w') -> does R m -> does R' m.
Proof. intros HR. induction m as [r|C f k IH]; cbn; [done|]. intros [H1 H2]. split; [auto|]. intros r. by apply IH. Qed.

Lemma does_run_alone {E O W} (R : W -> W -> Prop) `{!Reflexive R, !Transitive R} {A} (m : io E O W A) os w r w' :
  does R m -> run_alone m os w = Some (r, w') -> R w w'.
Proof.
  revert os w. induction m as [x|B f k IH]; intros os w; cbn; [by intros _ [= _ <-]|].
  intros [Hf Hk]. destruct os as [|o os]; [done|]. specialize (Hf o w). destruct (f o w) as [x w1]. intros Hr.
  etrans; [exact Hf|]. by eapply IH.
Qed.

(** ** The machine *)

Section machine.
Context {E O W R X P : Type} `{EqDecision P}.
Context (start : P -> R -> io E O W ()).     (* what a request runs *)
Context (forget : P -> W -> W).              (* the memory a process loses when it ends *)
Context (outside : X -> W -> W).

Record machine := { m_world : W; m_tasks : gmap nat (P * io E O W ()) }.

Inductive event :=
  | Start (tid : nat) (p : P) (r : R)
  | Resume (tid : nat) (o : O)
  | Crash (p : P)
  | Outside (x : X).

Definition resume_task (tid : nat) (o : O) (m : machine) : machine :=
  match m_tasks m !! tid with
  | Some (p, Await f k) =>
      let '(r, w) := f o (m_world m) in {| m_world := w; m_tasks := <[tid := (p, k r)]> (m_tasks m) |}
  | Some (_, Ret _) => {| m_world := m_world m; m_tasks := delete tid (m_tasks m) |}
  | None => m
  end.

Definition step_machine (m : machine) (e : event) : machine :=
  match e with
  | Start tid p r =>
      match m_tasks m !! tid with
      | Some _ => m
      | None => {| m_world := m_world m; m_tasks := <[tid := (p, start p r)]> (m_tasks m) |}
      end
  | Resume tid o => resume_task tid o m
  | Crash p => {| m_world := forget p (m_world m); m_tasks := filter (fun x => x.2.1 <> p) (m_tasks m) |}
  | Outside x => {| m_world := outside x (m_world m); m_tasks := m_tasks m |}
  end.

Definition run_machine (w : W) (es : list event) : machine :=
  foldl step_machine {| m_world := w; m_tasks := ∅ |} es.

(** ** The logic *)

Context {G : Type}.
Context (Inv : W -> gmap nat (P * G) -> Prop).

Section safe.
Context (tid : nat) (p : P).

Fixpoint safe {A} (m : io E O W A) (Q : result E A -> G -> Prop) (g : G) : Prop :=
  match m with
  | Ret r => Q r g
  | Await f k => forall o w gs, Inv w (<[tid := (p, g)]> gs) ->
      let '(r, w') := f o w in exists g', Inv w' (<[tid := (p, g')]> gs) /\ safe (k r) Q g'
  end.

Lemma safe_mono {A} (m : io E O W A) (Q Q' : result E A -> G -> Prop) g :
  (forall r g', Q r g' -> Q' r g') -> safe m Q g -> safe m Q' g.
Proof.
  intros HQ. revert g. induction m as [r|B f k IH]; intros g; cbn; [apply HQ|].
  intros H o w gs Hi. specialize (H o w gs Hi). destruct (f o w) as [r w'].
  destruct H as (g' & Hi' & Hs). exists g'. split; [done|]. by apply IH.
Qed.

Lemma safe_seq {A B} (m : io E O W A) (f : A -> io E O W B) Q g :
  safe m (fun r g' => match r with Ok a => safe (f a) Q g' | Err e => Q (Err e) g' end) g ->
  safe (m ≫= f) Q g.
Proof.
  unfold mbind, io_mbind. revert g. induction m as [[a|e]|C h k IH]; intros g; cbn; [done|done|].
  intros H o w gs Hi. specialize (H o w gs Hi). destruct (h o w) as [r w'].
  destruct H as (g' & Hi' & Hs). exists g'. split; [done|]. by apply IH.
Qed.

Lemma safe_try {A} (m : io E O W A) (h : E -> io E O W A) Q g :
  safe m (fun r g' => match r with Ok a => Q (Ok a) g' | Err e => safe (h e) Q g' end) g ->
  safe (try_io m h) Q g.
Proof.
  revert g. induction m as [[a|e]|C f k IH]; intros g; cbn; [done|done|].
  intros H o w gs Hi. specialize (H o w gs Hi). destruct (f o w) as [r w'].
  destruct H as (g' & Hi' & Hs). exists g'. split; [done|]. by apply IH.
Qed.

Lemma safe_finally {A} (m : io E O W A) (fin : io E O W ()) Q g :
  safe m (fun r g' => safe fin (fun r' g'' => match r' with Ok _ => Q r g'' | Err e => Q (Err e) g'' end) g') g ->
  safe (finally_io m fin) Q g.
Proof.
  revert g. induction m as [r|C f k IH]; intros g; cbn.
  - intros H. apply (safe_seq fin (fun _ => Ret r)). eapply safe_mono; [|exact H]. by intros [[]|e] g' HQ.
  - intros H o w gs Hi. specialize (H o w gs Hi). destruct (f o w) as [r w'].
    destruct H as (g' & Hi' & Hs). exists g'. split; [done|]. by apply IH.
Qed.

(** An await that keeps the note as it is. *)
Lemma safe_await {A} (f : O -> W -> result E A * W) Q g :
  (forall o w gs, Inv w (<[tid := (p, g)]> gs) ->
     Inv (f o w).2 (<[tid := (p, g)]> gs) /\ Q (f o w).1 g) ->
  safe (await f) Q g.
Proof. intros H o w gs Hi. specialize (H o w gs Hi). destruct (f o w) as [r w']. exists g. exact H. Qed.
End safe.

(** A program whose awaits the invariant does not see keeps its note. *)
Lemma does_safe (V : W -> W -> Prop) {A} (m : io E O W A) tid p g :
  (forall w w' gs, Inv w gs -> V w w' -> Inv w' gs) -> does V m -> safe tid p m (fun _ g' => g' = g) g.
Proof.
  intros HR. induction m as [r|B f k IH]; cbn; [done|]. intros [Hf Hk] o w gs Hi. specialize (Hf o w).
  destruct (f o w) as [r w']. exists g. split; [by eapply HR|]. by apply IH.
Qed.

Context (idle : G).

Record protocol : Prop := {
  pr_start p r tid : safe tid p (start p r) (fun _ g => g = idle) idle;
  pr_open w gs tid p : gs !! tid = None -> Inv w gs -> Inv w (<[tid := (p, idle)]> gs);
  pr_close w gs tid p : gs !! tid = None -> Inv w (<[tid := (p, idle)]> gs) -> Inv w gs;
  pr_crash w gs p : Inv w gs -> Inv (forget p w) (filter (fun x => x.2.1 <> p) gs);
  pr_outside w gs x : Inv w gs -> Inv (outside x w) gs
}.

Definition noted (tasks : gmap nat (P * io E O W ())) (gs : gmap nat (P * G)) : Prop :=
  forall tid, match tasks !! tid, gs !! tid with
              | Some (p, m), Some (p', g) => p = p' /\ safe tid p m (fun _ g => g = idle) g
              | None, None => True
              | _, _ => False
              end.

Definition machine_inv (m : machine) : Prop := exists gs, Inv (m_world m) gs /\ noted (m_tasks m) gs.

Lemma noted_insert tasks gs tid p m g :
  noted tasks gs -> safe tid p m (fun _ g => g = idle) g -> noted (<[tid := (p, m)]> tasks) (<[tid := (p, g)]> gs).
Proof.
  intros H Hs t. destruct (decide (t = tid)) as [->|Hne]; [by rewrite !lookup_insert_eq|].
  rewrite !lookup_insert_ne by done. apply H.
Qed.

Lemma resume_task_inv tid o m : protocol -> machine_inv m -> machine_inv (resume_task tid o m).
Proof.
  intros Hpr (gs & Hi & Hn). unfold resume_task. pose proof (Hn tid) as Ht.
  destruct (m_tasks m !! tid) as [[p t]|] eqn:Hm; [|by exists gs].
  destruct (gs !! tid) as [[p' g]|] eqn:Hg; [|done]. destruct Ht as [<- Hs].
  rewrite <- (insert_id gs tid (p, g) Hg) in Hi.
  destruct t as [r|B f k]; cbn in Hs.
  - subst g. exists (delete tid gs). cbn. split.
    + eapply (pr_close Hpr _ _ tid p); [apply lookup_delete_eq|]. by rewrite insert_delete_eq.
    + intros t. destruct (decide (t = tid)) as [->|Hne]; [by rewrite !lookup_delete_eq|].
      rewrite !lookup_delete_ne by done. apply Hn.
  - specialize (Hs o _ _ Hi). destruct (f o (m_world m)) as [r w]. destruct Hs as (g' & Hi' & Hs).
    exists (<[tid := (p, g')]> gs). cbn. split; [done|]. by apply noted_insert.
Qed.

Lemma step_machine_inv m e : protocol -> machine_inv m -> machine_inv (step_machine m e).
Proof.
  intros Hpr H. destruct e as [tid p r|tid o|p|x]; cbn.
  - destruct (m_tasks m !! tid) eqn:Hm; [done|]. destruct H as (gs & Hi & Hn).
    assert (gs !! tid = None) as Hg.
    { specialize (Hn tid). rewrite Hm in Hn. by destruct (gs !! tid) as [[]|]. }
    exists (<[tid := (p, idle)]> gs). cbn. split; [by apply Hpr|]. apply noted_insert; [done|]. apply Hpr.
  - by apply resume_task_inv.
  - destruct H as (gs & Hi & Hn). exists (filter (fun x => x.2.1 <> p) gs). cbn. split; [by apply Hpr|].
    intros t. specialize (Hn t). rewrite !map_lookup_filter.
    destruct (m_tasks m !! t) as [[p1 t1]|], (gs !! t) as [[p2 g2]|]; cbn; try done.
    destruct Hn as [<- Hs]. by case_guard; cbn.
  - destruct H as (gs & Hi & Hn). exists gs. cbn. split; [by apply Hpr|done].
Qed.

Theorem run_machine_inv w es : protocol -> Inv w ∅ -> machine_inv (run_machine w es).
Proof.
  intros Hpr Hw. unfold run_machine. assert (machine_inv {| m_world := w; m_tasks := ∅ |}) as H.
  { exists ∅. split; [done|]. intros t. by rewrite !lookup_empty. }
  revert H. generalize ({| m_world := w; m_tasks := ∅ |}). induction es as [|e es IH]; intros m H; [done|].
  cbn [foldl]. apply IH. by apply step_machine_inv.
Qed.
End machine.

Lemma run_machine_app {E O W R X P} `{EqDecision P} (start : P -> R -> io E O W ()) (forget : P -> W -> W)
    (outside : X -> W -> W) w es es' m :
  run_machine start forget outside w es = m ->
  run_machine start forget outside w (es ++ es') = foldl (step_machine start forget outside) m es'.
Proof. intros <-. unfold run_machine. by rewrite foldl_app. Qed.

(** What every await, every crash and everything outside keeps, the machine keeps. *)
Section keeps.
Context {E O W R X P : Type} `{EqDecision P}.
Context (start : P -> R -> io E O W ()) (forget : P -> W -> W) (outside : X -> W -> W) (K : W -> Prop).
Definition keeping (w w' : W) : Prop := K w -> K w'.

Lemma keeps_protocol :
  (forall p r, does keeping (start p r)) -> (forall p w, K w -> K (forget p w)) -> (forall x w, K w -> K (outside x w)) ->
  protocol start forget outside (fun w (_ : gmap nat (P * ())) => K w) ().
Proof.
  intros Hs Hf Ho. split; [|by auto..]. intros p r tid.
  apply (does_safe _ keeping); [|apply Hs]. unfold keeping. auto.
Qed.

Lemma run_machine_keeps w es :
  (forall p r, does keeping (start p r)) -> (forall p w, K w -> K (forget p w)) -> (forall x w, K w -> K (outside x w)) ->
  K w -> K (m_world (run_machine start forget outside w es)).
Proof.
  intros Hs Hf Ho Hw.
  destruct (run_machine_inv start forget outside (fun w (_ : gmap nat (P * ())) => K w) () w es) as (gs & H & _);
    [by apply keeps_protocol|done|done].
Qed.
End keeps.

(** What every await does to the world in a reflexive, transitive way, more events do. *)
Section grows.
Context {E O W R X P : Type} `{EqDecision P}.
Context (start : P -> R -> io E O W ()) (forget : P -> W -> W) (outside : X -> W -> W) (V : W -> W -> Prop).
Context `{!Reflexive V, !Transitive V}.
Context (Hstart : forall p r, does V (start p r)) (Hforget : forall p w, V w (forget p w)) (Hout : forall x w, V w (outside x w)).

Definition tasks_do (m : machine (E := E) (O := O) (W := W) (P := P)) : Prop := forall tid p t, m_tasks m !! tid = Some (p, t) -> does V t.

Lemma step_machine_grows m e :
  tasks_do m -> tasks_do (step_machine start forget outside m e) /\ V (m_world m) (m_world (step_machine start forget outside m e)).
Proof using All.
  intros Hm. destruct e as [tid p r|tid o|p|x]; cbn.
  - destruct (m_tasks m !! tid) eqn:Ht; [done|]. split; [|done]. intros t q u. cbn.
    destruct (decide (t = tid)) as [->|Hne]; [rewrite lookup_insert_eq|rewrite lookup_insert_ne by done; apply Hm].
    by intros [= <- <-].
  - unfold resume_task. destruct (m_tasks m !! tid) as [[p [r|B f k]]|] eqn:Ht; [..|done].
    + split; [|done]. intros t q u H. cbn in H. apply lookup_delete_Some in H as [_ H]. by eapply Hm.
    + destruct (Hm _ _ _ Ht) as [Hf Hk]. specialize (Hf o (m_world m)). destruct (f o (m_world m)) as [r w].
      split; [|done]. intros t q u. cbn.
      destruct (decide (t = tid)) as [->|Hne]; [rewrite lookup_insert_eq|rewrite lookup_insert_ne by done; apply Hm].
      intros [= <- <-]. apply Hk.
  - split; [|by apply Hforget]. intros t q u H. cbn in H. apply map_lookup_filter_Some in H as [H _]. by eapply Hm.
  - split; [|by apply Hout]. exact Hm.
Qed.

Lemma machine_grows es m :
  tasks_do m -> tasks_do (foldl (step_machine start forget outside) m es)
                /\ V (m_world m) (m_world (foldl (step_machine start forget outside) m es)).
Proof using All.
  revert m. induction es as [|e es IH]; intros m Hm; [done|]. cbn [foldl].
  destruct (step_machine_grows m e Hm) as [Hd Hv]. destruct (IH _ Hd) as [Hd' Hv']. split; [done|]. by etrans.
Qed.

Lemma run_machine_grows w es es' :
  V (m_world (run_machine start forget outside w es)) (m_world (run_machine start forget outside w (es ++ es'))).
Proof using All.
  rewrite (run_machine_app start forget outside w es es' _ eq_refl). apply machine_grows. unfold run_machine.
  apply machine_grows. intros tid p t. cbn. by rewrite lookup_empty.
Qed.
End grows.
