(* ===== verification/Bsc.v ===== *)
(** * The token's chain as its nodes tell it

    Receipts, their logs and the answers of RPC endpoints, as the payment verifier
    and the wrap desk read them; the texts they accept as hashes and addresses. *)

From Stdlib Require Import Ascii.
From S2P Require Import Prelude JsInt JsNum JsText Bytes.
Local Open Scope Z_scope.

(** ** Hexadecimal texts *)

Definition hex_lower (c : ascii) : bool :=
  match hex_val c with Some _ => bool_decide (lower_string (String c "") = String c "") | None => false end.
Definition hex_any (c : ascii) : bool := bool_decide (is_Some (hex_val c)).
Fixpoint string_all (f : ascii -> bool) (s : string) : bool :=
  match s with EmptyString => true | String c s' => f c && string_all f s' end.
(** [/^0x[...]{n}$/] *)
Definition hex_text (f : ascii -> bool) (n : nat) (s : string) : bool :=
  match s with
  | String "0"%char (String "x"%char t) => string_all f t && (String.length t =? n)%nat
  | _ => false
  end.

(** ** Receipts *)

(** [topics] is [None] when it is missing. *)
Record log := { l_address : json; l_topics : option (list json); l_data : json; l_logIndex : json }.
Record receipt := { r_status : json; r_blockNumber : json; r_blockHash : json; r_logs : list log }.

(** One endpoint's answer to a call. *)
Inductive rpc_reply (A : Type) := HttpError | RpcError | FetchThrew | RpcResult (a : A).
Arguments HttpError {A}.
Arguments RpcError {A}.
Arguments FetchThrew {A}.
Arguments RpcResult {A} a.

(** keccak256 of Transfer(address,address,uint256) *)
Definition TRANSFER_TOPIC : string := "0xddf252ad1be2c89b69c2b068fc378daa952ba7f163c4a11628f55a4df523b3ef".

Definition slice_from (n : nat) (s : string) : string := String.substring n (String.length s - n) s.
Definition topic (n : nat) (l : log) : json := default JMissing (default [] (l_topics l) !! n).

