(* ===== verification/WpcnPay.v ===== *)
(** * The wPCN payment verifier (contrib/wpcn-pay)

    A project sends a BSC transaction hash; the verifier reads the receipt, proves
    that it pays us, claims each transfer once in a directory of files and answers
    what it is worth. Every answer of a node, of the price feed and of the file
    system is asked of the outside in a step of its own; [w_heard] and [w_replies]
    are history, read by no code. A file's content is [None] when the file was
    created and its record was not written. *)

From Stdlib Require Import SpecFloat Ascii.
From S2P Require Import Prelude JsInt JsNum JsText Bytes Bsc Tasks.
Local Open Scope Z_scope.

(** ** The credit rate (rate.mjs) *)

(** The [ladder] field of a price body: not an object, or its [stale]. *)
Inductive ladder_field := LadderNotObject | LadderObject (stale : json).
Inductive price_body :=
  | NotAnObject
  | Body (creditRateUsd serviceRate stale : json) (ladder : option ladder_field).

Inductive rate_err := NoObject | NoUsableRate | RateStale | LadderStale.

(** [v === false] *)
Definition is_false (v : json) : bool := match v with JBool false => true | _ => false end.

Definition rate_number (raw : json) : js_num :=
  match raw with
  | JMissing | JNull | JBool _ | JStr "" => S754_nan
  | _ => js_Number raw
  end.

Definition ladder_fresh (l : option ladder_field) : bool :=
  match l with None => true | Some LadderNotObject => false | Some (LadderObject s) => is_false s end.

Definition creditRateFromBody (j : price_body) : result rate_err js_num :=
  match j with
  | NotAnObject => Err NoObject
  | Body creditRateUsd serviceRate stale ladder =>
      let rate := rate_number (if nullish creditRateUsd then serviceRate else creditRateUsd) in
      if negb (is_finite rate) || num_leb rate (S754_zero false) then Err NoUsableRate else
      if negb (is_false stale) then Err RateStale else
      if negb (ladder_fresh ladder) then Err LadderStale else
      Ok rate
  end.

(** ** Configuration *)

(** [CLIENTS] maps a bearer token to a project. *)
Record config := {
  TOKEN : string; PAY_TO : string; DECIMALS : Z; MIN_CONF : Z; BONUS_PCT : js_num;
  RPCS : list string; CLIENTS : gmap string string }.

(** What [missing] leaves to start on; the types of the numbers are the model's. *)
Definition config_complete (c : config) : bool :=
  hex_text hex_lower 40 (TOKEN c) && hex_text hex_lower 40 (PAY_TO c)
  && negb (bool_decide (RPCS c = [])) && negb (bool_decide (CLIENTS c = ∅)).

(** ** Asking the nodes *)

Inductive err :=
  | EveryRpcFailed | PriceUnreadable | PriceRefused (e : rate_err) | NotAnInteger | DiskFailed | NoText.

(** In turn; an exhausted list throws. *)
Fixpoint rpc {A} (endpoints : list (rpc_reply A)) : result err A :=
  match endpoints with
  | [] => Err EveryRpcFailed
  | RpcResult a :: _ => Ok a
  | _ :: rest => rpc rest
  end.

(** ** The ledger *)

Record claim := {
  c_txhash : string; c_log_index : Z; c_block_number : Z; c_block_hash : string; c_payer : string;
  c_wpcn_raw : Z; c_wpcn : js_num; c_credited_rate_usd : js_num; c_bonus_pct : js_num; c_usd_credited : js_num;
  c_project : string; c_user_ref : string; c_at : Z }.

Abbreviation key := (string * Z)%type.
Definition key_of (c : claim) : key := (c_txhash c, c_log_index c).

(** ** Replies *)

Inductive vstate := Credited | AlreadyClaimed | Pending | Confirming | NoPayment | Reverted | Reorged | BadRequest.
#[export] Instance vstate_eq_dec : EqDecision vstate.
Proof. solve_decision. Defined.

(** One transfer of a reply: credited now; claimed before by this user; by another. *)
Inductive row := RCredited (c : claim) | RMine (c : claim) | RForeign (k : key).

Record reply := {
  v_ok : bool; v_state : vstate; v_confirmations : option Z; v_required : option Z;
  v_transfers : list row; v_usd_total : js_num; v_wpcn_total : js_num }.
Definition plain (s : vstate) (confs required : option Z) : reply := {|
  v_ok := false; v_state := s; v_confirmations := confs; v_required := required;
  v_transfers := []; v_usd_total := S754_nan; v_wpcn_total := S754_nan |}.

(** The project and the user a request is for. *)
Abbreviation asker := (string * string)%type.

Inductive response :=
  | Unauthorized | NotJson | FieldsRequired | NotFound | ServerError
  | Verified (who : asker) (r : reply) | Unreadable (e : err)
  | Claims (who : asker) (l : list claim) | Health (claims : nat).
Definition status_code (r : response) : Z :=
  match r with
  | Unauthorized => 401 | NotJson | FieldsRequired => 400 | NotFound => 404 | ServerError => 500
  | Verified _ r => if decide (v_state r = BadRequest) then 400 else 200
  | Unreadable _ => 503 | Claims _ _ | Health _ => 200
  end.

(** ** The outside *)

(** What a synchronous write did: all of it, nothing, the file without its
    record, or the record without the [fsync]. *)
Inductive disk := DiskOk | DiskRefuses | DiskTears | DiskUnsynced.

Record outside := {
  a_receipts : list (rpc_reply (option receipt));
  a_heads : list (rpc_reply json);
  a_blocks : list (rpc_reply (option json));       (* the [hash] of the block *)
  a_price : option price_body;                     (* [None]: no answer, not a 200, not JSON *)
  a_disk : disk;
  a_bad : list key;                                (* files that cannot be read *)
  a_now : Z }.

Inductive fact :=
  | FReceipt (txhash : string) (r : receipt) | FHead (v : json) | FBlock (number : Z) (hash : json) | FPrice (b : price_body).

Record world := {
  w_files : gmap key (option claim);
  w_heard : list fact;
  w_replies : list response }.
Definition hear (f : fact) (w : world) : world :=
  {| w_files := w_files w; w_heard := f :: w_heard w; w_replies := w_replies w |}.
Definition put_file (k : key) (c : option claim) (w : world) : world :=
  {| w_files := <[k := c]> (w_files w); w_heard := w_heard w; w_replies := w_replies w |}.
Definition say (r : response) (w : world) : world :=
  {| w_files := w_files w; w_heard := w_heard w; w_replies := w_replies w ++ [r] |}.

Abbreviation program := (io err outside world).

(** An answer of the outside, remembered. *)
Definition ask {A} (answer : outside -> result err A) (f : A -> option fact) : program A :=
  await (fun o w => match answer o with
                    | Ok a => (Ok a, match f a with Some x => hear x w | None => w end)
                    | Err e => (Err e, w)
                    end).

Definition getReceipt (txhash : string) : program (option receipt) :=
  ask (fun o => rpc (a_receipts o)) (fun r => FReceipt txhash <$> r).
Definition getHead : program json := ask (fun o => rpc (a_heads o)) (fun v => Some (FHead v)).
Definition getBlock (number : Z) : program (option json) := ask (fun o => rpc (a_blocks o)) (fun b => FBlock number <$> b).

Definition hexToBig (v : json) : program Z :=
  match js_BigInt v with Some z => mret z | None => throw_io NotAnInteger end.

Definition usdRate : program js_num :=
  b ← ask (fun o => of_option PriceUnreadable (a_price o)) (fun b => Some (FPrice b));
  match creditRateFromBody b with Ok r => mret r | Err e => throw_io (PriceRefused e) end.

(** ** The directory of claims *)

Definition readable (o : outside) (k : key) : bool := negb (bool_decide (k ∈ a_bad o)).
Definition readClaim (k : key) : program (option claim) :=
  await (fun o w => (Ok (if readable o k then default None (w_files w !! k) else None), w)).

(** [false] when the file is there; the record carries the clock. *)
Definition insertClaim (k : key) (rec : Z -> claim) : program (option claim) :=
  await (fun o w =>
    match a_disk o with
    | DiskRefuses => (Err DiskFailed, w)
    | d => match w_files w !! k with
           | Some _ => (Ok None, w)
           | None => let c := rec (a_now o) in
               match d with
               | DiskTears => (Err DiskFailed, put_file k None w)
               | DiskUnsynced => (Err DiskFailed, put_file k (Some c) w)
               | _ => (Ok (Some c), put_file k (Some c) w)
               end
           end
    end).

(** Newest first, equal times in the order of the directory. *)
Fixpoint insert_newest (c : claim) (l : list claim) : list claim :=
  match l with
  | [] => [c]
  | x :: l' => if c_at x <=? c_at c then c :: l else x :: insert_newest c l'
  end.
Definition newest_first (l : list claim) : list claim := foldr insert_newest [] l.

Definition claims_of (readable : key -> bool) (files : gmap key (option claim)) (project userRef : string) : list claim :=
  take 50 (newest_first (filter (fun c => c_project c = project /\ c_user_ref c = userRef)
    (omap (fun x => if readable x.1 then x.2 else None) (map_to_list files)))).
Definition claimsFor (project userRef : string) : program (list claim) :=
  await (fun o w => match a_disk o with
                    | DiskRefuses => (Err DiskFailed, w)
                    | _ => (Ok (claims_of (readable o) (w_files w) project userRef), w)
                    end).
Definition claimCount : program nat :=
  await (fun o w => match a_disk o with
                    | DiskRefuses => (Err DiskFailed, w)
                    | _ => (Ok (size (w_files w)), w)
                    end).

(** ** Reading a receipt *)

Definition addrFromTopic (t : json) : string := ("0x" ++ lower_string (slice_from 26 (js_String t)))%string.
(** The body of [/verify]: not JSON, the value null, two fields that are there of which
    [String] can make no text of one ([{"toString":0}]), or any other two. *)
Inductive verify_body := Unparsed | NullBody | TextlessFields | Fields (txhash userRef : json).

(** A request, with its [Authorization] header ([""] when there is none). *)
Inductive request :=
  | PostVerify (auth : string) (body : verify_body)
  | GetClaims (auth : string) (userRef : option string)
  | GetHealth
  | Other (auth : string).

Abbreviation service_event := (event (O := outside) (R := request) (X := Empty_set) (P := Z)).

Section verifier.
Context (cfg : config).

Definition pays_us (l : log) : bool :=
  bool_decide (lower_string (js_String (l_address l)) = TOKEN cfg)
  && bool_decide (is_Some (l_topics l)) && bool_decide (lower_string (js_String (topic 0 l)) = TRANSFER_TOPIC)
  && bool_decide (addrFromTopic (topic 2 l) = PAY_TO cfg).

Definition succeeded (r : receipt) : bool := match r_status r with JStr s => bool_decide (s = "0x1") | _ => false end.

(** [head - blockNo + 1], in doubles. *)
Definition confirmations (head blockNo : Z) : Z := round53 (round53 (round53 head - round53 blockNo) + 1).

Definition same_hash (a b : json) : bool := bool_decide (lower_string (js_String a) = lower_string (js_String b)).

(** [Number(raw) / 10 ** DECIMALS], and what it is worth. *)
Definition wpcn_of (raw : Z) : js_num := num_div (num_of_Z raw) (num_of_Z (10 ^ DECIMALS cfg)).
Definition usd_of (wpcn rate : js_num) : js_num :=
  num_mul (num_mul wpcn rate) (num_add (num_of_Z 1) (num_div (BONUS_PCT cfg) (num_of_Z 100))).

Definition new_claim (txhash project userRef : string) (r : receipt) (blockNo logIndex raw : Z) (l : log) (rate : js_num)
    (now : Z) : claim := {|
  c_txhash := txhash; c_log_index := logIndex; c_block_number := round53 blockNo;
  c_block_hash := lower_string (js_String (r_blockHash r)); c_payer := addrFromTopic (topic 1 l);
  c_wpcn_raw := raw; c_wpcn := wpcn_of raw; c_credited_rate_usd := rate; c_bonus_pct := BONUS_PCT cfg;
  c_usd_credited := usd_of (wpcn_of raw) rate; c_project := project; c_user_ref := userRef; c_at := now |}.

Definition mine (project userRef : string) (c : claim) : bool :=
  bool_decide (c_project c = project) && bool_decide (c_user_ref c = userRef).
Definition claimed_row (project userRef : string) (k : key) (found : option claim) : row :=
  match found with
  | Some c => if mine project userRef c then RMine c else RForeign k
  | None => RForeign k
  end.

(** One turn of the loop over the transfers. *)
Definition claim_transfer (txhash project userRef : string) (r : receipt) (blockNo : Z) (l : log) : program row :=
  logIndex ← hexToBig (l_logIndex l);
  let k := (txhash, round53 logIndex) in
  already ← readClaim k;
  match already with
  | Some _ => mret (claimed_row project userRef k already)
  | None =>
      raw ← hexToBig (l_data l);
      rate ← usdRate;
      fresh ← insertClaim k (new_claim txhash project userRef r blockNo (round53 logIndex) raw l rate);
      match fresh with
      | Some c => mret (RCredited c)
      | None => won ← readClaim k; mret (claimed_row project userRef k won)
      end
  end.

Fixpoint claim_transfers (txhash project userRef : string) (r : receipt) (blockNo : Z) (ls : list log) : program (list row) :=
  match ls with
  | [] => mret []
  | l :: ls' =>
      x ← claim_transfer txhash project userRef r blockNo l;
      xs ← claim_transfers txhash project userRef r blockNo ls';
      mret (x :: xs)
  end.

Definition credited_of (rows : list row) : list claim :=
  omap (fun x => match x with RCredited c => Some c | _ => None end) rows.
Definition total (f : claim -> js_num) (l : list claim) : js_num := foldl (fun a c => num_add a (f c)) (S754_zero false) l.

(** The reply over the rows of the transfers. *)
Definition summary (confs : Z) (rows : list row) : reply :=
  let credited := credited_of rows in {|
  v_ok := negb (bool_decide (credited = []));
  v_state := if bool_decide (credited = []) then AlreadyClaimed else Credited;
  v_confirmations := Some confs; v_required := None; v_transfers := rows;
  v_usd_total := total c_usd_credited credited; v_wpcn_total := total c_wpcn credited |}.

Definition verify (txhashRaw project userRef : string) : program reply :=
  if negb (hex_text hex_any 64 txhashRaw) then mret (plain BadRequest None None) else
  let txhash := lower_string txhashRaw in
  receipt ← getReceipt txhash;
  match receipt with
  | None => mret (plain Pending None None)
  | Some r =>
      if negb (succeeded r) then mret (plain Reverted None None) else
      headHex ← getHead;
      head ← hexToBig headHex;
      blockNo ← hexToBig (r_blockNumber r);
      let confs := confirmations head blockNo in
      let transfers := filter (fun l => pays_us l = true) (r_logs r) in
      if bool_decide (transfers = []) then mret (plain NoPayment None None) else
      if confs <? MIN_CONF cfg then mret (plain Confirming (Some confs) (Some (MIN_CONF cfg))) else
      block ← getBlock (round53 blockNo);
      match block with
      | Some hash =>
          if same_hash hash (r_blockHash r) then
            rows ← claim_transfers txhash project userRef r blockNo transfers;
            mret (summary confs rows)
          else mret (plain Reorged None None)
      | None => mret (plain Reorged None None)
      end
  end.

(** ** HTTP *)

(** [/^Bearer\s+(.+)$/i] and [trim]: what follows the first space. *)
Definition bearer (auth : string) : option string :=
  if bool_decide (lower_string (String.substring 0 6 auth) = "bearer") then
    match slice_from 6 auth with
    | String c (String _ _ as rest) => if space c then Some (js_trim rest) else None
    | _ => None
    end
  else None.

Definition projectFor (auth : string) : option string :=
  token ← bearer auth;
  project ← CLIENTS cfg !! token;
  if bool_decide (project = "") then None else Some project.

Definition send (r : response) : program () := await (fun _ w => (Ok (), say r w)).

Definition answer_verify (project : string) (body : verify_body) : program () :=
  match body with
  | Unparsed => send NotJson
  | NullBody => send ServerError
  | TextlessFields => send (Unreadable NoText)
  | Fields txhash userRef =>
      if negb (truthy txhash) || negb (truthy userRef) then send FieldsRequired else
      out ← try_io (r ← verify (js_String txhash) project (js_String userRef);
                    mret (Verified (project, js_String userRef) r))
                   (fun e => mret (Unreadable e));
      send out
  end.

Definition answer_claims (project : string) (userRef : option string) : program () :=
  match userRef with
  | None | Some "" => send FieldsRequired
  | Some u =>
      out ← try_io (l ← claimsFor project u; mret (Claims (project, u) l)) (fun _ => mret ServerError);
      send out
  end.

Definition authorised (auth : string) (k : string -> program ()) : program () :=
  match projectFor auth with Some project => k project | None => send Unauthorized end.

Definition handle (q : request) : program () :=
  match q with
  | GetHealth => out ← try_io (n ← claimCount; mret (Health n)) (fun _ => mret ServerError); send out
  | PostVerify auth body => authorised auth (fun p => answer_verify p body)
  | GetClaims auth userRef => authorised auth (fun p => answer_claims p userRef)
  | Other auth => authorised auth (fun _ => send NotFound)
  end.

(** ** The service: requests of any number of processes over one directory *)

Definition start (pid : Z) (q : request) : program () := handle q.
Definition forget (pid : Z) (w : world) : world := w.
Definition elsewhere (x : Empty_set) (w : world) : world := w.

Definition service (w : world) (es : list service_event) := run_machine start forget elsewhere w es.
Definition ledger_after (w : world) (es : list service_event) : world := m_world (service w es).
End verifier.

Definition opened : world := {| w_files := ∅; w_heard := []; w_replies := [] |}.
