(* ===== verification/WpcnLedger.v ===== *)
(** * The ledger of claims in every run (contrib/wpcn-pay)

    Each request carries a note of what it has heard and of the rows it has found
    so far. The invariant: what a note says was heard, was; every record in the
    directory is vouched for by answers of the chain and of the price feed; a row
    that names a record as credited or as the asker's own names the record that is
    there; and a record is credited in at most one row, told or still to be told. *)

From S2P Require Import Prelude JsInt JsNum JsText Bytes Bsc Tasks WpcnPay.
Local Open Scope Z_scope.

Record note := { n_heard : list fact; n_rows : list (asker * row) }.
Definition idle : note := {| n_heard := []; n_rows := [] |}.
Definition learn (f : option fact) (g : note) : note :=
  {| n_heard := match f with Some x => x :: n_heard g | None => n_heard g end; n_rows := n_rows g |}.
Definition push (xs : list (asker * row)) (g : note) : note := {| n_heard := n_heard g; n_rows := n_rows g ++ xs |}.
Abbreviation notes := (gmap nat (Z * note)).

(** The rows a response tells, and to whom: a listed claim is told as the asker's own. *)
Definition rows_told (r : response) : list (asker * row) :=
  match r with
  | Verified who v => (who,.) <$> v_transfers v
  | Claims who l => (fun c => (who, RMine c)) <$> l
  | _ => []
  end.
Definition told (w : world) : list (asker * row) := concat (rows_told <$> w_replies w).

(** The record that is in the directory under a key. *)
Definition record_at (w : world) (k : key) : option claim := default None (w_files w !! k).
Definition row_true (w : world) (x : asker * row) : Prop :=
  match x.2 with
  | RCredited c | RMine c => record_at w (key_of c) = Some c /\ (c_project c, c_user_ref c) = x.1
  | RForeign _ => True
  end.

(** How many of the rows credit the transfer. *)
Definition wins (k : key) (xs : list (asker * row)) : Z :=
  Z.of_nat (length (filter (fun c => key_of c = k) (credited_of xs.*2))).
Definition recorded (k : key) (w : world) : Z := match record_at w k with Some _ => 1 | None => 0 end.
Definition pending_wins (k : key) (gs : notes) : Z := map_sum (fun x => wins k (n_rows x.2)) gs.

Section ledger.
Context (cfg : config).

(** What a record rests on: answers of the outside that were all heard. *)
Record vouched (heard : list fact) (k : key) (c : claim) : Prop := {
  vo_key : key_of c = k;
  vo_source : exists r head blockHash body l h n i raw rate,
    FReceipt (c_txhash c) r ∈ heard /\ succeeded r = true /\ l ∈ r_logs r /\ pays_us cfg l = true
    /\ js_BigInt (l_logIndex l) = Some i /\ js_BigInt (l_data l) = Some raw
    /\ FHead head ∈ heard /\ js_BigInt head = Some h /\ js_BigInt (r_blockNumber r) = Some n
    /\ MIN_CONF cfg <= confirmations h n
    /\ FBlock (round53 n) blockHash ∈ heard /\ same_hash blockHash (r_blockHash r) = true
    /\ FPrice body ∈ heard /\ creditRateFromBody body = Ok rate
    /\ c = new_claim cfg (c_txhash c) (c_project c) (c_user_ref c) r n (round53 i) raw l rate (c_at c) }.

Lemma vouched_mono heard heard' k c : heard ⊆ heard' -> vouched heard k c -> vouched heard' k c.
Proof. intros Hs [Hk H]. split; [done|]. naive_solver. Qed.

(** [lost k]: 1 for a record that nobody will be told is credited any more, else 0. *)
Context (lost : key -> Z).

Record ledger_inv (w : world) (gs : notes) : Prop := {
  li_heard tid p g : gs !! tid = Some (p, g) -> n_heard g ⊆ w_heard w;
  li_vouched k c : record_at w k = Some c -> vouched (w_heard w) k c;
  li_noted tid p g : gs !! tid = Some (p, g) -> Forall (row_true w) (n_rows g);
  li_told : Forall (row_true w) (told w);
  li_once k : pending_wins k gs + wins k (told w) <= recorded k w - lost k
}.

(** ** Counting *)

Lemma wins_app k xs ys : wins k (xs ++ ys) = wins k xs + wins k ys.
Proof. unfold wins, credited_of. rewrite fmap_app, omap_app, filter_app, length_app. lia. Qed.
Lemma wins_nonneg k xs : 0 <= wins k xs.
Proof. unfold wins. lia. Qed.
Lemma wins_credited k (who : asker) c : wins k [(who, RCredited c)] = if decide (key_of c = k) then 1 else 0.
Proof. unfold wins. cbn. by case_decide. Qed.
Lemma wins_claimed k (who : asker) project user k' found : wins k [(who, claimed_row project user k' found)] = 0.
Proof. unfold claimed_row. destruct found; [by destruct (mine _ _ _)|done]. Qed.

Lemma credited_mine (who : asker) l : credited_of (((fun c => (who, RMine c)) <$> l).*2) = [].
Proof. induction l as [|c l IH]; [done|exact IH]. Qed.
Lemma insert_newest_elem c x l : c ∈ insert_newest x l <-> c = x \/ c ∈ l.
Proof. induction l as [|y l IH]; cbn; [set_solver|]. case_match; set_solver. Qed.
Lemma newest_first_elem c l : c ∈ newest_first l <-> c ∈ l.
Proof. induction l as [|x l IH]; cbn; [done|]. rewrite insert_newest_elem, elem_of_cons. by rewrite <- IH. Qed.

Lemma pending_insert k gs tid p g :
  pending_wins k (<[tid := (p, g)]> gs) = pending_wins k (delete tid gs) + wins k (n_rows g).
Proof.
  rewrite <- insert_delete_eq. unfold pending_wins. rewrite map_sum_insert by apply lookup_delete_eq. cbn. lia.
Qed.
Lemma pending_filter k (P : nat * (Z * note) -> Prop) `{!forall x, Decision (P x)} gs :
  pending_wins k (filter P gs) <= pending_wins k gs.
Proof.
  induction gs as [|tid [p g] gs Hn IH] using map_ind; [done|].
  rewrite map_filter_insert. unfold pending_wins in *. rewrite map_sum_insert by done. cbn.
  pose proof (wins_nonneg k (n_rows g)). case_decide.
  - rewrite map_sum_insert by (apply map_lookup_filter_None; by left). cbn. lia.
  - rewrite delete_id by done. lia.
Qed.

Lemma record_at_put k c w k' : record_at (put_file k c w) k' = if decide (k = k') then c else record_at w k'.
Proof.
  unfold record_at. cbn. case_decide as H; [subst; by rewrite lookup_insert_eq|by rewrite lookup_insert_ne].
Qed.
Lemma told_say r w : told (say r w) = told w ++ rows_told r.
Proof. unfold told. cbn. rewrite fmap_app, concat_app. cbn. by rewrite app_nil_r. Qed.

(** ** One await of a request *)

Lemma row_true_mono w w' x :
  (forall k c, record_at w k = Some c -> record_at w' k = Some c) -> row_true w x -> row_true w' x.
Proof. intros H. destruct x as [who []]; cbn; naive_solver. Qed.

Lemma ledger_step w w' gs tid p g g' extra :
  ledger_inv w (<[tid := (p, g)]> gs) ->
  w_heard w ⊆ w_heard w' -> n_heard g' ⊆ w_heard w' ->
  (forall k c, record_at w k = Some c -> record_at w' k = Some c) ->
  (forall k c, record_at w' k = Some c -> record_at w k = Some c \/ vouched (w_heard w') k c) ->
  Forall (row_true w') (n_rows g') -> told w' = told w ++ extra -> Forall (row_true w') extra ->
  (forall k, wins k (n_rows g') + wins k extra - wins k (n_rows g) <= recorded k w' - recorded k w) ->
  ledger_inv w' (<[tid := (p, g')]> gs).
Proof.
  intros [Hh Hv Hn Ht Ho] Hhh Hg Hr Hr' Hrows Htold Hextra Hk.
  assert (forall xs, Forall (row_true w) xs -> Forall (row_true w') xs) as Hm.
  { intros xs H. eapply Forall_impl; [exact H|]. intros x. by apply row_true_mono. }
  assert (forall t q h, t <> tid -> <[tid := (p, g')]> gs !! t = Some (q, h) -> <[tid := (p, g)]> gs !! t = Some (q, h)) as Hother.
  { intros t q h Hne H. rewrite lookup_insert_ne in H by done. by rewrite lookup_insert_ne by done. }
  split.
  - intros t q h H. destruct (decide (t = tid)) as [->|Hne]; [rewrite lookup_insert_eq in H; by simplify_eq|].
    etrans; [by eapply Hh, Hother|done].
  - intros k c H. destruct (Hr' k c H) as [H'|H']; [|done]. by eapply vouched_mono, Hv.
  - intros t q h H. destruct (decide (t = tid)) as [->|Hne]; [rewrite lookup_insert_eq in H; by simplify_eq|].
    by eapply Hm, Hn, Hother.
  - rewrite Htold. apply Forall_app. split; [by apply Hm|done].
  - intros k. specialize (Ho k). specialize (Hk k). rewrite pending_insert in *. rewrite Htold, wins_app. lia.
Qed.

Section steps.
Context (tid : nat) (p : Z).
Abbreviation safely m Q g := (safe ledger_inv tid p m Q g).

(** A step that touches neither the directory nor the replies. *)
Lemma ledger_same w w' gs g g' :
  ledger_inv w (<[tid := (p, g)]> gs) -> w_files w' = w_files w -> w_replies w' = w_replies w ->
  w_heard w ⊆ w_heard w' -> n_heard g' ⊆ w_heard w' -> Forall (row_true w) (n_rows g') ->
  (forall k, wins k (n_rows g') = wins k (n_rows g)) ->
  ledger_inv w' (<[tid := (p, g')]> gs).
Proof.
  intros Hi Hf Hr Hh Hg Hrows Hw. assert (forall k, record_at w' k = record_at w k) as Hrec by (intros k; unfold record_at; by rewrite Hf).
  eapply (ledger_step w w' gs tid p g g' []); try done.
  - intros k c. by rewrite Hrec.
  - intros k c. rewrite Hrec. by left.
  - eapply Forall_impl; [exact Hrows|]. intros x. apply row_true_mono. intros k c. by rewrite Hrec.
  - unfold told. rewrite Hr. by rewrite app_nil_r.
  - intros k. unfold recorded. rewrite Hrec, Hw. unfold wins at 2. cbn. lia.
Qed.

Lemma note_of w gs g : ledger_inv w (<[tid := (p, g)]> gs) -> n_heard g ⊆ w_heard w /\ Forall (row_true w) (n_rows g).
Proof. intros [Hh _ Hn _ _]. split; [eapply Hh|eapply Hn]; apply lookup_insert_eq. Qed.

Lemma safe_ask {A} (answer : outside -> result err A) f (Q : result err A -> note -> Prop) g :
  (forall e, Q (Err e) g) -> (forall a, Q (Ok a) (learn (f a) g)) -> safely (ask answer f) Q g.
Proof.
  intros He Ha o w gs Hi. destruct (note_of _ _ _ Hi) as [Hh Hr]. destruct (answer o) as [a|e].
  - exists (learn (f a) g). split; [|apply Ha].
    eapply ledger_same; [exact Hi|by destruct (f a)|by destruct (f a)| | |done|done]; destruct (f a); cbn; set_solver.
  - exists g. split; [done|apply He].
Qed.

Lemma safe_readClaim project user k (b : option claim -> bool) (Q : result err (option claim) -> note -> Prop) g :
  (forall found, Q (Ok found) (push (if b found then [((project, user), claimed_row project user k found)] else []) g)) ->
  safely (readClaim k) Q g.
Proof.
  intros HQ o w gs Hi. destruct (note_of _ _ _ Hi) as [Hh Hr].
  set (found := if readable o k then default None (w_files w !! k) else None).
  assert (forall c, found = Some c -> record_at w k = Some c) as Hfound by (subst found; by destruct (readable o k)).
  exists (push (if b found then [((project, user), claimed_row project user k found)] else []) g). split; [|apply HQ].
  eapply ledger_same; [exact Hi|done|done|done|done| |].
  - cbn. apply Forall_app. split; [done|]. destruct (b found); [|done]. apply Forall_singleton.
    unfold claimed_row. destruct found as [c|]; [|done]. specialize (Hfound c eq_refl).
    destruct (mine project user c) eqn:Hm; [|done]. cbn. rewrite (vo_key _ _ _ (li_vouched _ _ Hi k c Hfound)).
    split; [done|]. unfold mine in Hm. bool_to_prop. by subst.
  - intros k'. cbn. rewrite wins_app. destruct (b found); [rewrite wins_claimed; lia|]. unfold wins at 2. cbn. lia.
Qed.

Lemma safe_insertClaim who k rec (Q : result err (option claim) -> note -> Prop) g :
  (forall now, vouched (n_heard g) k (rec now)) -> (forall now, (c_project (rec now), c_user_ref (rec now)) = who) ->
  (forall e, Q (Err e) g) -> Q (Ok None) g -> (forall now, Q (Ok (Some (rec now))) (push [(who, RCredited (rec now))] g)) ->
  safely (insertClaim k rec) Q g.
Proof.
  intros Hv Hwho He Hno Hyes o w gs Hi. destruct (note_of _ _ _ Hi) as [Hh Hr].
  assert (Hput : w_files w !! k = None -> forall c g', (c = None \/ c = Some (rec (a_now o))) ->
    n_heard g' = n_heard g -> (g' = g \/ c = Some (rec (a_now o)) /\ g' = push [(who, RCredited (rec (a_now o)))] g) ->
    ledger_inv (put_file k c w) (<[tid := (p, g')]> gs)).
  { intros Hn c g' Hc Hg' Hpush. assert (record_at w k = None) as Hnone by (unfold record_at; by rewrite Hn).
    pose proof (vo_key _ _ _ (Hv (a_now o))) as Hkey.
    assert (forall k' c', record_at w k' = Some c' -> record_at (put_file k c w) k' = Some c') as Hm.
    { intros k' c'. rewrite record_at_put. case_decide; [subst; congruence|done]. }
    eapply (ledger_step w _ gs tid p g g' []); [done|done|by rewrite Hg'|exact Hm| | |cbn; by rewrite app_nil_r|done|].
    - intros k' c'. rewrite record_at_put. case_decide as Hk; [subst k'|by left]. intros ->. right.
      destruct Hc as [|Hc]; [done|]. injection Hc as ->. by eapply vouched_mono, Hv.
    - assert (Forall (row_true (put_file k c w)) (n_rows g)) as Hrow.
      { eapply Forall_impl; [exact Hr|]. intros x. by apply row_true_mono. }
      destruct Hpush as [->|[-> ->]]; [done|]. cbn. apply Forall_app. split; [done|]. apply Forall_singleton. cbn.
      rewrite record_at_put, Hkey. rewrite decide_True by done. split; [done|apply Hwho].
    - intros k'. unfold recorded. rewrite record_at_put. unfold wins at 2. cbn [credited_of omap list_omap filter length].
      destruct Hpush as [->|[-> ->]].
      + case_decide; [subst; rewrite Hnone; destruct c; cbn; lia|cbn; lia].
      + cbn. rewrite wins_app, wins_credited, Hkey. case_decide; [subst; rewrite Hnone; lia|lia]. }
  destruct (a_disk o) eqn:Hd; destruct (w_files w !! k) eqn:Hn; cbn; rewrite ?Hd, ?Hn.
  2: { exists (push [(who, RCredited (rec (a_now o)))] g). split; [|apply Hyes]. apply Hput; auto. }
  all: exists g; split; [|done || apply He].
  all: done || (apply Hput; auto).
Qed.

(** ** A request *)

Lemma safe_hexToBig v (Q : result err Z -> note -> Prop) g :
  (Q (Err NotAnInteger) g) -> (forall z, js_BigInt v = Some z -> Q (Ok z) g) -> safely (hexToBig v) Q g.
Proof. intros He Ho. unfold hexToBig. destruct (js_BigInt v) as [z|] eqn:Hz; [by apply Ho|done]. Qed.

Lemma safe_usdRate (Q : result err js_num -> note -> Prop) g :
  (forall e g', n_rows g' = n_rows g -> Q (Err e) g') ->
  (forall b r, creditRateFromBody b = Ok r -> Q (Ok r) (learn (Some (FPrice b)) g)) -> safely usdRate Q g.
Proof.
  intros He Ho. unfold usdRate. apply safe_seq, safe_ask; [intros e; by apply He|]. intros b.
  destruct (creditRateFromBody b) as [r|e] eqn:Hb; [by apply Ho|by apply He].
Qed.

(** The rows of the note are those of the transfers so far. *)
Definition extended {A} (who : asker) (f : A -> list row) (g : note) (x : result err A) (g' : note) : Prop :=
  match x with Ok a => n_heard g ⊆ n_heard g' /\ n_rows g' = n_rows g ++ ((who,.) <$> f a) | Err _ => True end.

Section request.
Context (txhash project user : string) (r : receipt) (head blockHash : json) (h n : Z).

(** What the request has heard before it looks at a transfer. *)
Record cleared (g : note) : Prop := {
  cl_receipt : FReceipt txhash r ∈ n_heard g;
  cl_success : succeeded r = true;
  cl_head : FHead head ∈ n_heard g;
  cl_head_is : js_BigInt head = Some h;
  cl_number : js_BigInt (r_blockNumber r) = Some n;
  cl_deep : MIN_CONF cfg <= confirmations h n;
  cl_block : FBlock (round53 n) blockHash ∈ n_heard g;
  cl_canonical : same_hash blockHash (r_blockHash r) = true }.

Lemma cleared_mono g g' : n_heard g ⊆ n_heard g' -> cleared g -> cleared g'.
Proof. intros Hs []. split; auto. Qed.

Lemma claim_transfer_safe l g :
  cleared g -> l ∈ r_logs r -> pays_us cfg l = true ->
  safely (claim_transfer cfg txhash project user r n l) (extended (project, user) (fun x => [x]) g) g.
Proof.
  intros Hc Hl Hp. unfold claim_transfer. apply safe_seq, safe_hexToBig; [done|]. intros i Hi.
  apply safe_seq. apply (safe_readClaim project user _ (fun f => bool_decide (is_Some f))).
  intros [c|]; rewrite ?bool_decide_eq_true_2, ?bool_decide_eq_false_2 by (eauto || by intros []).
  - cbn. done.
  - replace (push [] g) with g by (destruct g; unfold push; cbn; by rewrite app_nil_r).
    apply safe_seq, safe_hexToBig; [done|]. intros raw Hraw.
    apply safe_seq, safe_usdRate; [done|]. intros b rate Hb.
    apply safe_seq, (safe_insertClaim (project, user)); [|done|done| |].
    + intros now. split; [done|]. destruct Hc.
      exists r, head, blockHash, b, l, h, n, i, raw, rate. split_and!; cbn; try done; set_solver.
    + apply safe_seq. apply (safe_readClaim project user _ (fun _ => true)). intros found. cbn. split; [set_solver|done].
    + intros now. cbn. split; [set_solver|done].
Qed.

Lemma claim_transfers_safe ls g :
  cleared g -> Forall (fun l => l ∈ r_logs r /\ pays_us cfg l = true) ls ->
  safely (claim_transfers cfg txhash project user r n ls) (extended (project, user) id g) g.
Proof.
  intros Hc Hls. revert g Hc. induction Hls as [|l ls [Hl Hp] _ IH]; intros g Hc; cbn [claim_transfers].
  { cbn. by rewrite app_nil_r. }
  apply safe_seq. eapply safe_mono; [|by apply claim_transfer_safe]. intros [x|e] g1 H1; [|done]. destruct H1 as [Hh1 Hr1].
  apply safe_seq. eapply safe_mono; [|apply IH; by eapply cleared_mono]. intros [xs|e] g2 H2; [|done].
  destruct H2 as [Hh2 Hr2]. cbn in *. split; [by etrans|]. rewrite Hr2, Hr1. by rewrite <- app_assoc.
Qed.
End request.

Lemma verify_safe txhash project user :
  safely (verify cfg txhash project user)
    (fun x g' => match x with Ok v => n_rows g' = ((project, user),.) <$> v_transfers v | Err _ => True end) idle.
Proof.
  unfold verify. destruct (negb (hex_text _ _ _)); [done|]. set (t := lower_string txhash).
  apply safe_seq, safe_ask; [done|]. intros [r|]; [|done].
  destruct (succeeded r) eqn:Hs; [cbn [negb]|done].
  apply safe_seq, safe_ask; [done|]. intros head. apply safe_seq, safe_hexToBig; [done|]. intros h Hh.
  apply safe_seq, safe_hexToBig; [done|]. intros n Hn. cbv zeta.
  destruct (bool_decide (filter _ _ = [])); [done|].
  destruct (Z.ltb_spec (confirmations h n) (MIN_CONF cfg)) as [|Hdeep]; [done|].
  apply safe_seq, safe_ask; [done|]. intros [hash|]; [|done].
  destruct (same_hash hash (r_blockHash r)) eqn:Hsame; [|done].
  apply safe_seq. eapply safe_mono; [|apply (claim_transfers_safe t project user r head hash h n)].
  - intros [rows|e] g' H; [|done]. destruct H as [_ Hr]. cbn in *. by rewrite Hr.
  - split; cbn; try done; set_solver.
  - apply Forall_forall. intros l. by intros [? ?]%list_elem_of_filter.
Qed.

(** A reply tells rows of the note, each at most once. *)
Lemma reply_safe r g :
  (rows_told r = n_rows g \/ rows_told r = []) -> safely (send r) (fun _ g' => g' = idle) g.
Proof.
  intros Hr o w gs Hi. exists idle. split; [|done]. destruct (note_of _ _ _ Hi) as [_ Hrow].
  eapply (ledger_step w (say r w) gs tid p g idle (rows_told r)); try done.
  - cbn. set_solver.
  - intros k c H. by left.
  - by rewrite told_say.
  - destruct Hr as [-> | ->]; [done|constructor].
  - intros k. unfold recorded, record_at. cbn. destruct Hr as [-> | ->]; unfold wins at 1; cbn; [lia|].
    pose proof (wins_nonneg k (n_rows g)). unfold wins at 1. cbn. lia.
Qed.

Definition rests (m : io err outside world ()) : Prop := safely m (fun _ g => g = idle) idle.

Lemma rests_send r : rows_told r = [] -> rests (send r).
Proof. intros H. apply reply_safe. by right. Qed.

Lemma rests_answer {A} (m : io err outside world A) (f : A -> response) (h : err -> response) :
  safely m (fun x g' => match x with Ok a => n_rows g' = rows_told (f a) | Err _ => True end) idle ->
  (forall e, rows_told (h e) = []) ->
  rests (out ← try_io (a ← m; mret (f a)) (fun e => mret (h e)); send out).
Proof.
  intros Hm Hh. apply safe_seq, safe_try, safe_seq. eapply safe_mono; [|exact Hm].
  intros [a|e] g Hg; cbn; apply reply_safe; [by left|by right].
Qed.

(** The claims listed are records of the asker. *)
Lemma claims_of_true w gs readable project user :
  ledger_inv w gs -> Forall (row_true w) ((fun c => ((project, user), RMine c)) <$> claims_of readable (w_files w) project user).
Proof.
  intros Hi. apply Forall_fmap, Forall_forall. intros c Hc. unfold claims_of in Hc.
  apply elem_of_take in Hc as (i & Hc & _). apply list_elem_of_lookup_2 in Hc.
  rewrite newest_first_elem in Hc. apply list_elem_of_filter in Hc as [[<- <-] Hc].
  apply list_elem_of_omap in Hc as ([k x] & Hin & Hx). apply elem_of_map_to_list in Hin. cbn in *.
  destruct (readable k); [|done]. subst x. assert (record_at w k = Some c) as H by (unfold record_at; by rewrite Hin).
  split; [|done]. by rewrite (vo_key _ _ _ (li_vouched _ _ Hi k c H)).
Qed.

Lemma safe_claimsFor project user (Q : result err (list claim) -> note -> Prop) :
  (forall e, Q (Err e) idle) -> (forall l, Q (Ok l) (push ((fun c => ((project, user), RMine c)) <$> l) idle)) ->
  safely (claimsFor project user) Q idle.
Proof.
  intros He Ho o w gs Hi. set (l := claims_of (readable o) (w_files w) project user).
  assert (ledger_inv w (<[tid := (p, push ((fun c => ((project, user), RMine c)) <$> l) idle)]> gs)) as Hl.
  { eapply (ledger_same w w); [exact Hi|done|done|done|cbn; set_solver|cbn; by eapply claims_of_true|].
    intros k. cbn. unfold wins. by rewrite credited_mine. }
  cbn. destruct (a_disk o); first [exists idle; split; [done|by apply He] | eexists; split; [exact Hl|apply Ho]].
Qed.

Lemma handle_safe q : rests (handle cfg q).
Proof.
  unfold handle, authorised. destruct q as [auth body|auth user| |auth]; try (destruct (projectFor cfg auth) as [project|]);
    try (by apply rests_send).
  - destruct body as [| | |t u]; [by apply rests_send..|]. unfold answer_verify.
    destruct (negb (truthy t) || negb (truthy u)); [by apply rests_send|]. by apply rests_answer; [apply verify_safe|].
  - unfold answer_claims. destruct user as [[|c u]|]; try (by apply rests_send).
    apply rests_answer; [|done]. by apply safe_claimsFor.
  - apply rests_answer; [|done]. apply safe_await. intros o w gs Hi. destruct (a_disk o); done.
Qed.
End steps.

(** ** Every run *)

Lemma ledger_protocol : protocol (start cfg) forget elsewhere ledger_inv idle.
Proof.
  split.
  - intros p q tid. apply handle_safe.
  - intros w gs tid p Hn Hi. destruct Hi as [Hh Hv Hr Ht Ho]. split; try done.
    + intros t q g H. destruct (decide (t = tid)) as [->|Hne]; [rewrite lookup_insert_eq in H; simplify_eq; apply list_subseteq_nil|].
      rewrite lookup_insert_ne in H by done. by eapply Hh.
    + intros t q g H. destruct (decide (t = tid)) as [->|Hne]; [rewrite lookup_insert_eq in H; by simplify_eq|].
      rewrite lookup_insert_ne in H by done. by eapply Hr.
    + intros k. specialize (Ho k). rewrite pending_insert, delete_id by done. unfold wins at 1. cbn. lia.
  - intros w gs tid p Hn Hi. destruct Hi as [Hh Hv Hr Ht Ho]. split; try done.
    + intros t q g H. eapply (Hh t q). rewrite lookup_insert_ne; [done|]. intros <-. congruence.
    + intros t q g H. eapply (Hr t q). rewrite lookup_insert_ne; [done|]. intros <-. congruence.
    + intros k. specialize (Ho k). rewrite pending_insert, delete_id in Ho by done. unfold wins at 1 in Ho. cbn in Ho. lia.
  - intros w gs p [Hh Hv Hr Ht Ho]. split; try done.
    + intros t q g H. apply map_lookup_filter_Some in H as [H _]. by eapply Hh.
    + intros t q g H. apply map_lookup_filter_Some in H as [H _]. by eapply Hr.
    + intros k. specialize (Ho k). pose proof (pending_filter k (fun x => x.2.1 <> p) gs). cbn in *. unfold forget. lia.
  - intros w gs [].
Qed.

(** What every run keeps: the invariant of the directory and of what was told. *)
Record ledger_ok (w : world) : Prop := {
  ok_vouched k c : record_at w k = Some c -> vouched (w_heard w) k c;
  ok_told : Forall (row_true w) (told w);
  ok_once k : wins k (told w) <= recorded k w - lost k }.

Lemma ledger_run w es : ledger_inv w ∅ -> exists gs, ledger_inv (ledger_after cfg w es) gs.
Proof.
  intros H. destruct (run_machine_inv (start cfg) forget elsewhere ledger_inv idle w es ledger_protocol H) as (gs & Hi & _).
  by exists gs.
Qed.
Lemma ledger_inv_ok w gs : ledger_inv w gs -> ledger_ok w.
Proof.
  intros [Hh Hv Hr Ht Ho]. split; [done..|]. intros k. specialize (Ho k).
  assert (0 <= pending_wins k gs); [|lia]. unfold pending_wins.
  rewrite <- (map_sum_zero (fun _ => 0) gs) by done. apply map_sum_le. intros. apply wins_nonneg.
Qed.
Lemma opened_inv : (forall k, lost k = 0) -> ledger_inv opened ∅.
Proof. intros Hl. split; try done. intros k. rewrite Hl. done. Qed.

(** ** Files are never changed *)

Definition files_kept (w w' : world) : Prop := w_files w ⊆ w_files w'.
#[export] Instance files_kept_refl : Reflexive files_kept.
Proof. intros w. unfold files_kept. done. Qed.
#[export] Instance files_kept_trans : Transitive files_kept.
Proof. intros w1 w2 w3. unfold files_kept. by intros -> ->. Qed.

Lemma kept_ask {A} (answer : outside -> result err A) f : does files_kept (ask answer f).
Proof. apply does_await. intros o w. unfold files_kept. destruct (answer o) as [a|]; [by destruct (f a)|done]. Qed.
Lemma kept_hexToBig v : does files_kept (hexToBig v).
Proof. unfold hexToBig. by destruct (js_BigInt v). Qed.
Lemma kept_usdRate : does files_kept usdRate.
Proof. apply does_bind; [apply kept_ask|]. intros b. by destruct (creditRateFromBody b). Qed.
Lemma kept_readClaim k : does files_kept (readClaim k).
Proof. apply does_await. intros o w. unfold files_kept. done. Qed.
Lemma kept_insertClaim k rec : does files_kept (insertClaim k rec).
Proof.
  apply does_await. intros o w. unfold files_kept.
  destruct (a_disk o); destruct (w_files w !! k) eqn:Hn; cbn; try done.
  all: by apply insert_subseteq.
Qed.
Lemma kept_claimsFor project user : does files_kept (claimsFor project user).
Proof. apply does_await. intros o w. unfold files_kept. by destruct (a_disk o). Qed.
Lemma kept_claimCount : does files_kept claimCount.
Proof. apply does_await. intros o w. unfold files_kept. by destruct (a_disk o). Qed.
Lemma kept_send r : does files_kept (send r).
Proof. apply does_await. intros o w. unfold files_kept. done. Qed.

Ltac kept := repeat first
  [ apply does_ret | apply does_throw | apply kept_ask | apply kept_hexToBig | apply kept_usdRate | apply kept_readClaim
  | apply kept_insertClaim | apply kept_claimsFor | apply kept_claimCount | apply kept_send
  | apply does_try | apply does_bind | progress intros | progress cbv zeta | case_match ].

Lemma kept_claim_transfers t project user r n ls : does files_kept (claim_transfers cfg t project user r n ls).
Proof. induction ls as [|l ls IH]; cbn [claim_transfers]; [done|]. apply does_bind; [unfold claim_transfer; kept|]. intros x. by apply does_bind. Qed.
Lemma kept_verify t project user : does files_kept (verify cfg t project user).
Proof. unfold verify. kept. apply kept_claim_transfers. Qed.
Lemma kept_handle q : does files_kept (handle cfg q).
Proof. unfold handle, authorised, answer_verify, answer_claims. destruct q; kept; apply kept_verify. Qed.

Lemma files_grow w es es' : files_kept (ledger_after cfg w es) (ledger_after cfg w (es ++ es')).
Proof. apply (run_machine_grows (start cfg) forget elsewhere files_kept); [intros p r; apply kept_handle|done|intros []]. Qed.

Lemma record_kept w w' k c : files_kept w w' -> record_at w k = Some c -> record_at w' k = Some c.
Proof.
  unfold record_at. intros Hk. destruct (w_files w !! k) as [x|] eqn:Hx; [|done].
  by rewrite (lookup_weaken _ _ _ _ Hx Hk).
Qed.
End ledger.

Definition nothing_lost : key -> Z := fun _ => 0.
Lemma ledger_always cfg es : exists gs, ledger_inv cfg nothing_lost (ledger_after cfg opened es) gs.
Proof. by apply ledger_run, opened_inv. Qed.

(** ** A record nobody was told of *)

(** When no request is running, a record that no reply has called credited never
    will be: only the request that made it could have. *)
Lemma untold_stays cfg es es' k c :
  m_tasks (service cfg opened es) = ∅ -> record_at (ledger_after cfg opened es) k = Some c ->
  wins k (told (ledger_after cfg opened es)) = 0 -> wins k (told (ledger_after cfg opened (es ++ es'))) = 0.
Proof.
  intros Hidle Hr Hw. unfold ledger_after in *. unfold service in *.
  rewrite (run_machine_app (start cfg) forget elsewhere opened es es' _ eq_refl).
  destruct (run_machine_inv (start cfg) forget elsewhere (ledger_inv cfg nothing_lost) idle opened es
              (ledger_protocol cfg nothing_lost)) as (gs & Hi & Hn); [by apply opened_inv|].
  set (m := run_machine (start cfg) forget elsewhere opened es) in *.
  assert (gs = ∅) as ->.
  { apply map_empty. intros tid. specialize (Hn tid). rewrite Hidle, lookup_empty in Hn. by destruct (gs !! tid). }
  set (lost := fun k' => if decide (k' = k) then 1 else 0).
  assert (ledger_inv cfg lost (m_world m) ∅) as Hl.
  { destruct Hi as [H1 H2 H3 H4 H5]. split; try done. intros k'. specialize (H5 k'). unfold lost, nothing_lost in *.
    case_decide as Hk; [subst k'|lia]. unfold recorded. rewrite Hr, Hw.
    assert (pending_wins k (∅ : notes) = 0) as -> by done. cbn. lia. }
  destruct m as [w tasks]. cbn in Hidle, Hl, Hr, Hw. subst tasks.
  destruct (ledger_run cfg lost w es' Hl) as (gs' & Hi'). unfold ledger_after, service, run_machine in Hi'.
  pose proof (ok_once _ _ _ (ledger_inv_ok cfg lost _ _ Hi') k) as Ho. unfold lost in Ho. rewrite decide_True in Ho by done.
  pose proof (wins_nonneg k (told (m_world (foldl (step_machine (start cfg) forget elsewhere) {| m_world := w; m_tasks := ∅ |} es')))).
  unfold recorded in Ho. destruct (record_at _ k) in Ho; lia.
Qed.

Lemma wins_none k (who : asker) c xs : wins k xs = 0 -> (who, RCredited c) ∈ xs -> key_of c <> k.
Proof.
  intros Hw Hin Hk. apply list_elem_of_split in Hin as (l1 & l2 & ->).
  change ((who, RCredited c) :: l2) with ([(who, RCredited c)] ++ l2) in Hw. rewrite !wins_app, wins_credited, decide_True in Hw by done.
  pose proof (wins_nonneg k l1). pose proof (wins_nonneg k l2). lia.
Qed.
