(* ===== verification/WpcnBot.v ===== *)
(** * The bot as a client of the wPCN verifier

    The verifier's responses as the shared client (contrib/wpcn-pay/clients) hands
    them to the bot's wPCN top-ups (contrib/pcnaibot/lib/wpcn.mjs): the texts of
    the numbers of its JSON, what counts as no answer, and one attempt of the bot
    over both services. *)

From Stdlib Require Import SpecFloat.
From S2P Require Import Prelude JsInt JsNum JsText Bytes BotMoney BotDb BotInv BotBilling BotDeposits BotWpcn Bsc Tasks WpcnPay WpcnLedger.
Local Open Scope Z_scope.

(** ** The client *)

(** A number of a JSON body, as [String] gives it: [JSON.stringify] writes null for
    what is not finite, and reading the text back gives the same double. *)
Definition js_field (x : js_num) : option string := if is_finite x then Some (num_text x) else None.
(** [Math.round(Number(bonus) || 0)] *)
Definition bonus_field (x : js_num) : option Z := if is_finite x then Z_of_num (js_round x) else None.

Definition wire_state (s : vstate) : wstate :=
  match s with
  | Credited => WCredited | AlreadyClaimed => WAlreadyClaimed | Pending => WPending | Confirming => WConfirming
  | NoPayment => WNoPayment | Reverted => WReverted | Reorged => WReorged | BadRequest => WBadRequest
  end.

(** A row of a [/verify] reply. *)
Definition row_wire (x : row) : transfer :=
  match x with
  | RCredited c => {|
      tr_state := Some WCredited; tr_yours := false; tr_logIndex := Some (c_log_index c); tr_log_index := None;
      tr_usd := js_field (c_usd_credited c); tr_usd_credited := None;
      tr_rate_usd := js_field (c_credited_rate_usd c); tr_credited_rate_usd := None;
      tr_wpcn := js_field (c_wpcn c); tr_wpcn_amount := None;
      tr_bonus_pct := bonus_field (c_bonus_pct c); tr_bonusPercent := None |}
  | RMine c => {|
      tr_state := Some WAlreadyClaimed; tr_yours := true; tr_logIndex := Some (c_log_index c); tr_log_index := None;
      tr_usd := js_field (c_usd_credited c); tr_usd_credited := None;
      tr_rate_usd := None; tr_credited_rate_usd := None;
      tr_wpcn := js_field (c_wpcn c); tr_wpcn_amount := None; tr_bonus_pct := None; tr_bonusPercent := None |}
  | RForeign k => {|
      tr_state := Some WAlreadyClaimed; tr_yours := false; tr_logIndex := Some k.2; tr_log_index := None;
      tr_usd := None; tr_usd_credited := None; tr_rate_usd := None; tr_credited_rate_usd := None;
      tr_wpcn := None; tr_wpcn_amount := None; tr_bonus_pct := None; tr_bonusPercent := None |}
  end.

(** A row of a [/claims] reply: the record with both spellings. *)
Definition claimWireShape (c : claim) : transfer := {|
  tr_state := None; tr_yours := false; tr_logIndex := Some (c_log_index c); tr_log_index := Some (c_log_index c);
  tr_usd := js_field (c_usd_credited c); tr_usd_credited := js_field (c_usd_credited c);
  tr_rate_usd := js_field (c_credited_rate_usd c); tr_credited_rate_usd := js_field (c_credited_rate_usd c);
  tr_wpcn := js_field (c_wpcn c); tr_wpcn_amount := None;
  tr_bonus_pct := bonus_field (c_bonus_pct c); tr_bonusPercent := None |}.

Definition isCredit (v : reply) : bool :=
  bool_decide (v_state v = Credited) && is_finite (v_usd_total v) && num_ltb (S754_zero false) (v_usd_total v).

Definition no_answer : verify_reply := {| vr_state := WUnreadable; vr_is_credit := false; vr_transfers := [] |}.

(** [verify] of the client; [None] when the transport died. *)
Definition client_verify (resp : option response) : verify_reply :=
  match resp with
  | Some (Verified _ v) => {|
      vr_state := wire_state (v_state v); vr_is_credit := isCredit v; vr_transfers := row_wire <$> v_transfers v |}
  | _ => no_answer
  end.

(** [claims] of the client, read for one hash. *)
Definition ownClaimRows (txhash : string) (resp : option response) : option (list transfer) :=
  match resp with
  | Some (Claims _ l) => Some (claimWireShape <$> filter (fun c => lower_string (c_txhash c) = txhash) l)
  | _ => None
  end.

(** One attempt of the bot, given what came back from the verifier. *)
Definition pay (chat : Z) (txhashRaw : string) (verified listed : option response) (now : Z) : op wpcn_result :=
  verifyAndCredit true chat txhashRaw (client_verify verified) (ownClaimRows (lower_string (trim txhashRaw)) listed) now.

(** ** A credit of rows the bot does not have *)

Section credit.
Context (txhash : string) (chat now : Z).

Definition reads (r : creditable) : Prop := exists nano, row_nano r = Ok nano /\ 0 <= nano.

Lemma take_rows_succeeds rows d :
  Forall reads rows -> exists taken d', take_rows txhash chat rows now d = (Ok taken, d') /\ users d' = users d
    /\ Forall (fun x => 0 <= x.2) taken.
Proof.
  intros Hr. revert d. induction Hr as [|r rows (nano & Hn & Hp) _ IH]; intros d; [by eexists [], d|].
  cbn [take_rows]. unfold mbind, op_bind, query at 1. destruct (bool_decide _); [apply IH|].
  unfold exec at 1. unfold lift_money at 1. rewrite Hn.
  match goal with |- context [take_rows _ _ _ _ ?d1] => destruct (IH d1) as (taken & d' & -> & Hu & Ht) end.
  eexists _, _. split; [reflexivity|]. split; [by rewrite Hu|]. by constructor.
Qed.

(** The first row that is not claimed is taken. *)
Lemma take_rows_first r rows d taken d' :
  wpcn_claims d !! (txhash, cw_log r) = None -> take_rows txhash chat (r :: rows) now d = (Ok taken, d') -> taken <> [].
Proof.
  intros Hno H. cbn [take_rows] in H. op_inv. destruct (bool_decide (is_Some _)) eqn:Hb.
  - apply bool_decide_eq_true_1 in Hb. rewrite Hno in Hb. by destruct Hb.
  - by op_inv.
Qed.

Lemma wpcn_ledger_succeeds taken micro d :
  exists d', wpcn_ledger txhash chat micro taken now d = (Ok (), d') /\ users d' = users d.
Proof.
  revert micro d. induction taken as [|[r n] taken IH]; intros micro d; [by exists d|].
  cbn [wpcn_ledger]. unfold mbind, op_bind, try_catch, insert_ledger. destruct (key_taken _ d).
  - apply IH.
  - match goal with |- context [wpcn_ledger _ _ _ _ _ ?d1] => destruct (IH 0 d1) as (d' & -> & Hu) end. by eexists.
Qed.

Lemma credit_succeeds r rows out d u :
  Forall reads (r :: rows) -> wpcn_claims d !! (txhash, cw_log r) = None ->
  users d !! chat = Some u -> 0 <= wpcn_remainder_nano_usd u ->
  exists v d', BotWpcn.credit chat txhash (r :: rows) out now d = (Ok v, d') /\ wr_duplicate v = false /\ wr_state v = WCredited.
Proof.
  intros Hr Hno Hu Hc. destruct (take_rows_succeeds _ d Hr) as (taken & d1 & Ht & Hu1 & Hpos).
  pose proof (take_rows_first _ _ _ _ _ Hno Ht) as Hne. unfold BotWpcn.credit, immediate, mbind, op_bind. rewrite Ht.
  destruct taken as [|x taken]; [done|]. unfold query. rewrite Hu1, Hu. cbn [lift_money].
  assert (0 <= zsum_by snd (x :: taken)) as Hz.
  { apply zsum_by_nonneg. intros y Hy. by apply (proj1 (Forall_forall _ _) Hpos). }
  unfold lift_money, splitNano. destruct (Z.ltb_spec (zsum_by snd (x :: taken) + wpcn_remainder_nano_usd u) 0) as [|_]; [lia|].
  cbn [negb]. match goal with |- context [wpcn_ledger _ _ ?m _ _ _] => destruct (wpcn_ledger_succeeds (x :: taken) m d1) as (d2 & -> & Hu2) end.
  assert (users d2 !! chat = Some u) as Hu3 by (by rewrite Hu2, Hu1).
  destruct (0 <? _)%Z; unfold update_user, mret, op_ret; rewrite ?Hu3; cbv beta iota; cbn [always].
  - cbn [on_users users]. rewrite lookup_insert_eq. by eexists _, _.
  - by eexists _, _.
Qed.
End credit.

(** ** Asking again about a payment that is recorded *)

Section again.
Context (cfg : config) (w : world) (o : outside) (t project user : string) (r : receipt).

(** The transfer is recorded as a claim of this user. *)
Definition recorded_for (l : log) (c : claim) : Prop :=
  exists i, js_BigInt (l_logIndex l) = Some i /\ record_at w (t, round53 i) = Some c
            /\ (c_project c, c_user_ref c) = (project, user).

(** What the nodes answer about a payment that is deep enough, all of it recorded. *)
Record settled_payment (cs : list claim) : Prop := {
  sp_hash : hex_text hex_any 64 t = true;
  sp_lower : lower_string t = t;
  sp_receipt : rpc (a_receipts o) = Ok (Some r);
  sp_success : succeeded r = true;
  sp_transfers : Forall2 recorded_for (filter (fun l => pays_us cfg l = true) (r_logs r)) cs;
  sp_some : cs <> [];
  sp_readable : a_bad o = [];
  sp_chain : exists head h n hash,
    rpc (a_heads o) = Ok head /\ js_BigInt head = Some h /\ js_BigInt (r_blockNumber r) = Some n
    /\ MIN_CONF cfg <= confirmations h n
    /\ rpc (a_blocks o) = Ok (Some hash) /\ same_hash hash (r_blockHash r) = true }.

Lemma steady_claim_transfers n ls cs w' :
  a_bad o = [] -> w_files w' = w_files w -> Forall2 recorded_for ls cs ->
  run_steady o (claim_transfers cfg t project user r n ls) w' = (Ok (RMine <$> cs), w').
Proof.
  intros Hbad Hw. induction 1 as [|l c ls cs (i & Hi & Hc & Hm) _ IH]; [done|]. cbn [claim_transfers].
  unfold mbind, io_mbind in *. rewrite run_steady_bind.
  assert (run_steady o (claim_transfer cfg t project user r n l) w' = (Ok (RMine c), w')) as ->.
  { unfold claim_transfer, hexToBig. rewrite Hi. cbn. unfold readable. rewrite Hbad, bool_decide_eq_false_2 by set_solver.
    cbn. unfold record_at in Hc. rewrite Hw, Hc. cbn. unfold mine. injection Hm as -> ->. by rewrite !bool_decide_eq_true_2. }
  rewrite run_steady_bind, IH. done.
Qed.

Lemma verify_again cs :
  settled_payment cs ->
  exists confs w', run_steady o (verify cfg t project user) w = (Ok (summary confs (RMine <$> cs)), w')
    /\ w_files w' = w_files w /\ w_replies w' = w_replies w.
Proof.
  intros [Hx Hl Hr Hs Ht Hn Hb (head & h & n & hash & Hhead & Hh & Hnum & Hdeep & Hblock & Hsame)].
  unfold verify. rewrite Hx. cbn [negb]. rewrite Hl. unfold mbind, io_mbind.
  unfold getReceipt, ask. cbn. rewrite Hr, Hs. cbn. rewrite Hhead. unfold hexToBig. rewrite Hh. cbn. rewrite Hnum. cbn.
  rewrite bool_decide_eq_false_2 by (intros He; rewrite He in Ht; by apply Forall2_nil_inv_l in Ht).
  destruct (Z.ltb_spec (confirmations h n) (MIN_CONF cfg)) as [|_]; [lia|]. cbn. rewrite Hblock, Hsame. cbn.
  rewrite run_steady_bind, (steady_claim_transfers n _ cs) by done. by eexists _, _.
Qed.
End again.

(** ** The heal *)

Lemma show_not_empty n : show n <> ""%string.
Proof. unfold show. destruct n as [|p|p]; [done|by apply show_nonempty|done]. Qed.

Lemma have_row_none txhash d i : have_row txhash d = false -> wpcn_claims d !! (txhash, i) = None.
Proof.
  intros H. apply bool_decide_eq_false_1 in H. apply eq_None_not_Some. intros [c Hc]. apply H, Exists_exists.
  exists ((txhash, i), c). split; [by apply elem_of_map_to_list|done].
Qed.

(** A reply that says every transfer is this user's already. *)
Definition all_yours (v : verify_reply) : Prop :=
  vr_state v = WAlreadyClaimed /\ vr_transfers v <> [] /\ forallb tr_yours (vr_transfers v) = true.

Lemma credited_of_mine cs : credited_of (RMine <$> cs) = [].
Proof. by induction cs. Qed.
Lemma summary_yours confs cs : cs <> [] -> forall who, all_yours (client_verify (Some (Verified who (summary confs (RMine <$> cs))))).
Proof.
  intros Hne who. unfold all_yours, client_verify, summary. cbn. rewrite credited_of_mine. split; [done|].
  split; [by destruct cs|]. clear Hne. by induction cs.
Qed.

Lemma verifyAndCredit_heals chat raw v own now d rows :
  let t := lower_string (trim raw) in
  isTxHash t = true -> all_yours v -> have_row t d = false ->
  creditableRows (default [] own) None = rows -> rows <> [] ->
  exists out, forall v' d', BotWpcn.credit chat t rows out now d = (Ok v', d') ->
    verifyAndCredit true chat raw v own now d
    = (Ok {| wr_state := wr_state v'; wr_credited := wr_credited v'; wr_duplicate := wr_duplicate v';
             wr_yours := wr_yours v'; wr_healed := true |}, d').
Proof.
  intros t Hx (Hs & Hne & Hy) Hh Hr Hrows.
  exists {| wr_state := WAlreadyClaimed; wr_credited := 0; wr_duplicate := true; wr_yours := true; wr_healed := false |}.
  intros v' d' Hc. unfold verifyAndCredit. fold t. rewrite Hx, Hs, Hy, bool_decide_eq_false_2 by done. cbn [negb andb].
  unfold mbind, op_bind, query. rewrite Hh. cbn [negb]. rewrite Hr. destruct rows as [|r rows]; [done|]. by rewrite Hc.
Qed.

(** ** The two requests of a heal *)

Lemma steady_claims cfg o w auth project user :
  projectFor cfg auth = Some project -> user <> ""%string -> a_disk o <> DiskRefuses -> a_bad o = [] ->
  run_steady o (handle cfg (GetClaims auth (Some user))) w
  = (Ok (), say (Claims (project, user) (claims_of (fun _ => true) (w_files w) project user)) w).
Proof.
  intros Hp Hu Hd Hb. cbn [handle]. unfold authorised. rewrite Hp. unfold answer_claims.
  destruct user as [|c u]; [done|]. unfold mbind, io_mbind. rewrite run_steady_bind, run_steady_try, run_steady_bind. cbn.
  assert (claims_of (readable o) (w_files w) project (String c u) = claims_of (fun _ => true) (w_files w) project (String c u)) as ->.
  { unfold claims_of. do 3 f_equal. apply list_omap_ext, Forall_Forall2_diag, Forall_forall. intros x _.
    unfold readable. by rewrite Hb, bool_decide_eq_false_2 by set_solver. }
  by destruct (a_disk o).
Qed.

Lemma steady_verify cfg o w auth project user t v w' :
  projectFor cfg auth = Some project -> user <> ""%string -> t <> ""%string ->
  run_steady o (verify cfg t project user) w = (Ok v, w') ->
  run_steady o (handle cfg (PostVerify auth (Fields (JStr t) (JStr user)))) w = (Ok (), say (Verified (project, user) v) w').
Proof.
  intros Hp Hu Ht Hv. cbn [handle]. unfold authorised. rewrite Hp. unfold answer_verify. cbn [truthy].
  apply String.eqb_neq in Hu as ->. apply String.eqb_neq in Ht as ->. cbn [negb orb js_String].
  unfold mbind, io_mbind. by rewrite run_steady_bind, run_steady_try, run_steady_bind, Hv.
Qed.

(** A bot that has a row of the transaction leaves an answer that it is the user's already alone. *)
Lemma verifyAndCredit_knows chat raw v own now d :
  isTxHash (lower_string (trim raw)) = true -> all_yours v -> have_row (lower_string (trim raw)) d = true ->
  (verifyAndCredit true chat raw v own now d).2 = d.
Proof.
  intros Hx (Hs & Hne & Hy) Hh. unfold verifyAndCredit. rewrite Hx, Hs, Hy, bool_decide_eq_false_2 by done. cbn [negb andb].
  unfold mbind, op_bind, query. by rewrite Hh.
Qed.
