(* ===== verification/WpcnLost.v ===== *)
(** * Transfers no reply credits

    A transfer the verifier has recorded and told nobody of, and a bot that has a
    row of its transaction: what the bot does with every reply about it. *)

From S2P Require Import Prelude JsInt JsNum JsText Bytes BotMoney BotDb BotInv BotBilling BotDeposits BotRewards BotStars BotJobs BotAddress BotPool BotWpcn BotWatch BotHistory Bsc Tasks WpcnPay WpcnLedger WpcnBot.
Local Open Scope Z_scope.

(** ** A transfer no reply credits *)

Definition claim_kept (k : key) (d d' : db) : Prop := wpcn_claims d' !! k = wpcn_claims d !! k.
#[export] Instance claim_kept_preorder k : PreOrder (claim_kept k).
Proof. split; [done|]. intros a b c Hab Hbc. unfold claim_kept in *. congruence. Qed.

Lemma claim_kept_ledger k c x kd idem rate note now : moves (claim_kept k) (insert_ledger c x kd idem rate note now).
Proof. intros d. unfold insert_ledger. destruct c; [|done]. by destruct (key_taken idem d). Qed.
Lemma claim_kept_user k chat guard f : moves (claim_kept k) (update_user chat guard f).
Proof. by apply moves_update_user; [exact _|]. Qed.
Lemma claim_kept_lift {A} k (r : result money_err A) : moves (claim_kept k) (lift_money r).
Proof. unfold lift_money. walk. Qed.
#[export] Hint Resolve claim_kept_ledger claim_kept_user claim_kept_lift : moves.

Lemma claim_kept_wpcn_ledger k t chat micro rows now : moves (claim_kept k) (wpcn_ledger t chat micro rows now).
Proof. revert micro. induction rows as [|[r n] rows IH]; intros micro; cbn; walk. Qed.
#[export] Hint Resolve claim_kept_wpcn_ledger : moves.

Lemma claim_kept_take_rows t i chat rows now :
  Forall (fun r => cw_log r <> i) rows -> moves (claim_kept (t, i)) (take_rows t chat rows now).
Proof.
  induction 1 as [|r rows Hr _ IH]; cbn; [walk|].
  apply moves_bind; [exact _|by apply moves_query; exact _|]. intros []; [exact IH|].
  apply moves_bind; [exact _| |intros u; walk].
  apply moves_exec. intros d. unfold claim_kept. cbn. rewrite lookup_insert_ne; [done|]. congruence.
Qed.

Lemma claim_kept_credit t i chat rows out now :
  Forall (fun r => cw_log r <> i) rows -> moves (claim_kept (t, i)) (BotWpcn.credit chat t rows out now).
Proof. intros Hr. pose proof (claim_kept_take_rows t i chat rows now Hr). unfold BotWpcn.credit. walk. Qed.

(** A reply about the transaction [t], as a client of that transaction gets. *)
Definition about (t : string) (resp : option response) : Prop :=
  match resp with
  | Some (Verified _ v) => forall c, RCredited c ∈ v_transfers v -> c_txhash c = t
  | _ => True
  end.

(** The rows of a reply that the bot credits are those the verifier credited. *)
Lemma credited_rows t i who v :
  about t (Some (Verified who v)) -> (forall c, RCredited c ∈ v_transfers v -> key_of c <> (t, i)) ->
  Forall (fun r => cw_log r <> i) (creditableRows (row_wire <$> v_transfers v) (Some WCredited)).
Proof.
  intros Ha Hk. apply Forall_forall. intros r Hr. unfold creditableRows in Hr.
  apply list_elem_of_omap in Hr as (x & (y & -> & Hy)%list_elem_of_fmap & Hx).
  destruct y as [c|c|k']; cbn [row_wire tr_state] in Hx; [|done..]. rewrite bool_decide_eq_true_2 in Hx by done.
  cbn [negb] in Hx. unfold creditable_row in Hx. cbn in Hx.
  destruct (js_field (c_usd_credited c)); [|done]. cbn in Hx. destruct (js_field (c_credited_rate_usd c)); [|done]. cbn in Hx.
  repeat (case_match; try done). injection Hx as <-. cbn. intros <-. apply (Hk c Hy). unfold key_of. by rewrite (Ha c Hy).
Qed.

(** A bot that has a row of the transaction does not claim that transfer. *)
Lemma pay_keeps_claim chat raw resp listed now d i :
  let t := lower_string (trim raw) in
  about t resp -> have_row t d = true ->
  match resp with Some (Verified _ v) => forall c, RCredited c ∈ v_transfers v -> key_of c <> (t, i) | _ => True end ->
  claim_kept (t, i) d (pay chat raw resp listed now d).2.
Proof.
  intros t Ha Hh Hk. unfold pay, verifyAndCredit. fold t. destruct (isTxHash t); [cbn [negb]|done].
  destruct resp as [[]|]; cbn [client_verify no_answer vr_state vr_is_credit vr_transfers]; try done.
  destruct (v_state r) eqn:Hs; cbn [wire_state]; try done.
  - destruct (isCredit r); [|done]. pose proof (credited_rows t i who r Ha Hk) as Hrows.
    destruct (creditableRows _ _) as [|x l]; [done|]. by apply claim_kept_credit.
  - unfold mbind, op_bind, query. rewrite Hh. cbn [negb]. by rewrite andb_false_r.
Qed.

Lemma have_row_grows t d d' : grows d d' -> have_row t d = true -> have_row t d' = true.
Proof.
  intros Hg H. apply bool_decide_eq_true_1, Exists_exists in H as ([k c] & Hin & Hk). cbn in Hk.
  apply elem_of_map_to_list in Hin. destruct (gr_claims _ _ Hg k) as [c' Hc']; [by exists c|].
  apply bool_decide_eq_true_2, Exists_exists. exists (k, c'). split; [by apply elem_of_map_to_list|done].
Qed.
