(* ===== verification/WpcnTheorems.v ===== *)
(** * What the wPCN rail guarantees

    The verifier over every run (a transfer is credited once, and only on the
    word of the chain and of a fresh price), the verifier and the bot together (a
    lost reply heals), and two ways a payment is lost. *)

From Stdlib Require Import SpecFloat.
From S2P Require Import Prelude JsInt JsNum JsText Bytes BotMoney BotDb BotInv BotBilling BotDeposits BotWpcn BotHistory BotRun BotTheorems Bsc Tasks WpcnPay WpcnLedger WpcnBot WpcnLost.
Local Open Scope Z_scope.

(** ** An example: fifty wPCN at a cent, twice in one transaction *)

Definition ex_token : string := "0x00000000000000000000000000000000000000aa".
Definition ex_pay_to : string := "0x00000000000000000000000000000000000000bb".
Definition ex_topic_to : string := "0x00000000000000000000000000000000000000000000000000000000000000bb".
Definition ex_topic_from : string := "0x00000000000000000000000000000000000000000000000000000000000000cc".
Definition ex_hash : string := "0x00000000000000000000000000000000000000000000000000000000000000cd".
Definition ex_config : config := {|
  TOKEN := ex_token; PAY_TO := ex_pay_to; DECIMALS := 8; MIN_CONF := 15; BONUS_PCT := S754_zero false;
  RPCS := ["https://bsc"%string]; CLIENTS := {[ "secret"%string := "pcnaibot"%string ]} |}.
Definition ex_log (index : string) : log := {|
  l_address := JStr ex_token; l_topics := Some [JStr TRANSFER_TOPIC; JStr ex_topic_from; JStr ex_topic_to];
  l_data := JStr "0x12a05f200"; l_logIndex := JStr index |}.
Definition ex_receipt (logs : list log) : receipt := {|
  r_status := JStr "0x1"; r_blockNumber := JStr "0x64"; r_blockHash := JStr "0xfeed"; r_logs := logs |}.
Definition ex_price : price_body := Body (JStr "0.01") JMissing (JBool false) None.
(** A chain sixteen blocks further, a fresh price, a disk that works. *)
Definition ex_outside (logs : list log) (price : option price_body) (d : disk) : outside := {|
  a_receipts := [RpcResult (Some (ex_receipt logs))]; a_heads := [RpcResult (JStr "0x74")];
  a_blocks := [RpcResult (Some (JStr "0xfeed"))]; a_price := price; a_disk := d; a_bad := []; a_now := 1000 |}.
Definition ex_request : request := PostVerify "Bearer secret" (Fields (JStr ex_hash) (JStr "7")).

Definition one_log := [ex_log "0x3"].
Definition two_logs := [ex_log "0x3"; ex_log "0x4"].
(** A request from its first await to its end. *)
Definition run_request (tid : nat) (q : request) (answers : list outside) : list service_event :=
  Start tid 0 q :: map (Resume tid) answers.
Definition ex_ok (logs : list log) := ex_outside logs (Some ex_price) DiskOk.
Definition ex_credit : list service_event := run_request 1 ex_request (replicate 8 (ex_ok one_log)).
Definition ex_claim (index : Z) : claim := new_claim ex_config ex_hash "pcnaibot" "7" (ex_receipt []) 100 index 5000000000
  (ex_log "") (num_ratio 1 100) 1000.

(** ** The verifier *)

(** C16: A transfer is credited by at most one row of all replies ever sent, to
    whatever projects and users, over any interleaving of requests, crashes and
    failing disks; a row that names a record as credited, or a claim listed,
    names the record of the asker's own project and user that is in the
    directory for good; and no file is ever changed. *)
Theorem transfer_credited_once cfg es es' :
  let w := ledger_after cfg opened es in
  let w' := ledger_after cfg opened (es ++ es') in
  (forall k, wins k (told w) <= 1)
  /\ (forall who c, (who, RCredited c) ∈ told w \/ (who, RMine c) ∈ told w ->
        record_at w' (key_of c) = Some c /\ who = (c_project c, c_user_ref c))
  /\ (forall k x, w_files w !! k = Some x -> w_files w' !! k = Some x).
Proof.
  intros w w'. destruct (ledger_always cfg es) as (gs & Hi).
  destruct (ledger_inv_ok cfg _ _ gs Hi) as [_ Htold Honce]. pose proof (files_grow cfg opened es es') as Hk.
  split_and!.
  - intros k. specialize (Honce k). unfold recorded, nothing_lost in Honce. unfold w. case_match; lia.
  - intros who c Hx. assert (row_true w (who, RMine c)) as [Hr Hwho].
    { by destruct Hx as [Hx|Hx]; apply (proj1 (Forall_forall _ _) Htold) in Hx. }
    split; [by eapply record_kept|done].
  - intros k x Hx. by eapply lookup_weaken.
Qed.

Lemma transfer_credited_once_witness :
  let w := ledger_after ex_config opened ex_credit in
  told w = [(("pcnaibot", "7")%string, RCredited (ex_claim 3))]
  /\ wins (ex_hash, 3) (told w) <= 1
  /\ record_at (ledger_after ex_config opened (ex_credit ++ ex_credit)) (ex_hash, 3) = Some (ex_claim 3).
Proof.
  destruct (transfer_credited_once ex_config ex_credit ex_credit) as (H1 & H2 & _).
  split; [by vm_compute|]. split; [apply H1|]. by vm_compute.
Defined.

(** A price body gives a rate only when it is a positive, finite one that both its
    flags say is fresh. *)
Lemma creditRateFromBody_exact j r :
  creditRateFromBody j = Ok r <->
  exists creditRateUsd serviceRate ladder, j = Body creditRateUsd serviceRate (JBool false) ladder
    /\ r = rate_number (if nullish creditRateUsd then serviceRate else creditRateUsd)
    /\ is_finite r = true /\ num_leb r (S754_zero false) = false
    /\ (ladder = None \/ ladder = Some (LadderObject (JBool false))).
Proof.
  assert (forall v, is_false v = true <-> v = JBool false) as Hf.
  { intros []; cbn; try done. destruct b; split; congruence. }
  assert (forall l, ladder_fresh l = true <-> l = None \/ l = Some (LadderObject (JBool false))) as Hl.
  { intros [[|s]|]; cbn; [naive_solver| |naive_solver]. rewrite Hf. naive_solver. }
  destruct j as [|c s st l]; cbn; [naive_solver|]. set (x := rate_number _).
  split.
  - destruct (is_finite x) eqn:H1; [|done]. destruct (num_leb x _) eqn:H2; [done|]. cbn.
    destruct (is_false st) eqn:H3; [|done]. destruct (ladder_fresh l) eqn:H4; [|done]. intros [= <-].
    apply Hf in H3 as ->. apply Hl in H4. by exists c, s, l.
  - intros (c' & s' & l' & [= <- <- -> <-] & -> & H1 & H2 & H4). fold x in H1, H2. rewrite H1, H2. apply Hl in H4. by rewrite H4.
Qed.

(** C17: Whatever ran, a record of the directory is vouched for by answers that were
    heard: a receipt with status 0x1 under its hash, a transfer of the token to the
    payment address in it at its index, a head that puts the receipt's block deep
    enough, a canonical block of that number with the receipt's hash, and a price
    body whose finite, positive, unstale rate is the one stamped; its amount and
    its worth are those of that transfer at that rate. *)
Theorem claims_are_vouched cfg es k c :
  let w := ledger_after cfg opened es in
  record_at w k = Some c ->
  key_of c = k
  /\ is_finite (c_credited_rate_usd c) = true /\ num_leb (c_credited_rate_usd c) (S754_zero false) = false
  /\ c_wpcn c = wpcn_of cfg (c_wpcn_raw c)
  /\ c_usd_credited c = usd_of cfg (c_wpcn c) (c_credited_rate_usd c)
  /\ exists r l head h n hash creditRateUsd serviceRate ladder,
       FReceipt k.1 r ∈ w_heard w /\ succeeded r = true /\ l ∈ r_logs r /\ pays_us cfg l = true
       /\ (exists i, js_BigInt (l_logIndex l) = Some i /\ k.2 = round53 i)
       /\ js_BigInt (l_data l) = Some (c_wpcn_raw c)
       /\ FHead head ∈ w_heard w /\ js_BigInt head = Some h /\ js_BigInt (r_blockNumber r) = Some n
       /\ MIN_CONF cfg <= confirmations h n
       /\ FBlock (round53 n) hash ∈ w_heard w /\ same_hash hash (r_blockHash r) = true
       /\ FPrice (Body creditRateUsd serviceRate (JBool false) ladder) ∈ w_heard w
       /\ (ladder = None \/ ladder = Some (LadderObject (JBool false)))
       /\ c_credited_rate_usd c = rate_number (if nullish creditRateUsd then serviceRate else creditRateUsd).
Proof.
  intros w Hc. destruct (ledger_always cfg es) as (gs & Hi).
  destruct (ok_vouched cfg _ _ (ledger_inv_ok cfg _ _ gs Hi) k c Hc)
    as [Hk (r & head & hash & b & l & h & n & i & raw & rate & Hr & Hs & Hl & Hp & Hix & Hd & Hh & Hh' & Hn & Hm & Hb & Hsame & Hpr & Hrate & Heq)].
  apply creditRateFromBody_exact in Hrate as (cr & sr & ladder & -> & Hrate & Hfin & Hpos & Hlad).
  assert (c_log_index c = round53 i) as E1 by (by rewrite Heq). assert (c_wpcn_raw c = raw) as E2 by (by rewrite Heq).
  assert (c_wpcn c = wpcn_of cfg raw) as E3 by (by rewrite Heq). assert (c_credited_rate_usd c = rate) as E4 by (by rewrite Heq).
  assert (c_usd_credited c = usd_of cfg (wpcn_of cfg raw) rate) as E5 by (by rewrite Heq).
  split; [done|]. subst k. rewrite E5, E3, E4, E2. split_and!; try done.
  exists r, l, head, h, n, hash, cr, sr, ladder. split_and!; try done. by exists i.
Qed.

Lemma claims_are_vouched_witness :
  exists c, record_at (ledger_after ex_config opened ex_credit) (ex_hash, 3) = Some c
    /\ c_wpcn_raw c = 5000000000 /\ num_text (c_usd_credited c) = "0.5"%string
    /\ is_finite (c_credited_rate_usd c) = true.
Proof.
  exists (ex_claim 3). assert (record_at (ledger_after ex_config opened ex_credit) (ex_hash, 3) = Some (ex_claim 3)) as H by by vm_compute.
  split; [exact H|]. split; [by vm_compute|]. split; [by vm_compute|].
  by destruct (claims_are_vouched ex_config ex_credit _ _ H) as (_ & Hf & _).
Defined.

(** C37: A claim file whose record was not written (a full disk, a crash between the
    creation and the write) is never repaired: in every later run it stays as it
    is, and no reply ever sent credits its transfer or calls it the payer's; all
    answer that somebody else has claimed it. *)
Theorem torn_claim_is_lost cfg es k :
  w_files (ledger_after cfg opened es) !! k = Some None ->
  forall es', let w' := ledger_after cfg opened (es ++ es') in
    w_files w' !! k = Some None
    /\ forall who x, (who, x) ∈ told w' ->
         match x with RCredited c | RMine c => key_of c <> k | RForeign _ => True end.
Proof.
  intros Ht es' w'. assert (w_files w' !! k = Some None) as Hw by (by eapply lookup_weaken, files_grow).
  split; [done|]. intros who x Hx. destruct (ledger_always cfg (es ++ es')) as (gs & Hi).
  pose proof (ok_told cfg _ _ (ledger_inv_ok cfg _ _ gs Hi)) as Htold. apply (proj1 (Forall_forall _ _) Htold) in Hx.
  assert (record_at w' k = None) as Hnone by (unfold record_at; by rewrite Hw).
  destruct x as [c|c|]; [..|done]; destruct Hx as [Hr _]; intros <-; fold w' in Hr; congruence.
Qed.

(** The disk is full after the file was created; the payer asks again. *)
Definition ex_torn : list service_event :=
  run_request 1 ex_request (replicate 8 (ex_outside one_log (Some ex_price) DiskTears)).
Lemma torn_claim_is_lost_witness :
  let w := ledger_after ex_config opened ex_torn in
  let w' := ledger_after ex_config opened (ex_torn ++ run_request 2 ex_request (replicate 9 (ex_ok one_log))) in
  w_replies w = [Unreadable DiskFailed]
  /\ w_files w' !! (ex_hash, 3) = Some None
  /\ told w' = [(("pcnaibot", "7")%string, RForeign (ex_hash, 3))].
Proof.
  split; [by vm_compute|]. split; [|by vm_compute].
  apply (torn_claim_is_lost ex_config ex_torn (ex_hash, 3)). by vm_compute.
Defined.

(** ** The verifier and the bot *)

(** C36: A lost reply heals. The verifier has recorded every transfer of a payment
    for a chat and the bot knows nothing of it: asked again, the verifier answers
    that all of them are this user's, asked for the user's claims it lists their
    newest fifty, and from the two answers the bot credits the listed claims of
    that transaction, in the very movement that credits a first reply. *)
Theorem lost_reply_heals cfg w o o2 auth project chat raw r cs d u now :
  let t := lower_string (trim raw) in
  let user := show chat in
  let listed := claims_of (fun _ => true) (w_files w) project user in
  let rows := creditableRows (claimWireShape <$> filter (fun c => lower_string (c_txhash c) = t) listed) None in
  isTxHash t = true -> projectFor cfg auth = Some project ->
  settled_payment cfg w o t project user r cs ->
  a_disk o2 <> DiskRefuses -> a_bad o2 = [] ->
  have_row t d = false -> users d !! chat = Some u -> 0 <= wpcn_remainder_nano_usd u ->
  rows <> [] -> Forall reads rows ->
  exists w1 w2 answer claims,
    run_steady o (handle cfg (PostVerify auth (Fields (JStr t) (JStr user)))) w = (Ok (), w1)
    /\ w_replies w1 = w_replies w ++ [answer] /\ w_files w1 = w_files w
    /\ run_steady o2 (handle cfg (GetClaims auth (Some user))) w1 = (Ok (), w2)
    /\ w_replies w2 = w_replies w1 ++ [claims]
    /\ exists v d', pay chat raw (Some answer) (Some claims) now d = (Ok v, d')
         /\ wr_state v = WCredited /\ wr_healed v = true /\ wr_duplicate v = false
         /\ exists out v', credit chat t rows out now d = (Ok v', d') /\ wr_credited v' = wr_credited v.
Proof.
  intros t user listed rows Hx Hproject Hset Hdisk Hbad Hhave Hu Hcarry Hne Hreads.
  destruct (verify_again cfg w o t project user r cs Hset) as (confs & wv & Hv & Hfiles & Hreplies).
  assert (t <> ""%string) as Ht by (intros Ht; rewrite Ht in Hx; done).
  set (answer := Verified (project, user) (summary confs (RMine <$> cs))).
  set (claims := Claims (project, user) listed).
  exists (say answer wv), (say claims (say answer wv)), answer, claims.
  split; [by apply steady_verify; [|apply show_not_empty|..]|]. split; [cbn; by rewrite Hreplies|]. split; [done|].
  split; [rewrite (steady_claims cfg o2 _ auth project user) by (done || apply show_not_empty); cbn [w_files say]; by rewrite Hfiles|].
  split; [done|].
  destruct (verifyAndCredit_heals chat raw (client_verify (Some answer)) (ownClaimRows t (Some claims)) now d rows)
    as (out & Hheal); [done|by apply summary_yours, (sp_some _ _ _ _ _ _ _ _ Hset)|done..|].
  destruct rows as [|r0 rows0] eqn:Hr0; [done|].
  destruct (credit_succeeds t chat now r0 rows0 out d u) as (v' & d' & Hc & Hdup & Hst); [done|by apply have_row_none|done..|].
  eexists _, d'. split; [by apply Hheal|]. cbn. split_and!; [done..|]. by exists out, v'.
Qed.

(** The reply to the example's request was lost; the account has five dollars. *)
Definition ex_recorded : world := ledger_after ex_config opened ex_credit.
Lemma ex_recorded_file : record_at ex_recorded (ex_hash, 3) = Some (ex_claim 3).
Proof. by vm_compute. Qed.
Lemma ex_settled : settled_payment ex_config ex_recorded (ex_ok one_log) ex_hash "pcnaibot" "7" (ex_receipt one_log) [ex_claim 3].
Proof.
  split.
  - by vm_compute.
  - by vm_compute.
  - done.
  - done.
  - assert (filter (fun l => pays_us ex_config l = true) (r_logs (ex_receipt one_log)) = one_log) as -> by by vm_compute.
    constructor; [|constructor]. exists 3. split; [by vm_compute|]. split; [exact ex_recorded_file|done].
  - done.
  - done.
  - exists (JStr "0x74"), 116, 100, (JStr "0xfeed"). split_and!; by vm_compute.
Qed.

Lemma lost_reply_heals_witness :
  exists w1 answer claims v d',
    run_steady (ex_ok one_log) (handle ex_config (PostVerify "Bearer secret" (Fields (JStr ex_hash) (JStr "7")))) ex_recorded = (Ok (), w1)
    /\ w_replies w1 = w_replies ex_recorded ++ [answer]
    /\ pay 7 ex_hash (Some answer) (Some claims) 1005 example_funded = (Ok v, d')
    /\ wr_healed v = true /\ wr_duplicate v = false
    /\ have_row ex_hash example_funded = false.
Proof.
  destruct (users example_funded !! 7) as [u|] eqn:Hu; [|by vm_compute in Hu].
  assert (0 <= wpcn_remainder_nano_usd u) as Hcarry by (vm_compute in Hu; injection Hu as <-; by vm_compute).
  destruct (lost_reply_heals ex_config ex_recorded (ex_ok one_log) (ex_ok one_log) "Bearer secret" "pcnaibot" 7 ex_hash
              (ex_receipt one_log) [ex_claim 3] example_funded u 1005)
    as (w1 & w2 & answer & claims & H1 & H2 & _ & _ & _ & v & d' & Hp & _ & Hh & Hd & _).
  - by vm_compute.
  - by vm_compute.
  - exact ex_settled.
  - done.
  - done.
  - by vm_compute.
  - exact Hu.
  - exact Hcarry.
  - by vm_compute.
  - vm_compute. repeat constructor. by eexists.
  - exists w1, answer, claims, v, d'. split_and!; try done.
Defined.

(** C38: A transfer the verifier has recorded and told nobody of is lost to a bot
    that has a row of its transaction. So it is with the first of two transfers
    when the rate of the second cannot be read: the reply is that the verifier
    could not look, and the bot's first row is the second transfer's. Once no
    request is running, in every later run of the verifier the record stays as it
    is and whatever reply about the transaction the bot is given, with whatever
    list of claims, at any time, in any database with a row of it, the bot's claim
    of that transfer is what it was - none, if it had none - and the row is still
    there. *)
Theorem untold_record_is_lost cfg es k c :
  m_tasks (service cfg opened es) = ∅ -> record_at (ledger_after cfg opened es) k = Some c ->
  wins k (told (ledger_after cfg opened es)) = 0 ->
  forall es' resp listed chat raw now d,
  let w' := ledger_after cfg opened (es ++ es') in
  let d' := (pay chat raw resp listed now d).2 in
  (forall r, resp = Some r -> r ∈ w_replies w') -> lower_string (trim raw) = k.1 -> about k.1 resp ->
  have_row k.1 d = true ->
  record_at w' k = Some c /\ wpcn_claims d' !! k = wpcn_claims d !! k /\ have_row k.1 d' = true.
Proof.
  intros Hidle Hr Hw es' resp listed chat raw now d w' d' Hresp Ht Ha Hh. destruct k as [t i]. cbn [fst] in *. subst t.
  pose proof (untold_stays cfg es es' _ c Hidle Hr Hw) as Hw'. fold w' in Hw'.
  split; [by eapply record_kept; [apply files_grow|]|]. split.
  - apply (pay_keeps_claim chat raw resp listed now d i Ha Hh). destruct resp as [[]|]; try done.
    intros c' Hc'. apply (wins_none _ who c' (told w') Hw').
    apply list_elem_of_In, in_concat. exists (rows_told (Verified who r)). split.
    + apply list_elem_of_In, list_elem_of_fmap. exists (Verified who r). split; [done|by apply Hresp].
    + apply list_elem_of_In. cbn. apply list_elem_of_fmap. by exists (RCredited c').
  - eapply have_row_grows; [|exact Hh]. apply moves_verifyAndCredit.
Qed.

(** The price feed goes down between the two transfers of one payment; the payer's
    bot asks again, and again. *)
Definition ex_failed : list service_event :=
  run_request 1 ex_request (replicate 7 (ex_ok two_logs) ++ replicate 3 (ex_outside two_logs None DiskOk)).
Definition ex_asked_again : list service_event :=
  run_request 2 ex_request (replicate 9 (ex_ok two_logs))
  ++ run_request 3 ex_request (replicate 8 (ex_ok two_logs))
  ++ run_request 4 (GetClaims "Bearer secret" (Some "7"%string)) (replicate 3 (ex_ok two_logs)).
Definition ex_after : world := ledger_after ex_config opened (ex_failed ++ ex_asked_again).
Definition ex_reply (n : nat) : option response := w_replies ex_after !! n.
(** The bot's database after its first two attempts: it holds fifty cents of the
    payer's dollar. *)
Definition ex_paid : db :=
  (pay 7 ex_hash (ex_reply 1) (ex_reply 3) 1005 (pay 7 ex_hash (ex_reply 0) (ex_reply 3) 1000 example_funded).2).2.

Lemma ex_replies_sent n r : ex_reply n = Some r -> r ∈ w_replies (ledger_after ex_config opened (ex_failed ++ ex_asked_again)).
Proof. unfold ex_reply, ex_after. intros H. by apply list_elem_of_lookup_2 in H. Qed.
Lemma ex_replies_about : about ex_hash (ex_reply 2).
Proof.
  assert (ex_reply 2 = Some (Verified ("pcnaibot", "7")%string (summary 17 [RMine (ex_claim 3); RMine (ex_claim 4)]))) as -> by by vm_compute.
  cbn. intros c Hc. inversion Hc as [|? ? ? Hc']; subst. inversion Hc' as [|? ? ? Hc'']; subst. inversion Hc''.
Qed.

(** From then on the verifier says both are the payer's and lists both, and the
    bot never claims the first. *)
Lemma untold_record_is_lost_witness :
  ex_reply 0 = Some (Unreadable PriceUnreadable)
  /\ ex_reply 1 = Some (Verified ("pcnaibot", "7")%string (summary 17 [RMine (ex_claim 3); RCredited (ex_claim 4)]))
  /\ ex_reply 3 = Some (Claims ("pcnaibot", "7")%string [ex_claim 3; ex_claim 4])
  /\ bal ex_paid 7 = bal example_funded 7 + 500000
  /\ record_at ex_after (ex_hash, 3) = Some (ex_claim 3)
  /\ wpcn_claims (pay 7 ex_hash (ex_reply 2) (ex_reply 3) 1010 ex_paid).2 !! (ex_hash, 3) = None.
Proof.
  split; [by vm_compute|]. split; [by vm_compute|]. split; [by vm_compute|]. split; [by vm_compute|].
  assert (wpcn_claims ex_paid !! (ex_hash, 3) = None) as Hnone by (by vm_compute).
  assert (m_tasks (service ex_config opened ex_failed) = ∅) as Hidle by (vm_compute; reflexivity).
  assert (record_at (ledger_after ex_config opened ex_failed) (ex_hash, 3) = Some (ex_claim 3)) as Hr by (vm_compute; reflexivity).
  assert (wins (ex_hash, 3) (told (ledger_after ex_config opened ex_failed)) = 0) as Hw by (vm_compute; reflexivity).
  pose proof (untold_record_is_lost ex_config ex_failed (ex_hash, 3) (ex_claim 3) Hidle Hr Hw
    ex_asked_again (ex_reply 2) (ex_reply 3) 7 ex_hash 1010 ex_paid) as H. cbv zeta in H. destruct H as (H1 & H2 & _).
  - exact (ex_replies_sent 2).
  - by vm_compute.
  - exact ex_replies_about.
  - by vm_compute.
  - split; [exact H1|]. rewrite H2. exact Hnone.
Defined.
