(* ===== verification/MarketPrice.v ===== *)
(** * Prices and walks over the rungs (contrib/market/ladder.mjs, the pure half)

    What one PCN costs (the index with its premium and floor, the constant-product
    curve, the capped rungs) and which rungs an order takes. Money is in doubles,
    as the code has it. Quantities are whole units of 1e-8 PCN, exact integers:
    what the database gives is below 2^53, and a wish that is not a number of
    units (an infinite one) is [Unbounded]. *)

From S2P Require Import Prelude JsInt JsNum.
From Stdlib Require Import SpecFloat.
Local Open Scope Z_scope.

(** ** Numbers *)

Definition infinity : js_num := S754_infinity false.
Definition zero : js_num := S754_zero false.
Definition num (z : Z) : js_num := num_of_Z z.

Definition positive (x : js_num) : bool := num_ltb zero x.

(** [Math.floor] *)
Definition js_floor (x : js_num) : js_num :=
  match x with
  | S754_finite s m e =>
      if 0 <=? e then x
      else let r := signed s m / 2 ^ (- e) in if r =? 0 then zero else num_of_Z r
  | _ => x
  end.

(** [x.toFixed(k)] as an integer of 10^-k: the nearest, halves away from zero. *)
Definition to_fixed (k : Z) (x : js_num) : Z :=
  match x with
  | S754_finite s m e =>
      let n := if 0 <=? e then Z.pos m * 2 ^ e * 10 ^ k
               else (2 * (Z.pos m * 10 ^ k) + 2 ^ (- e)) / (2 * 2 ^ (- e)) in
      if s then - n else n
  | _ => 0
  end.

Definition UNITS : js_num := num (10 ^ 8).

Inductive wish := Exactly (z : Z) | Unbounded.
Definition wish_of (x : js_num) : wish := match Z_of_num x with Some z => Exactly z | None => Unbounded end.

Definition toUnits (pcn : js_num) : wish := wish_of (js_round (num_mul pcn UNITS)).
Definition fromUnits (u : Z) : js_num := num_div (num u) UNITS.
Definition wish_pcn (w : wish) : js_num := match w with Exactly z => fromUnits z | Unbounded => infinity end.
Definition wish_num (w : wish) : js_num := match w with Exactly z => num z | Unbounded => infinity end.

(** ** Rungs and walks *)

(** A rung: its DECIMAL(18,10) price and its DECIMAL(24,8) quantities. *)
Record rung := { g_price : Z; g_total : Z; g_sold : Z; g_reserved : Z; g_retired : Z }.
Definition availUnits (r : rung) : Z := g_total r - g_sold r - g_reserved r - g_retired r.
Definition rung_price (r : rung) : js_num := num_ratio (g_price r) (10 ^ 10).

Record fill := { f_rungNo : Z; f_units : Z; f_price : js_num }.

Record walk := {
  k_pcn : js_num; k_cost : js_num; k_fills : list fill; k_avgPrice : js_num;
  k_marginalAfter : option js_num; k_usdUnfilled : js_num; k_pcnUnfilled : js_num; k_exhausted : bool }.
Definition rungsConsumed (w : walk) : nat := length (k_fills w).
Definition got (fills : list fill) : Z := zsum_by f_units fills.

(** What an order names: money, or coins. *)
Inductive want := Usd (x : js_num) | Pcn (x : js_num).

(** Cheapest rung first: the loop [ammWalk] and [flatWalk] share. *)
Fixpoint allocate (rungs : list (Z * rung)) (togo : wish) (price : js_num) : list fill * wish :=
  match rungs with
  | [] => ([], togo)
  | (no, r) :: rungs' =>
      if match togo with Exactly z => z <=? 0 | Unbounded => false end then ([], togo) else
      let avail := availUnits r in
      if avail <=? 0 then allocate rungs' togo price else
      let take := match togo with Exactly z => Z.min avail z | Unbounded => avail end in
      let togo' := match togo with Exactly z => Exactly (z - take) | Unbounded => Unbounded end in
      let '(fills, rest) := allocate rungs' togo' price in
      ({| f_rungNo := no; f_units := take; f_price := price |} :: fills, rest)
  end.

Definition unfilled (w : wish) : bool := match w with Exactly z => 0 <? z | Unbounded => true end.
Definition remUnits (rungs : list (Z * rung)) : Z := zsum_by (fun x => Z.max 0 (availUnits x.2)) rungs.

Definition flatWalk (rungs : list (Z * rung)) (w : want) (unitPrice : js_num) : option walk :=
  if negb (is_finite unitPrice && positive unitPrice) then None else
  let amount := match w with Usd x | Pcn x => x end in
  if negb (is_finite amount && positive amount) then None else
  let wantUnits := match w with
    | Usd usd => wish_of (js_floor (num_mul (num_div usd unitPrice) UNITS))
    | Pcn pcn => toUnits pcn
    end in
  let '(fills, togo) := allocate rungs wantUnits unitPrice in
  let gotUnits := got fills in
  let filledPcn := fromUnits gotUnits in
  let full := negb (unfilled togo) && (0 <? gotUnits) in
  let cost := match w with Usd usd => if full then usd else num_mul filledPcn unitPrice
                         | Pcn _ => num_mul filledPcn unitPrice end in
  let exhausted := remUnits rungs - gotUnits <=? 0 in
  Some {| k_pcn := filledPcn; k_cost := cost; k_fills := fills;
          k_avgPrice := if gotUnits =? 0 then zero else unitPrice;
          k_marginalAfter := if exhausted then None else Some unitPrice;
          k_usdUnfilled := match w with
            | Usd usd => if unfilled togo || (gotUnits =? 0) then num_sub usd cost else zero
            | Pcn _ => zero end;
          k_pcnUnfilled := match w with Pcn _ => if unfilled togo then wish_pcn togo else zero | Usd _ => zero end;
          k_exhausted := exhausted |}.

(** The curve, its floor, and the price after. *)
Definition floored (floor x : js_num) : js_num :=
  if is_finite floor && positive floor then js_max x floor else x.
Definition priceable (pcn cost : js_num) : bool :=
  positive pcn && is_finite pcn && positive cost && is_finite cost.
Definition amm_price (k X Y : js_num) (w : want) : option (js_num * js_num) :=
  match w with
  | Usd usd => Some (num_sub X (num_div k (num_add Y usd)), usd)
  | Pcn pcn => if positive pcn && num_ltb pcn X then Some (pcn, num_sub (num_div k (num_sub X pcn)) Y) else None
  end.
Definition amm_floor (floor : js_num) (w : want) (pcn cost : js_num) : js_num * js_num :=
  if is_finite floor && positive floor then
    match w with
    | Usd usd => let maxPcn := num_div usd floor in ((if num_ltb maxPcn pcn then maxPcn else pcn), cost)
    | Pcn _ => let minCost := num_mul pcn floor in (pcn, if num_ltb cost minCost then minCost else cost)
    end
  else (pcn, cost).

(** [wantUnits || 1] *)
Definition or_one (w : wish) : js_num := match w with Exactly 0 => num 1 | w => wish_num w end.

Definition ammWalk (rungs : list (Z * rung)) (w : want) (k virt floor : js_num) : option walk :=
  let rem := fromUnits (remUnits rungs) in
  if negb (positive rem && positive k) then None else
  let X := num_add rem virt in
  let Y := num_div k X in
  match amm_price k X Y w with
  | None => None
  | Some (pcn, cost) =>
      if negb (priceable pcn cost) then None else
      let '(pcn, cost) := amm_floor floor w pcn cost in
      if negb (priceable pcn cost) then None else
      let wantUnits := toUnits pcn in
      let unitPrice := num_div cost (num_div (or_one wantUnits) UNITS) in
      let '(fills, togo) := allocate rungs wantUnits unitPrice in
      let gotUnits := got fills in
      let filledPcn := fromUnits gotUnits in
      let paid := if unfilled togo then num_mul cost (num_div (num gotUnits) (or_one wantUnits)) else cost in
      let X1 := num_sub X filledPcn in
      Some {| k_pcn := filledPcn; k_cost := paid; k_fills := fills;
              k_avgPrice := if gotUnits =? 0 then zero else num_div paid filledPcn;
              k_marginalAfter := if positive X1 then Some (floored floor (num_div (num_div k X1) X1)) else None;
              k_usdUnfilled := match w with Usd usd => if unfilled togo then num_sub usd paid else zero | Pcn _ => zero end;
              k_pcnUnfilled := match w with Pcn _ => if unfilled togo then wish_pcn togo else zero | Usd _ => zero end;
              k_exhausted := num_leb X1 zero |}
  end.

(** ** The capped rungs *)

Definition taken_of (fills : list fill) (no : Z) : Z :=
  zsum_by (fun f => if f_rungNo f =? no then f_units f else 0) fills.

Definition finish_walk (rungs : list (Z * rung)) (fills : list fill) (cost usdLeft pcnShort askCap : js_num) : walk :=
  let marginal := list_find (fun x : Z * rung => 0 < availUnits x.2 - taken_of fills x.1) rungs in
  let after := (fun x : nat * (Z * rung) => js_min (rung_price x.2.2) askCap) <$> marginal in
  let pcn := fromUnits (got fills) in
  {| k_pcn := pcn; k_cost := cost; k_fills := fills;
     k_avgPrice := if got fills =? 0 then zero else num_div cost pcn;
     k_marginalAfter := after; k_usdUnfilled := usdLeft; k_pcnUnfilled := pcnShort;
     k_exhausted := bool_decide (after = None) |}.

(** [None] stands for a quantity that is not a number, which no positive price gives. *)
Fixpoint spend_rungs (rungs : list (Z * rung)) (togo cost askCap : js_num) : option (list fill * js_num * js_num) :=
  match rungs with
  | [] => Some ([], cost, togo)
  | (no, r) :: rungs' =>
      let price := js_min (rung_price r) askCap in
      let avail := availUnits r in
      if avail <=? 0 then spend_rungs rungs' togo cost askCap else
      let wanted := js_floor (num_mul (num_div togo price) UNITS) in
      if is_nan wanted then None else
      let take := match wanted with S754_infinity true => -1 | _ =>
                    match wish_of wanted with Exactly z => Z.min avail z | Unbounded => avail end end in
      if take <=? 0 then Some ([], cost, togo) else
      let c := num_mul (fromUnits take) price in
      '(fills, cost', togo') ← spend_rungs rungs' (num_sub togo c) (num_add cost c) askCap;
      Some ({| f_rungNo := no; f_units := take; f_price := price |} :: fills, cost', togo')
  end.
Definition walkUsd (rungs : list (Z * rung)) (usd askCap : js_num) : option walk :=
  '(fills, cost, togo) ← spend_rungs rungs usd zero askCap;
  Some (finish_walk rungs fills cost togo zero askCap).

Fixpoint take_rungs (rungs : list (Z * rung)) (need : wish) (cost askCap : js_num) : list fill * js_num * wish :=
  match rungs with
  | [] => ([], cost, need)
  | (no, r) :: rungs' =>
      if negb (unfilled need) then ([], cost, need) else
      let price := js_min (rung_price r) askCap in
      let avail := availUnits r in
      if avail <=? 0 then take_rungs rungs' need cost askCap else
      let take := match need with Exactly z => Z.min avail z | Unbounded => avail end in
      let need' := match need with Exactly z => Exactly (z - take) | Unbounded => Unbounded end in
      let c := num_mul (fromUnits take) price in
      let '(fills, cost', rest) := take_rungs rungs' need' (num_add cost c) askCap in
      ({| f_rungNo := no; f_units := take; f_price := price |} :: fills, cost', rest)
  end.
Definition walkPcn (rungs : list (Z * rung)) (pcn askCap : js_num) : walk :=
  let '(fills, cost, short) := take_rungs rungs (toUnits pcn) zero askCap in
  finish_walk rungs fills cost zero (wish_pcn short) askCap.

(** ** The index *)

(** What [getIndex] returns: the state, and figures that may be missing. *)
Record index_reading := {
  ix_state : option string; ix_usd : option js_num; ix_ageSeconds : option js_num; ix_stale : option bool }.

Inductive no_price :=
  | NotRead | NoPriceIn (state : string) | NoUsablePrice | AgeUnknown | BadLimit | TooOld | NotVouched | BadPremium.

Definition INDEX_PRICED_STATES : list string := ["live"; "held"; "frozen"].

(** A figure that is there, or NaN. *)
Definition figure (x : option js_num) : js_num := default S754_nan x.

Record index_price := { ip_unitPrice : js_num; ip_floored : bool }.

Definition indexUnitPrice (index : option index_reading) (premiumPct floor maxAgeS : js_num) : result no_price index_price :=
  match index ≫= ix_state, index with
  | Some state, Some ix =>
      if bool_decide (state = "") then Err NotRead else
      if negb (bool_decide (state ∈ INDEX_PRICED_STATES)) then Err (NoPriceIn state) else
      let usd := figure (ix_usd ix) in
      if negb (is_finite usd && positive usd) then Err NoUsablePrice else
      let age := figure (ix_ageSeconds ix) in
      if negb (is_finite age) then Err AgeUnknown else
      if negb (is_finite maxAgeS && positive maxAgeS) then Err BadLimit else
      if num_ltb maxAgeS age then Err TooOld else
      if negb (bool_decide (ix_stale ix = Some false)) then Err NotVouched else
      if negb (is_finite premiumPct && num_leb zero premiumPct) then Err BadPremium else
      let raw := num_mul usd (num_add (num 1) (num_div premiumPct (num 100))) in
      Ok {| ip_unitPrice := floored floor raw;
            ip_floored := is_finite floor && positive floor && num_ltb raw floor |}
  | _, _ => Err NotRead
  end.

(** ** The price in force *)

(** The settings the market reads (settings.mjs gives every one a value). *)
Record settings := {
  pricingMode : string; marketPremiumPct : js_num; indexMaxAgeSeconds : js_num;
  ladderMaxPriceUsd : js_num; ladderMinPriceUsd : js_num; ammK : js_num; ammVirtualPcn : js_num;
  orderTtlHours : js_num; autoMaxUsd : js_num; floatStopPcn : js_num;
  minOrderUsd : js_num; maxOrderUsd : js_num; maxPendingOrders : js_num; maxOrdersPerHour : js_num;
  maxOrderPcn : js_num; accountCapPcn : js_num; accountCapDays : Z;
  backingFloatOnly : bool; backingCapPcn : js_num;
  retireSpentCoins : bool; retireRatioPct : js_num; retireMinConf : Z; retireDailyCapPcn : js_num;
  retireSystems : list string }.

Section price.
Context (S : settings) (index : option index_reading).

Definition ttlHours : js_num :=
  let v := orderTtlHours S in if is_finite v && positive v then v else num 2.
Definition askFloor : js_num :=
  let f := ladderMinPriceUsd S in if is_finite f && positive f then f else zero.
Definition askCap : js_num :=
  let v := ladderMaxPriceUsd S in
  if negb (is_finite v && positive v) then infinity else
  let floor := ladderMinPriceUsd S in
  if is_finite floor && positive floor then js_max v floor else v.
Definition ammParams : option (js_num * js_num) :=
  let k := ammK S in let v := ammVirtualPcn S in
  if is_finite k && positive k && is_finite v && num_leb zero v then Some (k, v) else None.

Definition indexQuote : result no_price index_price :=
  indexUnitPrice index (marketPremiumPct S) askFloor (indexMaxAgeSeconds S).

Inductive price_err := IndexUnavailable (why : no_price) | CannotPrice | NotANumber.

Definition indexWalk (rungs : list (Z * rung)) (w : want) : result price_err walk :=
  q ← lift_err IndexUnavailable indexQuote;
  of_option CannotPrice (flatWalk rungs w (ip_unitPrice q)).

Definition walkCapped (rungs : list (Z * rung)) (w : want) : result price_err walk :=
  if bool_decide (pricingMode S = "index") then indexWalk rungs w else
  match ammParams ≫= (fun p => ammWalk rungs w p.1 p.2 askFloor) with
  | Some r => Ok r
  | None => match w with
            | Usd usd => of_option NotANumber (walkUsd rungs usd askCap)
            | Pcn pcn => Ok (walkPcn rungs pcn askCap)
            end
  end.
End price.

(** ** What a walk may take *)

(** Each fill is part of the stock of a rung of its own, rungs in their order. *)
Definition within (x : Z * rung) (f : fill) : Prop := f_rungNo f = x.1 /\ 0 < f_units f <= availUnits x.2.
Definition fits (rungs : list (Z * rung)) (fills : list fill) : Prop :=
  exists used, used `sublist_of` rungs /\ Forall2 within used fills.

Lemma fits_nil rs : fits rs [].
Proof. exists []. split; [apply sublist_nil_l|constructor]. Qed.

Lemma fits_skip x rs fs : fits rs fs -> fits (x :: rs) fs.
Proof. intros (us & Hu & Hf). exists us. split; [by apply sublist_cons|done]. Qed.

Lemma fits_take no r rs f fs :
  f_rungNo f = no -> 0 < f_units f <= availUnits r -> fits rs fs -> fits ((no, r) :: rs) (f :: fs).
Proof.
  intros Hn Hu (us & Hs & Hf). exists ((no, r) :: us). split; [by apply sublist_skip|]. by constructor.
Qed.

Lemma allocate_fits rs w p : fits rs (allocate rs w p).1.
Proof.
  revert w. induction rs as [|[no r] rs IH]; intros w; [apply fits_nil|]. cbn [allocate].
  destruct w as [z|].
  - destruct (z <=? 0) eqn:Hz; [apply fits_nil|]. bool_to_prop.
    destruct (availUnits r <=? 0) eqn:Ha; [by apply fits_skip|]. bool_to_prop.
    specialize (IH (Exactly (z - Z.min (availUnits r) z))). destruct (allocate rs _ p) as [fs rest].
    apply fits_take; [done|cbn; lia|done].
  - destruct (availUnits r <=? 0) eqn:Ha; [by apply fits_skip|]. bool_to_prop.
    specialize (IH Unbounded). destruct (allocate rs _ p) as [fs rest]. apply fits_take; [done|cbn; lia|done].
Qed.

Lemma take_rungs_fits rs w c cap : fits rs (take_rungs rs w c cap).1.1.
Proof.
  revert w c. induction rs as [|[no r] rs IH]; intros w c; [apply fits_nil|]. cbn [take_rungs].
  destruct (negb (unfilled w)) eqn:Hw; [apply fits_nil|].
  destruct (availUnits r <=? 0) eqn:Ha; [by apply fits_skip|]. bool_to_prop.
  destruct w as [z|]; cbn in *; bool_to_prop;
    (match goal with |- context [take_rungs rs ?w' ?c' cap] => specialize (IH w' c'); destruct (take_rungs rs w' c' cap) as [[fs c2] rest] end);
    (apply fits_take; [done|cbn; lia|done]).
Qed.

Lemma spend_rungs_fits rs u c cap fs c' u' : spend_rungs rs u c cap = Some (fs, c', u') -> fits rs fs.
Proof.
  revert u c fs c' u'. induction rs as [|[no r] rs IH]; intros u c fs c' u'; cbn [spend_rungs].
  - intros [= <- _ _]. apply fits_nil.
  - destruct (availUnits r <=? 0) eqn:Ha; [intros H; apply fits_skip; by eapply IH|]. bool_to_prop.
    set (wanted := js_floor _). destruct (is_nan wanted); [done|].
    set (take := match wanted with S754_infinity true => -1 | _ => _ end).
    assert (take <= availUnits r) as Ht.
    { unfold take. destruct wanted as [| [] | |]; try lia; destruct (wish_of _); lia. }
    destruct (take <=? 0) eqn:Hz; [intros [= <- _ _]; apply fits_nil|]. bool_to_prop.
    intros ([[fs1 c1] u1] & Hs & [= <- <- <-])%bind_Some. apply fits_take; [done|cbn; lia|by eapply IH].
Qed.

Lemma ammWalk_fits rs w k v fl r : ammWalk rs w k v fl = Some r -> fits rs (k_fills r).
Proof.
  unfold ammWalk. destruct (negb _); [done|]. destruct (amm_price _ _ _ w) as [[p c]|]; [|done].
  destruct (negb _); [done|]. destruct (amm_floor fl w p c) as [p' c']. destruct (negb _); [done|].
  pose proof (allocate_fits rs (toUnits p') (num_div c' (num_div (or_one (toUnits p')) UNITS))) as H.
  destruct (allocate rs _ _) as [fs togo]. by intros [= <-].
Qed.

Lemma flatWalk_fits rs w p r : flatWalk rs w p = Some r -> fits rs (k_fills r).
Proof.
  unfold flatWalk. destruct (negb _); [done|].
  set (amount := match w with Usd x | Pcn x => x end). destruct (negb _); [done|].
  set (wu := match w with Usd _ => _ | Pcn _ => _ end).
  pose proof (allocate_fits rs wu p) as H. destruct (allocate rs wu p) as [fs togo]. by intros [= <-].
Qed.

Lemma walkUsd_fits rs u cap r : walkUsd rs u cap = Some r -> fits rs (k_fills r).
Proof. intros ([[fs c] t] & Hs & [= <-])%bind_Some. by eapply spend_rungs_fits. Qed.

Lemma walkPcn_fits rs p cap : fits rs (k_fills (walkPcn rs p cap)).
Proof.
  unfold walkPcn. pose proof (take_rungs_fits rs (toUnits p) zero cap) as Hf.
  by destruct (take_rungs _ _ _ _) as [[fs c] t].
Qed.

(** Whatever the price in force, a walk takes only what is there. *)
Lemma walkCapped_fits S ix rs w r : walkCapped S ix rs w = Ok r -> fits rs (k_fills r).
Proof.
  unfold walkCapped. case_bool_decide.
  - unfold indexWalk. intros H0. res_inv. by eapply flatWalk_fits.
  - destruct (ammParams S ≫= _) as [r'|] eqn:Ha.
    + intros [= <-]. apply bind_Some in Ha as (p & _ & Hw). by eapply ammWalk_fits.
    + destruct w as [u|p]; intros H1; res_inv; [by eapply walkUsd_fits|subst r; apply walkPcn_fits].
Qed.

(** The loop takes as much as is wanted and is there, whatever the price. *)
Lemma got_cons f fs : got (f :: fs) = f_units f + got fs.
Proof. apply zsum_by_cons. Qed.

Lemma remUnits_cons x rs : remUnits (x :: rs) = Z.max 0 (availUnits x.2) + remUnits rs.
Proof. exact (zsum_by_cons (fun x => Z.max 0 (availUnits x.2)) x rs). Qed.

Lemma remUnits_nonneg rs : 0 <= remUnits rs.
Proof. apply zsum_by_nonneg. intros. apply Z.le_max_l. Qed.

Lemma allocate_amount rs z p :
  0 <= z -> got (allocate rs (Exactly z) p).1 = Z.min z (remUnits rs)
            /\ (allocate rs (Exactly z) p).2 = Exactly (z - Z.min z (remUnits rs)).
Proof.
  revert z. induction rs as [|[no r] rs IH]; intros z Hz; cbn [allocate].
  - cbn [fst snd]. unfold got, remUnits. rewrite !zsum_by_nil. split; [lia|]. f_equal. lia.
  - rewrite remUnits_cons. pose proof (remUnits_nonneg rs). cbn [snd].
    destruct (z <=? 0) eqn:Hz0; bool_to_prop.
    { cbn [fst snd]. unfold got. rewrite zsum_by_nil. split; [lia|]. f_equal. lia. }
    destruct (availUnits r <=? 0) eqn:Ha; bool_to_prop.
    { destruct (IH z Hz) as [-> ->]. split; [lia|]. f_equal. lia. }
    destruct (IH (z - Z.min (availUnits r) z)) as [Hg Hr]; [lia|].
    destruct (allocate rs _ p) as [fs rest]. cbn [fst snd] in *. rewrite got_cons, Hg, Hr. cbn [f_units].
    split; [lia|]. f_equal. lia.
Qed.
