(* ===== verification/MarketDb.v ===== *)
(** * The market's database, wallet and memory (contrib/market)

    The tables the sale reads and writes (ladder.sql, orders-payment.sql, the
    schema ipn-test.mjs builds), the hot wallet of the node, and what each
    process keeps in memory. A statement is a function on the database that
    returns or throws; a transaction is one such function, undone when it throws.
    DECIMAL columns are integers of their last place. The connection can fail
    before a statement, or after it with the answer lost. *)

From S2P Require Import Prelude JsInt JsNum MarketPrice Tasks.
Local Open Scope Z_scope.

(** ** Rows *)

Inductive order_status :=
  | OPending | OExpired | OFailed | ORefunded | OAwaiting | OSending | ODelivered | ONeedsReview | OTest.
#[export] Instance order_status_eq_dec : EqDecision order_status.
Proof. solve_decision. Defined.

(** Why an order is held, or what became of its delivery: [delivery_error]. *)
Inductive delivery_error :=
  | PartialPayment | ChildPayment | MismatchedInvoice | AmountUnreadable | Unbacked
  | PaymentNowLess | PaymentReversed (status payment : string)
  | FloatTooLow | FloatFell | WalletUnread | SendFailed | SendUnresolved | NoTransactionFound.
#[export] Instance delivery_error_eq_dec : EqDecision delivery_error.
Proof. solve_decision. Defined.

Inductive delivery_mode := Auto | Manual.
#[export] Instance delivery_mode_eq_dec : EqDecision delivery_mode.
Proof. solve_decision. Defined.

Record order := {
  o_email : string; o_usd : Z; o_invoice_usd : option Z; o_address : string;
  o_quoted_pcn : Z; o_quoted_price : Z; o_status : order_status; o_invoice_id : option string;
  o_paid_amount : option Z; o_pay_currency : option string; o_paid_at : option Z;
  o_paid_payment_id : option string; o_delivered_txid : option string; o_delivered_at : option Z;
  o_delivery_mode : option delivery_mode; o_delivery_error : option delivery_error; o_created_at : Z }.

Inductive fill_state := FReserved | FSold | FReleased.
#[export] Instance fill_state_eq_dec : EqDecision fill_state.
Proof. solve_decision. Defined.

Record ladder_fill := { l_order : string; l_rung : Z; l_qty : Z; l_price : js_num; l_state : fill_state }.

(** What became of a callback. *)
Inductive ipn_outcome :=
  | Ignored | Duplicate | Raced | Held | Paid | Closed | Noted | NeedsHuman | UnknownOrder | Paused.
#[export] Instance ipn_outcome_eq_dec : EqDecision ipn_outcome.
Proof. solve_decision. Defined.
Record ipn_event := {
  i_payment_id : string; i_order_id : option string; i_status : string; i_outcome : option ipn_outcome }.

Record retirement := {
  t_txid : string; t_vout : Z; t_height : Z; t_system : string; t_spent : Z; t_retired : Z; t_at : Z }.

Record db := {
  rungs : gmap Z rung;
  fills : list ladder_fill;
  orders : gmap string order;
  ipn_events : list ipn_event;                   (* in the order of their ids *)
  retirements : list retirement;
  chain_scan : option Z;
  spend_addresses : gmap string string }.

Definition on_rungs (f : gmap Z rung -> gmap Z rung) (d : db) : db := {|
  rungs := f (rungs d); fills := fills d; orders := orders d; ipn_events := ipn_events d;
  retirements := retirements d; chain_scan := chain_scan d; spend_addresses := spend_addresses d |}.
Definition on_fills (f : list ladder_fill -> list ladder_fill) (d : db) : db := {|
  rungs := rungs d; fills := f (fills d); orders := orders d; ipn_events := ipn_events d;
  retirements := retirements d; chain_scan := chain_scan d; spend_addresses := spend_addresses d |}.
Definition on_orders (f : gmap string order -> gmap string order) (d : db) : db := {|
  rungs := rungs d; fills := fills d; orders := f (orders d); ipn_events := ipn_events d;
  retirements := retirements d; chain_scan := chain_scan d; spend_addresses := spend_addresses d |}.
Definition on_ipn_events (f : list ipn_event -> list ipn_event) (d : db) : db := {|
  rungs := rungs d; fills := fills d; orders := orders d; ipn_events := f (ipn_events d);
  retirements := retirements d; chain_scan := chain_scan d; spend_addresses := spend_addresses d |}.
Definition on_retirements (f : list retirement -> list retirement) (d : db) : db := {|
  rungs := rungs d; fills := fills d; orders := orders d; ipn_events := ipn_events d;
  retirements := f (retirements d); chain_scan := chain_scan d; spend_addresses := spend_addresses d |}.
Definition on_chain_scan (f : option Z -> option Z) (d : db) : db := {|
  rungs := rungs d; fills := fills d; orders := orders d; ipn_events := ipn_events d;
  retirements := retirements d; chain_scan := f (chain_scan d); spend_addresses := spend_addresses d |}.

(** ** The wallet and the world *)

(** A transaction of the hot wallet, as [listtransactions] shows it. *)
Record wallet_tx := {
  x_txid : string; x_comment : string; x_send : bool; x_to : string; x_amount : Z;
  x_live : bool }.                               (* not abandoned, not conflicted away *)

(** What a process keeps in memory. *)
Record memory := {
  m_sendingNow : gmap string nat; m_told : gset string;
  m_alerted : gmap string Z;                     (* when each kind of alert was last given *)
  m_scanning : bool }.
Definition fresh_memory : memory := {| m_sendingNow := ∅; m_told := ∅; m_alerted := ∅; m_scanning := false |}.
Definition set_sendingNow (f : gmap string nat -> gmap string nat) (m : memory) : memory :=
  {| m_sendingNow := f (m_sendingNow m); m_told := m_told m; m_alerted := m_alerted m; m_scanning := m_scanning m |}.
Definition set_told (f : gset string -> gset string) (m : memory) : memory :=
  {| m_sendingNow := m_sendingNow m; m_told := f (m_told m); m_alerted := m_alerted m; m_scanning := m_scanning m |}.
Definition set_alerted (f : gmap string Z -> gmap string Z) (m : memory) : memory :=
  {| m_sendingNow := m_sendingNow m; m_told := m_told m; m_alerted := f (m_alerted m); m_scanning := m_scanning m |}.
Definition set_scanning (b : bool) (m : memory) : memory :=
  {| m_sendingNow := m_sendingNow m; m_told := m_told m; m_alerted := m_alerted m; m_scanning := b |}.

Record world := {
  w_db : db;
  w_wallet : list wallet_tx;                     (* oldest first *)
  w_memory : gmap Z memory;
  w_settings : settings;
  w_index : option index_reading;
  w_alerts : list string;                        (* what a human was told *)
  w_spool : gset string;                         (* purchase posts asked for *)
  w_gave_up : list (string * bool);              (* history: orders a sweep gave up; was one being sent, or sent? *)
  w_missed : list string }.                      (* history: orders whose send was past what a lookup reads *)

Definition on_db (f : db -> db) (w : world) : world := {|
  w_db := f (w_db w); w_wallet := w_wallet w; w_memory := w_memory w; w_settings := w_settings w;
  w_index := w_index w; w_alerts := w_alerts w; w_spool := w_spool w;
  w_gave_up := w_gave_up w; w_missed := w_missed w |}.
Definition on_wallet (f : list wallet_tx -> list wallet_tx) (w : world) : world := {|
  w_db := w_db w; w_wallet := f (w_wallet w); w_memory := w_memory w; w_settings := w_settings w;
  w_index := w_index w; w_alerts := w_alerts w; w_spool := w_spool w;
  w_gave_up := w_gave_up w; w_missed := w_missed w |}.
Definition on_memory (f : gmap Z memory -> gmap Z memory) (w : world) : world := {|
  w_db := w_db w; w_wallet := w_wallet w; w_memory := f (w_memory w); w_settings := w_settings w;
  w_index := w_index w; w_alerts := w_alerts w; w_spool := w_spool w;
  w_gave_up := w_gave_up w; w_missed := w_missed w |}.
Definition on_settings (s : settings) (w : world) : world := {|
  w_db := w_db w; w_wallet := w_wallet w; w_memory := w_memory w; w_settings := s;
  w_index := w_index w; w_alerts := w_alerts w; w_spool := w_spool w;
  w_gave_up := w_gave_up w; w_missed := w_missed w |}.
Definition on_index (i : option index_reading) (w : world) : world := {|
  w_db := w_db w; w_wallet := w_wallet w; w_memory := w_memory w; w_settings := w_settings w;
  w_index := i; w_alerts := w_alerts w; w_spool := w_spool w;
  w_gave_up := w_gave_up w; w_missed := w_missed w |}.
Definition on_alerts (f : list string -> list string) (w : world) : world := {|
  w_db := w_db w; w_wallet := w_wallet w; w_memory := w_memory w; w_settings := w_settings w;
  w_index := w_index w; w_alerts := f (w_alerts w); w_spool := w_spool w;
  w_gave_up := w_gave_up w; w_missed := w_missed w |}.
Definition on_gave_up (f : list (string * bool) -> list (string * bool)) (w : world) : world := {|
  w_db := w_db w; w_wallet := w_wallet w; w_memory := w_memory w; w_settings := w_settings w;
  w_index := w_index w; w_alerts := w_alerts w; w_spool := w_spool w;
  w_gave_up := f (w_gave_up w); w_missed := w_missed w |}.
Definition on_spool (f : gset string -> gset string) (w : world) : world := {|
  w_db := w_db w; w_wallet := w_wallet w; w_memory := w_memory w; w_settings := w_settings w;
  w_index := w_index w; w_alerts := w_alerts w; w_spool := f (w_spool w);
  w_gave_up := w_gave_up w; w_missed := w_missed w |}.
Definition on_missed (f : list string -> list string) (w : world) : world := {|
  w_db := w_db w; w_wallet := w_wallet w; w_memory := w_memory w; w_settings := w_settings w;
  w_index := w_index w; w_alerts := w_alerts w; w_spool := w_spool w;
  w_gave_up := w_gave_up w; w_missed := f (w_missed w) |}.

Definition memory_of (pid : Z) (w : world) : memory := default fresh_memory (w_memory w !! pid).

(** ** Errors *)

Inductive err :=
  | ConnectionLost
  | DupEntry (key : string)
  | CheckViolation
  | Refusal (code : Z) (why : string)            (* answered with that HTTP code *)
  | Pricing (e : price_err)
  | WalletError
  | JsError (text : string).
#[export] Instance no_price_eq_dec : EqDecision no_price.
Proof. solve_decision. Defined.
#[export] Instance price_err_eq_dec : EqDecision price_err.
Proof. solve_decision. Defined.
#[export] Instance err_eq_dec : EqDecision err.
Proof. solve_decision. Defined.

(** ** Statements and awaits *)

(** A statement or a transaction: what it returns or throws, and the database after it. *)
Definition stmt (A : Type) : Type := db -> result err A * db.

#[export] Instance stmt_ret : MRet stmt := fun A a d => (Ok a, d).
#[export] Instance stmt_bind : MBind stmt := fun A B f m d =>
  match m d with (Ok a, d') => f a d' | (Err e, d') => (Err e, d') end.
Definition fail {A} (e : err) : stmt A := fun d => (Err e, d).
Definition select {A} (f : db -> A) : stmt A := fun d => (Ok (f d), d).
Definition update (f : db -> db) : stmt () := fun d => (Ok (), f d).
Definition lift_stmt {A} (r : result err A) : stmt A := fun d => (r, d).

(** A transaction that may undo itself and answer all the same: [true] rolls back. *)
Definition with_tx {A} (m : stmt (bool * A)) : stmt A := fun d =>
  match m d with
  | (Ok (true, a), _) => (Ok a, d)
  | (Ok (false, a), d') => (Ok a, d')
  | (Err e, d') => (Err e, d')
  end.

(** A statement per element. *)
Fixpoint each {A} (f : A -> stmt ()) (l : list A) : stmt () :=
  match l with [] => mret () | a :: l' => _ ← f a; each f l' end.

(** What the outside decides at an await: whether the connection holds, the
    time, and what the wallet's answers are. *)
Inductive link := Works | Down | AnswerLost.
Record oracle := {
  or_link : link; or_now : Z;
  or_balance : js_num;                           (* getbalances: mine.trusted *)
  or_txid : string;                              (* the id of a transaction sent now *)
  or_backing : option js_num;                    (* what the backing reads, or that it cannot *)
  or_tip : Z;                                    (* getblockcount *)
  or_block : list (string * list (option string * js_num)) }.  (* the block asked for: its outputs, by transaction *)

Definition program := io err oracle world.

(** What a statement can use: NOW(), and the settings and the index the process holds. *)
Record env := { e_now : Z; e_settings : settings; e_index : option index_reading }.
Definition env_of (o : oracle) (w : world) : env :=
  {| e_now := or_now o; e_settings := w_settings w; e_index := w_index w |}.

(** [await q(...)], or a whole transaction: undone when it throws. *)
Definition run_stmt {A} (f : env -> stmt A) (o : oracle) (w : world) : result err A * world :=
  match or_link o, f (env_of o w) (w_db w) with
  | Down, _ => (Err ConnectionLost, w)
  | _, (Err e, _) => (Err e, w)
  | Works, (Ok a, d) => (Ok a, on_db (fun _ => d) w)
  | AnswerLost, (Ok _, d) => (Err ConnectionLost, on_db (fun _ => d) w)
  end.
Definition q {A} (f : env -> stmt A) : program A := await (run_stmt f).
Definition q_ {A} (f : stmt A) : program A := q (fun _ => f).

(** Memory, settings and alerts: no connection to fail. *)
Definition local {A} (f : world -> A * world) : program A := await (fun _ w => let '(a, w') := f w in (Ok a, w')).
Definition get_settings : program settings := local (fun w => (w_settings w, w)).

(** A program per element; a program whose answer nobody uses. *)
Fixpoint every {A} (f : A -> program ()) (l : list A) : program () :=
  match l with [] => mret () | a :: l' => _ ← f a; every f l' end.
Definition ignore_io {A} (m : program A) : program () := _ ← m; mret ().

(** [notify]: a message to the private channel. *)
Definition notify (text : string) : program () := local (fun w => ((), on_alerts (fun l => text :: l) w)).

Definition on_process (pid : Z) (f : memory -> memory) (w : world) : world :=
  on_memory <[pid := f (memory_of pid w)]> w.

(** An alert of a kind, at most once in [gap] seconds. *)
Definition notify_every (pid : Z) (kind : string) (gap : Z) : program () := await (fun o w =>
  let quiet := match m_alerted (memory_of pid w) !! kind with Some t => or_now o - t <? gap | None => false end in
  if quiet then (Ok (), w) else
  (Ok (), on_alerts (cons kind) (on_process pid (set_alerted <[kind := or_now o]>) w))).

(** ** Statements on single rows *)

Definition select_order (id : string) : stmt (option order) := select (fun d => orders d !! id).

(** [UPDATE orders SET ... WHERE order_id = ? AND guard]: whether a row changed. *)
Definition update_order (id : string) (guard : order -> bool) (f : order -> order) : stmt bool := fun d =>
  match orders d !! id with
  | Some o => if guard o then (Ok true, on_orders <[id := f o]> d) else (Ok false, d)
  | None => (Ok false, d)
  end.

Definition set_status (s : order_status) (o : order) : order := {|
  o_email := o_email o; o_usd := o_usd o; o_invoice_usd := o_invoice_usd o; o_address := o_address o;
  o_quoted_pcn := o_quoted_pcn o; o_quoted_price := o_quoted_price o; o_status := s;
  o_invoice_id := o_invoice_id o; o_paid_amount := o_paid_amount o; o_pay_currency := o_pay_currency o;
  o_paid_at := o_paid_at o; o_paid_payment_id := o_paid_payment_id o; o_delivered_txid := o_delivered_txid o;
  o_delivered_at := o_delivered_at o; o_delivery_mode := o_delivery_mode o;
  o_delivery_error := o_delivery_error o; o_created_at := o_created_at o |}.
Definition set_error (e : option delivery_error) (o : order) : order := {|
  o_email := o_email o; o_usd := o_usd o; o_invoice_usd := o_invoice_usd o; o_address := o_address o;
  o_quoted_pcn := o_quoted_pcn o; o_quoted_price := o_quoted_price o; o_status := o_status o;
  o_invoice_id := o_invoice_id o; o_paid_amount := o_paid_amount o; o_pay_currency := o_pay_currency o;
  o_paid_at := o_paid_at o; o_paid_payment_id := o_paid_payment_id o; o_delivered_txid := o_delivered_txid o;
  o_delivered_at := o_delivered_at o; o_delivery_mode := o_delivery_mode o;
  o_delivery_error := e; o_created_at := o_created_at o |}.
Definition set_mode (m : option delivery_mode) (o : order) : order := {|
  o_email := o_email o; o_usd := o_usd o; o_invoice_usd := o_invoice_usd o; o_address := o_address o;
  o_quoted_pcn := o_quoted_pcn o; o_quoted_price := o_quoted_price o; o_status := o_status o;
  o_invoice_id := o_invoice_id o; o_paid_amount := o_paid_amount o; o_pay_currency := o_pay_currency o;
  o_paid_at := o_paid_at o; o_paid_payment_id := o_paid_payment_id o; o_delivered_txid := o_delivered_txid o;
  o_delivered_at := o_delivered_at o; o_delivery_mode := m;
  o_delivery_error := o_delivery_error o; o_created_at := o_created_at o |}.
Definition set_delivered (txid : string) (at_ : Z) (o : order) : order := {|
  o_email := o_email o; o_usd := o_usd o; o_invoice_usd := o_invoice_usd o; o_address := o_address o;
  o_quoted_pcn := o_quoted_pcn o; o_quoted_price := o_quoted_price o; o_status := ODelivered;
  o_invoice_id := o_invoice_id o; o_paid_amount := o_paid_amount o; o_pay_currency := o_pay_currency o;
  o_paid_at := o_paid_at o; o_paid_payment_id := o_paid_payment_id o; o_delivered_txid := Some txid;
  o_delivered_at := Some at_; o_delivery_mode := o_delivery_mode o;
  o_delivery_error := None; o_created_at := o_created_at o |}.
Definition set_invoice (id : option string) (o : order) : order := {|
  o_email := o_email o; o_usd := o_usd o; o_invoice_usd := o_invoice_usd o; o_address := o_address o;
  o_quoted_pcn := o_quoted_pcn o; o_quoted_price := o_quoted_price o; o_status := o_status o;
  o_invoice_id := id; o_paid_amount := o_paid_amount o; o_pay_currency := o_pay_currency o;
  o_paid_at := o_paid_at o; o_paid_payment_id := o_paid_payment_id o; o_delivered_txid := o_delivered_txid o;
  o_delivered_at := o_delivered_at o; o_delivery_mode := o_delivery_mode o;
  o_delivery_error := o_delivery_error o; o_created_at := o_created_at o |}.
(** The columns a payment writes: the invoice price kept, the payment, what arrived. *)
Definition set_payment (s : order_status) (usd pcn : Z) (invoice : option Z) (pid : string) (paid : option Z)
    (currency : option string) (at_ : Z) (e : option delivery_error) (o : order) : order := {|
  o_email := o_email o; o_usd := usd; o_invoice_usd := invoice; o_address := o_address o;
  o_quoted_pcn := pcn; o_quoted_price := o_quoted_price o; o_status := s;
  o_invoice_id := o_invoice_id o; o_paid_amount := paid; o_pay_currency := currency;
  o_paid_at := Some at_; o_paid_payment_id := Some pid; o_delivered_txid := o_delivered_txid o;
  o_delivered_at := o_delivered_at o; o_delivery_mode := o_delivery_mode o;
  o_delivery_error := e; o_created_at := o_created_at o |}.

(** [UPDATE ladder_rungs SET ... WHERE rung_no = ?], under the CHECK constraints. *)
Definition rung_ok (r : rung) : bool :=
  (0 <=? g_sold r) && (0 <=? g_reserved r) && (0 <=? g_retired r)
  && (g_sold r + g_reserved r + g_retired r <=? g_total r).
Definition update_rung (no : Z) (f : rung -> rung) : stmt () := fun d =>
  match rungs d !! no with
  | Some r => if rung_ok (f r) then (Ok (), on_rungs <[no := f r]> d) else (Err CheckViolation, d)
  | None => (Ok (), d)
  end.
Definition move_rung (sold reserved retired : Z) (r : rung) : rung := {|
  g_price := g_price r; g_total := g_total r; g_sold := g_sold r + sold;
  g_reserved := g_reserved r + reserved; g_retired := g_retired r + retired |}.

