(* ===== verification/MarketLadder.v ===== *)
(** * Reserving, settling and releasing rungs (contrib/market/ladder.mjs, the tables)

    An order reserves its rungs when it is created, sells them when it is paid and
    gives them back when it ends unpaid; a sweep returns what nobody paid for.
    Every transaction takes the rungs' row locks first, so it is one step here.
    The theorems: a rung is never oversold, its counters are the sums of its
    fills, and only a release gives inventory back. *)

From S2P Require Import Prelude JsInt JsNum MarketPrice Tasks MarketDb.
Local Open Scope Z_scope.

(** ** The operations *)

Definition taken (r : rung) : Z := g_sold r + g_reserved r + g_retired r.

(** The rungs with stock, cheapest first, [FOR UPDATE] inside a transaction. *)
Definition rungsWithStock : stmt (list (Z * rung)) :=
  select (fun d => filter (fun x => taken x.2 < g_total x.2) (by_id (rungs d))).

(** [INSERT INTO ladder_fills], UNIQUE (order_id, rung_no). *)
Definition same_fill (id : string) (no : Z) (f : ladder_fill) : bool :=
  bool_decide (l_order f = id) && (l_rung f =? no).
Definition insert_fill (id : string) (f : fill) : stmt () := fun d =>
  if existsb (same_fill id (f_rungNo f)) (fills d) then (Err (DupEntry "uq_order_rung"), d)
  else (Ok (), on_fills (fun l => l ++ [{| l_order := id; l_rung := f_rungNo f; l_qty := f_units f;
                                         l_price := f_price f; l_state := FReserved |}]) d).

Definition reserve_fill (id : string) (f : fill) : stmt () :=
  _ ← insert_fill id f;
  update_rung (f_rungNo f) (move_rung 0 (f_units f) 0).

(** A tenth of a cent of rounding is not a shortfall. *)
Definition DUST : js_num := num_dec 1 3.

Definition reserveLadder (id : string) (usd : js_num) (e : env) : stmt walk :=
  rs ← rungsWithStock;
  w ← lift_stmt (lift_err Pricing (walkCapped (e_settings e) (e_index e) rs (Usd usd)));
  if num_ltb DUST (k_usdUnfilled w) then fail (Refusal 409 "only part of that can be had") else
  _ ← each (reserve_fill id) (k_fills w);
  mret w.

Definition reserved_by (id : string) (f : ladder_fill) : bool :=
  bool_decide (l_order f = id) && bool_decide (l_state f = FReserved).
Definition set_fill (s : fill_state) (f : ladder_fill) : ladder_fill :=
  {| l_order := l_order f; l_rung := l_rung f; l_qty := l_qty f; l_price := l_price f; l_state := s |}.

(** [moveFills]: every reserved fill of the order, its rung moved and its state set. *)
Definition moveFills (id : string) (toState : fill_state) (applyRung : Z -> rung -> rung) : stmt nat :=
  which ← select (fun d => filter (fun f => reserved_by id f = true) (fills d));
  _ ← each (fun f => update_rung (l_rung f) (applyRung (l_qty f))) which;
  _ ← update (on_fills (fmap (fun f => if reserved_by id f then set_fill toState f else f)));
  mret (length which).

Definition settleLadder (id : string) : stmt nat := moveFills id FSold (fun q => move_rung q (- q) 0).
Definition releaseLadder (id : string) : stmt nat := moveFills id FReleased (fun q => move_rung 0 (- q) 0).

(** [expireWithRelease]: out of pending and the rungs back, in one transaction. *)
Definition owned_by (owner : option string) (o : order) : bool :=
  match owner with Some email => bool_decide (o_email o = email) | None => true end.
Definition is_pending (o : order) : bool := bool_decide (o_status o = OPending).
Definition expireWithRelease (id : string) (owner : option string) : stmt (bool * nat) :=
  changed ← update_order id (fun o => owned_by owner o && is_pending o) (set_status OExpired);
  if changed : bool then n ← releaseLadder id; mret (true, n) else mret (false, 0%nat).

(** ** The sweep *)

Definition orders_where (P : order -> bool) (d : db) : list string :=
  (map_to_list (filter (fun x => P x.2 = true) (orders d))).*1.
Definition stale_orders (e : env) : stmt (list string) :=
  select (orders_where (fun o => is_pending o && (o_created_at o <? e_now e - 3600 * to_fixed 0 (ttlHours (e_settings e))))).
(** Orders in these states that still have reserved fills. *)
Definition reserved_in (states : list order_status) : stmt (list string) :=
  select (fun d => (map_to_list (filter (fun x => o_status x.2 ∈ states /\
    existsb (reserved_by x.1) (fills d) = true) (orders d))).*1).

Definition sweepExpiredOrders (pid : Z) : program () :=
  try_io (
    stale ← q stale_orders;
    _ ← every (fun id => try_io (ignore_io (q_ (expireWithRelease id None))) (fun _ => mret ())) stale;
    orphaned ← q_ (reserved_in [OExpired; OFailed; ORefunded]);
    _ ← every (fun id => ignore_io (q_ (releaseLadder id))) orphaned;
    unsettled ← q_ (reserved_in [OAwaiting; ODelivered]);
    every (fun id => ignore_io (q_ (settleLadder id))) unsettled)
  (fun _ => notify_every pid "Reservation sweep FAILED" 3600).

(** ** Retired inventory (contrib/market/retire.mjs) *)

(** [retireFromLadder]: the cheapest rungs give up to [need] units. *)
Fixpoint retire_rungs (rs : list (Z * rung)) (need : Z) : stmt Z :=
  match rs with
  | [] => mret 0
  | (no, r) :: rs' =>
      if need <=? 0 then mret 0 else
      let avail := availUnits r in
      if avail <=? 0 then retire_rungs rs' need else
      let take := Z.min avail need in
      _ ← update_rung no (move_rung 0 0 take);
      rest ← retire_rungs rs' (need - take);
      mret (take + rest)
  end.
Definition retireFromLadder (need : Z) : stmt Z :=
  if need <=? 0 then mret 0 else
  rs ← rungsWithStock;
  retire_rungs rs need.

(** ** Moving rungs *)

Definition moved {A} (no_of : A -> Z) (g : A -> rung -> rung) (l : list A) (rs : gmap Z rung) : gmap Z rung :=
  foldl (fun rs' a => alter (g a) (no_of a) rs') rs l.

Lemma stmt_ok {A B} (m : stmt A) (f : A -> stmt B) d a d' : m d = (Ok a, d') -> (m ≫= f) d = f a d'.
Proof. unfold mbind, stmt_bind. by intros ->. Qed.

Lemma update_rung_ok no f d r :
  rungs d !! no = Some r -> rung_ok (f r) = true -> update_rung no f d = (Ok (), on_rungs (alter f no) d).
Proof.
  intros Hr Hok. unfold update_rung. rewrite Hr, Hok. f_equal. unfold on_rungs. f_equal.
  apply map_eq. intros k. destruct (decide (k = no)) as [->|Hne].
  - by rewrite lookup_insert_eq, lookup_alter_eq, Hr.
  - by rewrite lookup_insert_ne, lookup_alter_ne.
Qed.

Lemma moved_notin {A} no_of (g : A -> rung -> rung) l rs no :
  (forall a, a ∈ l -> no_of a <> no) -> moved no_of g l rs !! no = rs !! no.
Proof.
  revert rs. induction l as [|a l IH]; intros rs Hl; [done|]. cbn.
  unfold moved in IH. rewrite IH by (intros; apply Hl; by constructor).
  apply lookup_alter_ne, Hl. constructor.
Qed.

Section at_rung.
Context {A : Type} (no_of : A -> Z).
Definition at_rung (no : Z) (h : A -> Z) (l : list A) : Z := zsum_by (fun a => if no_of a =? no then h a else 0) l.

Lemma moved_lookup (s v t : A -> Z) l rs no :
  moved no_of (fun a => move_rung (s a) (v a) (t a)) l rs !! no
  = move_rung (at_rung no s l) (at_rung no v l) (at_rung no t l) <$> rs !! no.
Proof.
  revert rs. induction l as [|a l IH]; intros rs.
  - unfold at_rung. rewrite !zsum_by_nil. cbn. destruct (rs !! no) as [[]|]; [|done]. cbn. unfold move_rung. cbn.
    do 2 f_equal; lia.
  - unfold moved in *. cbn [foldl]. rewrite IH. unfold at_rung. rewrite !zsum_by_cons.
    destruct (no_of a =? no) eqn:Hno; bool_to_prop.
    + subst no. rewrite lookup_alter_eq. destruct (rs !! no_of a) as [[]|]; [|done]. cbn. unfold move_rung. cbn.
      do 2 f_equal; lia.
    + rewrite lookup_alter_ne by done. by rewrite !Z.add_0_l.
Qed.
End at_rung.

(** A statement per element, each on a rung of its own, none refused. *)
Lemma each_moved {A} (no_of : A -> Z) (g : A -> rung -> rung) l d :
  NoDup (no_of <$> l) ->
  (forall a, a ∈ l -> exists r, rungs d !! no_of a = Some r /\ rung_ok (g a r) = true) ->
  each (fun a => update_rung (no_of a) (g a)) l d = (Ok (), on_rungs (moved no_of g l) d).
Proof.
  revert d. induction l as [|a l IH]; intros d Hnd Hl; [by destruct d|].
  cbn in Hnd. apply NoDup_cons in Hnd as [Ha Hnd]. destruct (Hl a) as (r & Hr & Hok); [constructor|].
  cbn [each]. erewrite stmt_ok by (by eapply update_rung_ok). rewrite IH; [done|done|].
  intros b Hb. destruct (Hl b) as (r' & Hr' & Hok'); [by constructor|]. exists r'. split; [|done].
  cbn. rewrite lookup_alter_ne; [done|]. intros E. apply Ha. rewrite E. by apply list_elem_of_fmap_2.
Qed.

Definition new_fill (id : string) (f : fill) : ladder_fill :=
  {| l_order := id; l_rung := f_rungNo f; l_qty := f_units f; l_price := f_price f; l_state := FReserved |}.
Definition fill_key (f : ladder_fill) : string * Z := (l_order f, l_rung f).

Lemma same_fill_false id no l :
  existsb (same_fill id no) l = false <-> (id, no) ∉ (fill_key <$> l).
Proof.
  unfold same_fill, fill_key. induction l as [|f l IH]; cbn; [split; [set_solver|done]|].
  rewrite orb_false_iff, IH, not_elem_of_cons, andb_false_iff, bool_decide_eq_false, Z.eqb_neq.
  split; intros [H1 H2]; (split; [|done]); [destruct H1; congruence|].
  destruct (decide (l_order f = id)); [right|by left]. congruence.
Qed.

Lemma each_reserve id fs d :
  NoDup (f_rungNo <$> fs) ->
  (forall f, f ∈ fs -> ~ ((id, f_rungNo f) ∈ fill_key <$> fills d) /\
    exists r, rungs d !! f_rungNo f = Some r /\ rung_ok (move_rung 0 (f_units f) 0 r) = true) ->
  each (reserve_fill id) fs d
  = (Ok (), on_fills (fun l => l ++ (new_fill id <$> fs))
              (on_rungs (moved f_rungNo (fun f => move_rung 0 (f_units f) 0) fs) d)).
Proof.
  revert d. induction fs as [|f fs IH]; intros d Hnd Hl.
  - cbn. destruct d. unfold on_fills, on_rungs. cbn. by rewrite app_nil_r.
  - cbn in Hnd. apply NoDup_cons in Hnd as [Ha Hnd]. destruct (Hl f) as (Hk & r & Hr & Hok); [constructor|].
    assert (reserve_fill id f d = (Ok (), on_fills (fun l => l ++ [new_fill id f])
       (on_rungs (alter (move_rung 0 (f_units f) 0) (f_rungNo f)) d))) as E.
    { unfold reserve_fill. rewrite (stmt_ok _ _ d () (on_fills (fun l => l ++ [new_fill id f]) d)).
      - by rewrite (update_rung_ok _ _ _ r).
      - unfold insert_fill. by apply same_fill_false in Hk as ->. }
    cbn [each]. erewrite stmt_ok by exact E. rewrite IH; [|done|].
    + unfold on_fills, on_rungs. cbn. by rewrite <- app_assoc.
    + intros g Hg. destruct (Hl g) as (Hk' & r' & Hr' & Hok'); [by constructor|].
      assert (f_rungNo g <> f_rungNo f) as Hne by (intros E'; apply Ha; rewrite <- E'; by apply list_elem_of_fmap_2).
      cbn. split.
      * rewrite fmap_app, not_elem_of_app. split; [done|]. cbn. intros [=]%list_elem_of_singleton. by apply Hne.
      * exists r'. by rewrite lookup_alter_ne.
Qed.

(** ** The invariant *)

Definition held_in (no : Z) (s : fill_state) (l : list ladder_fill) : Z :=
  at_rung l_rung no (fun f => if decide (l_state f = s) then l_qty f else 0) l.

Record ladder_inv (d : db) : Prop := {
  li_keys : NoDup (fill_key <$> fills d);
  li_fill f : f ∈ fills d -> 0 < l_qty f /\ is_Some (rungs d !! l_rung f);
  li_sold no r : rungs d !! no = Some r -> g_sold r = held_in no FSold (fills d);
  li_reserved no r : rungs d !! no = Some r -> g_reserved r = held_in no FReserved (fills d);
  li_stock no r : rungs d !! no = Some r -> 0 <= g_retired r /\ taken r <= g_total r
}.

Lemma at_rung_cons {A} no_of no h (a : A) l :
  at_rung no_of no h (a :: l) = (if no_of a =? no then h a else 0) + at_rung no_of no h l.
Proof. apply zsum_by_cons. Qed.

Lemma at_rung_app {A} no_of no h (l k : list A) : at_rung no_of no h (l ++ k) = at_rung no_of no h l + at_rung no_of no h k.
Proof. apply zsum_by_app. Qed.

Lemma at_rung_zero {A} no_of no h (l : list A) : (forall a, a ∈ l -> h a = 0) -> at_rung no_of no h l = 0.
Proof. intros H. apply zsum_by_zero. intros a Ha. rewrite (H a Ha). by case_match. Qed.

Lemma at_rung_nonneg {A} no_of no h (l : list A) : (forall a, a ∈ l -> 0 <= h a) -> 0 <= at_rung no_of no h l.
Proof. intros H. apply zsum_by_nonneg. intros a Ha. specialize (H a Ha). case_match; lia. Qed.

Lemma at_rung_elem {A} no_of h (l : list A) a :
  (forall b, b ∈ l -> 0 <= h b) -> a ∈ l -> h a <= at_rung no_of (no_of a) h l.
Proof.
  intros H Ha. pose proof (zsum_by_elem (fun b => if no_of b =? no_of a then h b else 0) l a) as E. cbn in E.
  rewrite Z.eqb_refl in E. apply E; [|done]. intros b Hb. specialize (H b Hb). case_match; lia.
Qed.

Lemma at_rung_unique {A} no_of h (l : list A) a :
  NoDup (no_of <$> l) -> a ∈ l -> at_rung no_of (no_of a) h l = h a.
Proof.
  intros Hnd Ha. induction l as [|b l IH]; [by apply elem_of_nil in Ha|].
  cbn in Hnd. apply NoDup_cons in Hnd as [Hb Hnd]. rewrite at_rung_cons.
  apply elem_of_cons in Ha as [->|Ha].
  - rewrite Z.eqb_refl. enough (at_rung no_of (no_of b) h l = 0) by lia.
    apply zsum_by_zero. intros c Hc. destruct (no_of c =? no_of b) eqn:E; [|done]. bool_to_prop.
    destruct Hb. rewrite <- E. by apply list_elem_of_fmap_2.
  - rewrite IH by done. destruct (no_of b =? no_of a) eqn:E; [|done]. bool_to_prop.
    destruct Hb. rewrite E. by apply list_elem_of_fmap_2.
Qed.

Lemma rung_ok_spec r :
  rung_ok r = true <-> 0 <= g_sold r /\ 0 <= g_reserved r /\ 0 <= g_retired r /\ taken r <= g_total r.
Proof.
  unfold rung_ok, taken. split.
  - intros H. bool_to_prop. lia.
  - intros H. repeat (apply andb_true_intro; split); apply Z.leb_le; lia.
Qed.

Section ladder_inv.
Context (d : db) (Hd : ladder_inv d).

Lemma held_nonneg no s : 0 <= held_in no s (fills d).
Proof. apply at_rung_nonneg. intros f Hf. apply (li_fill _ Hd) in Hf as [? _]. case_decide; lia. Qed.

Lemma held_elem f : f ∈ fills d -> l_qty f <= held_in (l_rung f) (l_state f) (fills d).
Proof.
  intros Hf. unfold held_in. pose proof (at_rung_elem l_rung (fun g => if decide (l_state g = l_state f) then l_qty g else 0) (fills d) f) as H.
  cbn in H. rewrite decide_True in H by done. apply H; [|done].
  intros g Hg. apply (li_fill _ Hd) in Hg as [? _]. case_decide; lia.
Qed.

(** The CHECK constraints hold. *)
Lemma inv_rung_ok no r : rungs d !! no = Some r -> rung_ok r = true.
Proof.
  intros Hr. apply rung_ok_spec. rewrite (li_sold _ Hd _ _ Hr), (li_reserved _ Hd _ _ Hr).
  destruct (li_stock _ Hd _ _ Hr). repeat split; [apply held_nonneg..|done|done].
Qed.
End ladder_inv.

(** ** Reserving *)

Definition stocked (d : db) : list (Z * rung) := filter (fun x => taken x.2 < g_total x.2) (by_id (rungs d)).

(** What a reservation leaves. *)
Definition reserved (id : string) (fs : list fill) (d : db) : db :=
  on_fills (fun l => l ++ (new_fill id <$> fs)) (on_rungs (moved f_rungNo (fun f => move_rung 0 (f_units f) 0) fs) d).

Definition fillable (d : db) (fs : list fill) : Prop :=
  NoDup (f_rungNo <$> fs) /\
  forall f, f ∈ fs -> exists r, rungs d !! f_rungNo f = Some r /\ 0 < f_units f <= availUnits r.

Lemma sublist_map {A B} (f : A -> B) l k : l `sublist_of` k -> (f <$> l) `sublist_of` (f <$> k).
Proof. induction 1; cbn; by constructor. Qed.

Lemma fits_fillable d fs : fits (stocked d) fs -> fillable d fs.
Proof.
  intros (us & Hsub & Hf). assert (f_rungNo <$> fs = us.*1) as E.
  { clear Hsub. induction Hf as [|x f us fs [Hx _] _ IH]; [done|]. cbn. by rewrite IH, Hx. }
  split.
  - rewrite E. eapply sublist_NoDup; [apply (by_id_NoDup (rungs d))|].
    apply sublist_map. etransitivity; [exact Hsub|]. apply sublist_filter.
  - intros f Hin. apply list_elem_of_lookup in Hin as [i Hi]. clear E.
    destruct (Forall2_lookup_r _ _ _ _ _ Hf Hi) as ([no r] & Hu & Hno & Hle). exists r. split; [|done].
    cbn in Hno. rewrite Hno. apply elem_of_by_id. apply list_elem_of_lookup_2 in Hu.
    eapply elem_of_sublist in Hu; [|exact Hsub]. by apply list_elem_of_filter in Hu as [_ Hu].
Qed.

Section reserved.
Context (id : string) (fs : list fill) (d : db).
Context (Hd : ladder_inv d) (Hfs : fillable d fs) (Hid : forall f, f ∈ fills d -> l_order f <> id).

Lemma new_key no : (id, no) ∉ (fill_key <$> fills d).
Proof. intros (f & [= E _] & Hf)%list_elem_of_fmap. by apply (Hid f). Qed.

Lemma reserved_rungs no :
  rungs (reserved id fs d) !! no = move_rung 0 (at_rung f_rungNo no f_units fs) 0 <$> rungs d !! no.
Proof.
  cbn. rewrite (moved_lookup f_rungNo (fun _ => 0) f_units (fun _ => 0)).
  by rewrite !(at_rung_zero f_rungNo no (fun _ => 0)).
Qed.

(** A reservation fits whatever it asks of each rung. *)
Lemma fillable_room no r : rungs d !! no = Some r -> 0 <= at_rung f_rungNo no f_units fs <= availUnits r.
Proof.
  intros Hr. destruct Hfs as [Hnd Hl]. destruct (decide (Exists (fun f => f_rungNo f = no) fs)) as [(f & Hf & <-)%Exists_exists|Hno].
  - rewrite at_rung_unique by done. destruct (Hl f Hf) as (r' & Hr' & Hu). simplify_eq. lia.
  - assert (at_rung f_rungNo no f_units fs = 0) as ->.
    { apply zsum_by_zero. intros f Hf. destruct (f_rungNo f =? no) eqn:E; [|done]. bool_to_prop. destruct Hno. apply Exists_exists. by exists f. }
    destruct (li_stock _ Hd _ _ Hr). unfold availUnits, taken in *. lia.
Qed.

Lemma reserve_ok : each (reserve_fill id) fs d = (Ok (), reserved id fs d).
Proof.
  apply each_reserve; [apply Hfs|]. intros f Hf. split; [apply new_key|].
  destruct (proj2 Hfs f Hf) as (r & Hr & Hu). exists r. split; [done|].
  pose proof (inv_rung_ok _ Hd _ _ Hr) as Hok. apply rung_ok_spec in Hok. apply rung_ok_spec.
  unfold move_rung, taken, availUnits in *. cbn. lia.
Qed.

Lemma new_keys : fill_key <$> (new_fill id <$> fs) = pair id <$> (f_rungNo <$> fs).
Proof. by rewrite <- !list_fmap_compose. Qed.

Lemma held_new no s : held_in no s (new_fill id <$> fs) = if decide (s = FReserved) then at_rung f_rungNo no f_units fs else 0.
Proof.
  unfold held_in, at_rung. rewrite zsum_by_fmap. case_decide as Hs.
  - subst s. apply zsum_by_ext. intros f _. done.
  - apply zsum_by_zero. intros f _. cbn. rewrite decide_False by congruence. by case_match.
Qed.

Lemma reserved_inv : ladder_inv (reserved id fs d).
Proof.
  assert (forall no r', rungs (reserved id fs d) !! no = Some r' -> exists r, rungs d !! no = Some r /\
    r' = move_rung 0 (at_rung f_rungNo no f_units fs) 0 r) as Hr.
  { intros no r' H. rewrite reserved_rungs in H. apply fmap_Some in H as (r & Hr & ->). eauto. }
  split.
  - cbn. rewrite fmap_app, new_keys. apply NoDup_app. split; [apply Hd|]. split.
    + intros k Hk (no & -> & Hf)%list_elem_of_fmap. by apply (new_key no).
    + apply NoDup_fmap_2; [apply _|apply Hfs].
  - intros g [Hg|(f & -> & Hf)%list_elem_of_fmap]%elem_of_app.
    + destruct (li_fill _ Hd _ Hg) as [? [r Hr']]. split; [done|]. rewrite reserved_rungs, Hr'. by eexists.
    + destruct (proj2 Hfs f Hf) as (r & Hr' & Hu). split; [cbn; lia|]. rewrite reserved_rungs. cbn. rewrite Hr'. by eexists.
  - intros no r' (r & Hr' & ->)%Hr. cbn [fills reserved on_fills on_rungs]. unfold held_in. rewrite at_rung_app.
    fold (held_in no FSold (new_fill id <$> fs)). rewrite held_new, decide_False by done. cbn. rewrite (li_sold _ Hd _ _ Hr'). unfold held_in. lia.
  - intros no r' (r & Hr' & ->)%Hr. cbn [fills reserved on_fills on_rungs]. unfold held_in. rewrite at_rung_app.
    fold (held_in no FReserved (new_fill id <$> fs)). rewrite held_new, decide_True by done. cbn. rewrite (li_reserved _ Hd _ _ Hr'). unfold held_in. lia.
  - intros no r' (r & Hr' & ->)%Hr. destruct (li_stock _ Hd _ _ Hr'). pose proof (fillable_room no r Hr').
    unfold taken, availUnits in *. cbn. lia.
Qed.
End reserved.

(** The reservation, on every branch. *)
Lemma reserveLadder_spec id usd e d :
  ladder_inv d -> (forall f, f ∈ fills d -> l_order f <> id) ->
  reserveLadder id usd e d
  = match walkCapped (e_settings e) (e_index e) (stocked d) (Usd usd) with
    | Err x => (Err (Pricing x), d)
    | Ok w => if num_ltb DUST (k_usdUnfilled w) then (Err (Refusal 409 "only part of that can be had"), d)
              else (Ok w, reserved id (k_fills w) d)
    end.
Proof.
  intros Hd Hid. unfold reserveLadder. rewrite (stmt_ok _ _ d (stocked d) d) by done.
  destruct (walkCapped _ _ _ _) as [w|x] eqn:Hw; [|done].
  rewrite (stmt_ok _ _ d w d) by done. destruct (num_ltb _ _); [done|].
  rewrite (stmt_ok _ _ d () (reserved id (k_fills w) d)); [done|].
  apply reserve_ok; [done|by eapply fits_fillable, walkCapped_fits|done].
Qed.

Lemma reserveLadder_inv id usd e d w d' :
  ladder_inv d -> (forall f, f ∈ fills d -> l_order f <> id) ->
  reserveLadder id usd e d = (Ok w, d') -> ladder_inv d' /\ d' = reserved id (k_fills w) d.
Proof.
  intros Hd Hid. rewrite reserveLadder_spec by done. destruct (walkCapped _ _ _ _) as [w'|x] eqn:Hw; [|done].
  destruct (num_ltb _ _); [done|]. intros [= -> <-]. split; [|done].
  apply reserved_inv; [done|by eapply fits_fillable, walkCapped_fits|done].
Qed.

(** ** Settling and releasing *)

Definition sells (s : fill_state) (q : Z) : Z := if decide (s = FSold) then q else 0.
Definition fills_of (id : string) (d : db) : list ladder_fill := filter (fun f => reserved_by id f = true) (fills d).

(** What [moveFills] leaves. *)
Definition moved_fills (id : string) (s : fill_state) (d : db) : db :=
  on_fills (fmap (fun f => if reserved_by id f then set_fill s f else f))
    (on_rungs (moved l_rung (fun f => move_rung (sells s (l_qty f)) (- l_qty f) 0) (fills_of id d)) d).

Section moving.
Context (id : string) (s : fill_state) (d : db).
Context (Hd : ladder_inv d) (Hs : s <> FReserved).

Lemma fills_of_elem f : f ∈ fills_of id d <-> f ∈ fills d /\ l_order f = id /\ l_state f = FReserved.
Proof.
  unfold fills_of, reserved_by. rewrite list_elem_of_filter, andb_true_iff, !bool_decide_eq_true. tauto.
Qed.

Lemma fills_of_NoDup : NoDup (l_rung <$> fills_of id d).
Proof.
  pose proof (li_keys _ Hd) as Hk. unfold fills_of. revert Hk. generalize (fills d) as l.
  induction l as [|f l IH]; [constructor|]. intros [Hf Hk]%NoDup_cons. rewrite filter_cons.
  case_decide as Hr; [|by apply IH]. cbn. apply NoDup_cons. split; [|by apply IH].
  intros (g & E & [Hg Hin]%list_elem_of_filter)%list_elem_of_fmap. unfold reserved_by in *. bool_to_prop. destruct Hf.
  apply list_elem_of_fmap. exists g. split; [|done]. unfold fill_key. congruence.
Qed.

Lemma moved_rungs no :
  rungs (moved_fills id s d) !! no
  = move_rung (at_rung l_rung no (fun f => sells s (l_qty f)) (fills_of id d))
              (- at_rung l_rung no l_qty (fills_of id d)) 0 <$> rungs d !! no.
Proof.
  cbn. rewrite (moved_lookup l_rung _ (fun f => - l_qty f) (fun _ => 0)). rewrite (at_rung_zero l_rung no (fun _ => 0)) by done.
  do 2 f_equal. unfold at_rung. replace (- zsum_by _ _) with (-1 * zsum_by (fun f => if l_rung f =? no then l_qty f else 0) (fills_of id d)) by lia.
  rewrite <- zsum_by_scale. apply zsum_by_ext. intros f _. case_match; lia.
Qed.

Lemma held_moved no s' :
  held_in no s' (fills (moved_fills id s d))
  = held_in no s' (fills d)
    + (if decide (s' = s) then at_rung l_rung no l_qty (fills_of id d) else 0)
    - (if decide (s' = FReserved) then at_rung l_rung no l_qty (fills_of id d) else 0).
Proof.
  cbn [moved_fills fills on_fills on_rungs]. unfold fills_of, held_in. generalize (fills d) as l.
  induction l as [|f l IH]; [unfold at_rung; cbn; rewrite !zsum_by_nil; repeat case_decide; lia|].
  rewrite fmap_cons, filter_cons, !at_rung_cons, IH. clear IH. destruct (reserved_by id f) eqn:Hr.
  - rewrite (decide_True (P := true = true)), at_rung_cons by done. unfold reserved_by in Hr. bool_to_prop. cbn.
    repeat case_decide; try congruence; case_match; lia.
  - rewrite (decide_False (P := false = true)) by done. lia.
Qed.
Lemma held_fills_of no : 0 <= at_rung l_rung no l_qty (fills_of id d) <= held_in no FReserved (fills d).
Proof.
  split; [apply at_rung_nonneg; intros f [Hf _]%fills_of_elem; apply (li_fill _ Hd) in Hf; lia|].
  pose proof (held_nonneg d Hd no FReserved) as H. unfold held_in, at_rung, fills_of in *.
  pose proof (li_fill _ Hd) as Hl. revert Hl. generalize (fills d) as l. clear. intros l Hl.
  induction l as [|f l IH]; [done|]. rewrite filter_cons, zsum_by_cons.
  assert (0 < l_qty f) by (apply Hl; constructor).
  assert (forall g, g ∈ l -> 0 < l_qty g /\ is_Some (rungs d !! l_rung g)) as Hl' by (intros; apply Hl; by constructor).
  specialize (IH Hl'). destruct (reserved_by id f) eqn:Hr.
  - rewrite (decide_True (P := true = true)), zsum_by_cons by done. unfold reserved_by in Hr. bool_to_prop.
    rewrite (decide_True (P := l_state f = _)) by done. lia.
  - rewrite (decide_False (P := false = true)) by done. repeat case_match; lia.
Qed.

Lemma sells_of no : at_rung l_rung no (fun f => sells s (l_qty f)) (fills_of id d) = sells s (at_rung l_rung no l_qty (fills_of id d)).
Proof. unfold sells. case_decide; [done|]. by apply at_rung_zero. Qed.

Lemma moved_inv : ladder_inv (moved_fills id s d).
Proof.
  assert (forall no r', rungs (moved_fills id s d) !! no = Some r' -> exists r, rungs d !! no = Some r /\
    r' = move_rung (sells s (at_rung l_rung no l_qty (fills_of id d))) (- at_rung l_rung no l_qty (fills_of id d)) 0 r) as Hr.
  { intros no r' H. rewrite moved_rungs, sells_of in H. apply fmap_Some in H as (r & Hr & ->). eauto. }
  split.
  - cbn. rewrite <- list_fmap_compose. erewrite list_fmap_ext; [apply (li_keys _ Hd)|].
    intros i f _. cbn. by case_match.
  - intros g (f & -> & Hf)%list_elem_of_fmap. destruct (li_fill _ Hd _ Hf) as [Hq Hn].
    rewrite moved_rungs. destruct (reserved_by id f); cbn; (split; [done|]); by apply fmap_is_Some.
  - intros no r' (r & Hr' & ->)%Hr. rewrite held_moved. cbn. rewrite (li_sold _ Hd _ _ Hr'). unfold sells.
    rewrite (decide_False (P := FSold = FReserved)) by done. repeat case_decide; try congruence; lia.
  - intros no r' (r & Hr' & ->)%Hr. rewrite held_moved. cbn. rewrite (li_reserved _ Hd _ _ Hr').
    rewrite decide_False, decide_True by done. lia.
  - intros no r' (r & Hr' & ->)%Hr. destruct (li_stock _ Hd _ _ Hr'). pose proof (held_fills_of no).
    unfold taken, sells in *. cbn. case_decide; lia.
Qed.

Lemma moveFills_ok :
  moveFills id s (fun q => move_rung (sells s q) (- q) 0) d = (Ok (length (fills_of id d)), moved_fills id s d).
Proof.
  unfold moveFills. rewrite (stmt_ok _ _ d (fills_of id d) d) by done.
  rewrite (stmt_ok _ _ d () (on_rungs (moved l_rung (fun f => move_rung (sells s (l_qty f)) (- l_qty f) 0) (fills_of id d)) d)); [done|].
  apply each_moved; [apply fills_of_NoDup|]. intros f Hf. pose proof Hf as (Hin & Ho & Hst)%fills_of_elem.
  destruct (li_fill _ Hd _ Hin) as [Hq [r Hr]]. exists r. split; [done|].
  pose proof (inv_rung_ok _ Hd _ _ Hr) as Hok. apply rung_ok_spec in Hok. apply rung_ok_spec.
  pose proof (held_elem _ Hd _ Hin) as Hh. rewrite Hst, <- (li_reserved _ Hd _ _ Hr) in Hh.
  unfold move_rung, taken, sells in *. cbn. case_decide; lia.
Qed.
End moving.

Lemma settleLadder_spec id d :
  ladder_inv d -> settleLadder id d = (Ok (length (fills_of id d)), moved_fills id FSold d).
Proof. intros Hd. by apply (moveFills_ok id FSold d). Qed.
Lemma releaseLadder_spec id d :
  ladder_inv d -> releaseLadder id d = (Ok (length (fills_of id d)), moved_fills id FReleased d).
Proof. intros Hd. by apply (moveFills_ok id FReleased d). Qed.

(** A second call finds nothing reserved and changes nothing. *)
Lemma fills_of_moved id s d : s <> FReserved -> fills_of id (moved_fills id s d) = [].
Proof.
  intros Hs. unfold fills_of. cbn [moved_fills fills on_fills on_rungs]. induction (fills d) as [|f l IH]; [done|].
  rewrite fmap_cons, filter_cons, IH, decide_False; [done|]. destruct (reserved_by id f) eqn:Hr; [|congruence].
  unfold reserved_by, set_fill. cbn. rewrite andb_true_iff, !bool_decide_eq_true. tauto.
Qed.

Lemma moved_fills_none id s d : fills_of id d = [] -> moved_fills id s d = d.
Proof.
  intros H. unfold moved_fills. rewrite H. destruct d as [rs fs os es ts c a]. unfold on_fills, on_rungs. cbn in *. f_equal.
  unfold fills_of in H. cbn in H. clear -H. induction fs as [|f fs IH]; [done|].
  rewrite filter_cons in H. case_decide as Hr; [done|]. rewrite fmap_cons, IH by done. by destruct (reserved_by id f).
Qed.

(** ** Retiring *)

Definition retired (fs : list fill) (d : db) : db :=
  on_rungs (moved f_rungNo (fun f => move_rung 0 0 (f_units f)) fs) d.

(** Retiring walks the rungs as a purchase does. *)
Lemma retire_rungs_each rs need p d :
  retire_rungs rs need d
  = (let fs := (allocate rs (Exactly need) p).1 in
     _ ← each (fun f => update_rung (f_rungNo f) (move_rung 0 0 (f_units f))) fs; mret (got fs)) d.
Proof.
  revert need d. induction rs as [|[no r] rs IH]; intros need d; [done|]. cbn [retire_rungs allocate].
  destruct (need <=? 0); [done|]. destruct (availUnits r <=? 0); [apply IH|].
  specialize (IH (need - Z.min (availUnits r) need)).
  destruct (allocate rs _ p) as [fs rest]. cbn -[Z.min update_rung] in *. unfold mbind, stmt_bind in *.
  destruct (update_rung _ _ d) as [[[]|e] d']; [|done]. rewrite IH. by destruct (each _ fs d') as [[[]|e] d2].
Qed.

Section retired.
Context (fs : list fill) (d : db).
Context (Hd : ladder_inv d) (Hfs : fillable d fs).

Lemma retired_rungs no :
  rungs (retired fs d) !! no = move_rung 0 0 (at_rung f_rungNo no f_units fs) <$> rungs d !! no.
Proof.
  cbn. rewrite (moved_lookup f_rungNo (fun _ => 0) (fun _ => 0) f_units).
  by rewrite !(at_rung_zero f_rungNo no (fun _ => 0)).
Qed.

Lemma retired_inv : ladder_inv (retired fs d).
Proof.
  assert (forall no r', rungs (retired fs d) !! no = Some r' -> exists r, rungs d !! no = Some r /\
    r' = move_rung 0 0 (at_rung f_rungNo no f_units fs) r) as Hr.
  { intros no r' H. rewrite retired_rungs in H. apply fmap_Some in H as (r & Hr & ->). eauto. }
  split.
  - apply Hd.
  - intros f Hf. destruct (li_fill _ Hd _ Hf) as [? Hn]. split; [done|]. rewrite retired_rungs. by apply fmap_is_Some.
  - intros no r' (r & Hr' & ->)%Hr. cbn. rewrite (li_sold _ Hd _ _ Hr'). lia.
  - intros no r' (r & Hr' & ->)%Hr. cbn. rewrite (li_reserved _ Hd _ _ Hr'). lia.
  - intros no r' (r & Hr' & ->)%Hr. destruct (li_stock _ Hd _ _ Hr'). pose proof (fillable_room fs d Hd Hfs no r Hr').
    unfold taken, availUnits in *. cbn. lia.
Qed.

Lemma retire_ok :
  each (fun f => update_rung (f_rungNo f) (move_rung 0 0 (f_units f))) fs d = (Ok (), retired fs d).
Proof.
  apply (each_moved f_rungNo (fun f => move_rung 0 0 (f_units f))); [apply Hfs|].
  intros f Hf. destruct (proj2 Hfs f Hf) as (r & Hr & Hu). exists r. split; [done|].
  pose proof (inv_rung_ok _ Hd _ _ Hr) as Hok. apply rung_ok_spec in Hok. apply rung_ok_spec.
  unfold move_rung, taken, availUnits in *. cbn. lia.
Qed.
End retired.

Lemma sorted_filter {A} (R : A -> A -> Prop) (P : A -> Prop) `{!forall a, Decision (P a)} l :
  StronglySorted R l -> StronglySorted R (filter P l).
Proof.
  induction 1 as [|a l Hl IH Ha]; [constructor|]. rewrite filter_cons. case_decide; [|done]. constructor; [done|].
  apply Forall_forall. intros b [_ Hb]%list_elem_of_filter. rewrite Forall_forall in Ha. by apply Ha.
Qed.

(** A later rung gives only when every rung before it gave all it had. *)
Lemma allocate_cheapest rs w p x f :
  NoDup rs.*1 -> StronglySorted numbered_before rs -> x ∈ rs -> f ∈ (allocate rs w p).1 -> x.1 < f_rungNo f ->
  0 < availUnits x.2 -> at_rung f_rungNo x.1 f_units (allocate rs w p).1 = availUnits x.2.
Proof.
  revert w. induction rs as [|[no r] rs IH]; intros w; [by intros _ _ ?%elem_of_nil|].
  cbn [fmap list_fmap fst]. intros [Hno Hnd]%NoDup_cons [Hs Hle]%StronglySorted_inv Hx Hf Hlt Hav. cbn [allocate] in *.
  assert (forall w', f ∈ (allocate rs w' p).1 -> forall g, g ∈ (allocate rs w' p).1 -> f_rungNo g ∈ rs.*1) as Hin.
  { intros w' _ g Hg. destruct (allocate_fits rs w' p) as (us & Hsub & Hall). apply list_elem_of_lookup in Hg as [i Hi].
    destruct (Forall2_lookup_r _ _ _ _ _ Hall Hi) as (y & Hy & [-> _]). apply list_elem_of_fmap_2.
    apply (elem_of_submseteq us); [by eapply list_elem_of_lookup_2|by apply sublist_submseteq]. }
  destruct (match w with Exactly z => z <=? 0 | Unbounded => false end) eqn:Hz; [by apply elem_of_nil in Hf|].
  destruct (availUnits r <=? 0) eqn:Ha; bool_to_prop.
  { apply elem_of_cons in Hx as [-> |Hx]; [cbn in Hav; lia|]. by apply IH. }
  set (w' := match w with Exactly z => Exactly _ | Unbounded => Unbounded end) in *. specialize (Hin w'). specialize (IH w').
  destruct (allocate rs w' p) as [fs rest] eqn:Hr. cbn [fst] in *. rewrite at_rung_cons. cbn [f_rungNo f_units] in *.
  apply elem_of_cons in Hf as [->|Hf]; cbn [f_rungNo] in *.
  { exfalso. apply elem_of_cons in Hx as [->|Hx]; [cbn in Hlt; lia|]. rewrite Forall_forall in Hle.
    specialize (Hle x Hx). unfold numbered_before in Hle. cbn in Hle. lia. }
  apply elem_of_cons in Hx as [->|Hx]; cbn [fst snd] in *.
  - rewrite Z.eqb_refl. assert (at_rung f_rungNo no f_units fs = 0) as ->.
    { apply zsum_by_zero. intros g Hg. destruct (f_rungNo g =? no) eqn:E; [|done]. bool_to_prop. subst no. destruct Hno. by apply Hin. }
    destruct w as [z|]; [|lia]. enough (availUnits r <= z) by lia. destruct (decide (availUnits r <= z)); [done|exfalso].
    assert (fs = []) as ->; [|by apply elem_of_nil in Hf]. destruct rs as [|[no' r'] rs]; cbn in Hr; [by injection Hr|].
    unfold w' in Hr. rewrite (proj2 (Z.leb_le _ 0)) in Hr by lia. by injection Hr.
  - assert (no <> x.1) as Hne by (intros ->; destruct Hno; by apply list_elem_of_fmap_2). apply Z.eqb_neq in Hne as ->. by apply IH.
Qed.

(** What usage takes out of the ladder: the cheapest rungs first, all that is
    wanted or all there is, never refused. *)
Lemma retireFromLadder_spec need d :
  ladder_inv d -> 0 < need ->
  let fs := (allocate (stocked d) (Exactly need) zero).1 in
  retireFromLadder need d = (Ok (Z.min need (remUnits (stocked d))), retired fs d) /\ fillable d fs.
Proof.
  intros Hd Hn fs. assert (fillable d fs) as Hfs by (apply fits_fillable, allocate_fits). split; [|done].
  unfold retireFromLadder. destruct (need <=? 0) eqn:E; bool_to_prop; [lia|].
  rewrite (stmt_ok _ _ d (stocked d) d) by done. rewrite (retire_rungs_each _ _ zero). cbn zeta. fold fs.
  rewrite (stmt_ok _ _ d () (retired fs d)) by (by apply retire_ok).
  unfold mret, stmt_ret. do 2 f_equal. apply (allocate_amount (stocked d) need zero). lia.
Qed.
