(* ===== verification/MarketDelivery.v ===== *)
(** * Sending the coins (contrib/market/delivery.mjs)

    A paid order is claimed with a conditional UPDATE, sent from the hot wallet
    with its id as the transaction's comment, and recorded. A send that failed is
    looked up in the wallet; a sweep resolves what a crash left claimed. Each
    await is one step, so any two deliveries, sweeps and operators interleave. *)

From S2P Require Import Prelude JsInt JsNum MarketPrice Tasks MarketDb.
Local Open Scope Z_scope.

(** ** The wallet *)

(** An RPC that reads: no answer when the link fails. *)
Definition rpc {A} (f : oracle -> world -> A * world) : program A := await (fun o w =>
  match or_link o with Works => let '(a, w') := f o w in (Ok a, w') | _ => (Err WalletError, w) end).

Definition floatBalance : program js_num := rpc (fun o w => (or_balance o, w)).

(** The send that pays an order and still counts. *)
Definition is_send (id : string) (t : wallet_tx) : bool :=
  bool_decide (x_comment t = id) && x_send t && x_live t.
Definition sends_of (id : string) (txs : list wallet_tx) : list wallet_tx := filter (fun t => is_send id t = true) txs.

(** [listtransactions "*" 1000]: the last thousand entries, oldest first. *)
Definition recent (txs : list wallet_tx) : list wallet_tx := drop (length txs - 1000) txs.
Definition note_missed (id : string) (w : world) : world :=
  match sends_of id (recent (w_wallet w)), sends_of id (w_wallet w) with
  | [], _ :: _ => on_missed (cons id) w
  | _, _ => w
  end.
Definition findSentTx (id : string) : program (option string) :=
  rpc (fun _ w => (head (x_txid <$> sends_of id (recent (w_wallet w))), note_missed id w)).

(** A value, or what was thrown instead of it. *)
Definition attempt {A} (m : program A) : program (result err A) :=
  try_io (x ← m; mret (Ok x)) (fun e => mret (Err e)).

(** Three answers: sent, not sent, or not known ([Err]). *)
Definition alreadySent (id : string) : program (result err (option string)) := attempt (findSentTx id).

Definition sendtoaddress (to : string) (amount : Z) (comment : string) : program string := await (fun o w =>
  let sent := on_wallet (fun l => l ++ [{| x_txid := or_txid o; x_comment := comment; x_send := true; x_to := to;
                                          x_amount := amount; x_live := true |}]) w in
  match or_link o with
  | Works => (Ok (or_txid o), sent)
  | Down => (Err WalletError, w)
  | AnswerLost => (Err WalletError, sent)
  end).

(** ** Deciding *)

Definition isAuto (S : settings) (usd : js_num) : bool := positive (autoMaxUsd S) && num_leb usd (autoMaxUsd S).
Definition order_pcn (o : order) : js_num := num_ratio (o_quoted_pcn o) (10 ^ 8).
Definition order_usd (o : order) : js_num := num_ratio (o_usd o) 100.

(** ** The orders a process is sending *)

Definition sending_count (id : string) (m : memory) : nat := default 0%nat (m_sendingNow m !! id).
Definition enterSending (pid : Z) (id : string) : program () := local (fun w =>
  ((), on_process pid (fun m => set_sendingNow <[id := S (sending_count id m)]> m) w)).
Definition leaveSending (pid : Z) (id : string) : program () := local (fun w =>
  ((), on_process pid (fun m => set_sendingNow
         (match (sending_count id m - 1)%nat with 0%nat => delete id | n => <[id := n]> end) m) w)).
Definition is_sending (pid : Z) (id : string) (w : world) : bool :=
  bool_decide (is_Some (m_sendingNow (memory_of pid w) !! id)).

(** ** Saying thank you *)

Definition ANNOUNCEABLE : list order_status := [OAwaiting; OSending; ODelivered].
Definition COUNTED_MIN_USD : js_num := num 20.
Definition spool_char (c : Ascii.ascii) : bool :=
  let n := Ascii.nat_of_ascii c in
  ((65 <=? n) && (n <=? 90))%nat || ((97 <=? n) && (n <=? 122))%nat || ((48 <=? n) && (n <=? 57))%nat
  || (n =? 95)%nat || (n =? 45)%nat.
Definition SPOOL_ORDER_ID (id : string) : bool :=
  let n := String.length id in (1 <=? n)%nat && (n <=? 64)%nat && forallb spool_char (String.list_ascii_of_string id).

(** One file per order: asking twice is asking once. Writing it can fail. *)
Definition announcePurchase (id : string) : program () :=
  try_io (
    if negb (SPOOL_ORDER_ID id) then mret () else
    row ← q_ (select_order id);
    match row with
    | None => mret ()
    | Some o =>
        if negb (bool_decide (o_status o ∈ ANNOUNCEABLE)) then mret () else
        if negb (num_leb COUNTED_MIN_USD (order_usd o)) then mret () else
        await (fun oc w => match or_link oc with
                           | Down => (Err (JsError "spool"), w)
                           | _ => (Ok (), on_spool (fun s => {[id]} ∪ s) w)
                           end)
    end)
  (fun _ => mret ()).

(** ** Recording *)

Definition not_recorded (o : order) : bool := bool_decide (o_delivered_txid o = None).

Definition recordSent (id txid : string) : program () :=
  first ← q (fun e => update_order id not_recorded (set_delivered txid (e_now e)));
  if first : bool then announcePurchase id else
  row ← q_ (select_order id);
  match row ≫= o_delivered_txid with
  | Some existing => if bool_decide (existing = txid) then mret () else notify "DOUBLE SEND"
  | None => mret ()
  end.

Definition hex_char (c : Ascii.ascii) : bool :=
  let n := Ascii.nat_of_ascii c in
  ((48 <=? n) && (n <=? 57))%nat || ((97 <=? n) && (n <=? 102))%nat || ((65 <=? n) && (n <=? 70))%nat.
Definition is_txid (t : string) : bool :=
  (String.length t =? 64)%nat && forallb hex_char (String.list_ascii_of_string t).

(** The operator recorded a delivery of his own. *)
Definition markDelivered (id txid : string) : program () :=
  if negb (is_txid txid) then throw_io (JsError "that is not a txid") else
  row ← q_ (select_order id);
  match row with
  | None => throw_io (JsError "no such order")
  | Some o =>
      if negb (not_recorded o) then throw_io (JsError "already recorded as delivered") else
      first ← q (fun e => update_order id not_recorded (fun o =>
        set_mode (Some (default Manual (o_delivery_mode o))) (set_delivered txid (e_now e) o)));
      if negb first then throw_io (JsError "another writer recorded this first") else
      _ ← notify "Marked delivered by hand";
      announcePurchase id
  end.

(** ** Delivering *)

Record reply := { y_ok : bool; y_already : bool; y_manual : bool; y_txid : option string }.
Definition refused : reply := {| y_ok := false; y_already := false; y_manual := false; y_txid := None |}.
Definition already (txid : option string) : reply := {| y_ok := true; y_already := true; y_manual := false; y_txid := txid |}.
Definition manual : reply := {| y_ok := true; y_already := false; y_manual := true; y_txid := None |}.
Definition sent (txid : string) : reply := {| y_ok := true; y_already := false; y_manual := false; y_txid := Some txid |}.

Definition crashed (e : err) : program reply := _ ← notify "Delivery crashed"; mret refused.

Definition awaiting (o : order) : bool := bool_decide (o_status o = OAwaiting).
Definition in_sending (o : order) : bool := bool_decide (o_status o = OSending).
Definition below_stop (bal pcn stop : js_num) : bool := num_ltb (num_sub bal pcn) stop.

(** Up to the claim: an answer, or the order to claim. *)
Definition deliver_check (id : string) (force : bool) : program (reply + order) :=
  row ← q_ (select_order id);
  match row with
  | None => mret (inl refused)
  | Some o =>
      if negb (not_recorded o) then mret (inl (already (o_delivered_txid o))) else
      if negb (awaiting o) then mret (inl refused) else
      seen ← alreadySent id;
      match seen with
      | Err _ =>
          _ ← q_ (update_order id (fun _ => true) (set_error (Some WalletUnread)));
          _ ← notify "Delivery held"; mret (inl refused)
      | Ok (Some txid) => _ ← recordSent id txid; mret (inl (already (Some txid)))
      | Ok None =>
          S ← get_settings;
          if negb force && negb (isAuto S (order_usd o)) then
            marked ← q_ (update_order id (fun o => bool_decide (o_delivery_mode o = None)) (set_mode (Some Manual)));
            if negb marked then mret (inl {| y_ok := true; y_already := true; y_manual := true; y_txid := None |}) else
            _ ← notify "Manual delivery needed"; mret (inl manual)
          else
          bal ← floatBalance;
          S ← get_settings;
          if below_stop bal (order_pcn o) (floatStopPcn S) then
            _ ← q_ (update_order id (fun _ => true) (fun o => set_error (Some FloatTooLow) (set_mode (Some Manual) o)));
            _ ← notify "Auto-send skipped: float too low"; mret (inl manual)
          else mret (inr o)
      end
  end.

(** CLAIM: one winner. *)
Definition claim (id : string) : program bool :=
  q_ (update_order id (fun o => awaiting o && not_recorded o) (fun o => set_mode (Some Auto) (set_status OSending o))).

(** The send failed, and may have gone out all the same: look before concluding. *)
Definition send_failed (id : string) : program reply :=
  seen ← alreadySent id;
  match seen with
  | Ok (Some txid) => _ ← recordSent id txid; _ ← notify "Sent (recovered after an RPC error)"; mret (sent txid)
  | Err _ =>
      _ ← q_ (update_order id in_sending (set_error (Some SendUnresolved)));
      _ ← notify "Auto-send UNRESOLVED"; mret refused
  | Ok None =>
      _ ← q_ (update_order id (fun _ => true) (fun o => set_error (Some SendFailed) (set_status ONeedsReview o)));
      _ ← notify "Auto-send FAILED"; mret refused
  end.

Definition send_claimed (id : string) (o : order) : program reply :=
  r ← attempt (sendtoaddress (o_address o) (to_fixed 8 (order_pcn o)) id);
  match r with
  | Err _ => send_failed id
  | Ok txid => _ ← recordSent id txid; _ ← notify "Sent"; mret (sent txid)
  end.

Definition deliver_claim (id : string) (o : order) : program reply :=
  claimed ← claim id;
  if negb claimed then mret (already None) else
  bal2 ← attempt floatBalance;
  S ← get_settings;
  if match bal2 with Ok b => below_stop b (order_pcn o) (floatStopPcn S) | Err _ => false end then
    _ ← q_ (update_order id in_sending (fun o =>
          set_error (Some FloatFell) (set_mode (Some Manual) (set_status OAwaiting o))));
    _ ← notify "Auto-send stopped at the last moment: float too low"; mret manual
  else send_claimed id o.

Definition deliver (pid : Z) (id : string) (force : bool) : program reply :=
  checked ← try_io (deliver_check id force) (fun e => r ← crashed e; mret (inl r));
  match checked with
  | inl r => mret r
  | inr o =>
      _ ← enterSending pid id;
      finally_io (try_io (deliver_claim id o) crashed) (leaveSending pid id)
  end.

(** ** The sweep of stuck sends *)

(** Does anyone know of this order as being sent, or sent? *)
Definition being_sent (id : string) (w : world) : bool :=
  existsb (fun m => bool_decide (is_Some (m_sendingNow m !! id))) (map_to_list (w_memory w)).*2
  || negb (bool_decide (sends_of id (w_wallet w) = [])).

Definition hand_back (id : string) : program () := await (fun oc w =>
  let '(r, w') := run_stmt (fun _ => update_order id in_sending (fun o =>
                    set_error (Some NoTransactionFound) (set_status ONeedsReview o))) oc w in
  let lost := match orders (w_db w) !! id, orders (w_db w') !! id with
              | Some o, Some o' => in_sending o && negb (in_sending o')
              | _, _ => false
              end in
  (_ ← r; mret (), if lost then on_gave_up (cons (id, being_sent id w)) w' else w')).

Definition stuck (e : env) (o : order) : bool :=
  in_sending o && not_recorded o
  && match o_paid_at o with None => true | Some t => t <? e_now e - 300 end.
Definition stuck_orders (e : env) : stmt (list string) :=
  select (fun d => (map_to_list (filter (fun x => stuck e x.2 = true) (orders d))).*1).

Definition reconcile_one (pid : Z) (id : string) : program () :=
  busy ← local (fun w => (is_sending pid id w, w));
  if busy : bool then mret () else
  try_io (
    found ← findSentTx id;
    match found with
    | Some txid => _ ← recordSent id txid; notify "Recovered a stuck send"
    | None => _ ← hand_back id; notify "Stuck send, no transaction found"
    end)
  (fun _ => notify "Could not reconcile a stuck order").

Definition reconcileSending (pid : Z) : program () :=
  try_io (ids ← q stuck_orders; every (reconcile_one pid) ids) (fun _ => notify_every pid "Reconcile sweep FAILED" 1800).

(** ** The operator's Send *)

(** The panel's button (admin.mjs, order/send). *)
Definition admin_send (pid : Z) (id : string) (reviewed : bool) : program () :=
  seen ← alreadySent id;
  match seen with
  | Err _ | Ok (Some _) => mret ()
  | Ok None =>
      row ← q_ (select_order id);
      let flagged := match row with Some o => bool_decide (o_status o = ONeedsReview) | None => false end in
      if flagged && negb reviewed then mret () else
      _ ← (if flagged : bool then ignore_io (q_ (update_order id (fun o => bool_decide (o_status o = ONeedsReview)) (set_status OAwaiting)))
           else mret ());
      ignore_io (deliver pid id true)
  end.

(** The command line's [send] (market-admin.mjs): a process of its own. *)
Definition cli_send (pid : Z) (id : string) (reviewed : bool) : program () :=
  row ← q_ (select_order id);
  match row with
  | None => throw_io (JsError "no such order")
  | Some o =>
      if negb (not_recorded o) then throw_io (JsError "already delivered") else
      if negb (bool_decide (o_status o ∈ [OAwaiting; ONeedsReview])) then throw_io (JsError "not awaiting delivery") else
      seen ← alreadySent id;
      match seen with
      | Err _ => throw_io (JsError "cannot check whether this was already sent")
      | Ok (Some _) => throw_io (JsError "this order ALREADY left the wallet")
      | Ok None =>
          if bool_decide (o_status o = ONeedsReview) && negb reviewed then throw_io (JsError "refusing to send a flagged order") else
          bal ← floatBalance;
          if num_ltb (num_sub bal (order_pcn o)) zero then throw_io (JsError "the hot wallet does not hold enough") else
          _ ← q_ (update_order id (fun o => bool_decide (o_status o = ONeedsReview)) (set_status OAwaiting));
          ignore_io (deliver pid id true)
      end
  end.
