(* ===== verification/MarketSafe.v ===== *)
(** * An order is sent once: the invariant (contrib/market/delivery.mjs)

    Each delivery carries a note of how far it is: it has entered [sendingNow],
    it has won the claim, it has asked the wallet to send. The invariant ties the
    notes of all deliveries to the orders, to the wallet and to each process's
    [sendingNow]; every await of a delivery, of the sweep and of everything else
    keeps it, as long as no lookup missed a send and no sweep gave up an order
    that was being sent. *)

From S2P Require Import Prelude JsInt JsNum MarketPrice Tasks MarketDb MarketDelivery.
Local Open Scope Z_scope.

#[local] Arguments sends_of : simpl never.

(** ** Notes and counts *)

Inductive note := Idle | Entered (id : string) | Claimed (id : string) | Attempted (id : string).

Abbreviation notes := (gmap nat (Z * note)).
Definition in_flight (id : string) (n : note) : bool :=
  match n with Idle => false | Entered i | Claimed i | Attempted i => bool_decide (i = id) end.
Definition holds (id : string) (n : note) : bool :=
  match n with Claimed i | Attempted i => bool_decide (i = id) | _ => false end.

Definition busy (pid : Z) (id : string) (gs : notes) : Z :=
  map_sum (fun x => if (x.1 =? pid) && in_flight id x.2 then 1 else 0) gs.
Definition holders (id : string) (gs : notes) : Z := map_sum (fun x => if holds id x.2 then 1 else 0) gs.

(** The order is being sent, or recorded as sent. *)
Definition gone (o : order) : Prop := o_status o = OSending \/ o_delivered_txid o <> None.
Definition order_gone (id : string) (d : db) : Prop := exists o, orders d !! id = Some o /\ gone o.

Record sends_ok (w : world) (gs : notes) (id : string) : Prop := {
  so_once : (length (sends_of id (w_wallet w)) <= 1)%nat;
  so_claims : holders id gs <= 1;
  so_claimed : 0 < holders id gs -> order_gone id (w_db w);
  so_sent : sends_of id (w_wallet w) <> [] -> order_gone id (w_db w);
  so_fresh tid pid : gs !! tid = Some (pid, Claimed id) -> sends_of id (w_wallet w) = []
}.

(** No lookup missed a send, no sweep gave up an order that was being sent. *)
Definition clean (w : world) : Prop := w_missed w = [] /\ Forall (fun x => x.2 = false) (w_gave_up w).

(** An order is accepted, held or sent only with a payment on it. *)
Definition paid (o : order) : Prop := o_paid_payment_id o <> None.
Definition order_paid (id : string) (d : db) : Prop := exists o, orders d !! id = Some o /\ paid o.
Definition settled (o : order) : Prop := o_status o ∈ [OAwaiting; OSending; ONeedsReview].
Definition paid_db (d : db) : Prop := forall id o, orders d !! id = Some o -> settled o -> paid o.

Lemma settled_spec o : settled o <-> o_status o = OAwaiting \/ o_status o = OSending \/ o_status o = ONeedsReview.
Proof. unfold settled. rewrite !elem_of_cons, elem_of_nil. tauto. Qed.

Record paid_sends (w : world) (gs : notes) : Prop := {
  ps_db : paid_db (w_db w);
  ps_held tid pid g id : gs !! tid = Some (pid, g) -> holds id g = true -> order_paid id (w_db w);
  ps_sent tx : tx ∈ w_wallet w -> x_send tx = true -> x_comment tx <> "" -> order_paid (x_comment tx) (w_db w)
}.

Definition sends_inv (w : world) (gs : notes) : Prop :=
  (forall pid id, Z.of_nat (sending_count id (memory_of pid w)) = busy pid id gs)
  /\ (clean w -> forall id, id <> "" -> sends_ok w gs id)
  /\ paid_sends w gs.

(** ** Counting *)

Section counts.
Implicit Types (gs : notes) (tid : nat) (pid : Z) (g : note) (id : string).

Lemma busy_insert gs tid p g pid id :
  busy pid id (<[tid := (p, g)]> gs)
  = busy pid id (delete tid gs) + (if (p =? pid) && in_flight id g then 1 else 0).
Proof.
  rewrite <- insert_delete_eq. unfold busy. rewrite map_sum_insert by apply lookup_delete_eq. cbn. lia.
Qed.

Lemma holders_insert gs tid p g id :
  holders id (<[tid := (p, g)]> gs) = holders id (delete tid gs) + (if holds id g then 1 else 0).
Proof.
  rewrite <- insert_delete_eq. unfold holders. rewrite map_sum_insert by apply lookup_delete_eq. cbn. lia.
Qed.

Lemma holders_nonneg id gs : 0 <= holders id gs.
Proof. rewrite <- (map_sum_zero (fun _ => 0) gs) by done. apply map_sum_le. intros i [p g] _. case_match; lia. Qed.

Lemma holder_busy id gs tid p g : gs !! tid = Some (p, g) -> holds id g = true -> 1 <= holders id gs.
Proof.
  intros Hg Hh. pose proof (map_sum_elem (fun x : Z * note => if holds id x.2 then 1 else 0) gs tid (p, g)) as H.
  cbn in H. rewrite Hh in H. apply H; [|done]. intros j [q h] _. cbn. case_match; lia.
Qed.

Lemma busy_elem pid id gs tid g : gs !! tid = Some (pid, g) -> in_flight id g = true -> 1 <= busy pid id gs.
Proof.
  intros Hg Hh. pose proof (map_sum_elem (fun x : Z * note => if (x.1 =? pid) && in_flight id x.2 then 1 else 0) gs tid (pid, g)) as H.
  cbn in H. rewrite Hh, Z.eqb_refl in H. cbn in H. apply H; [|done]. intros j [q h] _. cbn. case_match; lia.
Qed.

Lemma holds_in_flight id g : holds id g = true -> in_flight id g = true.
Proof. by destruct g. Qed.

(** Nobody holds an order no process is sending. *)
Lemma holders_none id gs : (forall pid, busy pid id gs = 0) -> holders id gs = 0.
Proof.
  intros Hb. apply map_sum_zero. intros tid [pid g] Hg. cbn. destruct (holds id g) eqn:Hh; [|done].
  pose proof (busy_elem pid id gs tid g Hg (holds_in_flight _ _ Hh)). specialize (Hb pid). lia.
Qed.

Lemma only_holder id gs tid p g tid' pid :
  holders id (<[tid := (p, g)]> gs) <= 1 -> holds id g = true ->
  <[tid := (p, g)]> gs !! tid' = Some (pid, Claimed id) -> tid' = tid.
Proof.
  intros Hh Hg Ht. destruct (decide (tid' = tid)) as [->|Hne]; [done|exfalso].
  rewrite lookup_insert_ne in Ht by done.
  rewrite holders_insert, Hg in Hh. assert (delete tid gs !! tid' = Some (pid, Claimed id)) as Hd by (by rewrite lookup_delete_ne).
  pose proof (holder_busy id _ _ _ _ Hd) as H. cbn in H. rewrite bool_decide_eq_true_2 in H by done. specialize (H eq_refl). lia.
Qed.
End counts.

(** ** Everything that is no part of a send *)

(** A change that takes no order back from a send and no payment off an order,
    and settles no order without a payment. *)
Record row_calm (o o' : order) : Prop := {
  rc_gone : gone o -> gone o';
  rc_paid : paid o -> paid o';
  rc_settled : (settled o -> paid o) -> settled o' -> paid o'
}.
Record calm (d d' : db) : Prop := {
  ca_gone id : order_gone id d -> order_gone id d';
  ca_paid id : order_paid id d -> order_paid id d';
  ca_db : paid_db d -> paid_db d'
}.
#[export] Instance calm_refl : Reflexive calm.
Proof. intros d. by split. Qed.
#[export] Instance calm_trans : Transitive calm.
Proof. intros d1 d2 d3 [] []. split; eauto. Qed.

Lemma row_calm_of o o' :
  (gone o -> gone o') -> o_paid_payment_id o' = o_paid_payment_id o -> (settled o' -> settled o) -> row_calm o o'.
Proof. intros Hg Hp Hs. split; unfold paid in *; rewrite ?Hp; auto. Qed.

Lemma calm_rows d d' :
  (forall id, orders d' !! id = orders d !! id \/
     exists o o', orders d !! id = Some o /\ orders d' !! id = Some o' /\ row_calm o o') -> calm d d'.
Proof.
  intros H. split.
  - intros id (o & Ho & Hg). destruct (H id) as [He|(x & x' & Hx & Hx' & Hc)]; [exists o; by rewrite He|].
    simplify_eq. exists x'. split; [done|]. by apply Hc.
  - intros id (o & Ho & Hg). destruct (H id) as [He|(x & x' & Hx & Hx' & Hc)]; [exists o; by rewrite He|].
    simplify_eq. exists x'. split; [done|]. by apply Hc.
  - intros Hp id o Ho Hs. destruct (H id) as [He|(x & x' & Hx & Hx' & Hc)]; [rewrite He in Ho; eauto|].
    simplify_eq. eapply (rc_settled _ _ Hc); [|exact Hs]. by apply (Hp id).
Qed.

Record frame (w w' : world) : Prop := {
  fr_wallet : w_wallet w' = w_wallet w;
  fr_sending pid id : sending_count id (memory_of pid w') = sending_count id (memory_of pid w);
  fr_clean : clean w' -> clean w;
  fr_orders : calm (w_db w) (w_db w')
}.

#[export] Instance frame_refl : Reflexive frame.
Proof. intros w. by split. Qed.

Lemma sends_inv_frame w w' gs : sends_inv w gs -> frame w w' -> sends_inv w' gs.
Proof.
  intros (Hb & Hs & Hp) [Hw Hm Hc [Hg Hpd Hdb]]. split; [intros; by rewrite Hm|]. split.
  - intros Hcl id Hid. destruct (Hs (Hc Hcl) id Hid) as [H1 H2 H3 H4 H5]. split; rewrite ?Hw; auto.
  - destruct Hp as [H1 H2 H3]. split; rewrite ?Hw; eauto.
Qed.

Definition calm_stmt {A} (m : stmt A) : Prop := forall d, calm d (m d).2.

Create HintDb frame.

Lemma gone_ret {A} (a : A) : calm_stmt (mret a).
Proof. by intros d. Qed.
Lemma gone_fail {A} e : calm_stmt (fail (A := A) e).
Proof. by intros d. Qed.
Lemma gone_select {A} (f : db -> A) : calm_stmt (select f).
Proof. by intros d. Qed.
Lemma gone_lift {A} (r : result err A) : calm_stmt (lift_stmt r).
Proof. by intros d. Qed.
Lemma gone_bind {A B} (m : stmt A) (f : A -> stmt B) : calm_stmt m -> (forall a, calm_stmt (f a)) -> calm_stmt (m ≫= f).
Proof.
  intros Hm Hf d. specialize (Hm d). unfold mbind, stmt_bind. destruct (m d) as [[a|e] d']; [|done].
  etransitivity; [exact Hm|]. apply Hf.
Qed.
Lemma gone_with_tx {A} (m : stmt (bool * A)) : calm_stmt m -> calm_stmt (with_tx m).
Proof. intros Hm d. specialize (Hm d). unfold with_tx. by destruct (m d) as [[[[] a]|e] d']. Qed.
Lemma gone_each {A} (f : A -> stmt ()) l : (forall a, calm_stmt (f a)) -> calm_stmt (each f l).
Proof. intros Hf. induction l as [|a l IH]; [apply gone_ret|]. apply gone_bind; [apply Hf|done]. Qed.
Lemma gone_same {A} (m : stmt A) : (forall d, orders (m d).2 = orders d) -> calm_stmt m.
Proof. intros Hf d. apply calm_rows. intros id. left. by rewrite Hf. Qed.
Lemma gone_update (f : db -> db) : (forall d, orders (f d) = orders d) -> calm_stmt (update f).
Proof. intros Hf. apply gone_same. exact Hf. Qed.
Lemma calm_insert id o o' d : orders d !! id = Some o -> row_calm o o' -> calm d (on_orders <[id := o']> d).
Proof.
  intros Ho Hc. apply calm_rows. intros i. cbn. destruct (decide (i = id)) as [->|Hne].
  - right. exists o, o'. by rewrite lookup_insert_eq.
  - left. by rewrite lookup_insert_ne.
Qed.
Lemma gone_update_order id guard f :
  (forall o, guard o = true -> row_calm o (f o)) -> calm_stmt (update_order id guard f).
Proof.
  intros Hf d. unfold update_order. destruct (orders d !! id) as [o|] eqn:Hid; [|done].
  destruct (guard o) eqn:Hgd; [|done]. cbn. eapply calm_insert; eauto.
Qed.
Lemma gone_if {A} (b : bool) (m m' : stmt A) : calm_stmt m -> calm_stmt m' -> calm_stmt (if b then m else m').
Proof. by destruct b. Qed.
#[export] Hint Resolve gone_ret gone_fail gone_select gone_lift gone_bind gone_with_tx gone_each gone_if : frame.

(** Programs none of whose awaits is part of a send. *)
Abbreviation quiet := (does frame).

Lemma frame_db w f : calm (w_db w) (f (w_db w)) -> frame w (on_db f w).
Proof. by split. Qed.

Lemma run_stmt_frame {A} (f : env -> stmt A) o w : (forall e, calm_stmt (f e)) -> frame w (run_stmt f o w).2.
Proof.
  intros Hf. unfold run_stmt. specialize (Hf (env_of o w) (w_db w)).
  destruct (or_link o), (f (env_of o w) (w_db w)) as [[a|e] d]; cbn in *; try reflexivity; by apply frame_db.
Qed.

Lemma quiet_q {A} (f : env -> stmt A) : (forall e, calm_stmt (f e)) -> quiet (q f).
Proof. intros Hf. apply does_await. intros o w. by apply run_stmt_frame. Qed.
Lemma quiet_q_ {A} (f : stmt A) : calm_stmt f -> quiet (q_ f).
Proof. intros Hf. by apply quiet_q. Qed.
Lemma quiet_local {A} (f : world -> A * world) : (forall w, frame w (f w).2) -> quiet (local f).
Proof. intros Hf. apply does_await. intros o w. specialize (Hf w). by destruct (f w). Qed.
Lemma quiet_settings : quiet get_settings.
Proof. by apply quiet_local. Qed.
Lemma quiet_notify text : quiet (notify text).
Proof. apply quiet_local. by split. Qed.
Lemma quiet_rpc {A} (f : oracle -> world -> A * world) : (forall o w, frame w (f o w).2) -> quiet (rpc f).
Proof. intros Hf. apply does_await. intros o w. specialize (Hf o w). destruct (or_link o), (f o w); by try reflexivity. Qed.
Lemma quiet_balance : quiet floatBalance.
Proof. apply quiet_rpc. done. Qed.

Lemma on_process_sending pid f w :
  (forall m, m_sendingNow (f m) = m_sendingNow m) ->
  forall p id, sending_count id (memory_of p (on_process pid f w)) = sending_count id (memory_of p w).
Proof.
  intros Hf p id. unfold sending_count, memory_of at 1, on_process. cbn.
  destruct (decide (p = pid)) as [->|Hne]; [by rewrite lookup_insert_eq; cbn; rewrite Hf|by rewrite lookup_insert_ne].
Qed.

Lemma quiet_notify_every pid kind gap : quiet (notify_every pid kind gap).
Proof.
  apply does_await. intros o w. cbn. case_match; [reflexivity|]. cbn. split; try done.
  intros p id. by apply on_process_sending.
Qed.

Lemma quiet_missed id : quiet (findSentTx id).
Proof.
  apply quiet_rpc. intros _ w. cbn. unfold note_missed. case_match; [|done]. case_match; [done|].
  split; try done. by intros [[=] _].
Qed.

Lemma quiet_every {A} (f : A -> program ()) l : (forall a, quiet (f a)) -> quiet (every f l).
Proof. intros Hf. induction l as [|a l IH]; [done|]. apply does_bind; [apply Hf|done]. Qed.
Lemma quiet_ignore {A} (m : program A) : quiet m -> quiet (ignore_io m).
Proof. intros Hm. by apply does_bind. Qed.
Lemma quiet_attempt {A} (m : program A) : quiet m -> quiet (attempt m).
Proof. intros Hm. apply does_try; [by apply does_bind|done]. Qed.
Lemma quiet_if {A} (b : bool) (m m' : program A) : quiet m -> quiet m' -> quiet (if b then m else m').
Proof. by destruct b. Qed.
#[export] Hint Resolve quiet_q quiet_q_ quiet_settings quiet_notify quiet_balance quiet_notify_every quiet_missed
  quiet_every quiet_ignore quiet_attempt quiet_if : frame.

(** Walks a program down to its awaits. *)
Ltac quiet_step :=
  match goal with
  | |- does _ (mret _) => done
  | |- does _ (throw_io _) => done
  | |- does _ (Ret _) => done
  | |- does _ (_ ≫= _) => apply does_bind; [|intros ?]
  | |- does _ (try_io _ _) => apply does_try; [|intros ?]
  | |- does _ (finally_io _ _) => apply does_finally
  | |- does _ (every _ _) => apply quiet_every; intros ?
  | |- does _ (ignore_io _) => apply quiet_ignore
  | |- does _ (let '_ := ?x in _) => destruct x
  | |- does _ (match ?x with _ => _ end) => destruct x
  | |- does _ _ => solve [eauto 5 with frame nocore]
  end.
Ltac quiet := repeat quiet_step.

Lemma gone_select_order id : calm_stmt (select_order id).
Proof. apply gone_select. Qed.
#[export] Hint Resolve gone_select_order : frame.

Lemma quiet_announce id : quiet (announcePurchase id).
Proof. unfold announcePurchase. quiet. apply does_await. intros oc w. by case_match; split. Qed.
#[export] Hint Resolve quiet_announce : frame.

Lemma gone_recorded id txid now f :
  (forall o, o_delivered_txid (f o) = o_delivered_txid o) -> (forall o, o_paid_payment_id (f o) = o_paid_payment_id o) ->
  (forall o, o_status (f o) = o_status o) ->
  calm_stmt (update_order id not_recorded (fun o => f (set_delivered txid now o))).
Proof.
  intros Hf Hp Hs. apply gone_update_order. intros o _. apply row_calm_of.
  - intros _. right. by rewrite Hf.
  - by rewrite Hp.
  - intros [H|[H|H]]%settled_spec; rewrite Hs in H; discriminate.
Qed.

Lemma quiet_recordSent id txid : quiet (recordSent id txid).
Proof. unfold recordSent. quiet. apply quiet_q. intros e. by apply (gone_recorded id txid (e_now e) (fun o => o)). Qed.
Lemma quiet_markDelivered id txid : quiet (markDelivered id txid).
Proof.
  unfold markDelivered. quiet. apply quiet_q. intros e. apply gone_update_order. intros ? _. apply row_calm_of; [by right|done|].
  by intros [H|[H|H]]%settled_spec.
Qed.
#[export] Hint Resolve quiet_recordSent quiet_markDelivered : frame.

(** ** The steps of a send *)

Section steps.
Context (tid : nat) (p : Z).
Implicit Types (id : string) (w : world).
Abbreviation safely := (safe sends_inv tid p).

Lemma quiet_safe {A} (m : program A) (Q : result err A -> note -> Prop) g :
  quiet m -> (forall r, Q r g) -> safely m Q g.
Proof.
  intros Hm HQ. eapply safe_mono; [|apply (does_safe _ frame _ tid p g); [|exact Hm]].
  - by intros r g' ->.
  - intros. by eapply sends_inv_frame.
Qed.

(** A change of this delivery's note that does not let the order go. *)
Lemma sends_ok_note w gs g g' id :
  sends_ok w (<[tid := (p, g)]> gs) id -> holds id g' = false \/ (holds id g = true /\ g' <> Claimed id) ->
  sends_ok w (<[tid := (p, g')]> gs) id.
Proof.
  intros [H1 H2 H3 H4 H5] Hg.
  assert (holders id (<[tid := (p, g')]> gs) <= holders id (<[tid := (p, g)]> gs)) as Hle.
  { rewrite !holders_insert. destruct Hg as [->|[-> _]]; repeat case_match; lia. }
  split; [done|lia|intros; apply H3; lia|done|]. intros t q Ht. destruct (decide (t = tid)) as [->|Hne].
  - rewrite lookup_insert_eq in Ht. simplify_eq. destruct Hg as [Hg|[_ Hg]]; [|done].
    cbn in Hg. by rewrite bool_decide_eq_true_2 in Hg.
  - rewrite lookup_insert_ne in Ht by done. apply (H5 t q). by rewrite lookup_insert_ne.
Qed.

(** ... and what is paid stays paid. *)
Lemma paid_note w w' gs g g' :
  paid_sends w (<[tid := (p, g)]> gs) -> w_db w' = w_db w -> w_wallet w' = w_wallet w ->
  (forall id, holds id g' = true -> holds id g = true) -> paid_sends w' (<[tid := (p, g')]> gs).
Proof.
  intros [H1 H2 H3] Hd Hw Hg. split; rewrite ?Hd, ?Hw; [done| |done]. intros t q h id Ht Hh.
  destruct (decide (t = tid)) as [->|Hne].
  - rewrite lookup_insert_eq in Ht. simplify_eq. eapply (H2 tid); [apply lookup_insert_eq|auto].
  - rewrite lookup_insert_ne in Ht by done. eapply (H2 t); [by rewrite lookup_insert_ne|done].
Qed.

Lemma sending_count_set q i f w id :
  sending_count id (memory_of q (on_process i f w))
  = if decide (q = i) then sending_count id (f (memory_of i w)) else sending_count id (memory_of q w).
Proof.
  unfold memory_of at 1, on_process. cbn. case_decide as Hq; subst;
    [by rewrite lookup_insert_eq|by rewrite lookup_insert_ne].
Qed.

(** Entering and leaving, in the count and in the notes at once. *)
Lemma memory_safe w gs g g' f :
  sends_inv w (<[tid := (p, g)]> gs) ->
  (forall id, Z.of_nat (sending_count id (f (memory_of p w)))
     = Z.of_nat (sending_count id (memory_of p w)) - (if in_flight id g then 1 else 0) + (if in_flight id g' then 1 else 0)) ->
  (forall id, holds id g' = false) -> sends_inv (on_process p f w) (<[tid := (p, g')]> gs).
Proof.
  intros (Hb & Hs & Hp) Hf Hh. split; [|split].
  - intros q i. rewrite sending_count_set. specialize (Hb q i). rewrite busy_insert in *. case_decide as Hq; subst.
    + rewrite Hf. rewrite Z.eqb_refl in *. cbn in *. lia.
    + rewrite (proj2 (Z.eqb_neq p q)) in * by congruence. cbn in *. lia.
  - intros Hc i Hi. eapply (sends_ok_note _ _ g); [|left; apply Hh]. destruct (Hs Hc i Hi). by split.
  - eapply paid_note; [exact Hp|done|done|]. intros id. by rewrite Hh.
Qed.

Lemma sending_count_insert id i n m :
  sending_count i (set_sendingNow <[id := n]> m) = if decide (id = i) then n else sending_count i m.
Proof. unfold sending_count. cbn. case_decide as H; subst; [by rewrite lookup_insert_eq|by rewrite lookup_insert_ne]. Qed.

Lemma enter_safe id (Q : result err () -> note -> Prop) :
  Q (Ok ()) (Entered id) -> safely (enterSending p id) Q Idle.
Proof.
  intros HQ o w gs Hi. cbn. exists (Entered id). split; [|done]. eapply memory_safe; [exact Hi| |done].
  intros i. rewrite sending_count_insert. cbn. case_bool_decide; case_decide; subst; try congruence; lia.
Qed.

Lemma leave_safe id g (Q : result err () -> note -> Prop) :
  in_flight id g = true -> Q (Ok ()) Idle -> safely (leaveSending p id) Q g.
Proof.
  intros Hg HQ o w gs Hi. cbn. exists Idle. split; [|done]. eapply memory_safe; [exact Hi| |done].
  pose proof (busy_elem p id _ tid g (lookup_insert_eq gs tid (p, g)) Hg) as Hpos. rewrite <- (proj1 Hi p id) in Hpos.
  intros i. assert (in_flight i g = bool_decide (id = i)) as ->.
  { destruct g; cbn in *; try done; bool_to_prop; subst; done. }
  destruct (sending_count id (memory_of p w) - 1)%nat as [|n] eqn:Hn.
  - unfold sending_count at 1. cbn. case_bool_decide; subst.
    + rewrite lookup_delete_eq. cbn. lia.
    + rewrite lookup_delete_ne by done. unfold sending_count. lia.
  - rewrite sending_count_insert. change (in_flight i Idle) with false.
    case_decide; case_bool_decide; subst; try congruence; lia.
Qed.

Lemma busy_note g g' gs q i :
  (forall j, in_flight j g = in_flight j g') -> busy q i (<[tid := (p, g)]> gs) = busy q i (<[tid := (p, g')]> gs).
Proof. intros H. by rewrite !busy_insert, H. Qed.

Lemma claim_calm id ord d :
  orders d !! id = Some ord -> awaiting ord && not_recorded ord = true ->
  calm d (on_orders <[id := set_mode (Some Auto) (set_status OSending ord)]> d).
Proof.
  intros Hid Hg. unfold awaiting in Hg. bool_to_prop. eapply calm_insert; [exact Hid|]. apply row_calm_of; [by left|done|].
  intros _. apply settled_spec. auto.
Qed.

Lemma claimed_paid w gs id ord :
  paid_sends w (<[tid := (p, Entered id)]> gs) -> orders (w_db w) !! id = Some ord ->
  awaiting ord && not_recorded ord = true ->
  paid_sends (on_db (on_orders <[id := set_mode (Some Auto) (set_status OSending ord)]>) w) (<[tid := (p, Claimed id)]> gs).
Proof.
  intros [H1 H2 H3] Hid Hg. pose proof (claim_calm id ord (w_db w) Hid Hg) as [_ Hpd Hdb].
  split; cbn [w_db w_wallet on_db]; [by apply Hdb| |by eauto].
  assert (order_paid id (w_db w)) as Hpaid.
  { exists ord. split; [done|]. apply (H1 id); [done|]. unfold awaiting in Hg. bool_to_prop. apply settled_spec. auto. }
  intros t q g i Ht Hh. apply Hpd. destruct (decide (t = tid)) as [->|Hne].
  - rewrite lookup_insert_eq in Ht. simplify_eq. cbn in Hh. apply bool_decide_eq_true_1 in Hh. by subst i.
  - rewrite lookup_insert_ne in Ht by done. eapply (H2 t); [by rewrite lookup_insert_ne|done].
Qed.

Lemma claimed_inv w gs id ord :
  sends_inv w (<[tid := (p, Entered id)]> gs) -> orders (w_db w) !! id = Some ord ->
  awaiting ord && not_recorded ord = true ->
  sends_inv (on_db (on_orders <[id := set_mode (Some Auto) (set_status OSending ord)]>) w) (<[tid := (p, Claimed id)]> gs).
Proof.
  intros (Hb & Hs & Hp) Hid Hg. split; [intros q i; rewrite (busy_note (Claimed id) (Entered id)); [apply Hb|done]|].
  split; [|by apply claimed_paid]. clear Hp. intros Hc i Hi. specialize (Hs Hc i Hi). destruct (decide (i = id)) as [->|Hne].
  - assert (~ order_gone id (w_db w)) as Hno.
    { intros (o & Ho & Hgo). simplify_eq. unfold gone, awaiting, not_recorded in *. bool_to_prop. destruct Hgo; congruence. }
    destruct Hs as [H1 H2 H3 H4 H5]. rewrite holders_insert in *. cbn in *.
    pose proof (holders_nonneg id (delete tid gs)).
    assert (holders id (delete tid gs) = 0) as H0 by (destruct (decide (0 < holders id (delete tid gs) + 0)); [by destruct Hno; apply H3|lia]).
    assert (sends_of id (w_wallet w) = []) as Hw.
    { destruct (sends_of id (w_wallet w)) eqn:E; [done|]. destruct Hno. by apply H4. }
    split; cbn; rewrite ?holders_insert, ?H0; cbn.
    + done.
    + case_bool_decide; lia.
    + intros _. eexists. split; [cbn; apply lookup_insert_eq|by left].
    + done.
    + done.
  - destruct Hs as [H1 H2 H3 H4 H5]. rewrite holders_insert in *.
    assert (forall o, orders (w_db w) !! i = Some o -> orders (w_db (on_db (on_orders <[id := set_mode (Some Auto) (set_status OSending ord)]>) w)) !! i = Some o) as Hk.
    { intros o Ho. cbn. by rewrite lookup_insert_ne. }
    split; cbn in *; rewrite ?holders_insert; cbn.
    + done.
    + case_bool_decide; [congruence|done].
    + case_bool_decide; [congruence|]. intros (o & Ho & Hgo)%H3. exists o. split; [cbn; by rewrite lookup_insert_ne|done].
    + intros (o & Ho & Hgo)%H4. exists o. split; [cbn; by rewrite lookup_insert_ne|done].
    + intros t q Ht. apply (H5 t q). destruct (decide (t = tid)) as [->|Hnt].
      * rewrite lookup_insert_eq in Ht. congruence.
      * rewrite lookup_insert_ne in * by done. done.
Qed.

Lemma sends_of_app id l k : sends_of id (l ++ k) = sends_of id l ++ sends_of id k.
Proof. apply filter_app. Qed.
Lemma sends_of_other id t : x_comment t <> id -> sends_of id [t] = [].
Proof. intros H. unfold sends_of, is_send. cbn. rewrite bool_decide_eq_false_2 by done. done. Qed.

Lemma sent_paid w gs id tx :
  x_comment tx = id -> paid_sends w (<[tid := (p, Claimed id)]> gs) ->
  paid_sends (on_wallet (fun l => l ++ [tx]) w) (<[tid := (p, Attempted id)]> gs).
Proof.
  intros Hx [H1 H2 H3]. split; cbn.
  - done.
  - apply (paid_note w w gs (Claimed id) (Attempted id)); [by split|done|done|done].
  - intros t [Ht|Ht%list_elem_of_singleton]%elem_of_app Hsend Hne; [auto|]. subst t. rewrite Hx.
    eapply (H2 tid); [apply lookup_insert_eq|]. cbn. by apply bool_decide_eq_true_2.
Qed.

Lemma sent_inv w gs id tx :
  x_comment tx = id -> sends_inv w (<[tid := (p, Claimed id)]> gs) ->
  sends_inv (on_wallet (fun l => l ++ [tx]) w) (<[tid := (p, Attempted id)]> gs).
Proof.
  intros Hx (Hb & Hs & Hp). split; [intros q i; rewrite (busy_note (Attempted id) (Claimed id)); [apply Hb|done]|].
  split; [|by apply sent_paid]. clear Hp. intros Hc i Hi. specialize (Hs Hc i Hi). destruct (decide (i = id)) as [->|Hne].
  - pose proof (so_fresh _ _ _ Hs tid p (lookup_insert_eq _ _ _)) as Hw.
    assert (order_gone id (w_db w)) as Hg.
    { apply (so_claimed _ _ _ Hs). eapply Z.lt_le_trans; [|eapply (holder_busy id _ tid); [apply lookup_insert_eq|]]; [lia|].
      cbn. by rewrite bool_decide_eq_true_2. }
    assert (forall t q, <[tid:=(p, Attempted id)]> gs !! t <> Some (q, Claimed id)) as Hno.
    { intros t q Ht. destruct (decide (t = tid)) as [->|Hnt]; [rewrite lookup_insert_eq in Ht; congruence|].
      apply Hnt. eapply (only_holder id gs tid p (Claimed id) t q); [apply Hs|cbn; by apply bool_decide_eq_true_2|].
      rewrite lookup_insert_ne in * by done. done. }
    destruct Hs as [H1 H2 H3 H4 H5]. split; cbn.
    + rewrite sends_of_app, Hw. unfold sends_of. cbn. case_decide; cbn; lia.
    + rewrite holders_insert in *. done.
    + done.
    + done.
    + intros t q Ht. by destruct (Hno t q).
  - destruct Hs as [H1 H2 H3 H4 H5].
    assert (sends_of i (w_wallet w ++ [tx]) = sends_of i (w_wallet w)) as E by
      (rewrite sends_of_app, sends_of_other by congruence; apply app_nil_r).
    rewrite holders_insert in *. split; cbn; rewrite ?E; try done; rewrite ?holders_insert; try done.
    intros t q Ht. apply (H5 t q). destruct (decide (t = tid)) as [->|Hnt].
    + rewrite lookup_insert_eq in *. congruence.
    + rewrite lookup_insert_ne in * by done. done.
Qed.

Lemma claim_safe id (Q : result err bool -> note -> Prop) :
  Q (Ok true) (Claimed id) -> (forall r, r <> Ok true -> Q r (Entered id)) -> safely (claim id) Q (Entered id).
Proof.
  intros Hyes Hno o w gs Hi. unfold run_stmt, update_order. cbn.
  assert (sends_inv (on_db (fun _ => w_db w) w) (<[tid := (p, Entered id)]> gs)) as Hi'.
  { eapply sends_inv_frame; [exact Hi|]. by apply frame_db. }
  destruct (orders (w_db w) !! id) as [ord|] eqn:Hid.
  - destruct (awaiting ord && not_recorded ord) eqn:Hg; destruct (or_link o);
      try (exists (Entered id); split; [done|by apply Hno]).
    + exists (Claimed id). split; [|done]. by apply claimed_inv.
    + exists (Entered id). split; [|by apply Hno]. eapply sends_inv_frame; [exact Hi|].
      apply (frame_db w (on_orders <[id := set_mode (Some Auto) (set_status OSending ord)]>)). by apply claim_calm.
  - destruct (or_link o); exists (Entered id); (split; [done|by apply Hno]).
Qed.

Lemma send_safe to amount id (Q : result err string -> note -> Prop) :
  (forall r, Q r (Attempted id)) -> safely (sendtoaddress to amount id) Q (Claimed id).
Proof.
  intros HQ o w gs Hi. cbn. destruct (or_link o); exists (Attempted id); (split; [|by apply HQ]).
  - by apply sent_inv.
  - destruct Hi as (Hb & Hs & Hp). split; [|split].
    + intros q i. rewrite (busy_note (Attempted id) (Claimed id)); [apply Hb|done].
    + intros Hc i Hi. apply (sends_ok_note _ _ (Claimed id)); [by apply Hs|]. cbn. case_bool_decide; [by right|by left].
    + by eapply paid_note.
  - by apply sent_inv.
Qed.

(** The wallet answered that nothing was sent: nothing was. *)
Lemma look_safe id (Q : result err (result err (option string)) -> note -> Prop) :
  Q (Ok (Ok None)) (Claimed id) -> (forall r, r <> Ok (Ok None) -> Q r (Attempted id)) ->
  safely (alreadySent id) Q (Attempted id).
Proof.
  intros Hnone Hother. unfold alreadySent, attempt, findSentTx, rpc. cbn. intros o w gs Hi.
  destruct (or_link o); [|exists (Attempted id); split; [done|by apply Hother]..].
  assert (frame w (note_missed id w)) as Hf.
  { unfold note_missed. case_match; [|done]. case_match; [done|]. split; try done. by intros [[=] _]. }
  destruct (sends_of id (recent (w_wallet w))) as [|tx l] eqn:Hr; cbn.
  - exists (Claimed id). split; [|done]. destruct Hi as (Hb & Hs & Hp). split; [|split; [|]].
    + intros q i. rewrite (busy_note (Claimed id) (Attempted id)); [|done]. rewrite <- Hb. f_equal. apply Hf.
    + intros Hc i Hi. specialize (Hs (fr_clean _ _ Hf Hc) i Hi). unfold note_missed in *. rewrite Hr in *.
      destruct (sends_of id (w_wallet w)) as [|tx l] eqn:Hw; [|by destruct Hc].
      destruct (decide (i = id)) as [->|Hne].
      * destruct Hs as [H1 H2 H3 H4 H5]. rewrite holders_insert in *. split; rewrite ?holders_insert; try done.
      * apply (sends_ok_note _ _ (Attempted id)); [done|]. left. cbn. by apply bool_decide_eq_false_2.
    + eapply paid_note; [exact Hp| |apply Hf|done]. unfold note_missed. by repeat case_match.
  - exists (Attempted id). split; [by eapply sends_inv_frame|by apply Hother].
Qed.

(** An order whose holder lets go of it, nothing sent, may be anything. *)
Lemma let_go w w' gs gs' id :
  sends_inv w gs -> w_wallet w' = w_wallet w ->
  (forall pid i, sending_count i (memory_of pid w') = sending_count i (memory_of pid w)) ->
  (forall pid i, busy pid i gs' = busy pid i gs) ->
  (clean w' -> clean w /\ holders id gs' = 0 /\ sends_of id (w_wallet w) = []) ->
  (forall i, i <> id -> holders i gs' = holders i gs) ->
  (forall i t q, i <> id -> gs' !! t = Some (q, Claimed i) -> gs !! t = Some (q, Claimed i)) ->
  (forall i, i <> id -> orders (w_db w') !! i = orders (w_db w) !! i) ->
  paid_sends w' gs' -> sends_inv w' gs'.
Proof.
  intros (Hb & Hs & _) Hw Hm Hbusy Hid Hh Hcl Ho Hp. split; [intros q i; by rewrite Hm, Hbusy|].
  split; [|done]. intros Hc i Hi. destruct (Hid Hc) as (Hc' & Hh0 & Hs0). destruct (Hs Hc' i Hi) as [H1 H2 H3 H4 H5].
  destruct (decide (i = id)) as [->|Hne].
  - split; rewrite ?Hw, ?Hh0, ?Hs0; cbn; try done; lia.
  - assert (order_gone i (w_db w) -> order_gone i (w_db w')) as Hg by (intros (o & Hoi & Hgo); exists o; by rewrite Ho).
    split; rewrite ?Hw, ?Hh by done; auto. intros t q Ht. by eapply H5, Hcl.
Qed.

Lemma unclaimed w gs id :
  clean w -> id <> "" -> sends_inv w (<[tid := (p, Claimed id)]> gs) ->
  holders id (<[tid := (p, Entered id)]> gs) = 0 /\ sends_of id (w_wallet w) = [].
Proof.
  intros Hc Hid (_ & Hs & _). destruct (Hs Hc id Hid) as [H1 H2 H3 H4 H5]. split; [|by eapply H5, lookup_insert_eq].
  rewrite holders_insert in *. cbn in *. rewrite bool_decide_eq_true_2 in H2 by done.
  pose proof (holders_nonneg id (delete tid gs)). lia.
Qed.

Lemma update_order_step id guard f o w :
  exists d, (run_stmt (fun _ => update_order id guard f) o w).2 = on_db (fun _ => d) w
    /\ (forall i, i <> id -> orders d !! i = orders (w_db w) !! i)
    /\ (orders d !! id = orders (w_db w) !! id
        \/ exists x, orders (w_db w) !! id = Some x /\ guard x = true /\ orders d !! id = Some (f x)).
Proof.
  assert (w = on_db (fun _ => w_db w) w) as Hw by (by destruct w).
  unfold run_stmt, update_order. destruct (orders (w_db w) !! id) as [ord|] eqn:Hid; [destruct (guard ord) eqn:Hg|]; destruct (or_link o);
    cbn; eauto; (eexists; split; [reflexivity|]); (split; [intros i Hne; cbn; by rewrite lookup_insert_ne|]);
    right; exists ord; (split; [done|]); (split; [done|]); cbn; apply lookup_insert_eq.
Qed.

Lemma paid_change w gs d id x x' :
  paid_sends w gs -> (forall i, i <> id -> orders d !! i = orders (w_db w) !! i) ->
  orders (w_db w) !! id = Some x -> orders d !! id = Some x' -> paid x -> paid x' -> paid_sends (on_db (fun _ => d) w) gs.
Proof.
  intros [H1 H2 H3] Ho Hx Hx' Hp Hp'.
  assert (forall i, order_paid i (w_db w) -> order_paid i d) as Hpd.
  { intros i (y & Hy & Hyp). destruct (decide (i = id)) as [->|Hne]; [by exists x'|]. exists y. by rewrite Ho. }
  split; cbn; [|eauto..]. intros i y Hy Hs. destruct (decide (i = id)) as [->|Hne]; [by simplify_eq|].
  rewrite Ho in Hy by done. by apply (H1 i).
Qed.

Lemma release_paid w gs d id f :
  paid_sends w (<[tid := (p, Claimed id)]> gs) -> (forall o, o_paid_payment_id (f o) = o_paid_payment_id o) ->
  (forall i, i <> id -> orders d !! i = orders (w_db w) !! i) ->
  (orders d !! id = orders (w_db w) !! id \/ exists x, orders (w_db w) !! id = Some x /\ orders d !! id = Some (f x)) ->
  paid_sends (on_db (fun _ => d) w) (<[tid := (p, Entered id)]> gs).
Proof.
  intros Hp Hf Ho Hid. apply (paid_note (on_db (fun _ => d) w) _ _ (Claimed id)); [|done..].
  destruct (ps_held _ _ Hp tid p _ id (lookup_insert_eq _ _ _)) as (x & Hx & Hpx); [cbn; by apply bool_decide_eq_true_2|].
  destruct Hid as [Hid|(x' & Hx' & Hid)]; [|rewrite Hx in Hx'; injection Hx' as <-].
  - apply (paid_change w _ d id x x); auto. by rewrite Hid.
  - apply (paid_change w _ d id x (f x)); auto. unfold paid. by rewrite Hf.
Qed.

Lemma release_safe id guard f :
  (forall o, o_paid_payment_id (f o) = o_paid_payment_id o) ->
  safely (q_ (update_order id guard f)) (fun _ g' => in_flight id g' = true) (Claimed id).
Proof.
  intros Hf o w gs Hi. destruct (update_order_step id guard f o w) as (d & Hd & Ho & Hid).
  destruct (run_stmt _ o w) as [r w']. cbn in Hd. subst w'. exists (Entered id). split; [|cbn; by apply bool_decide_eq_true_2].
  assert (paid_sends (on_db (fun _ => d) w) (<[tid := (p, Entered id)]> gs)) as Hps.
  { apply (release_paid w gs d id f); [apply Hi|done|done|naive_solver]. }
  destruct (decide (id = "")) as [->|Hne].
  - destruct Hi as (Hb & Hs & _). split; [intros q i; rewrite (busy_note (Entered "") (Claimed "")); [apply Hb|done]|].
    split; [|done]. intros Hc i Hi. destruct (sends_ok_note w gs (Claimed "") (Entered "") i (Hs Hc i Hi)) as [H1 H2 H3 H4 H5]; [by left|].
    assert (order_gone i (w_db w) -> order_gone i d) as Hg by (intros (x & Hx & Hgx); exists x; by rewrite Ho).
    split; cbn; auto.
  - eapply (let_go w); [exact Hi|done|done| | | | |done|done].
    + intros q i. by apply busy_note.
    + intros Hc. split; [done|]. by apply unclaimed.
    + intros i Hii. rewrite !holders_insert. cbn. by rewrite bool_decide_eq_false_2 by congruence.
    + intros i t q Hii Ht. destruct (decide (t = tid)) as [->|Hnt]; [rewrite lookup_insert_eq in Ht; congruence|].
      rewrite lookup_insert_ne in * by done. done.
Qed.

Definition flying {A} (id : string) (_ : result err A) (g : note) : Prop := in_flight id g = true.

Lemma quiet_flying {A} (m : program A) id g : in_flight id g = true -> quiet m -> safely m (flying id) g.
Proof. intros Hg Hm. by apply quiet_safe. Qed.

Lemma after_flying {A B} (m : program A) (f : A -> program B) id g :
  safely m (flying id) g -> (forall a, quiet (f a)) -> safely (m ≫= f) (flying id) g.
Proof.
  intros Hm Hf. apply safe_seq. eapply safe_mono; [|exact Hm]. intros [a|e] g' Hg; [|done]. by apply quiet_flying.
Qed.

Lemma flying_of id : in_flight id (Entered id) = true /\ in_flight id (Claimed id) = true /\ in_flight id (Attempted id) = true.
Proof. cbn. by rewrite bool_decide_eq_true_2. Qed.

Lemma send_failed_safe id : safely (send_failed id) (flying id) (Attempted id).
Proof.
  destruct (flying_of id) as (He & Hc & Ha). unfold send_failed. apply safe_seq, look_safe.
  - apply after_flying; [by apply release_safe|]. intros _. quiet.
  - intros [seen|e] Hne; [|done]. apply quiet_flying; [done|]. destruct seen as [[txid|]|e]; [quiet|done|quiet].
    apply quiet_q_, gone_update_order. intros o _. by apply row_calm_of.
Qed.

Lemma send_claimed_safe id o : safely (send_claimed id o) (flying id) (Claimed id).
Proof.
  destruct (flying_of id) as (He & Hc & Ha). unfold send_claimed. apply safe_seq.
  unfold attempt. apply safe_try, safe_seq, send_safe. intros [txid|e].
  - apply (quiet_flying (_ ← recordSent id txid; _ ← notify "Sent"; mret (sent txid))); [done|quiet].
  - apply send_failed_safe.
Qed.

Lemma deliver_claim_safe id o : safely (deliver_claim id o) (flying id) (Entered id).
Proof.
  destruct (flying_of id) as (He & Hc & Ha). unfold deliver_claim. apply safe_seq, claim_safe.
  - cbv beta iota delta [negb]. apply safe_seq, quiet_safe; [by auto with frame|]. intros [bal2|e]; [|done].
    apply safe_seq, quiet_safe; [apply quiet_settings|]. intros [S|e]; [|done].
    destruct (match bal2 with Ok b => _ | Err _ => _ end).
    + apply after_flying; [by apply release_safe|]. intros _. quiet.
    + apply send_claimed_safe.
  - intros [[]|e] Hne; [by destruct Hne|exact He..].
Qed.

Lemma quiet_alreadySent id : quiet (alreadySent id).
Proof. apply quiet_attempt, quiet_missed. Qed.

Lemma gone_set_error id guard e : calm_stmt (update_order id guard (set_error e)).
Proof. apply gone_update_order. intros o _. by apply row_calm_of. Qed.
Lemma gone_set_mode id guard m : calm_stmt (update_order id guard (set_mode m)).
Proof. apply gone_update_order. intros o _. by apply row_calm_of. Qed.
Lemma gone_set_held id guard e m : calm_stmt (update_order id guard (fun o => set_error e (set_mode m o))).
Proof. apply gone_update_order. intros o _. by apply row_calm_of. Qed.
End steps.

#[export] Hint Resolve quiet_alreadySent gone_set_error gone_set_mode gone_set_held : frame.

Lemma quiet_deliver_check id force : quiet (deliver_check id force).
Proof. unfold deliver_check. quiet. Qed.
Lemma quiet_crashed e : quiet (crashed e).
Proof. unfold crashed. quiet. Qed.
#[export] Hint Resolve quiet_deliver_check quiet_crashed : frame.

Lemma deliver_safe tid pid id force (Q : result err reply -> note -> Prop) :
  (forall r, Q r Idle) -> safe sends_inv tid pid (deliver pid id force) Q Idle.
Proof.
  intros HQ. unfold deliver. apply safe_seq, quiet_safe; [quiet|]. intros [[r|o]|e]; [apply HQ| |apply HQ].
  apply safe_seq, enter_safe. apply safe_finally, safe_try.
  eapply safe_mono; [|apply deliver_claim_safe]. intros [r|e] g Hg.
  - eapply leave_safe; [exact Hg|apply HQ].
  - apply quiet_safe; [apply quiet_crashed|]. intros r. eapply leave_safe; [exact Hg|destruct r; apply HQ].
Qed.

(** ** The sweep and the operator *)

Lemma not_being_sent id w :
  being_sent id w = false ->
  (forall pid, sending_count id (memory_of pid w) = 0%nat) /\ sends_of id (w_wallet w) = [].
Proof.
  unfold being_sent. intros H. bool_to_prop. split; [|done]. intros pid. unfold memory_of.
  destruct (w_memory w !! pid) as [m|] eqn:Hm; [|done]. cbn. unfold sending_count.
  destruct (m_sendingNow m !! id) eqn:Hs; [exfalso|done]. apply not_true_iff_false in H. apply H.
  apply existsb_exists. exists m. split; [|by apply bool_decide_eq_true_2].
  apply list_elem_of_In, list_elem_of_fmap. exists (pid, m). split; [done|]. by apply elem_of_map_to_list.
Qed.

Lemma hand_back_safe tid pid id g (Q : result err () -> note -> Prop) :
  (forall r, Q r g) -> safe sends_inv tid pid (hand_back id) Q g.
Proof.
  intros HQ o w gs Hi. destruct (update_order_step id in_sending (fun o => set_error (Some NoTransactionFound)
    (set_status ONeedsReview o)) o w) as (d & Hd & Ho & Hid).
  destruct (run_stmt _ o w) as [r w']. cbn in Hd. subst w'. exists g. split; [|apply HQ].
  cbn [w_db on_db]. destruct Hid as [Hid|(x & Hx & Hg & Hx')].
  - assert (sends_inv (on_db (fun _ => d) w) (<[tid := (pid, g)]> gs)) as H.
    { eapply sends_inv_frame; [exact Hi|]. apply frame_db, calm_rows. intros i. left.
      destruct (decide (i = id)) as [->|Hne]; [done|by apply Ho]. }
    rewrite Hid. destruct (orders (w_db w) !! id) as [x|]; [|done]. by destruct (in_sending x).
  - rewrite Hx, Hx', Hg. cbn. eapply (let_go w _ _ _ id); [exact Hi|done..| |done|done|done|].
    + intros [Hm Hc]. cbn in Hc. apply Forall_cons in Hc as [Hb Hc]. cbn in Hb.
      apply not_being_sent in Hb as [Hz Hs]. split; [by split|]. split; [|done].
      apply holders_none. intros q. by rewrite <- (proj1 Hi), Hz.
    + assert (paid x) as Hpx.
      { apply (ps_db _ _ (proj2 (proj2 Hi)) id); [done|]. unfold in_sending in Hg. bool_to_prop. apply settled_spec. auto. }
      destruct (paid_change w (<[tid := (pid, g)]> gs) d id x _ (proj2 (proj2 Hi)) Ho Hx Hx' Hpx Hpx). by split.
Qed.

(** A whole request, or a part of one, that starts and ends with nothing in flight. *)
Section resting.
Context (tid : nat) (pid : Z).
Definition resting {A} (m : program A) : Prop := safe sends_inv tid pid m (fun _ g => g = Idle) Idle.

Lemma resting_quiet {A} (m : program A) : quiet m -> resting m.
Proof. intros Hm. by apply quiet_safe. Qed.
Lemma resting_bind {A B} (m : program A) (f : A -> program B) : resting m -> (forall a, resting (f a)) -> resting (m ≫= f).
Proof. intros Hm Hf. apply safe_seq. eapply safe_mono; [|exact Hm]. intros [a|e] g ->; [apply Hf|done]. Qed.
Lemma resting_try {A} (m : program A) (h : err -> program A) : resting m -> (forall e, resting (h e)) -> resting (try_io m h).
Proof. intros Hm Hh. apply safe_try. eapply safe_mono; [|exact Hm]. intros [a|e] g ->; [done|apply Hh]. Qed.
Lemma resting_every {A} (f : A -> program ()) l : (forall a, resting (f a)) -> resting (every f l).
Proof. intros Hf. induction l as [|a l IH]; [by apply resting_quiet|]. by apply resting_bind; [apply Hf|]. Qed.
Lemma resting_deliver id force : resting (deliver pid id force).
Proof. by apply deliver_safe. Qed.
Lemma resting_hand_back id : resting (hand_back id).
Proof. by apply hand_back_safe. Qed.
End resting.
#[export] Hint Resolve resting_deliver resting_hand_back : frame.

Ltac resting_step :=
  match goal with
  | |- resting _ _ (mret _) => by apply resting_quiet
  | |- resting _ _ (throw_io _) => by apply resting_quiet
  | |- resting _ _ (_ ≫= _) => apply resting_bind; [|intros ?]
  | |- resting _ _ (try_io _ _) => apply resting_try; [|intros ?]
  | |- resting _ _ (every _ _) => apply resting_every; intros ?
  | |- resting _ _ (ignore_io _) => apply resting_bind; [|intros ?]
  | |- resting _ _ (match ?x with _ => _ end) => destruct x
  | |- resting _ _ _ => solve [eauto 5 with frame nocore | apply resting_quiet; eauto 5 with frame nocore]
  end.
Ltac resting := repeat resting_step.

Lemma gone_stuck e : calm_stmt (stuck_orders e).
Proof. apply gone_select. Qed.
Lemma gone_reviewed id : calm_stmt (update_order id (fun o => bool_decide (o_status o = ONeedsReview)) (set_status OAwaiting)).
Proof.
  apply gone_update_order. intros o Hr. bool_to_prop. apply row_calm_of; [|done|].
  - intros [Ho|Ho]; [congruence|by right].
  - intros _. apply settled_spec. auto.
Qed.
#[export] Hint Resolve gone_stuck gone_reviewed : frame.

Lemma quiet_busy pid id : quiet (local (fun w => (is_sending pid id w, w))).
Proof. by apply quiet_local. Qed.
#[export] Hint Resolve quiet_busy : frame.

Lemma reconcile_resting tid pid p : resting tid p (reconcileSending pid).
Proof. unfold reconcileSending, reconcile_one. resting. Qed.
Lemma admin_send_resting tid pid id reviewed : resting tid pid (admin_send pid id reviewed).
Proof. unfold admin_send. resting. Qed.
Lemma cli_send_resting tid pid id reviewed : resting tid pid (cli_send pid id reviewed).
Proof. unfold cli_send. resting. Qed.
#[export] Hint Resolve reconcile_resting admin_send_resting cli_send_resting : frame.
