(* ===== verification/MarketIpn.v ===== *)
(** * The payment callback (contrib/market/ipn.mjs)

    A signed callback is logged, read, and decided: an order is accepted and sent,
    held for a human, closed, or left alone. The first payment an order takes is
    written on it by the statement that moves it out of the unpaid states, and
    nothing pays it again. The signature itself is checked before this. *)

From Stdlib Require Import Ascii SpecFloat.
From S2P Require Import Prelude JsInt JsNum JsText MarketPrice Tasks MarketDb MarketLadder MarketDelivery.
Local Open Scope Z_scope.

(** ** Numbers of a body *)

Definition DECIMAL_RE (s : string) : bool := bool_decide (is_Some (decimal (js_trim s))).
(** A plain decimal, as a JSON number or a string; anything else is unreadable. *)
Definition readNumber (v : json) : option js_num :=
  match v with
  | JNum n _ => if is_finite n then Some n else None
  | JStr s => x ← decimal (js_trim s); let n := number_of_decimal x in if is_finite n then Some n else None
  | _ => None
  end.

(** ** What a callback is worth *)

Record callback := {
  d_payment_id : json; d_order_id : json; d_payment_status : json; d_actually_paid : json; d_pay_amount : json;
  d_price_amount : json; d_price_currency : json; d_pay_currency : json; d_invoice_id : json;
  d_parent_payment_id : json }.

(** 0.005 *)
Definition FINISHED_TOLERANCE : js_num := num_ratio 5 1000.
Definition nearly_all : js_num := num_sub (num 1) FINISHED_TOLERANCE.

Definition paidRatio (d : callback) : option js_num :=
  match readNumber (d_actually_paid d), readNumber (d_pay_amount d) with
  | Some paid, Some due => if negb (positive due) || num_ltb paid zero then None else Some (num_div paid due)
  | _, _ => None
  end.

Inductive kind := Pay | Underpaid | Unreadable | Wait | Fails (to : order_status).
#[export] Instance kind_eq_dec : EqDecision kind.
Proof. solve_decision. Defined.
Record class := { c_status : string; c_kind : kind; c_ratio : option js_num }.

Definition classify (d : callback) : class :=
  let status := text_or_empty (d_payment_status d) in
  let ratio := paidRatio d in
  {| c_status := status; c_ratio := ratio;
     c_kind :=
       if String.eqb status "failed" then Fails OFailed else
       if String.eqb status "expired" then Fails OExpired else
       if String.eqb status "refunded" then Fails ORefunded else
       if String.eqb status "partially_paid" then (match ratio with None => Unreadable | Some _ => Underpaid end) else
       if String.eqb status "finished" then
         (match ratio with None => Unreadable | Some r => if num_leb nearly_all r then Pay else Underpaid end) else
       if String.eqb status "confirmed" then
         (match ratio with Some r => if num_leb (num 1) r then Pay else Wait | None => Wait end) else
       Wait |}.

(** The parent's payment_id of a child payment. *)
Definition parentPaymentId (d : callback) : option string :=
  match d_parent_payment_id d with
  | JMissing | JNull => None
  | JNum n t => if num_eqb n zero then None else Some t
  | v => let s := js_String v in if match v with JStr _ => String.eqb s "" || String.eqb s "0" | _ => false end then None else Some s
  end.

(** Whole cents. *)
Definition cents_of (n : js_num) : option js_num :=
  if num_leb (num (10 ^ 13)) (SFabs n) then None
  else Some (js_round (num_ratio (to_fixed 6 (num_mul n (num 100))) (10 ^ 6))).
Definition cents (v : json) : option js_num := n ← readNumber v; cents_of n.
Definition cents_column (c : Z) : option js_num := cents_of (num_ratio c 100).

Definition invoicePrice (o : order) : Z := default (o_usd o) (o_invoice_usd o).

Definition lower (s : string) : string := String.string_of_list_ascii (map (fun c =>
  let n := Ascii.nat_of_ascii c in if ((65 <=? n) && (n <=? 90))%nat then Ascii.ascii_of_nat (n + 32) else c)
  (String.list_ascii_of_string s)).

(** Does this callback not belong to this order's invoice? *)
Definition invoiceMismatch (d : callback) (o : order) : bool :=
  match cents (d_price_amount d), cents_column (invoicePrice o) with
  | Some price, Some ours =>
      if negb (num_eqb price ours) then true else
      if negb (match d_price_currency d with JStr c => String.eqb (lower c) "usd" | _ => false end) then true else
      let iid := js_trim (default "" (o_invoice_id o)) in
      if String.eqb iid "" then true else
      negb (String.eqb (text_or_empty (d_invoice_id d)) iid)
  | _, _ => true
  end.

Definition UNPAID : list order_status := [OPending; OExpired; OFailed; ORefunded].
Definition unpaid (o : order) : bool := bool_decide (o_status o ∈ UNPAID).

Definition currency (d : callback) : option string :=
  let s := String.substring 0 24 (text_or_empty (d_pay_currency d)) in if String.eqb s "" then None else Some s.
(** What a DECIMAL(24,8) takes, or unknown. *)
Definition paidValue (d : callback) : option Z :=
  n ← readNumber (d_actually_paid d); if num_leb (num (10 ^ 16)) (SFabs n) then None else Some (to_fixed 8 n).

(** ** The event log *)

(** Which row a callback is on, and whether it wrote it. *)
Record event_ref := { ev_id : option nat; ev_fresh : bool }.

Definition same_event (key status : string) (e : ipn_event) : bool :=
  String.eqb (i_payment_id e) key && String.eqb (i_status e) status.
(** [INSERT INTO ipn_events], UNIQUE (payment_id, status): the new row's place. *)
Definition insert_event (key : string) (oid : option string) (status : string) : stmt nat := fun d =>
  if existsb (same_event key status) (ipn_events d) then (Err (DupEntry "uq_payment_status"), d)
  else (Ok (length (ipn_events d)),
        on_ipn_events (fun l => l ++ [{| i_payment_id := key; i_order_id := oid; i_status := status; i_outcome := None |}]) d).
Definition find_event (key status : string) : stmt (option nat) :=
  select (fun d => fst <$> list_find (fun e => same_event key status e = true) (ipn_events d)).

Definition logEvent (pid : string) (oid : option string) (status : string) : program event_ref :=
  let key := if String.eqb pid "" then String.substring 0 64 ("(none) " ++ default "" oid)%string else pid in
  r ← attempt (q_ (insert_event key oid status));
  match r with
  | Ok i => mret {| ev_id := Some i; ev_fresh := true |}
  | Err (DupEntry _) => i ← q_ (find_event key status); mret {| ev_id := i; ev_fresh := false |}
  | Err e => throw_io e
  end.

Definition WEAK (o : ipn_outcome) : bool := bool_decide (o ∈ [Ignored; Duplicate; Raced]).
Definition set_outcome (o : ipn_outcome) (e : ipn_event) : ipn_event := {|
  i_payment_id := i_payment_id e; i_order_id := i_order_id e; i_status := i_status e; i_outcome := Some o |}.
Definition record_outcome (i : nat) (o : ipn_outcome) : stmt () :=
  update (on_ipn_events (alter (fun e =>
    if WEAK o && negb (bool_decide (i_outcome e = None)) then e else set_outcome o e) i)).
Definition record (ev : event_ref) (o : ipn_outcome) : program () :=
  match ev_id ev with
  | Some i => try_io (q_ (record_outcome i o)) (fun _ => mret ())
  | None => mret ()
  end.

(** ** Telling a human, once *)

Definition tell (proc : Z) (key text : string) : program () := local (fun w =>
  if bool_decide (key ∈ m_told (memory_of proc w)) then ((), w) else
  ((), on_alerts (cons text) (on_process proc (set_told (fun told =>
         {[key]} ∪ (if (5000 <=? size told)%nat then ∅ else told))) w))).

(** ** The payment an order belongs to *)

Definition truthy (s : option string) : bool := match s with Some s => negb (String.eqb s "") | None => false end.
Definition MONEY_STATUSES : list string := ["confirmed"; "finished"; "partially_paid"].
Definition before_event (ev : event_ref) (i : nat) : bool :=
  match ev_id ev with
  | Some n => if ev_fresh ev then (i <? n)%nat else (i <=? n)%nat
  | None => false
  end.
Definition first_money (id : string) (ev : event_ref) (d : db) : option string :=
  head ((fun x : nat * ipn_event => i_payment_id x.2) <$> filter (fun x : nat * ipn_event =>
    i_order_id x.2 = Some id /\ i_status x.2 ∈ MONEY_STATUSES /\ before_event ev x.1 = true)
    (imap pair (ipn_events d))).
Definition tiedPayment (id : string) (o : order) (ev : event_ref) : program (option string) :=
  if truthy (o_paid_payment_id o) then mret (o_paid_payment_id o) else
  if unpaid o then mret None else
  first ← q_ (select (first_money id ev));
  mret (Some (default "(none on record)" first)).

(** ** What an underpayment buys *)

Record release := { r_usd : Z; r_pcn : Z }.

Definition fills_sum (id : string) (d : db) : Z :=
  zsum_by l_qty (filter (fun f => l_order f = id) (fills d)).
(** [Number(v)] of the base: the invoice price, or what the callback says. *)
Definition base_number (v : json) : js_num :=
  match v with JNum n _ => n | JNull => zero | JStr s => default S754_nan (number_of_decimal <$> decimal (js_trim s)) | _ => S754_nan end.
Definition release_of (o : order) (held : Z) (ratio : option js_num) (b : js_num) : option release :=
  let price := num_ratio (o_quoted_price o) (10 ^ 10) in
  let quote := if 0 <? held then num_ratio held (10 ^ 8) else order_pcn o in
  match ratio with
  | None => None
  | Some ratio =>
      if negb (positive b && positive price && positive quote) then None else
      let r := js_max zero (js_min (num 1) ratio) in
      let full := num_leb nearly_all r in
      let usd := if full then b else num_mul b r in
      let pcn := if full then quote else js_min quote (num_div usd price) in
      Some {| r_usd := to_fixed 2 usd; r_pcn := to_fixed 8 pcn |}
  end.
Definition releaseFor (id : string) (o : order) (ratio : option js_num) (base : js_num) : program (option release) :=
  held ← q_ (select (fills_sum id)); mret (release_of o held ratio base).

(** ** Writing a payment on an order *)

(** Another order that has this payment. *)
Definition tied_elsewhere (id pid : string) (d : db) : option string :=
  head (filter (fun x : string * order => x.1 <> id /\ o_paid_payment_id x.2 = Some pid) (map_to_list (orders d))).*1.

(** [UPDATE orders SET ..., paid_payment_id = ? WHERE order_id = ? AND guard]: UNIQUE (paid_payment_id). *)
Definition tie_order (id pid : string) (guard : order -> bool) (f : order -> order) : stmt bool := fun d =>
  match orders d !! id with
  | Some o =>
      if negb (guard o) then (Ok false, d) else
      match tied_elsewhere id pid d with
      | Some _ => (Err (DupEntry "uq_paid_payment"), d)
      | None => (Ok true, on_orders <[id := f o]> d)
      end
  | None => (Ok false, d)
  end.

Definition invoice_kept (o : order) : option Z := Some (invoicePrice o).

(** Settle the ladder and accept the order, in one transaction. *)
Inductive acceptance := Accepted | NotBacked | LostRace.
#[export] Instance acceptance_eq_dec : EqDecision acceptance.
Proof. solve_decision. Defined.
Definition sold_of (id : string) (d : db) : list ladder_fill :=
  filter (fun f => l_order f = id /\ l_state f = FSold) (fills d).
Definition takes_payment (o : order) : bool :=
  negb (truthy (o_paid_payment_id o)) && negb (truthy (o_delivered_txid o)) && unpaid o.
Definition accept_tx (id pid : string) (d : callback) (e : env) : stmt acceptance := with_tx (
  moved ← settleLadder id;
  row ← select_order id;
  match row with
  | Some o =>
      if negb (takes_payment o) then mret (true, LostRace) else
      sold ← select (sold_of id);
      let backed := (0 <? moved)%nat || (0 <? length sold)%nat in
      _ ← tie_order id pid (fun _ => true) (fun o =>
            set_payment (if backed then OAwaiting else ONeedsReview) (o_usd o) (o_quoted_pcn o) (invoice_kept o) pid
              (paidValue d) (currency d) (e_now e) (if backed then None else Some Unbacked) o);
      mret (false, if backed then Accepted else NotBacked)
  | None => mret (true, LostRace)
  end).

(** Tie the order to the payment and hold it. *)
Definition untied (o : order) : bool :=
  bool_decide (o_paid_payment_id o = None) && bool_decide (o_delivered_txid o = None) && unpaid o.
Definition hold_tx (id pid : string) (d : callback) (why : delivery_error) (rel : option release) (e : env) : stmt bool :=
  tie_order id pid untied (fun o =>
    set_payment ONeedsReview (default (o_usd o) (r_usd <$> rel)) (default (o_quoted_pcn o) (r_pcn <$> rel)) (invoice_kept o)
      pid (paidValue d) (currency d) (default (e_now e) (o_paid_at o)) (Some why) o).

(** ** The answers that decide nothing *)

Section handler.
Context (proc : Z).

Definition key (parts : list string) : string := String.concat "|" parts.

Definition paymentTiedElsewhere (id pid : string) : program ipn_outcome :=
  _ ← attempt (q_ (select (tied_elsewhere id pid)));
  _ ← tell proc (key ["elsewhere"; id; pid]) "One payment, two orders"; mret NeedsHuman.

Definition otherPayment (id pid : string) (d : callback) : program ipn_outcome :=
  _ ← tell proc (key ["other"; id; pid; js_String (d_actually_paid d)]) "Another payment on an order that already has one";
  mret NeedsHuman.

Definition unknownOrder (oid : option string) (pid : string) (d : callback) : program ipn_outcome :=
  _ ← tell proc (key ["unknown"; default "null" oid; pid; js_String (d_payment_status d)]) "Payment for an unknown order";
  mret UnknownOrder.

(** ** A callback for the payment the order has *)

(** The payment now reports less than the order was accepted on. *)
Definition contradicted (id pid : string) (d : callback) (c : class) : program ipn_outcome :=
  held ← q_ (update_order id (fun o => bool_decide (o_paid_payment_id o = Some pid) && awaiting o && not_recorded o)
              (fun o => set_error (Some PaymentNowLess) (set_status ONeedsReview o)));
  if negb held then mret Duplicate else
  _ ← tell proc (key ["contradicted"; id; pid; c_status c; js_String (d_actually_paid d)]) "A paid order's payment now reports less";
  mret Held.

(** More than the column's own rounding, 1e-8. *)
Definition EPS : js_num := num_ratio 1 (10 ^ 8).
Definition paid_num (o : order) : option js_num := (fun p => num_ratio p (10 ^ 8)) <$> o_paid_amount o.
Definition more_than (paid : option js_num) (had : option js_num) : bool :=
  match paid, had with Some p, Some h => num_ltb EPS (num_sub p h) | _, _ => false end.

Definition set_more (paid : Z) (invoice : option Z) (rel : option release) (o : order) : order := {|
  o_email := o_email o; o_usd := default (o_usd o) (r_usd <$> rel);
  o_invoice_usd := match o_invoice_usd o with Some u => Some u | None => invoice end; o_address := o_address o;
  o_quoted_pcn := default (o_quoted_pcn o) (r_pcn <$> rel); o_quoted_price := o_quoted_price o; o_status := o_status o;
  o_invoice_id := o_invoice_id o; o_paid_amount := Some paid; o_pay_currency := o_pay_currency o;
  o_paid_at := o_paid_at o; o_paid_payment_id := o_paid_payment_id o; o_delivered_txid := o_delivered_txid o;
  o_delivered_at := o_delivered_at o; o_delivery_mode := o_delivery_mode o;
  o_delivery_error := match rel with Some _ => Some PartialPayment | None => o_delivery_error o end;
  o_created_at := o_created_at o |}.

Definition moreMoney (id pid : string) (o : order) (d : callback) (c : class) (paid : js_num) : program ipn_outcome :=
  let base := match o_invoice_usd o with Some u => num_ratio u 100 | None => base_number (d_price_amount d) end in
  let base_cents := match o_invoice_usd o with Some u => cents_column u | None => cents (d_price_amount d) end in
  rel ← (if bool_decide (o_delivery_error o = Some PartialPayment) then releaseFor id o (c_ratio c) base else mret None);
  done ← (if num_leb (num (10 ^ 16)) (SFabs paid) then throw_io (JsError "Out of range value") else
          q_ (update_order id (fun o => bool_decide (o_paid_payment_id o = Some pid) && bool_decide (o_status o = ONeedsReview)
                && not_recorded o && match paid_num o with Some h => num_ltb h paid | None => true end)
              (set_more (to_fixed 8 paid) ((fun n => to_fixed 2 (num_div n (num 100))) <$> base_cents) rel)));
  if negb done then mret Duplicate else
  _ ← tell proc (key ["more"; id; pid; c_status c; js_String (d_actually_paid d)]) "More money on a held payment";
  mret Held.

Definition samePayment (id pid : string) (o : order) (d : callback) (c : class) : program ipn_outcome :=
  let paid := readNumber (d_actually_paid d) in
  if truthy (o_delivered_txid o) then
    let reduced := match o_invoice_usd o ≫= cents_column, cents_column (o_usd o) with
                   | Some inv, Some got => num_ltb got inv | _, _ => false end in
    if reduced && more_than paid (paid_num o) then
      _ ← tell proc (key ["more-after-sent"; id; pid; js_String (d_actually_paid d)])
            "More money on a payment whose reduced delivery already went out";
      mret Duplicate
    else mret Duplicate
  else
  match o_status o with
  | OAwaiting =>
      match c_kind c with
      | Pay =>
          if bool_decide (o_delivery_mode o = None) && bool_decide (o_delivery_error o = None)
          then _ ← deliver proc id false; mret Duplicate
          else mret Duplicate
      | Underpaid => contradicted id pid d c
      | _ => mret Duplicate
      end
  | ONeedsReview =>
      match paid with
      | Some p => if match paid_num o with None => true | Some _ => more_than paid (paid_num o) end
                  then moreMoney id pid o d c p else mret Duplicate
      | None => mret Duplicate
      end
  | _ => mret Duplicate
  end.

(** ** A callback that reports money *)

Inductive hold := HoldChild (parent : string) | HoldMismatch | HoldUnreadable | HoldPartial.
Definition hold_error (h : hold) : delivery_error :=
  match h with
  | HoldChild _ => ChildPayment | HoldMismatch => MismatchedInvoice | HoldUnreadable => AmountUnreadable
  | HoldPartial => PartialPayment
  end.
(** The most specific thing wrong with a callback on an unpaid order. *)
Definition hold_for (o : order) (d : callback) (c : class) : option hold :=
  match parentPaymentId d with
  | Some parent => Some (HoldChild parent)
  | None =>
      if invoiceMismatch d o then Some HoldMismatch else
      match c_kind c with Unreadable => Some HoldUnreadable | Underpaid => Some HoldPartial | _ => None end
  end.

(** [money] with [accept], [holdForHuman] and [afterRace]: decided again at most
    twice when the order moved meanwhile. *)
Fixpoint money (again : nat) (id pid : string) (o : order) (d : callback) (c : class) (ev : event_ref) : program ipn_outcome :=
  let afterRace :=
    match again with
    | O => mret Raced
    | S again' =>
        fresh ← q_ (select_order id);
        match fresh with Some o' => money again' id pid o' d c ev | None => mret Raced end
    end in
  tied ← tiedPayment id o ev;
  match tied with
  | Some t => if String.eqb t pid then samePayment id pid o d c else otherPayment id pid d
  | None =>
      elsewhere ← q_ (select (tied_elsewhere id pid));
      match elsewhere with
      | Some _ => paymentTiedElsewhere id pid
      | None =>
          match hold_for o d c with
          | Some h =>
              rel ← (match h with HoldPartial => releaseFor id o (c_ratio c) (num_ratio (invoicePrice o) 100) | _ => mret None end);
              r ← attempt (q (hold_tx id pid d (hold_error h) rel));
              match r with
              | Err (DupEntry _) => paymentTiedElsewhere id pid
              | Err e => throw_io e
              | Ok false => afterRace
              | Ok true => _ ← tell proc (key ["hold"; id; pid]) "Payment held for a human"; mret Held
              end
          | None =>
              r ← attempt (q (accept_tx id pid d));
              match r with
              | Err (DupEntry _) => paymentTiedElsewhere id pid
              | Err e => throw_io e
              | Ok LostRace => afterRace
              | Ok NotBacked => _ ← tell proc (key ["unbacked"; id; pid]) "UNBACKED PAID ORDER"; mret Held
              | Ok Accepted => _ ← announcePurchase id; _ ← deliver proc id false; mret Paid
              end
          end
      end
  end.

(** ** Failed, expired, refunded *)

Definition paidPaymentReversed (id pid : string) (o : order) (c : class) : program ipn_outcome :=
  _ ← (if negb (truthy (o_delivered_txid o)) && bool_decide (o_status o ∈ [OAwaiting; ONeedsReview]) then
         ignore_io (q_ (update_order id (fun o => not_recorded o && bool_decide (o_status o ∈ [OAwaiting; ONeedsReview])
                          && negb (bool_decide (o_delivery_error o = Some (PaymentReversed (c_status c) pid))))
                        (fun o => set_error (Some (PaymentReversed (c_status c) pid)) (set_status ONeedsReview o))))
       else mret ());
  _ ← q_ (select_order id);
  _ ← tell proc (key ["reversed"; id; pid; c_status c]) "NOWPayments reversed the payment this order was paid with";
  mret NeedsHuman.

(** Close a pending order and give its rungs back, in one transaction. *)
Definition close_tx (id : string) (to : order_status) : stmt bool := with_tx (
  _ ← releaseLadder id;
  closed ← update_order id (fun o => is_pending o && bool_decide (o_paid_payment_id o = None)) (set_status to);
  mret (negb closed, closed)).

Definition terminal (id pid : string) (o : order) (d : callback) (c : class) (to : order_status) (ev : event_ref) : program ipn_outcome :=
  tied ← tiedPayment id o ev;
  match tied with
  | Some t =>
      if String.eqb pid "" then _ ← tell proc (key ["nopid-fail"; id; c_status c]) "A callback without a payment_id, on a paid order"; mret NeedsHuman else
      if String.eqb t pid then paidPaymentReversed id pid o c else
      if String.eqb (c_status c) "refunded" then _ ← tell proc (key ["refund-other"; id; pid]) "Refund of another payment on a paid order"; mret Noted else
      mret Ignored
  | None =>
      if negb (is_pending o) then mret Ignored else
      if invoiceMismatch d o then
        _ ← tell proc (key ["fail-mismatch"; id; pid; c_status c]) "A callback that does not match its invoice"; mret NeedsHuman
      else
      closed ← q_ (close_tx id to);
      mret (if closed : bool then Closed else Ignored)
  end.

(** ** The callback *)

Definition decide_callback (d : callback) (pid : string) (oid : option string) (ev : event_ref) : program ipn_outcome :=
  row ← (match oid with Some id => q_ (select_order id) | None => mret None end);
  match oid, row with
  | Some id, Some o =>
      let c := classify d in
      match c_kind c with
      | Fails to => terminal id pid o d c to ev
      | Wait => mret Ignored
      | _ =>
          if String.eqb pid "" then
            _ ← tell proc (key ["nopid"; id; c_status c; js_String (d_actually_paid d)]) "Payment callback without a payment_id";
            mret NeedsHuman
          else money 2 id pid o d c ev
      end
  | _, _ => unknownOrder oid pid d
  end.

(** What came, past the signature: refused, no object, or a callback. *)
Inductive arrived := BadSignature | NotAnObject | Signed (d : callback).

Definition payment_of (d : callback) : string := text_or_empty (d_payment_id d).
Definition order_of (d : callback) : option string := if nullish (d_order_id d) then None else Some (js_String (d_order_id d)).
Definition status_of (d : callback) : string := text_or_empty (d_payment_status d).

(** The HTTP code of the answer. *)
Definition handle (a : arrived) : program Z :=
  match a with
  | BadSignature => _ ← notify_every proc "Payment callback rejected: bad signature" 3600; mret 401
  | NotAnObject => mret 400
  | Signed d =>
      ev ← logEvent (payment_of d) (order_of d) (status_of d);
      res ← decide_callback d (payment_of d) (order_of d) ev;
      _ ← record ev res;
      mret 200
  end.

(** While the payment columns are missing: logged, not decided. *)
Definition handlePaused (a : arrived) : program Z :=
  match a with
  | BadSignature => _ ← notify_every proc "Payment callback rejected: bad signature" 3600; mret 401
  | NotAnObject => mret 400
  | Signed d => _ ← attempt (logEvent (payment_of d) (order_of d) (status_of d)); mret 503
  end.
End handler.
