(* ===== verification/MarketShop.v ===== *)
(** * Buying, cancelling, and what may be promised
    (contrib/market/server.mjs, admin.mjs, and the backing of delivery.mjs)

    A purchase is checked against limits, reserves its rungs and writes its order
    in one transaction, and then asks for an invoice. The account, the address and
    the sale gate are the caller's: what they answered is part of the request. *)

From S2P Require Import Prelude JsInt JsNum MarketPrice Tasks MarketDb MarketLadder MarketDelivery.
Local Open Scope Z_scope.

(** ** The backing *)

(** What the owner can hand over; [None] when it cannot be told. The explorer and
    its cache are the outside's answer. *)
Definition ownerSpendable : program (option js_num) :=
  S ← get_settings;
  if backingFloatOnly S then
    fv ← floatBalance;
    if negb (is_finite fv && num_leb zero fv) then throw_io (JsError "hot wallet balance unreadable") else mret (Some fv)
  else if positive (backingCapPcn S) then mret (Some (backingCapPcn S))
  else await (fun o w => (Ok (or_backing o), w)).

Definition sum_quoted (P : order -> bool) (d : db) : Z :=
  map_sum (fun o => if P o then o_quoted_pcn o else 0) (orders d).

(** Sold and not yet in the buyer's hands. *)
Definition OWED : list order_status := [OPending; OAwaiting; OSending; ONeedsReview].
Definition owed (o : order) : bool := bool_decide (o_status o ∈ OWED).
Definition outstandingOwed : stmt js_num := select (fun d => num_ratio (sum_quoted owed d) (10 ^ 8)).

Definition headroomPcn : program (option js_num) :=
  bal ← ownerSpendable;
  match bal with
  | None => mret None
  | Some b => _ ← q_ outstandingOwed; mret (Some b)
  end.

(** ** Limits *)

Definition BOUGHT : list order_status := [OPending; OAwaiting; OSending; ODelivered; ONeedsReview].
Definition accountBoughtPcn (email : string) (e : env) : stmt js_num := select (fun d =>
  num_ratio (sum_quoted (fun o => String.eqb (o_email o) email && (e_now e - 86400 * accountCapDays (e_settings e) <=? o_created_at o)
                                    && bool_decide (o_status o ∈ BOUGHT)) d) (10 ^ 8)).

(** The cap per order, in coins; its price is worked out only to be told. *)
Definition tooMuchPcn (rs : list (Z * rung)) (pcn : js_num) (e : env) : stmt bool :=
  let cap := maxOrderPcn (e_settings e) in
  if negb (num_ltb cap pcn) then mret false else
  _ ← lift_stmt (lift_err Pricing (walkCapped (e_settings e) (e_index e) rs (Pcn cap)));
  mret true.

Definition count_orders (P : order -> bool) (d : db) : Z := map_sum (fun o => if P o then 1 else 0) (orders d).

(** ** Buying *)

Record purchase := {
  b_id : string; b_email : string; b_usd : js_num; b_address : string;
  b_address_ok : bool; b_gate_open : bool;       (* validAddress, saleGate *)
  b_invoice : option (option string) }.          (* the gateway's invoice id, or that it refused *)

Definition new_order (b : purchase) (k : walk) (now : Z) : order := {|
  o_email := b_email b; o_usd := to_fixed 2 (b_usd b); o_invoice_usd := None; o_address := b_address b;
  o_quoted_pcn := to_fixed 8 (k_pcn k); o_quoted_price := to_fixed 10 (k_avgPrice k); o_status := OPending;
  o_invoice_id := None; o_paid_amount := None; o_pay_currency := None; o_paid_at := None;
  o_paid_payment_id := None; o_delivered_txid := None; o_delivered_at := None; o_delivery_mode := None;
  o_delivery_error := None; o_created_at := now |}.
Definition insert_order (id : string) (o : order) : stmt () := fun d =>
  match orders d !! id with Some _ => (Err (DupEntry "PRIMARY"), d) | None => (Ok (), on_orders <[id := o]> d) end.

(** The reservation, the limits and the order, in one transaction. *)
Definition buy_tx (b : purchase) (owner : js_num) (e : env) : stmt walk :=
  k ← reserveLadder (b_id b) (b_usd b) e;
  rs ← rungsWithStock;
  over ← tooMuchPcn rs (k_pcn k) e;
  if over : bool then fail (Refusal 400 "the most one order may take") else
  already ← accountBoughtPcn (b_email b) e;
  if num_ltb (accountCapPcn (e_settings e)) (num_add already (k_pcn k)) then fail (Refusal 429 "the account's limit") else
  owed ← outstandingOwed;
  if num_ltb (num_sub owner owed) (k_pcn k) then fail (Refusal 409 "more PCN than we can deliver") else
  _ ← insert_order (b_id b) (new_order b k (e_now e));
  mret k.

Definition refuse {A} (code : Z) (why : string) : program A := throw_io (Refusal code why).

Definition buy (proc : Z) (b : purchase) : program walk :=
  S ← get_settings;
  if negb (num_leb (minOrderUsd S) (b_usd b)) then refuse 400 "minimum order" else
  if negb (num_leb (b_usd b) (maxOrderUsd S)) then refuse 400 "maximum order" else
  if negb (b_address_ok b) then refuse 400 "not a valid PCN address" else
  if negb (b_gate_open b) then refuse 503 "sales are paused" else
  pending ← q_ (select (count_orders (fun o => String.eqb (o_email o) (b_email b) && is_pending o)));
  S ← get_settings;
  if num_leb (maxPendingOrders S) (num pending) then refuse 429 "unpaid orders" else
  recent ← q (fun e => select (count_orders (fun o => String.eqb (o_email o) (b_email b) && (e_now e - 3600 <? o_created_at o))));
  S ← get_settings;
  if num_leb (maxOrdersPerHour S) (num recent) then refuse 429 "orders in the last hour" else
  backing ← headroomPcn;
  match backing with
  | None => refuse 503 "cannot confirm the coin supply"
  | Some owner =>
      k ← q (buy_tx b owner);
      match b_invoice b with
      | None =>
          _ ← q_ (update_order (b_id b) is_pending (set_status OFailed));
          _ ← q_ (releaseLadder (b_id b));
          _ ← notify_every proc "Payment gateway refused an order" 900;
          refuse 502 "payment gateway"
      | Some invoice =>
          _ ← q_ (update_order (b_id b) (fun _ => true) (set_invoice invoice));
          _ ← notify "New order";
          mret k
      end
  end.

(** ** Giving an order up *)

(** The buyer's cancel: his own order, still unpaid. *)
Definition cancel (email id : string) : program () :=
  out ← q_ (expireWithRelease id (Some email));
  if out.1 : bool then mret () else refuse 409 "not yours, or no longer waiting to be paid".
(** The operator's expire. *)
Definition admin_expire (id : string) : program () := ignore_io (q_ (expireWithRelease id None)).
