(* ===== verification/MarketRetire.v ===== *)
(** * Spent coins leave the ladder (contrib/market/retire.mjs)

    A scan of the chain from where the last one stopped: each output paid to a
    service's address takes a share of its value out of the cheapest rungs, once,
    up to a daily cap that defers the rest. *)

From S2P Require Import Prelude JsInt JsNum MarketPrice Tasks MarketDb MarketLadder MarketDelivery.
Local Open Scope Z_scope.

Definition retireRatio (S : settings) : js_num := num_div (retireRatioPct S) (num 100).

(** [SUM(pcn_retired) WHERE at >= UTC_DATE()] *)
Definition retiredToday (e : env) : stmt js_num := select (fun d =>
  num_ratio (zsum_by t_retired (filter (fun t => e_now e - e_now e mod 86400 <= t_at t) (retirements d))) (10 ^ 8)).

Definition same_output (txid : string) (vout : Z) (t : retirement) : bool := String.eqb (t_txid t) txid && (t_vout t =? vout).
(** [INSERT INTO retirements], UNIQUE (txid, vout). *)
Definition insert_retirement (t : retirement) : stmt () := fun d =>
  if existsb (same_output (t_txid t) (t_vout t)) (retirements d) then (Err (DupEntry "uq_txid_vout"), d)
  else (Ok (), on_retirements (fun l => l ++ [t]) d).
Definition set_retired (txid : string) (vout units : Z) : stmt () := update (on_retirements (fmap (fun t =>
  if same_output txid vout t then {| t_txid := t_txid t; t_vout := t_vout t; t_height := t_height t; t_system := t_system t;
    t_spent := t_spent t; t_retired := units; t_at := t_at t |} else t))).

Definition retire_wish (need : wish) : stmt Z :=
  match need with
  | Exactly z => retireFromLadder z
  | Unbounded => rs ← rungsWithStock; retire_rungs rs (remUnits rs)
  end.

(** Claim the output and withdraw its share, in one transaction. *)
Definition retire_output (txid : string) (vout height : Z) (system : string) (value want : js_num) (e : env) : stmt Z :=
  _ ← insert_retirement {| t_txid := txid; t_vout := vout; t_height := height; t_system := system;
                           t_spent := to_fixed 8 value; t_retired := 0; t_at := e_now e |};
  units ← retire_wish (toUnits want);
  _ ← set_retired txid vout units;
  mret units.

(** How a block's outputs went: all done, stopped at the cap, or failed. *)
Inductive progress := Done (retired : js_num) | Capped (retired : js_num) | Failed (retired : js_num).

Fixpoint scan_outputs (S : settings) (txid : string) (height : Z) (vout : Z) (outs : list (option string * js_num))
    (capLeft retired : js_num) : program progress :=
  match outs with
  | [] => mret (Done retired)
  | (addr, value) :: outs' =>
      let next := scan_outputs S txid height (vout + 1) outs' capLeft in
      match addr with
      | None => next retired
      | Some a =>
          if negb (positive value) || String.eqb a "" then next retired else
          row ← q_ (select (fun d => spend_addresses d !! a));
          match row with
          | None => next retired
          | Some system =>
              if negb (bool_decide (system ∈ retireSystems S)) then next retired else
              let want := num_mul value (retireRatio S) in
              if num_ltb (num_sub capLeft retired) want then mret (Capped retired) else
              r ← attempt (q (retire_output txid vout height system value want));
              match r with
              | Ok units => next (num_add retired (fromUnits units))
              | Err (DupEntry _) => next retired
              | Err _ => mret (Failed retired)
              end
          end
      end
  end.

Fixpoint scan_block (S : settings) (height : Z) (txs : list (string * list (option string * js_num))) (capLeft retired : js_num) : program progress :=
  match txs with
  | [] => mret (Done retired)
  | (txid, outs) :: txs' =>
      p ← scan_outputs S txid height 0 outs capLeft retired;
      match p with Done r => scan_block S height txs' capLeft r | p => mret p end
  end.

Definition setCursor (h : Z) : stmt () := update (on_chain_scan (fun _ => Some h)).

(** From one block to the next; the cursor moves past a block when all of it is done. *)
Fixpoint scan_blocks (S : settings) (n : nat) (h : Z) (capLeft retired : js_num) : program progress :=
  match n with
  | O => mret (Done retired)
  | Datatypes.S n' =>
      b ← attempt (rpc (fun o w => (or_block o, w)));
      match b with
      | Err _ => mret (Done retired)
      | Ok txs =>
          p ← scan_block S h txs capLeft retired;
          match p with
          | Done r => _ ← q_ (setCursor h); scan_blocks S n' (h + 1) capLeft r
          | p => mret p
          end
      end
  end.

Definition scanInner (proc : Z) : program () :=
  S ← get_settings;
  if negb (retireSpentCoins S) then mret () else
  if negb (positive (retireRatio S)) then mret () else
  if bool_decide (retireSystems S = []) then mret () else
  tip ← attempt (rpc (fun o w => (or_tip o, w)));
  match tip with
  | Err _ => notify_every proc "Retirement stalled" 3600
  | Ok tip =>
      let safeTip := tip - retireMinConf S in
      from ← q_ (select chain_scan);
      match from with
      | None => q_ (setCursor safeTip)
      | Some from =>
          if safeTip <=? from then mret () else
          today ← q retiredToday;
          let capLeft := js_max zero (num_sub (retireDailyCapPcn S) today) in
          p ← scan_blocks S (Z.to_nat (safeTip - from)) (from + 1) capLeft zero;
          match p with
          | Failed _ => notify "Retirement STALLED"
          | Done r => if positive r then notify "Usage retired ladder inventory" else mret ()
          | Capped r => notify (if positive r then "Usage retired ladder inventory" else "Retirement paused: daily cap reached")
          end
      end
  end.

(** One scan at a time in a process. *)
Definition scan (proc : Z) : program () :=
  busy ← local (fun w => (m_scanning (memory_of proc w), on_process proc (set_scanning true) w));
  if busy : bool then mret () else
  finally_io (scanInner proc) (local (fun w => ((), on_process proc (set_scanning false) w))).
