(* ===== verification/MarketStall.v ===== *)
(** * Scans that cannot pass an output (contrib/market/retire.mjs)

    What a scan does when the next block holds an output whose share is more than
    the daily cap leaves: every statement it makes, with any answers, leaves the
    database as it was. *)

From S2P Require Import Prelude JsInt JsNum MarketPrice Tasks MarketDb MarketLadder MarketDelivery MarketRetire.
Local Open Scope Z_scope.

(** ** What the cap leaves *)

(** What was retired since midnight, and what the cap leaves of it. *)
Definition today (d : db) (now : Z) : js_num :=
  num_ratio (zsum_by t_retired (filter (fun t => now - now mod 86400 <= t_at t) (retirements d))) (10 ^ 8).
Definition cap_left (S : settings) (d : db) (now : Z) : js_num :=
  js_max zero (num_sub (retireDailyCapPcn S) (today d now)).
Definition over_cap (S : settings) (d : db) (value : js_num) (now : Z) : Prop :=
  num_ltb (cap_left S d now) (num_mul value (retireRatio S)) = true.

Lemma less_sub_zero x y : num_ltb (num_sub x zero) y = num_ltb x y.
Proof. destruct x as [[]|[]| |], y as [[]|[]| |]; reflexivity. Qed.

(** On a day nothing was retired on, the cap leaves itself. *)
Lemma today_nothing d now :
  (forall t, t ∈ retirements d -> t_at t < now - now mod 86400) -> today d now = zero.
Proof.
  intros H. unfold today. assert (filter (fun t => now - now mod 86400 <= t_at t) (retirements d) = []) as ->.
  { induction (retirements d) as [|t l IH]; [done|].
    rewrite filter_cons_False; [apply IH; intros; apply H; by right|]. specialize (H t ltac:(left)). lia. }
  reflexivity.
Qed.

Lemma over_a_whole_day S d value now :
  (forall t, t ∈ retirements d -> t_at t < now - now mod 86400) ->
  num_ltb (js_max zero (retireDailyCapPcn S)) (num_mul value (retireRatio S)) = true -> over_cap S d value now.
Proof.
  intros Hd H. unfold over_cap, cap_left. rewrite today_nothing by done.
  destruct (retireDailyCapPcn S) as [[]|[]| |[] m e]; exact H.
Qed.

(** ** Outputs a scan passes, and the one it does not *)

(** The system an output is retired for: paid a value, to an address of a service
    that retires. *)
Definition retires (S : settings) (d : db) (out : option string * js_num) : option string :=
  match out.1 with
  | Some a => if negb (positive out.2) || String.eqb a "" then None else
              match spend_addresses d !! a with
              | Some system => if bool_decide (system ∈ retireSystems S) then Some system else None
              | None => None
              end
  | None => None
  end.

(** Nothing is left to do with it: not retired for anyone, or retired before. *)
Definition done_with (S : settings) (d : db) (txid : string) (vout : Z) (out : option string * js_num) : Prop :=
  retires S d out = None \/ existsb (same_output txid vout) (retirements d) = true.
Fixpoint outs_done (S : settings) (d : db) (txid : string) (vout : Z) (outs : list (option string * js_num)) : Prop :=
  match outs with [] => True | out :: outs' => done_with S d txid vout out /\ outs_done S d txid (vout + 1) outs' end.

Lemma retire_output_again txid vout height system value want e d :
  existsb (same_output txid vout) (retirements d) = true ->
  retire_output txid vout height system value want e d = (Err (DupEntry "uq_txid_vout"), d).
Proof. intros H. unfold retire_output, insert_retirement, mbind, stmt_bind. cbn [t_txid t_vout]. by rewrite H. Qed.

(** The outside during a scan: with [live], every link works. *)
Section stall.
Context (live : bool) (S : settings) (d : db).

Definition linked (o : oracle) : Prop := live = true -> or_link o = Works.

(** The database is as it was, and the scan has stopped - unless it need not
    have: at the cap, if every link works. *)
Definition halted (must : bool) (w : world) (r : result err progress) (w' : world) : Prop :=
  w' = w /\ match r with
            | Ok (Done x) => x = zero /\ must = false
            | Ok (Capped x) => x = zero
            | Ok (Failed _) | Err _ => live = false
            end.

Lemma alone_attempt {A B} (Good : oracle -> Prop) n (f : oracle -> world -> result err A * world)
    (k : result err A -> program B) Q w :
  (forall o, Good o -> alone Good n (k (f o w).1) Q (f o w).2) -> alone Good (Datatypes.S n) (attempt (await f) ≫= k) Q w.
Proof. intros H o Ho. specialize (H o Ho). cbn in *. by destruct ((f o w).1) as [a|e]. Qed.

Lemma run_select {A} (g : db -> A) o w :
  run_stmt (fun _ => select g) o w = (match or_link o with Works => Ok (g (w_db w)) | _ => Err ConnectionLost end, w).
Proof. unfold run_stmt, select. by destruct w, (or_link o). Qed.

Context (Good : oracle -> Prop) (Hlinked : forall o, Good o -> linked o).

Lemma not_live o : Good o -> or_link o <> Works -> live = false.
Proof using Hlinked.
  intros Ho Hne. destruct (Bool.bool_dec live true) as [Hl|Hl]; [by destruct (Hne (Hlinked o Ho Hl))|].
  by apply Bool.not_true_is_false.
Qed.

(** A read between the stop and the scan: the lost connection is the only surprise. *)
Lemma alone_select {A B} n (g : db -> A) (k : A -> program B) (Q : result err B -> world -> Prop) w :
  (live = false -> Q (Err ConnectionLost) w) -> alone Good n (k (g (w_db w))) Q w ->
  alone Good (Datatypes.S n) (q_ (select g) ≫= k) Q w.
Proof.
  intros He Hk. apply alone_await. intros o Ho. rewrite run_select. cbn [fst snd].
  destruct (or_link o) eqn:Hl; [exact Hk|..]; apply He; apply (not_live o Ho); by rewrite Hl.
Qed.

Lemma halted_mono must w r w' : halted true w r w' -> halted must w r w'.
Proof. intros [-> H]. split; [done|]. destruct r as [[x|x|x]|e]; try done. by destruct H. Qed.

(** One output to pass. *)
Lemma pass_output txid height vout out outs capLeft must n w :
  w_db w = d -> done_with S d txid vout out ->
  alone Good n (scan_outputs S txid height (vout + 1) outs capLeft zero) (halted must w) w ->
  alone Good (2 + n) (scan_outputs S txid height vout (out :: outs) capLeft zero) (halted must w) w.
Proof.
  intros Hd Hdone Hnext. destruct out as [addr value]. cbn [scan_outputs].
  assert (alone Good (2 + n) (scan_outputs S txid height (vout + 1) outs capLeft zero) (halted must w) w) as H2
    by (eapply alone_mono; [|intros r w' H; exact H|exact Hnext]; lia).
  assert (alone Good (1 + n) (scan_outputs S txid height (vout + 1) outs capLeft zero) (halted must w) w) as H1
    by (eapply alone_mono; [|intros r w' H; exact H|exact Hnext]; lia).
  destruct addr as [a|]; [|exact H2]. destruct (negb (positive value) || String.eqb a "") eqn:Hpos; [exact H2|].
  apply alone_select; [by intros|]. rewrite Hd.
  assert (retires S d (Some a, value) = match spend_addresses d !! a with
      | Some system => if bool_decide (system ∈ retireSystems S) then Some system else None | None => None end) as Hr
    by (unfold retires; cbn [fst snd]; by rewrite Hpos).
  destruct Hdone as [Hnone|Hdup].
  - rewrite Hr in Hnone. destruct (spend_addresses d !! a) as [system|]; [|exact H1].
    destruct (bool_decide _); [done|exact H1].
  - destruct (spend_addresses d !! a) as [system|]; [|exact H1]. destruct (bool_decide _); [|exact H1].
    cbn [negb]. destruct (num_ltb _ _); [by split|]. apply alone_attempt. intros o Ho.
    unfold run_stmt. rewrite Hd, (retire_output_again _ _ _ _ _ _ _ _ Hdup).
    destruct (or_link o) eqn:Hl; cbn [fst snd]; [exact Hnext| |exact Hnext]. split; [done|].
    apply (not_live o Ho). by rewrite Hl.
Qed.

Lemma pass_outputs txid height capLeft must outs rest n w : forall vout,
  w_db w = d -> outs_done S d txid vout outs ->
  alone Good n (scan_outputs S txid height (vout + Z.of_nat (length outs)) rest capLeft zero) (halted must w) w ->
  alone Good (2 * length outs + n) (scan_outputs S txid height vout (outs ++ rest) capLeft zero) (halted must w) w.
Proof.
  induction outs as [|out outs IH]; intros vout Hd Hdone H; cbn [app length].
  - cbn [length] in H. by rewrite Z.add_0_r in H.
  - destruct Hdone as [Ho Hdone]. replace (2 * Datatypes.S (length outs) + n)%nat with (2 + (2 * length outs + n))%nat by lia.
    apply pass_output; [done..|]. apply IH; [done..|]. cbn [length] in H. 
    by replace (vout + 1 + Z.of_nat (length outs)) with (vout + Z.of_nat (Datatypes.S (length outs))) by lia.
Qed.

(** The output over the cap. *)
Lemma stop_at_output txid height vout a value outs capLeft system w :
  w_db w = d -> retires S d (Some a, value) = Some system -> num_ltb capLeft (num_mul value (retireRatio S)) = true ->
  alone Good 1 (scan_outputs S txid height vout ((Some a, value) :: outs) capLeft zero) (halted true w) w.
Proof.
  intros Hd Hr Hover. cbn [scan_outputs]. unfold retires in Hr. cbn [fst snd] in Hr.
  destruct (negb (positive value) || String.eqb a ""); [done|].
  apply alone_select; [by intros|]. rewrite Hd. destruct (spend_addresses d !! a) as [sys|]; [|done].
  destruct (bool_decide (sys ∈ retireSystems S)); [cbn [negb]|done]. by rewrite less_sub_zero, Hover.
Qed.

(** ** The block with that output, and the scan that meets it *)

Definition tx_outputs : Type := string * list (option string * js_num).
Definition txs_done (txs : list tx_outputs) : Prop := Forall (fun tx => outs_done S d tx.1 0 tx.2) txs.
Definition awaits_of (txs : list tx_outputs) : nat := foldr (fun tx n => 2 * length tx.2 + n)%nat 0%nat txs.

Lemma pass_txs height capLeft must txs rest n w :
  w_db w = d -> txs_done txs ->
  alone Good n (scan_block S height rest capLeft zero) (halted must w) w ->
  alone Good (awaits_of txs + n) (scan_block S height (txs ++ rest) capLeft zero) (halted must w) w.
Proof using Hlinked.
  intros Hd Hdone H. induction Hdone as [|[txid outs] txs Ho Hdone IH]; [exact H|].
  cbn [app scan_block awaits_of foldr]. cbn [snd]. rewrite <- Nat.add_assoc. apply alone_seq.
  replace (2 * length outs)%nat with (2 * length outs + 0)%nat by lia. rewrite <- (app_nil_r outs) at 2.
  eapply alone_mono; [apply Nat.le_refl| |apply (pass_outputs txid height capLeft false outs [] 0 w 0 Hd Ho); by cbn].
  intros r w' [-> Hr]. destruct r as [[x|x|x]|e]; cbn in Hr; try by split.
  destruct Hr as [-> _]. exact IH.
Qed.

Lemma stop_at_block height txs txid outs1 a value outs2 txs' capLeft system w :
  w_db w = d -> txs_done txs -> outs_done S d txid 0 outs1 -> retires S d (Some a, value) = Some system ->
  num_ltb capLeft (num_mul value (retireRatio S)) = true ->
  let all := txs ++ (txid, outs1 ++ (Some a, value) :: outs2) :: txs' in
  alone Good (1 + awaits_of txs + 2 * length outs1) (scan_block S height all capLeft zero) (halted true w) w.
Proof using Hlinked.
  intros Hd Htxs Houts Hr Hover all.
  eapply (alone_mono _ (awaits_of txs + (2 * length outs1 + 1 + 0))); [lia|intros r w' H; exact H|].
  apply pass_txs; [done..|]. cbn [scan_block]. apply alone_seq.
  eapply alone_mono; [apply Nat.le_refl| |apply (pass_outputs txid height capLeft true outs1 _ 1 w 0 Hd Houts)].
  - intros r w' [-> H]. destruct r as [[x|x|x]|e]; cbn in H; try by split. by destruct H.
  - by eapply stop_at_output.
Qed.

(** What a scan may change: what a human was told, and its own process's memory. *)
Definition PAUSED : string := "Retirement paused: daily cap reached".
Record paused (pid : Z) (w : world) (w' : world) : Prop := {
  pa_db : w_db w' = w_db w;
  pa_settings : w_settings w' = w_settings w;
  pa_memory : forall p, p <> pid -> memory_of p w' = memory_of p w;
  pa_told : live = true -> w_alerts w' = PAUSED :: w_alerts w
}.

Lemma paused_quiet pid w : live = false -> paused pid w w.
Proof. intros Hl. split; [done..|]. by rewrite Hl. Qed.
Lemma paused_alert pid text w : live = false \/ text = PAUSED -> paused pid w (on_alerts (cons text) w).
Proof. intros [Hl| ->]; split; try done. by rewrite Hl. Qed.

Lemma memory_other p pid f w : p <> pid -> memory_of p (on_process pid f w) = memory_of p w.
Proof. intros H. unfold memory_of, on_process. cbn. by rewrite lookup_insert_ne by congruence. Qed.
Lemma memory_own pid f w : memory_of pid (on_process pid f w) = f (memory_of pid w).
Proof. unfold memory_of, on_process. cbn. by rewrite lookup_insert_eq. Qed.

Lemma paused_notify_every pid kind gap w (Q : result err () -> world -> Prop) :
  live = false -> (forall w', paused pid w w' -> Q (Ok ()) w') -> alone Good 1 (notify_every pid kind gap) Q w.
Proof.
  intros Hl HQ o Ho. cbn. destruct (match m_alerted _ !! kind with Some t => _ | None => false end); cbn; apply HQ.
  - by apply paused_quiet.
  - split; try done; [|by rewrite Hl]. intros p Hp. by apply (memory_other p pid).
Qed.

(** The scan of the next blocks. *)
Definition stopped (w : world) (r : result err progress) (w' : world) : Prop :=
  w' = w /\ match r with
            | Ok (Done x) => x = zero /\ live = false
            | Ok (Capped x) => x = zero
            | Ok (Failed _) | Err _ => live = false
            end.

Lemma stop_at_blocks n height txs txid outs1 a value outs2 txs' capLeft system w :
  let all := txs ++ (txid, outs1 ++ (Some a, value) :: outs2) :: txs' in
  (forall o, Good o -> or_block o = all) ->
  w_db w = d -> txs_done txs -> outs_done S d txid 0 outs1 -> retires S d (Some a, value) = Some system ->
  num_ltb capLeft (num_mul value (retireRatio S)) = true ->
  alone Good (Datatypes.S (1 + awaits_of txs + 2 * length outs1)) (scan_blocks S (Datatypes.S n) height capLeft zero) (stopped w) w.
Proof using Hlinked.
  intros all Hall Hd Htxs Houts Hr Hover. cbn [scan_blocks]. apply alone_attempt. intros o Ho. cbn [fst snd].
  destruct (or_link o) eqn:Hl; cbn [fst snd];
    [|split; [done|]; split; [done|]; apply (not_live o Ho); by rewrite Hl..].
  rewrite (Hall o Ho). eapply (alone_mono _ (1 + awaits_of txs + 2 * length outs1 + 0)); [lia|intros r w' H; exact H|].
  apply alone_seq. eapply alone_mono; [apply Nat.le_refl| |by eapply stop_at_block].
  intros r w' [-> H]. destruct r as [[x|x|x]|e]; cbn in H; try by split. by destruct H.
Qed.

(** ** One scan *)

(** Nobody is scanning: each process's flag is down. *)
Definition idle (w : world) : Prop := forall p, m_scanning (memory_of p w) = false.

(** The block the next scan asks for, and the answers it may get. *)
Context (from : Z) (txs : list tx_outputs) (txid : string) (outs1 : list (option string * js_num)) (a : string)
  (value : js_num) (outs2 : list (option string * js_num)) (txs' : list tx_outputs) (system : string).
Definition blocked : list tx_outputs := txs ++ (txid, outs1 ++ (Some a, value) :: outs2) :: txs'.
Context (Hblock : forall o, Good o -> or_block o = blocked) (Htip : forall o, Good o -> live = true -> from < or_tip o - retireMinConf S)
  (Hover : forall o, Good o -> over_cap S d value (or_now o)).
Context (Hfrom : chain_scan d = Some from) (Htxs : txs_done txs) (Houts : outs_done S d txid 0 outs1)
  (Hretires : retires S d (Some a, value) = Some system).
Context (Hon : retireSpentCoins S = true) (Hratio : positive (retireRatio S) = true).

(** Enough awaits for a scan: two per output before that one, and a few more. *)
Definition block_awaits : nat := 1 + awaits_of txs + 2 * length outs1.
Definition inner_awaits : nat := Datatypes.S (Datatypes.S (Datatypes.S (Datatypes.S (Datatypes.S block_awaits + 1)))).
Definition scan_awaits : nat := Datatypes.S (inner_awaits + 1).

(** What the scan tells, once the blocks have answered. *)
Lemma tell_stopped pid w r w' :
  stopped w r w' ->
  match r with
  | Ok p => alone Good 1 (match p with
      | Failed _ => notify "Retirement STALLED"
      | Done r => if positive r then notify "Usage retired ladder inventory" else mret ()
      | Capped r => notify (if positive r then "Usage retired ladder inventory" else PAUSED)
      end) (fun _ w2 => paused pid w w2) w'
  | Err e => paused pid w w'
  end.
Proof.
  intros [-> H]. destruct r as [[x|x|x]|e]; cbn in H.
  - destruct H as [-> Hl]. cbn. by apply paused_quiet.
  - subst x. cbn. intros o _. cbn. apply paused_alert. by right.
  - cbn. intros o _. cbn. apply paused_alert. by left.
  - by apply paused_quiet.
Qed.

Lemma inner_stalls pid w :
  w_db w = d -> w_settings w = S ->
  alone Good inner_awaits (scanInner pid) (fun _ w' => paused pid w w') w.
Proof using All.
  intros Hd HS. unfold scanInner, inner_awaits. apply alone_await. intros o0 _. cbn [fst snd]. rewrite HS, Hon, Hratio. cbn [negb].
  destruct (bool_decide (retireSystems S = [])) eqn:Hsys.
  { exfalso. apply bool_decide_eq_true_1 in Hsys. unfold retires in Hretires. cbn in Hretires. rewrite Hsys in Hretires.
    destruct (_ || _); [done|]. by destruct (spend_addresses d !! a). }
  apply alone_attempt. intros o Ho. cbn [fst snd].
  assert (or_link o <> Works -> live = false) as Hdown by apply (not_live o Ho).
  destruct (or_link o) eqn:Hl; cbn [fst snd];
    [|apply (alone_mono _ 1 _ _ (fun _ w' => paused pid w w')); [lia|done|apply paused_notify_every; auto]..].
  cbv zeta. apply alone_select; [by intros; apply paused_quiet|]. rewrite Hd, Hfrom.
  destruct (Z.leb_spec (or_tip o - retireMinConf S) from) as [Hle|Hlt].
  { cbn. apply paused_quiet. destruct (Bool.bool_dec live true) as [E|E]; [|by apply Bool.not_true_is_false].
    specialize (Htip o Ho E). lia. }
  apply alone_await. intros o1 Ho1. unfold run_stmt, retiredToday, select. cbn [fst snd env_of e_now].
  assert (or_link o1 <> Works -> live = false) as Hdown1 by apply (not_live o1 Ho1).
  rewrite Hd. fold (today d (or_now o1)). assert (on_db (fun _ => d) w = w) as Hw by (rewrite <- Hd; by destruct w).
  destruct (or_link o1) eqn:Hl1; cbn [fst snd]; [|apply paused_quiet; auto|rewrite Hw; apply paused_quiet; auto].
  rewrite Hw. fold (cap_left S d (or_now o1)).
  destruct (Z.to_nat (or_tip o - retireMinConf S - from)) as [|n] eqn:Hn; [lia|].
  apply alone_seq. eapply alone_mono; [apply Nat.le_refl| |].
  2: { apply (stop_at_blocks n (from + 1) txs txid outs1 a value outs2 txs' (cap_left S d (or_now o1)) system w); try done.
       by apply Hover. }
  intros r w' Hr. exact (tell_stopped pid w r w' Hr).
Qed.

(** One scan of any process, from beginning to end. *)
Lemma scan_stalls pid w :
  w_db w = d -> w_settings w = S ->
  alone Good scan_awaits (scan pid) (fun _ w' =>
    w_db w' = d /\ w_settings w' = S /\ (idle w -> idle w' /\ (live = true -> w_alerts w' = PAUSED :: w_alerts w))) w.
Proof using All.
  intros Hd HS. unfold scan, scan_awaits. apply alone_await. intros o _. cbn [fst snd].
  destruct (m_scanning (memory_of pid w)) eqn:Hbusy.
  { cbn. split; [done|]. split; [done|]. intros Hi. by rewrite (Hi pid) in Hbusy. }
  apply alone_finally. set (w1 := on_process pid (set_scanning true) w).
  eapply alone_mono; [apply Nat.le_refl| |by apply (inner_stalls pid w1)].
  intros r w2 Hp o1 _. cbn. assert (w_db w2 = d /\ w_settings w2 = S /\ (idle w ->
    idle (on_process pid (set_scanning false) w2) /\ (live = true -> w_alerts w2 = PAUSED :: w_alerts w))) as H.
  { destruct Hp as [P1 P2 P3 P4]. rewrite P1, P2. split; [done|]. split; [done|]. intros Hi. split; [|done].
    intros p. destruct (decide (p = pid)) as [->|Hne]; [by rewrite memory_own|].
    rewrite memory_other, P3 by done. unfold w1. by rewrite memory_other. }
  destruct r; exact H.
Qed.
End stall.

(** ** Scan after scan *)

(** Scans from beginning to end, of any processes, each with its answers. *)
Fixpoint scans (l : list (Z * list oracle)) (w : world) : option world :=
  match l with
  | [] => Some w
  | (pid, os) :: l' => match run_alone (scan pid) os w with Some (_, w') => scans l' w' | None => None end
  end.

Lemma scans_stall live S d (Good : oracle -> Prop) from txs txid outs1 a value outs2 txs' system l : forall w,
  (forall o, Good o -> linked live o) -> (forall o, Good o -> or_block o = blocked txs txid outs1 a value outs2 txs') ->
  (forall o, Good o -> live = true -> from < or_tip o - retireMinConf S) ->
  (forall o, Good o -> over_cap S d value (or_now o)) ->
  chain_scan d = Some from -> txs_done S d txs -> outs_done S d txid 0 outs1 -> retires S d (Some a, value) = Some system ->
  retireSpentCoins S = true -> positive (retireRatio S) = true ->
  w_db w = d -> w_settings w = S ->
  Forall (fun x => Forall Good x.2 /\ (scan_awaits txs outs1 <= length x.2)%nat) l ->
  exists w', scans l w = Some w' /\ w_db w' = d /\
    (idle w -> live = true -> w_alerts w' = repeat PAUSED (length l) ++ w_alerts w).
Proof.
  induction l as [|[pid os] l IH]; intros w H1 H2 H3 H4 H5 H6 H7 H8 H9 H10 Hd HS; [by exists w|].
  intros [[Hos Hlen] Hl]%Forall_cons. cbn [snd] in Hos, Hlen. cbn [scans length].
  destruct (alone_returns _ _ _ _ _ w Hos Hlen
    (scan_stalls live S d Good H1 from txs txid outs1 a value outs2 txs' system H2 H3 H4 H5 H6 H7 H8 H9 H10 pid w Hd HS))
    as (r & w1 & -> & Hd1 & HS1 & Hi1).
  destruct (IH w1 H1 H2 H3 H4 H5 H6 H7 H8 H9 H10 Hd1 HS1 Hl) as (w' & -> & Hd' & Ha). exists w'. split; [done|]. split; [done|].
  intros Hi Hlive. destruct (Hi1 Hi) as [Hidle Ht]. rewrite (Ha Hidle Hlive), (Ht Hlive). cbn [repeat].
  by rewrite repeat_cons, <- app_assoc.
Qed.
