(* ===== verification/MarketRace.v ===== *)
(** * A sweep against another process (contrib/market/delivery.mjs)

    The sweep leaves alone the orders its own process is sending. What it does
    with one that another process has claimed and not sent yet, what the panel's
    Send does after it, and what the other process then does. *)

From S2P Require Import Prelude JsInt JsNum MarketPrice Tasks MarketDb MarketLadder MarketDelivery MarketSafe.
Local Open Scope Z_scope.

(** ** Programs that leave the wallet alone *)

Definition same_wallet (w w' : world) : Prop := w_wallet w' = w_wallet w.

Lemma run_steady_wallet {A} (m : program A) o w :
  does same_wallet m -> w_wallet (run_steady o m w).2 = w_wallet w.
Proof.
  revert w. induction m as [r|B f k IH]; intros w; cbn; [done|]. intros [Hf Hk]. specialize (Hf o w).
  destruct (f o w) as [r w1]. cbn in Hf. rewrite IH by apply Hk. exact Hf.
Qed.

Lemma wallet_q {A} (f : env -> stmt A) : does same_wallet (q f).
Proof. apply does_await. intros o w. unfold same_wallet, run_stmt.
  by destruct (or_link o), (f (env_of o w) (w_db w)) as [[a|e] d]. Qed.
Lemma wallet_local {A} (f : world -> A * world) : (forall w, w_wallet (f w).2 = w_wallet w) -> does same_wallet (local f).
Proof. intros H. apply does_await. intros o w. specialize (H w). by destruct (f w). Qed.

Lemma wallet_announce id : does same_wallet (announcePurchase id).
Proof.
  unfold announcePurchase. apply does_try; [|done]. destruct (negb _); [done|].
  apply does_bind; [apply wallet_q|]. intros [o|]; [|done]. destruct (negb _); [done|]. destruct (negb _); [done|].
  apply does_await. intros oc w. by destruct (or_link oc).
Qed.

Lemma wallet_record id txid : does same_wallet (recordSent id txid).
Proof.
  unfold recordSent. apply does_bind; [apply wallet_q|]. intros []; [apply wallet_announce|].
  apply does_bind; [apply wallet_q|]. intros row. destruct (row ≫= o_delivered_txid) as [x|]; [|done].
  by destruct (bool_decide _); [|apply wallet_local].
Qed.

Lemma wallet_leave pid id : does same_wallet (leaveSending pid id).
Proof. by apply wallet_local. Qed.

(** The rest of a delivery after its claim and its last look at the balance. *)
Definition claimed_rest (pid : Z) (id : string) (o : order) : program reply :=
  finally_io (try_io (send_claimed id o) crashed) (leaveSending pid id).

(** When the node answers, it is one more send of the order. *)
Lemma rest_sends pid id o oc w :
  or_link oc = Works ->
  length (sends_of id (w_wallet (run_steady oc (claimed_rest pid id o) w).2)) = S (length (sends_of id (w_wallet w))).
Proof.
  intros Hl. set (t := {| x_txid := or_txid oc; x_comment := id; x_send := true; x_to := o_address o;
                          x_amount := to_fixed 8 (order_pcn o); x_live := true |}).
  set (rest := finally_io (try_io (_ ← recordSent id (or_txid oc); _ ← notify "Sent"; mret (sent (or_txid oc))) crashed)
                 (leaveSending pid id)).
  assert (run_steady oc (claimed_rest pid id o) w = run_steady oc rest (on_wallet (fun l => l ++ [t]) w)) as ->.
  { cbn. by rewrite Hl. }
  rewrite run_steady_wallet; [|].
  - cbn [w_wallet on_wallet]. rewrite sends_of_app, length_app.
    assert (sends_of id [t] = [t]) as ->; [|cbn; lia]. assert (is_send id t = true) as Ht
      by (unfold is_send, t; cbn; by rewrite bool_decide_eq_true_2).
    unfold sends_of. cbn -[is_send t]. by case_decide.
  - unfold rest. apply does_finally; [|apply wallet_leave]. apply does_try.
    + apply does_bind; [apply wallet_record|]. intros []. apply does_bind; [by apply wallet_local|]. done.
    + intros e. apply does_bind; [by apply wallet_local|]. done.
Qed.

Lemma no_recent_sends id w : sends_of id (w_wallet w) = [] -> sends_of id (recent (w_wallet w)) = [].
Proof.
  intros H. rewrite <- (take_drop (length (w_wallet w) - 1000) (w_wallet w)), sends_of_app in H.
  by apply app_nil in H as [_ H].
Qed.

(** ** The sweep, then the panel's Send *)

#[local] Opaque send_claimed recordSent.

(** A lookup that finds nothing because there is nothing. *)
Lemma find_nothing {A} id oc w (k : option string -> program A) :
  or_link oc = Works -> sends_of id (w_wallet w) = [] ->
  run_steady oc (findSentTx id ≫= k) w = run_steady oc (k None) w.
Proof.
  intros Hl Hn. unfold findSentTx, rpc, note_missed. cbn. rewrite Hl.
  by rewrite (no_recent_sends id w Hn), Hn.
Qed.

Lemma sweep_hands_back pid id o oc w :
  or_link oc = Works -> is_sending pid id w = false -> sends_of id (w_wallet w) = [] ->
  orders (w_db w) !! id = Some o -> in_sending o = true ->
  let w' := (run_steady oc (reconcile_one pid id) w).2 in
  w_wallet w' = w_wallet w /\ w_settings w' = w_settings w /\
  orders (w_db w') !! id = Some (set_error (Some NoTransactionFound) (set_status ONeedsReview o)) /\
  (id, being_sent id w) ∈ w_gave_up w'.
Proof.
  intros Hl Hs Hn Ho Hin. unfold reconcile_one. cbn zeta.
  assert (note_missed id w = w) as Hm by (unfold note_missed; by rewrite (no_recent_sends id w Hn), Hn).
  cbn. rewrite Hs. cbn. rewrite Hl, Hm, (no_recent_sends id w Hn). cbn. unfold run_stmt, update_order. rewrite Hl, Ho, Hin.
  cbn. rewrite ?Ho, ?Hin, lookup_insert_eq. cbn.
  change (in_sending (set_error _ (set_status ONeedsReview o))) with false. cbn. split; [done|]. split; [done|].
  split; [by rewrite lookup_insert_eq|left].
Qed.

(** ** What a program does while the connection holds *)

Lemma steady_bind {A B} (g : A -> program B) (m : program A) o w :
  run_steady o (m ≫= g) w
  = match run_steady o m w with (Ok a, w') => run_steady o (g a) w' | (Err e, w') => (Err e, w') end.
Proof. apply run_steady_bind. Qed.
Lemma steady_q {A} (f : stmt A) o w :
  or_link o = Works ->
  run_steady o (q_ f) w = match f (w_db w) with (Ok a, d) => (Ok a, on_db (fun _ => d) w) | (Err e, _) => (Err e, w) end.
Proof. intros Hl. cbn. unfold run_stmt. rewrite Hl. by destruct (f (w_db w)) as [[a|e] d]. Qed.
Lemma steady_select {A} (g : db -> A) o w : or_link o = Works -> run_steady o (q_ (select g)) w = (Ok (g (w_db w)), w).
Proof. intros Hl. rewrite steady_q by done. cbn. by destruct w. Qed.
Lemma steady_seen id o w : or_link o = Works -> sends_of id (w_wallet w) = [] -> run_steady o (alreadySent id) w = (Ok (Ok None), w).
Proof.
  intros Hl Hn. unfold alreadySent, attempt. rewrite run_steady_try, find_nothing by done. reflexivity.
Qed.
Lemma steady_update id guard f o w x :
  or_link o = Works -> orders (w_db w) !! id = Some x -> guard x = true ->
  run_steady o (q_ (update_order id guard f)) w = (Ok true, on_db (on_orders <[id := f x]>) w).
Proof. intros Hl Hx Hg. rewrite steady_q by done. unfold update_order. rewrite Hx, Hg. reflexivity. Qed.

(** Up to the claim, everything in order. *)
Lemma steady_check id o oc w :
  or_link oc = Works -> sends_of id (w_wallet w) = [] -> orders (w_db w) !! id = Some o ->
  awaiting o = true -> not_recorded o = true ->
  below_stop (or_balance oc) (order_pcn o) (floatStopPcn (w_settings w)) = false ->
  run_steady oc (deliver_check id true) w = (Ok (inr o), w).
Proof.
  intros Hl Hn Ho Ha Hr Hb. unfold deliver_check, select_order.
  rewrite steady_bind, steady_select by done. cbv beta. rewrite Ho, Hr, Ha. cbn [negb].
  rewrite steady_bind, steady_seen by done. cbn. rewrite Hl. cbn. by rewrite Hb.
Qed.

(** The claim, the last look at the balance, then the rest. *)
Lemma steady_claim pid id o oc w :
  or_link oc = Works -> orders (w_db w) !! id = Some o -> awaiting o = true -> not_recorded o = true ->
  below_stop (or_balance oc) (order_pcn o) (floatStopPcn (w_settings w)) = false ->
  exists w', w_wallet w' = w_wallet w /\
    run_steady oc (finally_io (try_io (deliver_claim id o) crashed) (leaveSending pid id)) w
    = run_steady oc (claimed_rest pid id o) w'.
Proof.
  intros Hl Ho Ha Hr Hb. unfold deliver_claim, claim, claimed_rest.
  exists (on_db (on_orders <[id := set_mode (Some Auto) (set_status OSending o)]>) w). split; [done|].
  cbn. unfold run_stmt, update_order. rewrite Hl, Ho, Ha, Hr. cbn. rewrite Hl. cbn. by rewrite Hb.
Qed.

Lemma deliver_sends pid id o oc w :
  or_link oc = Works -> sends_of id (w_wallet w) = [] -> orders (w_db w) !! id = Some o ->
  awaiting o = true -> not_recorded o = true ->
  below_stop (or_balance oc) (order_pcn o) (floatStopPcn (w_settings w)) = false ->
  length (sends_of id (w_wallet (run_steady oc (ignore_io (deliver pid id true)) w).2)) = 1%nat.
Proof.
  intros Hl Hn Ho Ha Hr Hb. unfold ignore_io, deliver. rewrite steady_bind, steady_bind, run_steady_try.
  rewrite (steady_check id o) by done. rewrite steady_bind.
  change (run_steady oc (enterSending pid id) w) with (@Ok err () tt, (run_steady oc (enterSending pid id) w).2).
  cbv beta iota. set (w1 := (run_steady oc (enterSending pid id) w).2).
  destruct (steady_claim pid id o oc w1 Hl Ho Ha Hr Hb) as (w2 & Hw2 & ->).
  pose proof (rest_sends pid id o oc w2 Hl) as H. rewrite Hw2 in H. change (w_wallet w1) with (w_wallet w) in H.
  rewrite Hn in H. by destruct (run_steady oc (claimed_rest pid id o) w2) as [[r|e] w3].
Qed.

(** The panel's Send of an order held for review, confirmed: one send more. *)
Lemma admin_sends_held pid id o oc w :
  or_link oc = Works -> sends_of id (w_wallet w) = [] ->
  orders (w_db w) !! id = Some o -> o_status o = ONeedsReview -> not_recorded o = true ->
  below_stop (or_balance oc) (order_pcn o) (floatStopPcn (w_settings w)) = false ->
  length (sends_of id (w_wallet (run_steady oc (admin_send pid id true) w).2)) = 1%nat.
Proof.
  intros Hl Hn Ho Hst Hr Hb. unfold admin_send, select_order.
  rewrite steady_bind, steady_seen by done. rewrite steady_bind, steady_select by done. cbv beta. rewrite Ho, Hst.
  rewrite bool_decide_eq_true_2 by done. cbn [andb negb]. rewrite steady_bind. unfold ignore_io at 1. rewrite steady_bind.
  rewrite (steady_update id _ _ oc w o) by (done || by rewrite Hst, bool_decide_eq_true_2). cbv iota beta.
  change (run_steady oc (mret ()) ?x) with (@Ok err () tt, x). cbv iota beta.
  apply (deliver_sends pid id (set_status OAwaiting o)); try done. cbn. by rewrite lookup_insert_eq.
Qed.

Lemma sending_is_being_sent pid id w : is_sending pid id w = true -> being_sent id w = true.
Proof.
  unfold is_sending, being_sent, memory_of. intros H%bool_decide_eq_true_1.
  destruct (w_memory w !! pid) as [m|] eqn:Hm; [|by destruct H as [n H]; cbn in H; rewrite lookup_empty in H].
  apply orb_true_iff. left. apply existsb_exists. exists m. split; [|by apply bool_decide_eq_true_2].
  apply list_elem_of_In, list_elem_of_fmap. exists (pid, m). split; [done|]. by apply elem_of_map_to_list.
Qed.
