(* ===== verification/MarketRun.v ===== *)
(** * The market as a machine (contrib/market)

    Requests, sweeps, scans and command lines as tasks of processes that share the
    database and the hot wallet, in any order and with any answers; processes may
    end with all they were doing, and the outside may pay in, send by hand, drop a
    transaction, or change settings and the index. *)

From S2P Require Import Prelude JsInt JsNum MarketPrice Tasks MarketDb MarketLadder MarketDelivery MarketSafe MarketIpn MarketShop MarketRetire.
Local Open Scope Z_scope.
#[local] Arguments sends_of : simpl never.

(** ** The machine *)

Inductive request :=
  | Buy (b : purchase) | Cancel (email id : string) | Expire (id : string)
  | Ipn (a : arrived) | IpnPaused (a : arrived)
  | AdminSend (id : string) (reviewed : bool) | CliSend (id : string) (reviewed : bool)
  | MarkDelivered (id txid : string)
  | SweepOrders | Reconcile | Scan.

Definition start (pid : Z) (r : request) : program () :=
  match r with
  | Buy b => ignore_io (buy pid b)
  | Cancel email id => cancel email id
  | Expire id => admin_expire id
  | Ipn a => ignore_io (handle pid a)
  | IpnPaused a => ignore_io (handlePaused pid a)
  | AdminSend id reviewed => admin_send pid id reviewed
  | CliSend id reviewed => cli_send pid id reviewed
  | MarkDelivered id txid => markDelivered id txid
  | SweepOrders => sweepExpiredOrders pid
  | Reconcile => reconcileSending pid
  | Scan => scan pid
  end.

(** A process that ends forgets what it was sending. *)
Definition forget (pid : Z) (w : world) : world := on_memory (delete pid) w.

Inductive outside :=
  | Receive (txid to : string) (amount : Z)      (* coins arrive *)
  | SendByHand (txid to : string) (amount : Z)   (* the operator's own send, without an order's id *)
  | Drop (n : nat)                               (* a transaction is abandoned or conflicted away *)
  | Settings (s : settings)
  | Index (i : option index_reading)
  | Addresses (a : gmap string string).

Definition dropped (t : wallet_tx) : wallet_tx :=
  {| x_txid := x_txid t; x_comment := x_comment t; x_send := x_send t; x_to := x_to t; x_amount := x_amount t; x_live := false |}.
Definition set_addresses (a : gmap string string) (d : db) : db := {|
  rungs := rungs d; fills := fills d; orders := orders d; ipn_events := ipn_events d;
  retirements := retirements d; chain_scan := chain_scan d; spend_addresses := a |}.
Definition outside_step (x : outside) (w : world) : world :=
  match x with
  | Receive txid to amount => on_wallet (fun l => l ++ [{| x_txid := txid; x_comment := ""; x_send := false; x_to := to;
                                                          x_amount := amount; x_live := true |}]) w
  | SendByHand txid to amount => on_wallet (fun l => l ++ [{| x_txid := txid; x_comment := ""; x_send := true; x_to := to;
                                                             x_amount := amount; x_live := true |}]) w
  | Drop n => on_wallet (alter dropped n) w
  | Settings s => on_settings s w
  | Index i => on_index i w
  | Addresses a => on_db (set_addresses a) w
  end.

Definition market_event : Type := event (O := oracle) (R := request) (X := outside) (P := Z).
Definition market_run (w : world) (es : list market_event) : world := m_world (run_machine start forget outside_step w es).

(** ** Nothing else is part of a send *)

Lemma gone_update_rung no f : calm_stmt (update_rung no f).
Proof. apply gone_same. intros d. unfold update_rung. destruct (rungs d !! no) as [r|]; [|done]. by destruct (rung_ok (f r)). Qed.
Lemma gone_insert_fill id f : calm_stmt (insert_fill id f).
Proof. apply gone_same. intros d. unfold insert_fill. by case_match. Qed.
#[export] Hint Resolve gone_update_rung gone_insert_fill : frame.

(** Walks a statement down to its parts. *)
Ltac calm_step :=
  match goal with
  | |- calm_stmt (mret _) => apply gone_ret
  | |- calm_stmt (_ ≫= _) => apply gone_bind; [|intros ?]
  | |- calm_stmt (with_tx _) => apply gone_with_tx
  | |- calm_stmt (each _ _) => apply gone_each; intros ?
  | |- calm_stmt (let '_ := ?x in _) => destruct x
  | |- calm_stmt (match ?x with _ => _ end) => destruct x
  | |- calm_stmt _ => solve [eauto 5 with frame nocore]
  | |- calm_stmt (update _) => apply gone_update; done
  end.
Ltac calm := repeat calm_step.

Lemma gone_moveFills id s ap : calm_stmt (moveFills id s ap).
Proof. unfold moveFills. calm. Qed.
#[export] Hint Resolve gone_moveFills : frame.
Lemma gone_settle id : calm_stmt (settleLadder id).
Proof. unfold settleLadder. calm. Qed.
Lemma gone_release id : calm_stmt (releaseLadder id).
Proof. unfold releaseLadder. calm. Qed.
Lemma gone_rungsWithStock : calm_stmt rungsWithStock.
Proof. apply gone_select. Qed.
Lemma gone_reserve_fill id f : calm_stmt (reserve_fill id f).
Proof. unfold reserve_fill. calm. Qed.
#[export] Hint Resolve gone_settle gone_release gone_rungsWithStock gone_reserve_fill : frame.
Lemma gone_reserve id usd e : calm_stmt (reserveLadder id usd e).
Proof. unfold reserveLadder. calm. Qed.
Lemma gone_retire_rungs rs need : calm_stmt (retire_rungs rs need).
Proof. revert need. induction rs as [|[no r] rs IH]; intros need; cbn [retire_rungs]; calm; apply IH. Qed.
#[export] Hint Resolve gone_reserve gone_retire_rungs : frame.

(** An unpaid order may become anything else unpaid. *)
Lemma gone_close id guard to :
  (forall o, guard o = true -> is_pending o = true) -> to ∈ [OExpired; OFailed; ORefunded] ->
  calm_stmt (update_order id guard (set_status to)).
Proof.
  intros Hg Hto. apply gone_update_order. intros o Ho. apply Hg in Ho. unfold is_pending in Ho. bool_to_prop.
  apply row_calm_of; [|done|].
  - intros [H|H]; [congruence|by right].
  - intros [H|[H|H]]%settled_spec; cbn in H; subst to; set_solver.
Qed.

Lemma gone_expire id owner : calm_stmt (expireWithRelease id owner).
Proof.
  unfold expireWithRelease. calm. apply gone_close; [|set_solver]. intros o Ho. by bool_to_prop.
Qed.
#[export] Hint Resolve gone_expire : frame.

Lemma gone_insert_order id o : o_status o = OPending -> calm_stmt (insert_order id o).
Proof.
  intros Hp d. unfold insert_order. destruct (orders d !! id) as [o'|] eqn:Hid; [done|]. cbn. split; cbn.
  - intros i (x & Hx & Hg). exists x. split; [|done]. cbn. rewrite lookup_insert_ne; [done|]. intros ->. congruence.
  - intros i (x & Hx & Hg). exists x. split; [|done]. cbn. rewrite lookup_insert_ne; [done|]. intros ->. congruence.
  - intros Hdb i x. cbn. rewrite lookup_insert_Some. intros [[<- <-]|[_ Hx]] Hs; [|by eapply Hdb].
    apply settled_spec in Hs as [H|[H|H]]; congruence.
Qed.
Lemma gone_new_order id b k now : calm_stmt (insert_order id (new_order b k now)).
Proof. by apply gone_insert_order. Qed.
#[export] Hint Resolve gone_new_order : frame.

Lemma gone_tooMuch rs pcn e : calm_stmt (tooMuchPcn rs pcn e).
Proof. unfold tooMuchPcn. calm. Qed.
Lemma gone_bought email e : calm_stmt (accountBoughtPcn email e).
Proof. apply gone_select. Qed.
Lemma gone_owed : calm_stmt outstandingOwed.
Proof. apply gone_select. Qed.
#[export] Hint Resolve gone_tooMuch gone_bought gone_owed : frame.

Lemma gone_buy_tx b owner e : calm_stmt (buy_tx b owner e).
Proof. unfold buy_tx. calm. Qed.
Lemma gone_set_invoice id guard i : calm_stmt (update_order id guard (set_invoice i)).
Proof. apply gone_update_order. intros o _. by apply row_calm_of. Qed.
Lemma gone_fail_order id : calm_stmt (update_order id is_pending (set_status OFailed)).
Proof. apply gone_close; [done|set_solver]. Qed.
#[export] Hint Resolve gone_buy_tx gone_set_invoice gone_fail_order : frame.

Lemma quiet_spendable : quiet ownerSpendable.
Proof. unfold ownerSpendable. quiet. by apply does_await. Qed.
#[export] Hint Resolve quiet_spendable : frame.
Lemma quiet_headroom : quiet headroomPcn.
Proof. unfold headroomPcn. quiet. Qed.
#[export] Hint Resolve quiet_headroom : frame.
Lemma quiet_buy proc b : quiet (buy proc b).
Proof. unfold buy, refuse. quiet. Qed.
Lemma quiet_cancel email id : quiet (cancel email id).
Proof. unfold cancel, refuse. quiet. Qed.
Lemma quiet_admin_expire id : quiet (admin_expire id).
Proof. unfold admin_expire. auto with frame. Qed.
Lemma gone_stale e : calm_stmt (stale_orders e).
Proof. apply gone_select. Qed.
Lemma gone_reserved_in l : calm_stmt (reserved_in l).
Proof. apply gone_select. Qed.
#[export] Hint Resolve gone_stale gone_reserved_in : frame.
Lemma quiet_sweepOrders pid : quiet (sweepExpiredOrders pid).
Proof. unfold sweepExpiredOrders. quiet. Qed.
#[export] Hint Resolve quiet_buy quiet_cancel quiet_admin_expire quiet_sweepOrders : frame.

(** ** Retiring *)

Lemma gone_retire_output txid vout height system value want e :
  calm_stmt (retire_output txid vout height system value want e).
Proof.
  unfold retire_output, retire_wish, retireFromLadder, set_retired. calm.
  apply gone_same. intros d. unfold insert_retirement. by case_match.
Qed.
Lemma gone_setCursor h : calm_stmt (setCursor h).
Proof. by apply gone_update. Qed.
#[export] Hint Resolve gone_retire_output gone_setCursor : frame.

Lemma quiet_rpc_read {A} (f : oracle -> A) : quiet (rpc (fun o w => (f o, w))).
Proof. by apply quiet_rpc. Qed.
#[export] Hint Resolve quiet_rpc_read : frame.

Lemma quiet_scan_outputs S txid height vout outs capLeft retired : quiet (scan_outputs S txid height vout outs capLeft retired).
Proof.
  revert vout retired. induction outs as [|[a v] outs IH]; intros vout retired; cbn [scan_outputs]; [done|].
  quiet; apply IH.
Qed.
#[export] Hint Resolve quiet_scan_outputs : frame.
Lemma quiet_scan_block S height txs capLeft retired : quiet (scan_block S height txs capLeft retired).
Proof.
  revert retired. induction txs as [|[t o] txs IH]; intros retired; cbn [scan_block]; [done|]. quiet.
Qed.
#[export] Hint Resolve quiet_scan_block : frame.
Lemma quiet_scan_blocks S n h capLeft retired : quiet (scan_blocks S n h capLeft retired).
Proof. revert h retired. induction n as [|n IH]; intros h retired; cbn [scan_blocks]; [done|]. quiet. Qed.
#[export] Hint Resolve quiet_scan_blocks : frame.

Lemma frame_process pid f w : (forall m, m_sendingNow (f m) = m_sendingNow m) -> frame w (on_process pid f w).
Proof. intros Hf. split; try done. intros p id. by apply on_process_sending. Qed.

Lemma quiet_scan pid : quiet (scan pid).
Proof.
  unfold scan, scanInner. quiet; apply quiet_local; intros w; by apply frame_process.
Qed.
#[export] Hint Resolve quiet_scan : frame.

(** ** The payment callback *)

Lemma gone_insert_event key oid status : calm_stmt (insert_event key oid status).
Proof. apply gone_same. intros d. unfold insert_event. by case_match. Qed.
Lemma gone_find_event key status : calm_stmt (find_event key status).
Proof. apply gone_select. Qed.
Lemma gone_record i o : calm_stmt (record_outcome i o).
Proof. by apply gone_update. Qed.
#[export] Hint Resolve gone_insert_event gone_find_event gone_record : frame.

Lemma quiet_logEvent pid oid status : quiet (logEvent pid oid status).
Proof. unfold logEvent. quiet. Qed.
Lemma quiet_record ev o : quiet (record ev o).
Proof. unfold record. quiet. Qed.
Lemma quiet_tell proc key text : quiet (tell proc key text).
Proof.
  apply quiet_local. intros w. case_match; [done|]. cbn. split; try done. intros p id. by apply on_process_sending.
Qed.
#[export] Hint Resolve quiet_logEvent quiet_record quiet_tell : frame.

Lemma gone_tie_order id pid guard f :
  (forall o, guard o = true -> row_calm o (f o)) -> calm_stmt (tie_order id pid guard f).
Proof.
  intros Hf d. unfold tie_order. destruct (orders d !! id) as [o|] eqn:Hid; [|done].
  destruct (guard o) eqn:Hg; [|done]. cbn. case_match; [done|]. cbn. eapply calm_insert; eauto.
Qed.

(** An unpaid order that takes a payment. *)
Lemma row_calm_pay s usd pcn invoice pid amount currency at_ e o :
  unpaid o = true -> row_calm o (set_payment s usd pcn invoice pid amount currency at_ e o).
Proof.
  intros Hu. unfold unpaid in Hu. bool_to_prop. split.
  - intros [H|H]; [|by right]. rewrite H in Hu. set_solver.
  - done.
  - done.
Qed.
Lemma gone_hold id pid d why rel e : calm_stmt (hold_tx id pid d why rel e).
Proof. apply gone_tie_order. intros o Ho. unfold untied in Ho. bool_to_prop. by apply row_calm_pay. Qed.

Lemma orders_settle id d : orders (settleLadder id d).2 = orders d.
Proof.
  unfold settleLadder, moveFills. cbn. unfold mbind, stmt_bind, select, update. cbn.
  assert (forall (l : list ladder_fill) d', orders (each (fun f => update_rung (l_rung f) (move_rung (l_qty f) (- l_qty f) 0)) l d').2 = orders d') as He.
  { induction l as [|f l IH]; intros d'; [done|]. cbn. unfold mbind, stmt_bind, update_rung.
    destruct (rungs d' !! l_rung f) as [r|]; [|apply IH]. destruct (rung_ok _); [|done]. by rewrite IH. }
  specialize (He (filter (fun f => reserved_by id f = true) (fills d)) d). by destruct (each _ _ d) as [[[]|e] d'].
Qed.

Lemma gone_accept id pid d e : calm_stmt (accept_tx id pid d e).
Proof.
  intros s. unfold accept_tx, with_tx. unfold mbind at 1, stmt_bind at 1. pose proof (orders_settle id s) as Ho.
  destruct (settleLadder id s) as [r s']; cbn in Ho.
  assert (calm s s') as Hs by (apply calm_rows; intros i; left; by rewrite Ho).
  destruct r as [moved|x]; [|done].
  cbn. unfold mbind, stmt_bind, select_order, select. cbn.
  destruct (orders s' !! id) as [o|] eqn:Hid; [|done].
  destruct (takes_payment o) eqn:Ht; [cbn|done]. unfold tie_order. rewrite Hid. cbn.
  destruct (tied_elsewhere id pid s'); [done|]. cbn. etransitivity; [exact Hs|]. eapply calm_insert; [exact Hid|].
  unfold takes_payment in Ht. bool_to_prop. by apply row_calm_pay.
Qed.

Lemma gone_close_tx id to : to ∈ [OExpired; OFailed; ORefunded] -> calm_stmt (close_tx id to).
Proof.
  intros Hto. unfold close_tx. calm. apply gone_close; [|done]. intros o Ho. by bool_to_prop.
Qed.
#[export] Hint Resolve gone_hold gone_accept : frame.

Lemma gone_contradicted id pid :
  calm_stmt (update_order id (fun o => bool_decide (o_paid_payment_id o = Some pid) && awaiting o && not_recorded o)
              (fun o => set_error (Some PaymentNowLess) (set_status ONeedsReview o))).
Proof.
  apply gone_update_order. intros o Ho. unfold awaiting, not_recorded in Ho. bool_to_prop. apply row_calm_of; [|done|].
  - intros [H2|H2]; congruence.
  - intros _. apply settled_spec. auto.
Qed.
Lemma gone_more id guard amount invoice rel : calm_stmt (update_order id guard (set_more amount invoice rel)).
Proof. apply gone_update_order. intros o _. by apply row_calm_of. Qed.
Lemma gone_reversed id c pid :
  calm_stmt (update_order id (fun o => not_recorded o && bool_decide (o_status o ∈ [OAwaiting; ONeedsReview])
               && negb (bool_decide (o_delivery_error o = Some (PaymentReversed c pid))))
             (fun o => set_error (Some (PaymentReversed c pid)) (set_status ONeedsReview o))).
Proof.
  apply gone_update_order. intros o Ho. unfold not_recorded in Ho. bool_to_prop. apply row_calm_of; [|done|].
  - intros [H2|H2]; [|congruence]. rewrite H2 in *. set_solver.
  - intros _. unfold settled. set_solver.
Qed.
#[export] Hint Resolve gone_contradicted gone_more gone_reversed : frame.

Lemma quiet_tied id o ev : quiet (tiedPayment id o ev).
Proof. unfold tiedPayment. quiet. Qed.
Lemma quiet_releaseFor id o r b : quiet (releaseFor id o r b).
Proof. unfold releaseFor. quiet. Qed.
Lemma quiet_elsewhere proc id pid : quiet (paymentTiedElsewhere proc id pid).
Proof. unfold paymentTiedElsewhere. quiet. Qed.
Lemma quiet_other proc id pid d : quiet (otherPayment proc id pid d).
Proof. unfold otherPayment. quiet. Qed.
Lemma quiet_unknown proc oid pid d : quiet (unknownOrder proc oid pid d).
Proof. unfold unknownOrder. quiet. Qed.
Lemma quiet_contradicted proc id pid d c : quiet (contradicted proc id pid d c).
Proof. unfold contradicted. quiet. Qed.
#[export] Hint Resolve quiet_tied quiet_releaseFor quiet_elsewhere quiet_other quiet_unknown quiet_contradicted : frame.
Lemma quiet_more proc id pid o d c n : quiet (moreMoney proc id pid o d c n).
Proof. unfold moreMoney. quiet. Qed.
Lemma quiet_reversed proc id pid o c : quiet (paidPaymentReversed proc id pid o c).
Proof. unfold paidPaymentReversed. quiet. Qed.
#[export] Hint Resolve quiet_more quiet_reversed : frame.

Lemma classify_fails d to : c_kind (classify d) = Fails to -> to ∈ [OExpired; OFailed; ORefunded].
Proof. unfold classify. cbn. repeat case_match; intros [= <-]; set_solver. Qed.

Lemma quiet_terminal proc id pid o d c to ev : to ∈ [OExpired; OFailed; ORefunded] -> quiet (terminal proc id pid o d c to ev).
Proof. intros Hto. unfold terminal. quiet. by apply quiet_q_, gone_close_tx. Qed.

Lemma samePayment_resting tid proc id pid o d c : resting tid proc (samePayment proc id pid o d c).
Proof. unfold samePayment. resting. Qed.
#[export] Hint Resolve samePayment_resting : frame.

Lemma money_resting tid proc again id pid o d c ev : resting tid proc (money proc again id pid o d c ev).
Proof.
  revert o. induction again as [|again IH]; intros o; cbn [money]; resting.
Qed.
#[export] Hint Resolve money_resting : frame.

Lemma decide_resting tid proc d pid oid ev : resting tid proc (decide_callback proc d pid oid ev).
Proof.
  unfold decide_callback. apply resting_bind; [destruct oid; resting|]. intros row.
  destruct oid as [id|]; [|resting]. destruct row as [o|]; [|resting].
  destruct (c_kind (classify d)) eqn:Hk; try (resting; fail).
  apply resting_quiet, quiet_terminal. by eapply classify_fails.
Qed.
#[export] Hint Resolve decide_resting : frame.

Lemma handle_resting tid proc a : resting tid proc (handle proc a).
Proof. unfold handle. destruct a; resting. Qed.
Lemma handlePaused_resting tid proc a : resting tid proc (handlePaused proc a).
Proof. unfold handlePaused. destruct a; resting. Qed.
#[export] Hint Resolve handle_resting handlePaused_resting : frame.

Lemma start_resting tid pid r : resting tid pid (start pid r).
Proof. destruct r; cbn [start]; resting. Qed.

(** ** The protocol *)

Lemma map_sum_filter {K A} `{Countable K} (f : A -> Z) (P : K * A -> Prop) `{!forall x, Decision (P x)} (t : gmap K A) :
  (forall i a, t !! i = Some a -> ~ P (i, a) -> f a = 0) -> map_sum f (filter P t) = map_sum f t.
Proof.
  induction t as [|i a t Hi IH] using map_ind; intros Hz; [by rewrite map_filter_empty|].
  rewrite map_sum_insert by done. rewrite <- IH.
  - destruct (decide (P (i, a))) as [HP|HP].
    + rewrite map_filter_insert_True by done. apply map_sum_insert. by rewrite map_lookup_filter, Hi.
    + rewrite map_filter_insert_False by done. rewrite (delete_id t) by done.
      rewrite (Hz i a); [lia|by rewrite lookup_insert_eq|done].
  - intros j b Hj. apply Hz. rewrite lookup_insert_ne; [done|]. intros ->. congruence.
Qed.

Lemma map_sum_filter_le {K A} `{Countable K} (f : A -> Z) (P : K * A -> Prop) `{!forall x, Decision (P x)} (t : gmap K A) :
  (forall a, 0 <= f a) -> map_sum f (filter P t) <= map_sum f t.
Proof.
  intros Hf. induction t as [|i a t Hi IH] using map_ind; [by rewrite map_filter_empty|].
  rewrite map_sum_insert by done. specialize (Hf a). destruct (decide (P (i, a))) as [HP|HP].
  - rewrite map_filter_insert_True, map_sum_insert; [lia|by rewrite map_lookup_filter, Hi|done].
  - rewrite map_filter_insert_False by done. rewrite (delete_id t) by done. lia.
Qed.

(** Fewer notes, and what they said stands. *)
Lemma sends_ok_less w w' gs gs' id :
  sends_ok w gs id -> (forall i, order_gone i (w_db w) -> order_gone i (w_db w')) ->
  (length (sends_of id (w_wallet w')) <= length (sends_of id (w_wallet w)))%nat -> holders id gs' <= holders id gs ->
  (forall tid pid, gs' !! tid = Some (pid, Claimed id) -> gs !! tid = Some (pid, Claimed id)) -> sends_ok w' gs' id.
Proof.
  intros [H1 H2 H3 H4 H5] Hg Hw Hh Hf. split; [lia|lia|intros; apply Hg, H3; lia| |].
  - intros Hne. apply Hg, H4. destruct (sends_of id (w_wallet w)); [|done]. by destruct (sends_of id (w_wallet w')); cbn in Hw; [|lia].
  - intros tid pid Ht. apply Hf, H5 in Ht. rewrite Ht in Hw. by destruct (sends_of id (w_wallet w')); cbn in Hw; [|lia].
Qed.

Lemma busy_idle q i tid p gs : gs !! tid = None -> busy q i (<[tid := (p, Idle)]> gs) = busy q i gs.
Proof. intros H. rewrite busy_insert, delete_id by done. rewrite andb_false_r. lia. Qed.
Lemma holders_idle i tid p gs : gs !! tid = None -> holders i (<[tid := (p, Idle)]> gs) = holders i gs.
Proof. intros H. rewrite holders_insert, delete_id by done. cbn. lia. Qed.

Lemma idle_open w gs tid p : gs !! tid = None -> sends_inv w gs <-> sends_inv w (<[tid := (p, Idle)]> gs).
Proof.
  intros Hn. assert (forall t q g, g <> Idle -> <[tid := (p, Idle)]> gs !! t = Some (q, g) <-> gs !! t = Some (q, g)) as Hl.
  { intros t q g Hg. destruct (decide (t = tid)) as [->|Hne]; [rewrite lookup_insert_eq, Hn; naive_solver|by rewrite lookup_insert_ne]. }
  unfold sends_inv. split; intros (Hb & Hs & [P1 P2 P3]).
  - split; [intros q i; by rewrite busy_idle|]. split; [|split; [done| |done]].
    + intros Hc i Hi. eapply sends_ok_less; [by apply Hs|done|done|by rewrite holders_idle|]. intros t q Ht. by apply Hl in Ht.
    + intros t q g i Ht Hh. assert (g <> Idle) by (by intros ->). eapply (P2 t); [by apply Hl|done].
  - split; [intros q i; by rewrite Hb, busy_idle|]. split; [|split; [done| |done]].
    + intros Hc i Hi. eapply sends_ok_less; [by apply Hs|done|done|by rewrite holders_idle|]. intros t q Ht. by apply Hl.
    + intros t q g i Ht Hh. assert (g <> Idle) by (by intros ->). eapply (P2 t); [by apply Hl|done].
Qed.

Lemma forget_inv w gs p : sends_inv w gs -> sends_inv (forget p w) (filter (fun x => x.2.1 <> p) gs).
Proof.
  intros (Hb & Hs & [P1 P2 P3]). split; [|split; [|split]].
  - intros q i. unfold memory_of, forget. cbn. destruct (decide (q = p)) as [->|Hne].
    + rewrite lookup_delete_eq. cbn. symmetry. apply map_sum_zero. intros t [r g] Ht.
      apply map_lookup_filter_Some in Ht as [_ Ht]. cbn in *. by rewrite (proj2 (Z.eqb_neq r p)).
    + rewrite lookup_delete_ne by done. fold (memory_of q w). rewrite Hb. symmetry. unfold busy. apply map_sum_filter.
      intros t [r g] _ Hr. cbn in *. destruct (decide (r = p)) as [->|]; [|tauto]. by rewrite (proj2 (Z.eqb_neq p q)).
  - intros Hc i Hi. eapply sends_ok_less; [by apply Hs|done|done| |].
    + unfold holders. apply map_sum_filter_le. intros [r g]. cbn. case_match; lia.
    + intros t q Ht. by apply map_lookup_filter_Some in Ht as [Ht _].
  - done.
  - intros t q g i Ht Hh. apply map_lookup_filter_Some in Ht as [Ht _]. by eapply P2.
  - done.
Qed.

Lemma wallet_inv w gs f :
  sends_inv w gs -> (forall i, i <> "" -> length (sends_of i (f (w_wallet w))) <= length (sends_of i (w_wallet w)))%nat ->
  (forall t, t ∈ f (w_wallet w) -> x_comment t = "" \/ x_send t = false \/ exists t', t' ∈ w_wallet w /\ x_comment t' = x_comment t /\ x_send t' = x_send t) ->
  sends_inv (on_wallet f w) gs.
Proof.
  intros (Hb & Hs & [P1 P2 P3]) Hl Ht. split; [done|]. split; [|split; [done|done|]].
  - intros Hc i Hi. by eapply sends_ok_less; [by apply Hs|done|apply Hl|..].
  - intros t Hin Hsend Hne. destruct (Ht t Hin) as [H|[H|(t' & Hin' & Hc & Hs')]]; [done|congruence|].
    cbn. rewrite <- Hc. apply P3; congruence.
Qed.

Lemma not_a_send i t : is_send i t = false -> sends_of i [t] = [].
Proof. intros H. unfold sends_of. cbn. by rewrite H. Qed.

Lemma sends_of_drop i n l : (length (sends_of i (alter dropped n l)) <= length (sends_of i l))%nat.
Proof.
  revert n. induction l as [|t l IH]; intros n; [done|].
  assert (forall u k, sends_of i (u :: k) = sends_of i [u] ++ sends_of i k) as Hc by (intros u k; apply (sends_of_app i [u] k)).
  destruct n as [|n].
  - change (alter dropped 0%nat (t :: l)) with (dropped t :: l). rewrite (Hc (dropped t) l), (Hc t l), (not_a_send i (dropped t)); [rewrite !length_app; cbn; lia|]. unfold is_send. cbn. by rewrite andb_false_r.
  - change (alter dropped (S n) (t :: l)) with (t :: alter dropped n l).
    rewrite (Hc t (alter dropped n l)), (Hc t l), !length_app. specialize (IH n). lia.
Qed.

Lemma outside_inv w gs x : sends_inv w gs -> sends_inv (outside_step x w) gs.
Proof.
  intros Hi. destruct x as [txid to amount|txid to amount|n|s|ix|a]; cbn [outside_step].
  1,2: apply wallet_inv; [done| |].
  1,3: intros i Hne; rewrite sends_of_app, not_a_send, app_nil_r; [done|]; unfold is_send; cbn; by rewrite bool_decide_eq_false_2 by congruence.
  1,2: intros t [Ht|Ht%list_elem_of_singleton]%elem_of_app; [right; right; by exists t|subst t; by left].
  - apply wallet_inv; [done|intros i _; apply sends_of_drop|].
    intros t Ht. right. right. apply list_elem_of_lookup in Ht as [j Hj]. rewrite list_lookup_alter in Hj. case_decide.
    + apply fmap_Some in Hj as (t' & Hj & ->). exists t'. split; [by eapply list_elem_of_lookup_2|done].
    + exists t. split; [by eapply list_elem_of_lookup_2|done].
  - by eapply sends_inv_frame; [exact Hi|].
  - by eapply sends_inv_frame; [exact Hi|].
  - eapply sends_inv_frame; [exact Hi|]. apply frame_db. apply calm_rows. by left.
Qed.

Lemma sends_protocol : protocol start forget outside_step sends_inv Idle.
Proof.
  split.
  - intros p r tid. apply start_resting.
  - intros w gs tid p Hn. by apply idle_open.
  - intros w gs tid p Hn. by apply idle_open.
  - intros w gs p. apply forget_inv.
  - intros w gs x. apply outside_inv.
Qed.
