(* ===== verification/MarketKept.v ===== *)
(** * What every statement of the market keeps (contrib/market)

    The interface between the programs and the invariants of the database: the
    changes the UPDATEs of the orders table make, and the transactions. What keeps
    its promise for each of them holds in every state the market can reach, since
    every await of every program is one of them or leaves the database alone. *)

From S2P Require Import Prelude JsInt JsNum MarketPrice Tasks MarketDb MarketLadder MarketDelivery MarketSafe MarketIpn MarketShop MarketRetire MarketRun.
Local Open Scope Z_scope.

(** ** Statements that keep an invariant *)

(** When it commits. *)
Definition keeps (I : db -> Prop) {A} (m : stmt A) : Prop := forall d a d', I d -> m d = (Ok a, d') -> I d'.

Create HintDb books.

Section keeps.
Context {I : db -> Prop}.

Lemma kept_ret {A} (a : A) : keeps I (mret a).
Proof. by intros d b d' Hd [= _ <-]. Qed.
Lemma kept_fail {A} e : keeps I (fail (A := A) e).
Proof. by intros d b d' Hd [=]. Qed.
Lemma kept_select {A} (f : db -> A) : keeps I (select f).
Proof. by intros d b d' Hd [= _ <-]. Qed.
Lemma kept_lift {A} (r : result err A) : keeps I (lift_stmt r).
Proof. by intros d b d' Hd [= _ <-]. Qed.
Lemma kept_bind {A B} (m : stmt A) (f : A -> stmt B) : keeps I m -> (forall a, keeps I (f a)) -> keeps I (m ≫= f).
Proof.
  intros Hm Hf d b d' Hd. unfold mbind, stmt_bind. destruct (m d) as [[a|e] d1] eqn:E; [|done].
  intros H. eapply Hf; [|exact H]. by eapply Hm.
Qed.
Lemma kept_with_tx {A} (m : stmt (bool * A)) : keeps I m -> keeps I (with_tx m).
Proof.
  intros Hm d b d' Hd. unfold with_tx. destruct (m d) as [[[[] a]|e] d1] eqn:E; intros [= <- <-]; [done|by eapply Hm].
Qed.
Lemma kept_if {A} (b : bool) (m m' : stmt A) : keeps I m -> keeps I m' -> keeps I (if b then m else m').
Proof. by destruct b. Qed.
End keeps.
#[export] Hint Resolve kept_ret kept_fail kept_select kept_lift kept_with_tx kept_if : books.

(** ** The interface *)

Definition closed_status (s : order_status) : Prop := s ∈ [OFailed; OExpired; ORefunded].

(** The guard and the effect of each [UPDATE orders] but the one that ties a payment. *)
Inductive change : (order -> bool) -> (order -> order) -> Prop :=
  | Chg_expire owner : change (fun o => owned_by owner o && is_pending o) (set_status OExpired)
  | Chg_no_invoice : change is_pending (set_status OFailed)
  | Chg_invoice i : change (fun _ => true) (set_invoice i)
  | Chg_close to : closed_status to -> change (fun o => is_pending o && bool_decide (o_paid_payment_id o = None)) (set_status to)
  | Chg_delivered txid t : change not_recorded (set_delivered txid t)
  | Chg_by_hand txid t :
      change not_recorded (fun o => set_mode (Some (default Manual (o_delivery_mode o))) (set_delivered txid t o))
  | Chg_unread : change (fun _ => true) (set_error (Some WalletUnread))
  | Chg_manual : change (fun o => bool_decide (o_delivery_mode o = None)) (set_mode (Some Manual))
  | Chg_low : change (fun _ => true) (fun o => set_error (Some FloatTooLow) (set_mode (Some Manual) o))
  | Chg_claim : change (fun o => awaiting o && not_recorded o) (fun o => set_mode (Some Auto) (set_status OSending o))
  | Chg_unresolved : change in_sending (set_error (Some SendUnresolved))
  | Chg_failed : change (fun _ => true) (fun o => set_error (Some SendFailed) (set_status ONeedsReview o))
  | Chg_fell : change in_sending (fun o => set_error (Some FloatFell) (set_mode (Some Manual) (set_status OAwaiting o)))
  | Chg_stuck : change in_sending (fun o => set_error (Some NoTransactionFound) (set_status ONeedsReview o))
  | Chg_reviewed : change (fun o => bool_decide (o_status o = ONeedsReview)) (set_status OAwaiting)
  | Chg_less pid :
      change (fun o => bool_decide (o_paid_payment_id o = Some pid) && awaiting o && not_recorded o)
             (fun o => set_error (Some PaymentNowLess) (set_status ONeedsReview o))
  | Chg_more pid paid amount invoice rel :
      change (fun o => bool_decide (o_paid_payment_id o = Some pid) && bool_decide (o_status o = ONeedsReview)
                && not_recorded o && match paid_num o with Some h => num_ltb h paid | None => true end)
             (set_more amount invoice rel)
  | Chg_reversed status pid :
      change (fun o => not_recorded o && bool_decide (o_status o ∈ [OAwaiting; ONeedsReview])
                && negb (bool_decide (o_delivery_error o = Some (PaymentReversed status pid))))
             (fun o => set_error (Some (PaymentReversed status pid)) (set_status ONeedsReview o)).
#[export] Hint Constructors change : books.

(** An invariant that every statement of the market keeps. *)
Class Kept (I : db -> Prop) : Prop := {
  kp_change id g f : change g f -> keeps I (update_order id g f);
  kp_settle id : keeps I (settleLadder id);
  kp_release id : keeps I (releaseLadder id);
  kp_buy b owner e : keeps I (buy_tx b owner e);
  kp_accept id pid d e : keeps I (accept_tx id pid d e);
  kp_hold id pid d why rel e : keeps I (hold_tx id pid d why rel e);
  kp_event key oid status : keeps I (insert_event key oid status);
  kp_record i o : keeps I (record_outcome i o);
  kp_retire txid vout height system value want e : keeps I (retire_output txid vout height system value want e);
  kp_cursor h : keeps I (setCursor h);
  kp_addresses a d : I d -> I (set_addresses a d)
}.

Section kept.
Context {I : db -> Prop} `{!Kept I}.

Lemma kept_expire id owner : keeps I (expireWithRelease id owner).
Proof.
  unfold expireWithRelease. apply kept_bind; [apply kp_change; auto with books|]. intros [].
  - apply kept_bind; [apply kp_release|auto with books].
  - auto with books.
Qed.
Lemma kept_close id to : closed_status to -> keeps I (close_tx id to).
Proof.
  intros Hto. unfold close_tx. apply kept_with_tx, kept_bind; [apply kp_release|]. intros _.
  apply kept_bind; [apply kp_change; auto with books|]. auto with books.
Qed.
Lemma kept_select_order id : keeps I (select_order id).
Proof. apply kept_select. Qed.
Lemma kept_find_event key status : keeps I (find_event key status).
Proof. apply kept_select. Qed.
Lemma kept_today e : keeps I (retiredToday e).
Proof. apply kept_select. Qed.
End kept.
#[export] Hint Resolve kp_change kp_settle kp_release kp_buy kp_accept kp_hold kp_event kp_record kp_retire kp_cursor
  kept_expire kept_close kept_select_order kept_find_event kept_today : books.

(** ** Programs *)

Section tidy.
Context {I : db -> Prop} `{!Kept I}.
#[local] Abbreviation tidy := (does (keeping (fun w => I (w_db w)))).

Lemma tidy_q {A} (f : env -> stmt A) : (forall e, keeps I (f e)) -> tidy (q f).
Proof.
  intros Hf. apply does_await. intros o w Hw. unfold run_stmt.
  pose proof (fun a d => Hf (env_of o w) (w_db w) a d Hw) as H.
  destruct (or_link o), (f (env_of o w) (w_db w)) as [[a|e] d]; cbn; try done; by eapply H.
Qed.
Lemma tidy_q_ {A} (f : stmt A) : keeps I f -> tidy (q_ f).
Proof. intros Hf. by apply tidy_q. Qed.
Lemma tidy_update id guard f : change guard f -> tidy (q_ (update_order id guard f)).
Proof. intros Hf. by apply tidy_q_, kp_change. Qed.
Lemma tidy_await {A} (f : oracle -> world -> result err A * world) : (forall o w, w_db (f o w).2 = w_db w) -> tidy (await f).
Proof. intros Hf. apply does_await. intros o w Hw. by rewrite Hf. Qed.
Lemma tidy_local {A} (f : world -> A * world) : (forall w, w_db (f w).2 = w_db w) -> tidy (local f).
Proof. intros Hf. apply tidy_await. intros o w. specialize (Hf w). by destruct (f w). Qed.
Lemma tidy_rpc {A} (f : oracle -> world -> A * world) : (forall o w, w_db (f o w).2 = w_db w) -> tidy (rpc f).
Proof. intros Hf. apply tidy_await. intros o w. specialize (Hf o w). by destruct (or_link o), (f o w). Qed.
Lemma tidy_every {A} (f : A -> program ()) l : (forall a, tidy (f a)) -> tidy (every f l).
Proof. intros Hf. induction l as [|a l IH]; [done|]. apply does_bind; [apply Hf|done]. Qed.
Lemma tidy_find id : tidy (findSentTx id).
Proof. apply tidy_rpc. intros _ w. cbn. unfold note_missed. by repeat case_match. Qed.
Lemma tidy_notify_every pid kind gap : tidy (notify_every pid kind gap).
Proof. apply tidy_await. intros o w. cbn; by repeat case_match. Qed.
(** What closes an order is one of the three that close. *)
Lemma classify_closes d to : c_kind (classify d) = Fails to -> closed_status to.
Proof. unfold classify, closed_status. cbn. repeat case_match; intros [=]; subst to; set_solver. Qed.

Lemma tidy_tell proc key text : tidy (tell proc key text).
Proof. apply tidy_local. intros w. by case_match. Qed.
Lemma tidy_send to amount id : tidy (sendtoaddress to amount id).
Proof. apply tidy_await. intros o w. by case_match. Qed.
Lemma tidy_hand_back id : tidy (hand_back id).
Proof.
  apply does_await. intros o w Hw. destruct (run_stmt _ o w) as [r w'] eqn:Hr. unfold run_stmt in Hr.
  pose proof (kp_change id in_sending (fun o => set_error (Some NoTransactionFound) (set_status ONeedsReview o)) Chg_stuck (w_db w)) as Hu.
  enough (I (w_db w')) by (cbn; repeat case_match; done).
  destruct (or_link o), (update_order _ _ _ (w_db w)) as [[a|e] d]; injection Hr as _ <-; try done; by eapply Hu.
Qed.
#[local] Hint Resolve tidy_find tidy_notify_every tidy_tell tidy_send tidy_hand_back : books.

Ltac tidy_step :=
  match goal with
  | |- does _ (mret _) => done
  | |- does _ (throw_io _) => done
  | |- does _ (Ret _) => done
  | |- does _ (_ ≫= _) => apply does_bind; [|intros ?]
  | |- does _ (try_io _ _) => apply does_try; [|intros ?]
  | |- does _ (finally_io _ _) => apply does_finally
  | |- does _ (every _ _) => apply tidy_every; intros ?
  | |- does _ (let '_ := ?x in _) => destruct x
  | |- does _ (match ?x with _ => _ end) => destruct x
  | |- does _ (rpc _) => solve [by apply tidy_rpc]
  | |- does _ (local _) => solve [by apply tidy_local]
  | |- does _ (q_ (update_order _ _ _)) => solve [apply tidy_update; auto with books]
  | |- does _ (q_ _) => solve [apply tidy_q_; auto with books]
  | |- does _ (q _) => solve [apply tidy_q; intros ?; auto with books]
  | |- does _ _ => solve [auto with books]
  | |- does _ _ => progress unfold attempt, ignore_io, notify, get_settings, floatBalance, alreadySent, refuse
  end.
Ltac tidy := repeat tidy_step.

Lemma tidy_announce id : tidy (announcePurchase id).
Proof. unfold announcePurchase. tidy. apply tidy_await. intros oc w. by case_match. Qed.
#[local] Hint Resolve tidy_announce : books.
Lemma tidy_recordSent id txid : tidy (recordSent id txid).
Proof. unfold recordSent. tidy. Qed.
Lemma tidy_markDelivered id txid : tidy (markDelivered id txid).
Proof. unfold markDelivered. tidy. Qed.
#[local] Hint Resolve tidy_recordSent tidy_markDelivered : books.
Lemma tidy_deliver pid id force : tidy (deliver pid id force).
Proof.
  unfold deliver, deliver_check, deliver_claim, claim, send_claimed, send_failed, enterSending, leaveSending, crashed. tidy.
Qed.
#[local] Hint Resolve tidy_deliver : books.
Lemma tidy_reconcile pid : tidy (reconcileSending pid).
Proof. unfold reconcileSending, reconcile_one, stuck_orders. tidy. Qed.
Lemma tidy_admin_send pid id reviewed : tidy (admin_send pid id reviewed).
Proof. unfold admin_send. tidy. Qed.
Lemma tidy_cli_send pid id reviewed : tidy (cli_send pid id reviewed).
Proof. unfold cli_send. tidy. Qed.
Lemma tidy_buy proc b : tidy (buy proc b).
Proof. unfold buy, headroomPcn, ownerSpendable, outstandingOwed. tidy. by apply tidy_await. Qed.
Lemma tidy_sweepOrders pid : tidy (sweepExpiredOrders pid).
Proof. unfold sweepExpiredOrders, stale_orders, reserved_in. tidy. Qed.
#[local] Hint Resolve tidy_reconcile tidy_admin_send tidy_cli_send tidy_buy tidy_sweepOrders : books.
Lemma tidy_scan_outputs S txid height vout outs capLeft retired : tidy (scan_outputs S txid height vout outs capLeft retired).
Proof. revert vout retired. induction outs as [|[a v] outs IH]; intros vout retired; cbn [scan_outputs]; tidy. Qed.
#[local] Hint Resolve tidy_scan_outputs : books.
Lemma tidy_scan_block S height txs capLeft retired : tidy (scan_block S height txs capLeft retired).
Proof. revert retired. induction txs as [|[t o] txs IH]; intros retired; cbn [scan_block]; tidy. Qed.
#[local] Hint Resolve tidy_scan_block : books.
Lemma tidy_scan_blocks S n h capLeft retired : tidy (scan_blocks S n h capLeft retired).
Proof. revert h retired. induction n as [|n IH]; intros h retired; cbn [scan_blocks]; tidy. Qed.
#[local] Hint Resolve tidy_scan_blocks : books.
Lemma tidy_scan proc : tidy (scan proc).
Proof. unfold scan, scanInner. tidy. Qed.

Lemma tidy_logEvent pid oid status : tidy (logEvent pid oid status).
Proof. unfold logEvent. tidy. Qed.
Lemma tidy_record ev o : tidy (record ev o).
Proof. unfold record. tidy. Qed.
Lemma tidy_tied id o ev : tidy (tiedPayment id o ev).
Proof. unfold tiedPayment. tidy. Qed.
Lemma tidy_releaseFor id o r b : tidy (releaseFor id o r b).
Proof. unfold releaseFor. tidy. Qed.
#[local] Hint Resolve tidy_scan tidy_logEvent tidy_record tidy_tied tidy_releaseFor : books.
Lemma tidy_more proc id pid o d c n : tidy (moreMoney proc id pid o d c n).
Proof. unfold moreMoney. tidy. Qed.
Lemma tidy_contradicted proc id pid d c : tidy (contradicted proc id pid d c).
Proof. unfold contradicted. tidy. Qed.
#[local] Hint Resolve tidy_more tidy_contradicted : books.
Lemma tidy_same proc id pid o d c : tidy (samePayment proc id pid o d c).
Proof. unfold samePayment. tidy. Qed.
#[local] Hint Resolve tidy_same : books.
Lemma tidy_money proc again id pid o d c ev : tidy (money proc again id pid o d c ev).
Proof.
  revert o. induction again as [|again IH]; intros o; cbn [money]; unfold otherPayment, paymentTiedElsewhere; tidy.
Qed.
#[local] Hint Resolve tidy_money : books.
Lemma tidy_terminal proc id pid o d c to ev : closed_status to -> tidy (terminal proc id pid o d c to ev).
Proof. intros Hto. unfold terminal, paidPaymentReversed. tidy. Qed.
Lemma tidy_decide proc d pid oid ev : tidy (decide_callback proc d pid oid ev).
Proof.
  unfold decide_callback, unknownOrder. apply does_bind; [destruct oid; tidy|]. intros row.
  destruct oid as [id|]; [|tidy]. destruct row as [o|]; [|tidy]. destruct (c_kind (classify d)) eqn:E; tidy.
  by apply tidy_terminal, (classify_closes d).
Qed.
#[local] Hint Resolve tidy_decide : books.
Lemma tidy_handle proc a : tidy (handle proc a).
Proof. unfold handle. destruct a; tidy. Qed.
Lemma tidy_handlePaused proc a : tidy (handlePaused proc a).
Proof. unfold handlePaused. destruct a; tidy. Qed.
#[local] Hint Resolve tidy_handle tidy_handlePaused : books.

Lemma tidy_start pid r : tidy (start pid r).
Proof. destruct r; cbn [start]; unfold cancel, admin_expire; tidy. Qed.

(** Whatever happens, it is kept. *)
Lemma market_run_keeps w es : I (w_db w) -> I (w_db (market_run w es)).
Proof.
  intros Hw. unfold market_run. apply (run_machine_keeps start forget outside_step (fun w => I (w_db w))); [|done| |done].
  - apply tidy_start.
  - intros x w' Hd. destruct x; cbn [outside_step]; try done. by apply kp_addresses.
Qed.
End tidy.
