(* ===== verification/MarketBooks.v ===== *)
(** * The market's books in every reachable state (contrib/market)

    Whatever runs in whatever order: no rung is oversold and its counters are the
    sums of its fills, every fill belongs to an order, one payment is on one order
    at most, an output is retired once and a callback is logged once. Each
    statement keeps this, so the market does ([MarketKept]). *)

From S2P Require Import Prelude JsInt JsNum MarketPrice Tasks MarketDb MarketLadder MarketDelivery MarketSafe MarketIpn MarketShop MarketRetire MarketRun MarketKept.
Local Open Scope Z_scope.

(** ** The books *)

Definition output_key (t : retirement) : string * Z := (t_txid t, t_vout t).
Definition event_key (e : ipn_event) : string * string := (i_payment_id e, i_status e).

Record books (d : db) : Prop := {
  bk_ladder : ladder_inv d;
  bk_fills f : f ∈ fills d -> is_Some (orders d !! l_order f);
  bk_payments id1 id2 o1 o2 p :
    orders d !! id1 = Some o1 -> orders d !! id2 = Some o2 ->
    o_paid_payment_id o1 = Some p -> o_paid_payment_id o2 = Some p -> id1 = id2;
  bk_outputs : NoDup (output_key <$> retirements d);
  bk_events : NoDup (event_key <$> ipn_events d)
}.

#[local] Abbreviation keeps_books := (keeps books).

(** What changes neither inventory nor keys nor payments. *)
Record plain (d d' : db) : Prop := {
  pl_rungs : rungs d' = rungs d;
  pl_fills : fills d' = fills d;
  pl_orders id o' : orders d' !! id = Some o' -> exists o, orders d !! id = Some o /\ o_paid_payment_id o' = o_paid_payment_id o;
  pl_known id : is_Some (orders d !! id) -> is_Some (orders d' !! id);
  pl_outputs : output_key <$> retirements d' = output_key <$> retirements d;
  pl_events : event_key <$> ipn_events d' = event_key <$> ipn_events d
}.

Lemma ladder_inv_same d d' : ladder_inv d -> rungs d' = rungs d -> fills d' = fills d -> ladder_inv d'.
Proof. intros [H1 H2 H3 H4 H5] Hr Hf. split; rewrite ?Hr, ?Hf; done. Qed.

Lemma books_plain d d' : books d -> plain d d' -> books d'.
Proof.
  intros [B1 B2 B3 B4 B5] [P1 P2 P3 P4 P5 P6]. split.
  - by eapply ladder_inv_same.
  - intros f. rewrite P2. intros Hf. by apply P4, B2.
  - intros id1 id2 o1 o2 p H1 H2 Hp1 Hp2. destruct (P3 _ _ H1) as (x1 & Hx1 & E1), (P3 _ _ H2) as (x2 & Hx2 & E2).
    eapply (B3 id1 id2 x1 x2 p); congruence.
  - by rewrite P5.
  - by rewrite P6.
Qed.

Lemma plain_insert id o o' d :
  orders d !! id = Some o -> o_paid_payment_id o' = o_paid_payment_id o -> plain d (on_orders <[id := o']> d).
Proof.
  intros Ho Hp. split; try done; cbn.
  - intros i x. rewrite lookup_insert_Some. intros [[<- <-]|[Hne Hx]]; [by exists o|by exists x].
  - intros i Hi. destruct (decide (i = id)) as [->|Hne]; [by rewrite lookup_insert_eq|by rewrite lookup_insert_ne].
Qed.

Lemma books_update_order id guard f :
  (forall o, o_paid_payment_id (f o) = o_paid_payment_id o) -> keeps_books (update_order id guard f).
Proof.
  intros Hf d b d' Hd. unfold update_order. destruct (orders d !! id) as [o|] eqn:Ho; [|by intros [= _ <-]].
  destruct (guard o); intros [= _ <-]; [|done]. eapply books_plain; [exact Hd|]. by eapply plain_insert.
Qed.

(** One payment, one order: the UNIQUE index. *)
Lemma tied_elsewhere_none id pid d i o :
  tied_elsewhere id pid d = None -> orders d !! i = Some o -> o_paid_payment_id o = Some pid -> i = id.
Proof.
  unfold tied_elsewhere. intros Hn Hi Hp. destruct (decide (i = id)) as [|Hne]; [done|exfalso].
  assert ((i, o) ∈ filter (fun x : string * order => x.1 <> id /\ o_paid_payment_id x.2 = Some pid) (map_to_list (orders d))) as Hin.
  { apply list_elem_of_filter. split; [done|]. by apply elem_of_map_to_list. }
  destruct (filter _ (map_to_list (orders d))); [by apply elem_of_nil in Hin|done].
Qed.

Lemma books_tie id pid guard f :
  (forall o, o_paid_payment_id (f o) = Some pid) -> keeps_books (tie_order id pid guard f).
Proof.
  intros Hf d b d' Hd. unfold tie_order. destruct (orders d !! id) as [o|] eqn:Ho; [|by intros [= _ <-]].
  destruct (negb (guard o)); [by intros [= _ <-]|]. destruct (tied_elsewhere id pid d) eqn:Ht; [done|].
  intros [= _ <-]. destruct Hd as [B1 B2 B3 B4 B5]. split; cbn; [by eapply ladder_inv_same| | |done|done].
  - intros g Hg. destruct (decide (l_order g = id)) as [->|Hne]; [by rewrite lookup_insert_eq|rewrite lookup_insert_ne; auto].
  - intros id1 id2 o1 o2 p. rewrite !lookup_insert_Some. intros [[<- <-]|[Hn1 H1]] [[<- <-]|[Hn2 H2]] Hp1 Hp2; [done|..].
    + rewrite Hf in Hp1. simplify_eq. symmetry. by eapply tied_elsewhere_none.
    + rewrite Hf in Hp2. simplify_eq. by eapply tied_elsewhere_none.
    + by eapply B3.
Qed.

(** ** Inventory *)

Lemma books_ladder d d' :
  books d -> ladder_inv d' -> orders d' = orders d -> l_order <$> fills d' = l_order <$> fills d ->
  retirements d' = retirements d -> ipn_events d' = ipn_events d -> books d'.
Proof.
  intros [B1 B2 B3 B4 B5] Hl Ho Hf Hr He. split; rewrite ?Ho, ?Hr, ?He; [done| |done..].
  intros f Hin. apply (list_elem_of_fmap_2 l_order) in Hin. rewrite Hf in Hin.
  apply list_elem_of_fmap in Hin as (g & -> & Hg). by apply B2.
Qed.

Lemma moved_orders id s d : l_order <$> fills (moved_fills id s d) = l_order <$> fills d.
Proof. cbn. rewrite <- list_fmap_compose. apply list_fmap_ext. intros i f _. cbn. by case_match. Qed.

Lemma books_settle id : keeps_books (settleLadder id).
Proof.
  intros d a d' Hd. rewrite settleLadder_spec by apply Hd. intros [= _ <-].
  eapply books_ladder; [exact Hd|by apply moved_inv; [apply Hd|]|done|apply moved_orders|done|done].
Qed.
Lemma books_release id : keeps_books (releaseLadder id).
Proof.
  intros d a d' Hd. rewrite releaseLadder_spec by apply Hd. intros [= _ <-].
  eapply books_ladder; [exact Hd|by apply moved_inv; [apply Hd|]|done|apply moved_orders|done|done].
Qed.
Lemma books_retire need : keeps_books (retireFromLadder need).
Proof.
  intros d a d' Hd. destruct (decide (0 < need)) as [Hn|Hn].
  - destruct (retireFromLadder_spec need d (bk_ladder _ Hd) Hn) as [-> Hf]. intros [= _ <-].
    eapply books_ladder; [exact Hd|by apply retired_inv; [apply Hd|]|done..].
  - unfold retireFromLadder. rewrite (proj2 (Z.leb_le need 0)) by lia. by intros [= _ <-].
Qed.
#[export] Hint Resolve books_settle books_release books_retire : books.

Lemma books_retire_wish w : keeps_books (retire_wish w).
Proof.
  destruct w as [z|]; [apply books_retire|]. intros d a d' Hd. unfold retire_wish.
  rewrite (stmt_ok _ _ d (stocked d) d) by done. destruct (decide (0 < remUnits (stocked d))) as [Hn|Hn].
  - intros H. apply (books_retire (remUnits (stocked d)) d a); [done|]. unfold retireFromLadder.
    rewrite (proj2 (Z.leb_gt (remUnits (stocked d)) 0)) by lia. exact H.
  - destruct (stocked d) as [|[no r] rs]; [by intros [= _ <-]|]. cbn [retire_rungs].
    rewrite (proj2 (Z.leb_le _ 0)) by lia. by intros [= _ <-].
Qed.

Lemma books_insert_retirement t : keeps_books (insert_retirement t).
Proof.
  intros d a d' [B1 B2 B3 B4 B5]. unfold insert_retirement. destruct (existsb _ _) eqn:He; [done|].
  intros [= _ <-]. split; cbn; [by eapply ladder_inv_same|done|done| |done].
  rewrite fmap_app. apply NoDup_app. split; [done|]. split; [|apply NoDup_singleton].
  intros k Hk Hin%list_elem_of_singleton. subst k. apply list_elem_of_fmap in Hk as (u & Hu & Hin).
  apply not_true_iff_false in He. apply He, existsb_exists. exists u. split; [by apply list_elem_of_In|].
  unfold output_key in Hu. unfold same_output. injection Hu as -> ->. by rewrite String.eqb_refl, Z.eqb_refl.
Qed.
Lemma books_set_retired txid vout units : keeps_books (set_retired txid vout units).
Proof.
  intros d a d' Hd [= _ <-]. eapply books_plain; [exact Hd|]. split; try done; cbn.
  - intros id o' Ho. by exists o'.
  - rewrite <- list_fmap_compose. apply list_fmap_ext. intros i t _. cbn. by case_match.
Qed.
#[export] Hint Resolve books_retire_wish books_insert_retirement books_set_retired : books.
Lemma books_retire_output txid vout height system value want e :
  keeps_books (retire_output txid vout height system value want e).
Proof. unfold retire_output. repeat (apply kept_bind; [auto with books|intros ?]). auto with books. Qed.
Lemma books_setCursor h : keeps_books (setCursor h).
Proof.
  intros d a d' Hd [= _ <-]. eapply books_plain; [exact Hd|]. split; try done. intros id o' Ho. by exists o'.
Qed.
#[export] Hint Resolve books_retire_output books_setCursor : books.

(** ** Buying *)

Lemma orders_update_rung no f d : orders (update_rung no f d).2 = orders d.
Proof. unfold update_rung. destruct (rungs d !! no) as [r|]; [|done]. by destruct (rung_ok (f r)). Qed.
Lemma orders_bind {A B} (m : stmt A) (f : A -> stmt B) :
  (forall d, orders (m d).2 = orders d) -> (forall a d, orders (f a d).2 = orders d) -> forall d, orders ((m ≫= f) d).2 = orders d.
Proof. intros Hm Hf d. unfold mbind, stmt_bind. specialize (Hm d). destruct (m d) as [[a|e] d']; [|done]. by rewrite Hf. Qed.
Lemma orders_each {A} (f : A -> stmt ()) l : (forall a d, orders (f a d).2 = orders d) -> forall d, orders (each f l d).2 = orders d.
Proof. intros Hf. induction l as [|a l IH]; [done|]. apply orders_bind; [apply Hf|auto]. Qed.
Lemma orders_reserve id usd e d : orders (reserveLadder id usd e d).2 = orders d.
Proof.
  unfold reserveLadder. apply orders_bind; [done|]. intros rs. apply orders_bind; [done|]. intros w d0.
  destruct (num_ltb _ _); [done|]. apply orders_bind; [|done]. apply orders_each. intros f.
  apply orders_bind; [|intros _; apply orders_update_rung]. intros d1. unfold insert_fill. by case_match.
Qed.

Lemma books_new_order d d' id o :
  books d -> orders d !! id = None -> o_paid_payment_id o = None -> ladder_inv d' -> orders d' = orders d ->
  retirements d' = retirements d -> ipn_events d' = ipn_events d ->
  (forall f, f ∈ fills d' -> f ∈ fills d \/ l_order f = id) -> books (on_orders <[id := o]> d').
Proof.
  intros [B1 B2 B3 B4 B5] Hid Hp Hl Ho Hr He Hf. split; cbn; rewrite ?Hr, ?He, ?Ho; [by eapply ladder_inv_same| | |done|done].
  - intros f Hin. destruct (decide (l_order f = id)) as [->|Hne]; [by rewrite lookup_insert_eq|].
    rewrite lookup_insert_ne by done. destruct (Hf f Hin) as [Hg|Hg]; [by apply B2|done].
  - intros id1 id2 o1 o2 p. rewrite !lookup_insert_Some. intros [[<- <-]|[Hn1 H1]] [[<- <-]|[Hn2 H2]] Hp1 Hp2; try congruence.
    by eapply B3.
Qed.

Lemma ok_bind {A B} (m : stmt A) (f : A -> stmt B) d b d' :
  (m ≫= f) d = (Ok b, d') -> exists a d1, m d = (Ok a, d1) /\ f a d1 = (Ok b, d').
Proof. unfold mbind, stmt_bind. destruct (m d) as [[a|e] d1]; [eauto|done]. Qed.

Lemma reserved_fills id fs d f : f ∈ fills (reserved id fs d) -> f ∈ fills d \/ l_order f = id.
Proof. cbn. intros [H|(g & -> & _)%list_elem_of_fmap]%elem_of_app; [by left|by right]. Qed.

(** What a purchase that commits was: a reservation within the limits, and a new order. *)
Lemma buy_tx_inv b owner e d k d' :
  buy_tx b owner e d = (Ok k, d') ->
  exists d1, reserveLadder (b_id b) (b_usd b) e d = (Ok k, d1) /\ orders d1 !! b_id b = None
    /\ d' = on_orders <[b_id b := new_order b k (e_now e)]> d1
    /\ num_ltb (maxOrderPcn (e_settings e)) (k_pcn k) = false
    /\ (exists already, accountBoughtPcn (b_email b) e d1 = (Ok already, d1)
         /\ num_ltb (accountCapPcn (e_settings e)) (num_add already (k_pcn k)) = false)
    /\ (exists owed, outstandingOwed d1 = (Ok owed, d1) /\ num_ltb (num_sub owner owed) (k_pcn k) = false).
Proof.
  unfold buy_tx. intros (k' & d1 & Hr & H)%ok_bind. apply ok_bind in H as (rs & d2 & [= <- <-] & H).
  apply ok_bind in H as (over & d2 & Hover & H).
  assert (d2 = d1) as ->.
  { unfold tooMuchPcn in Hover. destruct (negb _); [by injection Hover|]. apply ok_bind in Hover as (? & ? & [= _ <-] & Hover). by injection Hover. }
  destruct over; [done|]. apply ok_bind in H as (already & d2 & Ha & H).
  assert (d2 = d1) as -> by (by injection Ha). destruct (num_ltb (accountCapPcn _) _) eqn:Hcap; [done|].
  apply ok_bind in H as (owed & d2 & Ho & H). assert (d2 = d1) as -> by (by injection Ho).
  destruct (num_ltb (num_sub owner owed) _) eqn:Hown; [done|]. apply ok_bind in H as ([] & d2 & Hi & H).
  unfold insert_order in Hi. destruct (orders d1 !! b_id b) eqn:Hnone; [done|]. injection Hi as <-. injection H as -> <-.
  exists d1. split; [done|]. split; [done|]. split; [done|]. split; [|split; eauto].
  unfold tooMuchPcn in Hover. destruct (num_ltb (maxOrderPcn _) _); [cbn in Hover|done].
  apply ok_bind in Hover as (? & ? & _ & [=]).
Qed.

Lemma no_fills id d : books d -> orders d !! id = None -> forall f, f ∈ fills d -> l_order f <> id.
Proof. intros Hd Hid f Hf E. destruct (bk_fills _ Hd f Hf) as [o Ho]. congruence. Qed.

Lemma books_buy b owner e : keeps_books (buy_tx b owner e).
Proof.
  intros d k d' Hd (d1 & Hr & Hid & -> & _)%buy_tx_inv.
  pose proof (orders_reserve (b_id b) (b_usd b) e d) as Ho. rewrite Hr in Ho. cbn in Ho.
  assert (orders d !! b_id b = None) as Hid' by congruence.
  destruct (reserveLadder_inv _ _ _ _ _ _ (bk_ladder _ Hd) (no_fills _ _ Hd Hid') Hr) as [Hl ->].
  eapply books_new_order; [exact Hd|done|done|exact Hl|done|done|done|]. apply reserved_fills.
Qed.
#[export] Hint Resolve books_buy : books.

(** ** Statements on orders and events *)

Lemma books_insert_event key oid status : keeps_books (insert_event key oid status).
Proof.
  intros d a d' [B1 B2 B3 B4 B5]. unfold insert_event. destruct (existsb _ _) eqn:He; [done|].
  intros [= _ <-]. split; cbn; [by eapply ladder_inv_same|done|done|done|].
  rewrite fmap_app. apply NoDup_app. split; [done|]. split; [|apply NoDup_singleton].
  intros k Hk Hin%list_elem_of_singleton. subst k. apply list_elem_of_fmap in Hk as (u & Hu & Hin).
  apply not_true_iff_false in He. apply He, existsb_exists. exists u. split; [by apply list_elem_of_In|].
  unfold event_key in Hu. unfold same_event. injection Hu as -> ->. by rewrite !String.eqb_refl.
Qed.
Lemma books_record i o : keeps_books (record_outcome i o).
Proof.
  intros d a d' Hd [= _ <-]. eapply books_plain; [exact Hd|]. split; try done; cbn.
  - intros id o' Ho. by exists o'.
  - apply list_eq. intros j. rewrite !list_lookup_fmap, list_lookup_alter. case_decide as Hj; [subst j|done].
    destruct (ipn_events d !! i) as [x|]; [cbn; by case_match|done].
Qed.
Lemma books_accept id pid d e : keeps_books (accept_tx id pid d e).
Proof.
  unfold accept_tx. apply kept_with_tx, kept_bind; [auto with books|]. intros moved.
  apply kept_bind; [apply kept_select|]. intros [o|]; [|auto with books]. destruct (negb _); [auto with books|].
  apply kept_bind; [auto with books|]. intros sold. apply kept_bind; [by apply books_tie|]. auto with books.
Qed.
Lemma books_hold id pid d why rel e : keeps_books (hold_tx id pid d why rel e).
Proof. by apply books_tie. Qed.
#[export] Hint Resolve books_insert_event books_record books_accept books_hold : books.

(** The books keep what the interface asks. *)
#[export] Instance kept_books : Kept books.
Proof.
  split; auto with books.
  - intros id g f Hc. apply books_update_order. by destruct Hc.
  - intros a d Hd. eapply books_plain; [exact Hd|]. split; try done. intros id o' Ho. by exists o'.
Qed.

(** A ladder as it is created: every rung full. *)
Definition fresh_ladder (prices : list (Z * Z)) : gmap Z rung :=
  list_to_map (imap (fun i x => (Z.of_nat i + 1, {| g_price := x.1; g_total := x.2; g_sold := 0; g_reserved := 0; g_retired := 0 |})) prices).
Definition new_market (prices : list (Z * Z)) : db := {|
  rungs := fresh_ladder prices; fills := []; orders := ∅; ipn_events := []; retirements := []; chain_scan := None;
  spend_addresses := ∅ |}.
Definition opened (prices : list (Z * Z)) (S : settings) : world := {|
  w_db := new_market prices; w_wallet := []; w_memory := ∅; w_settings := S; w_index := None; w_alerts := [];
  w_spool := ∅; w_gave_up := []; w_missed := [] |}.

Lemma new_market_books prices : Forall (fun x => 0 <= x.2) prices -> books (new_market prices).
Proof.
  intros Hp. split; cbn; try (by constructor); try (by intros *; rewrite lookup_empty); try (by intros f Hf%elem_of_nil).
  assert (forall no r, fresh_ladder prices !! no = Some r -> g_sold r = 0 /\ g_reserved r = 0 /\ g_retired r = 0 /\ 0 <= g_total r) as Hr.
  { intros no r H. apply elem_of_list_to_map_2 in H. apply list_elem_of_lookup in H as [i Hi].
    rewrite list_lookup_imap in Hi. apply fmap_Some in Hi as ([p t] & Hl & [= -> ->]). cbn.
    rewrite Forall_lookup in Hp. specialize (Hp _ _ Hl). cbn in Hp. lia. }
  split; cbn; try (by constructor); try (by intros f Hf%elem_of_nil).
  - intros no r H. unfold held_in, at_rung. rewrite zsum_by_nil. by apply Hr in H as (? & ? & ? & ?).
  - intros no r H. unfold held_in, at_rung. rewrite zsum_by_nil. by apply Hr in H as (? & ? & ? & ?).
  - intros no r H. apply Hr in H as (? & ? & ? & ?). unfold taken. lia.
Qed.

Lemma opened_sends prices S : sends_inv (opened prices S) ∅.
Proof.
  split; [|split].
  - intros pid id. unfold busy. by rewrite map_sum_empty.
  - intros _ id _. split; cbn; unfold holders; rewrite ?map_sum_empty; try done; lia.
  - split; cbn; [by intros id o|by intros tid pid g id|by intros tx ?%elem_of_nil].
Qed.
