(* ===== verification/MarketRows.v ===== *)
(** * What an order's status says of its columns (contrib/market)

    Which columns of an orders row are set, by its status: nothing of a payment or
    a delivery before it is paid, a payment while it is owed, a transaction once it
    is delivered. Every statement keeps it. *)

From S2P Require Import Prelude JsInt JsNum MarketPrice Tasks MarketDb MarketLadder MarketDelivery MarketSafe MarketIpn MarketShop MarketRetire MarketRun MarketKept MarketBooks.
Local Open Scope Z_scope.

Record row_typed (o : order) : Prop := {
  rt_unpaid : unpaid o = true -> o_paid_payment_id o = None /\ o_delivered_txid o = None;
  rt_delivered : o_status o = ODelivered -> is_Some (o_delivered_txid o);
  rt_payment : is_Some (o_paid_payment_id o) <-> is_Some (o_paid_at o);
  rt_invoice : is_Some (o_paid_payment_id o) <-> is_Some (o_invoice_usd o);
  rt_txid : is_Some (o_delivered_txid o) <-> is_Some (o_delivered_at o)
}.
Definition rows_typed (d : db) : Prop := map_Forall (fun _ o => row_typed o) (orders d).

#[local] Abbreviation keeps_rows := (keeps rows_typed).

(** A change of the columns that a type speaks of. *)
Lemma typed_change g f o : change g f -> g o = true -> row_typed o -> row_typed (f o).
Proof.
  assert (forall o, is_pending o = true -> unpaid o = true) as Hp.
  { intros o' H%bool_decide_eq_true. unfold unpaid. rewrite H. done. }
  intros Hc Hg [H1 H2 H3 H4 H5]. destruct Hc; split; cbn in *; try done; unfold unpaid in *; cbn in *; try (by intros);
    try (intros; apply H1, Hp; by bool_to_prop).
  - match goal with H : closed_status _ |- _ => intros ->; unfold closed_status in H; set_solver end.
  - bool_to_prop. rewrite H4. split.
    + intros [x ->]. eauto.
    + intros _. apply H4. eauto.
Qed.

Lemma rows_insert id o d : rows_typed d -> row_typed o -> rows_typed (on_orders <[id := o]> d).
Proof. intros Hd Ho. by apply map_Forall_insert_2. Qed.
Lemma rows_same {A} (m : stmt A) : (forall d, orders (m d).2 = orders d) -> keeps_rows m.
Proof. intros Hm d a d' Hd H. specialize (Hm d). rewrite H in Hm. unfold rows_typed in *. cbn in Hm. by rewrite Hm. Qed.

Lemma rows_change id g f : change g f -> keeps_rows (update_order id g f).
Proof.
  intros Hc d a d' Hd. unfold update_order. destruct (orders d !! id) as [o|] eqn:Ho; [|by intros [= _ <-]].
  destruct (g o) eqn:Hg; intros [= _ <-]; [|done]. apply rows_insert; [done|]. eapply typed_change; [done..|].
  by apply (Hd id).
Qed.
(** A payment, on an order that is not sent. *)
Lemma typed_payment s usd pcn i pid paid c t e o :
  s = OAwaiting \/ s = ONeedsReview -> row_typed o -> row_typed (set_payment s usd pcn (Some i) pid paid c t e o).
Proof. intros Hs [H1 H2 H3 H4 H5]. split; cbn; try done; [by destruct Hs as [-> | ->]|intros ->; naive_solver]. Qed.
Lemma rows_tie id pid guard f :
  (forall o, guard o = true -> row_typed o -> row_typed (f o)) -> keeps_rows (tie_order id pid guard f).
Proof.
  intros Hf d a d' Hd. unfold tie_order. destruct (orders d !! id) as [o|] eqn:Ho; [|by intros [= _ <-]].
  destruct (guard o) eqn:Hg; cbn; [|by intros [= _ <-]]. destruct (tied_elsewhere id pid d); [done|].
  intros [= _ <-]. apply rows_insert; [done|]. apply Hf; [done|]. by apply (Hd id).
Qed.

Lemma orders_moveFills id s g d : orders (moveFills id s g d).2 = orders d.
Proof.
  revert d. unfold moveFills. apply orders_bind; [done|]. intros l. apply orders_bind.
  - apply orders_each. intros f d. apply orders_update_rung.
  - intros [] d. done.
Qed.
Lemma orders_retire_rungs l n d : orders (retire_rungs l n d).2 = orders d.
Proof.
  revert n d. induction l as [|[no r] l IH]; intros n d; cbn [retire_rungs]; [done|].
  repeat (case_match; [done || apply IH|]). revert d. apply orders_bind; [intros d; apply orders_update_rung|].
  intros [] d. revert d. apply orders_bind; [intros d; apply IH|done].
Qed.
Lemma rows_accept id pid d e : keeps_rows (accept_tx id pid d e).
Proof.
  unfold accept_tx. apply kept_with_tx, kept_bind; [apply rows_same, orders_moveFills|]. intros moved.
  apply kept_bind; [apply kept_select|]. intros [o|]; [|auto with books]. destruct (negb _); [auto with books|].
  apply kept_bind; [auto with books|]. intros sold. apply kept_bind; [|auto with books].
  apply rows_tie. intros o' _. apply typed_payment. case_match; auto.
Qed.
Lemma rows_buy b owner e : keeps_rows (buy_tx b owner e).
Proof.
  intros d k d' Hd (d1 & Hr & Hid & -> & _)%buy_tx_inv.
  pose proof (orders_reserve (b_id b) (b_usd b) e d) as Ho. rewrite Hr in Ho. cbn in Ho.
  apply rows_insert; [by unfold rows_typed; rewrite Ho|]. split; cbn; try done; by split; intros [? [=]].
Qed.

#[export] Instance kept_rows : Kept rows_typed.
Proof.
  split; intros.
  - by apply rows_change.
  - apply rows_same, orders_moveFills.
  - apply rows_same, orders_moveFills.
  - apply rows_buy.
  - apply rows_accept.
  - apply rows_tie. intros o _. apply typed_payment. auto.
  - apply rows_same. intros d. unfold insert_event. by case_match.
  - by apply rows_same.
  - apply rows_same. unfold retire_output. apply orders_bind; [intros d; unfold insert_retirement; by case_match|].
    intros []. apply orders_bind; [|by intros; apply orders_bind].
    intros d. unfold retire_wish, retireFromLadder. case_match; [case_match; [done|]|]; apply orders_retire_rungs.
  - by apply rows_same.
  - done.
Qed.
