(* ===== verification/MarketExample.v ===== *)
(** * A small market, and runs of it

    Two rungs, one buyer, one payment: the runs the theorems of the market are
    tried on. *)

From S2P Require Import Prelude JsInt JsNum JsText MarketPrice Tasks MarketDb MarketLadder MarketDelivery MarketSafe MarketIpn MarketShop MarketRetire MarketRun MarketKept MarketBooks.
Local Open Scope Z_scope.

(** Orders up to 500 dollars are sent at once. *)
Definition shop_settings : settings := {|
  pricingMode := "curve"; marketPremiumPct := num 10; indexMaxAgeSeconds := num 900;
  ladderMaxPriceUsd := num 5; ladderMinPriceUsd := num_dec 1 1; ammK := zero; ammVirtualPcn := zero;
  orderTtlHours := num 2; autoMaxUsd := num 500; floatStopPcn := num 10;
  minOrderUsd := num 5; maxOrderUsd := num 1000; maxPendingOrders := num 3; maxOrdersPerHour := num 10;
  maxOrderPcn := num 10000; accountCapPcn := num 20000; accountCapDays := 7;
  backingFloatOnly := false; backingCapPcn := num 100000;
  retireSpentCoins := true; retireRatioPct := num 50; retireMinConf := 6; retireDailyCapPcn := num 100;
  retireSystems := ["bot"] |}.
(** The same, every order sent by hand. *)
Definition by_hand : settings := {|
  pricingMode := "curve"; marketPremiumPct := num 10; indexMaxAgeSeconds := num 900;
  ladderMaxPriceUsd := num 5; ladderMinPriceUsd := num_dec 1 1; ammK := zero; ammVirtualPcn := zero;
  orderTtlHours := num 2; autoMaxUsd := num 1; floatStopPcn := num 10;
  minOrderUsd := num 5; maxOrderUsd := num 1000; maxPendingOrders := num 3; maxOrdersPerHour := num 10;
  maxOrderPcn := num 10000; accountCapPcn := num 20000; accountCapDays := 7;
  backingFloatOnly := false; backingCapPcn := num 100000;
  retireSpentCoins := true; retireRatioPct := num 50; retireMinConf := 6; retireDailyCapPcn := num 100;
  retireSystems := ["bot"] |}.

(** The same, at the price of the index and ten per cent. *)
Definition index_settings : settings := {|
  pricingMode := "index"; marketPremiumPct := num 10; indexMaxAgeSeconds := num 900;
  ladderMaxPriceUsd := num 5; ladderMinPriceUsd := num_dec 1 1; ammK := zero; ammVirtualPcn := zero;
  orderTtlHours := num 2; autoMaxUsd := num 500; floatStopPcn := num 10;
  minOrderUsd := num 5; maxOrderUsd := num 1000; maxPendingOrders := num 3; maxOrdersPerHour := num 10;
  maxOrderPcn := num 10000; accountCapPcn := num 20000; accountCapDays := 7;
  backingFloatOnly := false; backingCapPcn := num 100000;
  retireSpentCoins := true; retireRatioPct := num 50; retireMinConf := 6; retireDailyCapPcn := num 100;
  retireSystems := ["bot"] |}.
Definition an_index : index_reading := {|
  ix_state := Some "live"; ix_usd := Some (num_dec 5 1); ix_ageSeconds := Some (num 60); ix_stale := Some false |}.

(** 100 PCN at 0.5 and 100 PCN at 1 dollar. *)
Definition shop_prices : list (Z * Z) := [(5 * 10 ^ 9, 10 ^ 10); (10 ^ 10, 10 ^ 10)].

Definition an_answer (t : Z) (txid : string) : oracle := {|
  or_link := Works; or_now := t; or_balance := num 1000; or_txid := txid; or_backing := None; or_tip := 100; or_block := [] |}.
Definition a_purchase : purchase := {|
  b_id := "A1"; b_email := "ann"; b_usd := num 25; b_address := "pcn1ann"; b_address_ok := true; b_gate_open := true;
  b_invoice := Some (Some "7") |}.
Definition paying (status amount : string) : callback := {|
  d_payment_id := JStr "900"; d_order_id := JStr "A1"; d_payment_status := JStr status; d_actually_paid := JStr amount;
  d_pay_amount := JStr "25"; d_price_amount := JStr "25"; d_price_currency := JStr "usd"; d_pay_currency := JStr "usdttrc20";
  d_invoice_id := JStr "7"; d_parent_payment_id := JNull |}.

(** [n] awaits of a task at time [t]. *)
Definition awaits (n tid : nat) (t : Z) : list market_event := repeat (Resume tid (an_answer t "ab")) n.
(** A request from beginning to end, while nothing else runs. *)
Definition alone (tid : nat) (pid : Z) (r : request) (t : Z) : list market_event := Start tid pid r :: awaits 60 tid t.

Definition bought : list market_event := alone 1 1 (Buy a_purchase) 1000.
Definition sold : list market_event := bought ++ alone 2 1 (Ipn (Signed (paying "finished" "25.0"))) 1060.
Definition shop (es : list market_event) : world := market_run (opened shop_prices shop_settings) es.

Lemma shop_prices_ok : Forall (fun x => 0 <= x.2) shop_prices.
Proof. by repeat constructor. Qed.
Lemma shop_books es : books (w_db (shop es)).
Proof. apply market_run_keeps, new_market_books, shop_prices_ok. Qed.

(** Sent by hand from the command line while the server sweeps: the sweep, in
    another process, gives the order up before the coins leave, and the panel's
    Send pays it again. *)
Definition claimed_by_hand : list market_event :=
  bought ++ alone 2 1 (Ipn (Signed (paying "finished" "25.0"))) 1060
  ++ Start 3 2 (CliSend "A1" false) :: awaits 13 3 2000.
Definition sweep_race : list market_event :=
  claimed_by_hand ++ alone 4 1 Reconcile 2001
  ++ alone 5 1 (AdminSend "A1" true) 2002
  ++ awaits 60 3 2003.

(** An output of 1000 PCN to a service, where a day may retire 100. *)
Definition big_block (t : Z) : oracle := {|
  or_link := Works; or_now := t; or_balance := num 1000; or_txid := "ab"; or_backing := None; or_tip := 100;
  or_block := [("spend", [(Some "pcn1bot", num 1000)])] |}.
(** The scan starts at block 84: six blocks behind the tip. *)
Definition scanning : list market_event :=
  Outside (Addresses {[ "pcn1bot" := "bot" ]})
  :: Start 7 1 Scan :: repeat (Resume 7%nat {| or_link := Works; or_now := 0; or_balance := num 1000; or_txid := "ab";
       or_backing := None; or_tip := 90; or_block := [] |}) 40.
