(* ===== verification/MarketRules.v ===== *)
(** * Which callbacks may pay (contrib/market/ipn.mjs)

    A callback that does not report a payment in full neither accepts an order nor
    reaches the wallet, and one for a child payment accepts none: seen from every
    await of the handler, so whatever runs beside it. *)

From S2P Require Import Prelude JsInt JsNum JsText MarketPrice Tasks MarketDb MarketLadder MarketDelivery MarketSafe MarketIpn MarketShop MarketRetire MarketRun MarketKept MarketBooks MarketExample.
Local Open Scope Z_scope.

(** ** No order accepted, nothing sent *)

(** Every order that awaits delivery did before. *)
Definition accepts_none (d d' : db) : Prop :=
  forall id o', orders d' !! id = Some o' -> o_status o' = OAwaiting -> exists o, orders d !! id = Some o /\ o_status o = OAwaiting.
Definition pays_nothing (w w' : world) : Prop := w_wallet w' = w_wallet w /\ accepts_none (w_db w) (w_db w').

#[export] Instance accepts_none_refl : Reflexive accepts_none.
Proof. intros d id o' Ho Hs. by exists o'. Qed.
#[export] Instance accepts_none_trans : Transitive accepts_none.
Proof. intros d1 d2 d3 H1 H2 id o' Ho Hs. destruct (H2 _ _ Ho Hs) as (o2 & Ho2 & Hs2). by apply (H1 id o2). Qed.

Definition idle_stmt {A} (m : stmt A) : Prop := forall d, accepts_none d (m d).2.

Create HintDb idle.

Lemma idle_same {A} (m : stmt A) : (forall d, orders (m d).2 = orders d) -> idle_stmt m.
Proof. intros Hf d id o' Ho Hs. rewrite Hf in Ho. by exists o'. Qed.
Lemma idle_bind {A B} (m : stmt A) (f : A -> stmt B) : idle_stmt m -> (forall a, idle_stmt (f a)) -> idle_stmt (m ≫= f).
Proof.
  intros Hm Hf d. specialize (Hm d). unfold mbind, stmt_bind. destruct (m d) as [[a|e] d']; [|done].
  etransitivity; [exact Hm|apply Hf].
Qed.
Lemma idle_with_tx {A} (m : stmt (bool * A)) : idle_stmt m -> idle_stmt (with_tx m).
Proof. intros Hm d. specialize (Hm d). unfold with_tx. by destruct (m d) as [[[[] a]|e] d']. Qed.
Lemma idle_update_order id guard f :
  (forall o, guard o = true -> o_status (f o) = OAwaiting -> o_status o = OAwaiting) -> idle_stmt (update_order id guard f).
Proof.
  intros Hf d i o'. unfold update_order. destruct (orders d !! id) as [o|] eqn:Hid; [|intros; by exists o'].
  destruct (guard o) eqn:Hg; [|intros; by exists o']. cbn. rewrite lookup_insert_Some. intros [[<- <-]|[_ Ho]] Hs; eauto.
Qed.
Lemma idle_tie id pid guard f : (forall o, o_status (f o) <> OAwaiting) -> idle_stmt (tie_order id pid guard f).
Proof.
  intros Hf d i o'. unfold tie_order. destruct (orders d !! id) as [o|] eqn:Hid; [|intros; by exists o'].
  destruct (negb (guard o)); [intros; by exists o'|]. destruct (tied_elsewhere id pid d); [intros; by exists o'|].
  cbn. rewrite lookup_insert_Some. intros [[<- <-]|[_ Ho]] Hs; [by destruct (Hf o)|eauto].
Qed.

Lemma idle_release id : idle_stmt (releaseLadder id).
Proof.
  apply idle_same. unfold releaseLadder, moveFills. apply orders_bind; [done|]. intros l. apply orders_bind.
  - apply orders_each. intros f d. apply orders_update_rung.
  - intros [] d. done.
Qed.
Lemma idle_close id to : to <> OAwaiting -> idle_stmt (close_tx id to).
Proof.
  intros Hto. unfold close_tx. apply idle_with_tx, idle_bind; [apply idle_release|]. intros _.
  apply idle_bind; [by apply idle_update_order|]. intros b. by apply idle_same.
Qed.
Lemma idle_hold id pid d why rel e : idle_stmt (hold_tx id pid d why rel e).
Proof. by apply idle_tie. Qed.
Lemma idle_select {A} (f : db -> A) : idle_stmt (select f).
Proof. by apply idle_same. Qed.
Lemma idle_select_order id : idle_stmt (select_order id).
Proof. by apply idle_same. Qed.
Lemma idle_find key status : idle_stmt (find_event key status).
Proof. by apply idle_same. Qed.
Lemma idle_insert_event key oid status : idle_stmt (insert_event key oid status).
Proof. apply idle_same. intros d. unfold insert_event. by case_match. Qed.
Lemma idle_record i o : idle_stmt (record_outcome i o).
Proof. by apply idle_same. Qed.
#[export] Hint Resolve idle_hold idle_select idle_select_order idle_find idle_insert_event idle_record : idle.

(** ** Programs *)

Abbreviation harmless := (does pays_nothing).

Lemma harmless_q {A} (f : env -> stmt A) : (forall e, idle_stmt (f e)) -> harmless (q f).
Proof.
  intros Hf. apply does_await. intros o w. unfold run_stmt. specialize (Hf (env_of o w) (w_db w)).
  destruct (or_link o), (f (env_of o w) (w_db w)) as [[a|e] d]; cbn in *; by split.
Qed.
Lemma harmless_update id guard f :
  (forall o, guard o = true -> o_status (f o) = OAwaiting -> o_status o = OAwaiting) -> harmless (q_ (update_order id guard f)).
Proof. intros Hf. by apply harmless_q; intros e; apply idle_update_order. Qed.
Lemma harmless_local {A} (f : world -> A * world) :
  (forall w, w_db (f w).2 = w_db w /\ w_wallet (f w).2 = w_wallet w) -> harmless (local f).
Proof.
  intros Hf. apply does_await. intros o w. destruct (Hf w) as [Hd Hw]. destruct (f w) as [a w']. cbn in *.
  split; [done|]. by rewrite Hd.
Qed.
Lemma harmless_notify text : harmless (notify text).
Proof. by apply harmless_local. Qed.
Lemma harmless_tell proc key text : harmless (tell proc key text).
Proof. apply harmless_local. intros w. by case_match. Qed.
#[export] Hint Resolve harmless_notify harmless_tell : idle.

Ltac harmless_step :=
  match goal with
  | |- does _ (mret _) => done
  | |- does _ (throw_io _) => done
  | |- does _ (_ ≫= _) => apply does_bind; [|intros ?]
  | |- does _ (try_io _ _) => apply does_try; [|intros ?]
  | |- does _ (match ?x with _ => _ end) => destruct x eqn:?
  | |- does _ (q_ (update_order _ _ _)) => apply harmless_update; intros ? ? ?; cbn in *; congruence
  | |- does _ (q_ _) => solve [apply harmless_q; intros ?; auto with idle]
  | |- does _ (q _) => solve [apply harmless_q; intros ?; auto with idle]
  | |- does _ _ => solve [auto with idle]
  | |- does _ _ => progress unfold attempt, ignore_io
  end.
Ltac harmless := repeat harmless_step.

Lemma harmless_log pid oid status : harmless (logEvent pid oid status).
Proof. unfold logEvent. harmless. Qed.
Lemma harmless_tied id o ev : harmless (tiedPayment id o ev).
Proof. unfold tiedPayment. harmless. Qed.
Lemma harmless_release id o r b : harmless (releaseFor id o r b).
Proof. unfold releaseFor. harmless. Qed.
#[export] Hint Resolve harmless_log harmless_tied harmless_release : idle.
Lemma harmless_more proc id pid o d c n : harmless (moreMoney proc id pid o d c n).
Proof. unfold moreMoney. harmless. Qed.
Lemma harmless_contradicted proc id pid d c : harmless (contradicted proc id pid d c).
Proof. unfold contradicted. harmless. Qed.
#[export] Hint Resolve harmless_more harmless_contradicted : idle.

Lemma harmless_same proc id pid o d c : c_kind c <> Pay -> harmless (samePayment proc id pid o d c).
Proof. intros Hk. unfold samePayment. harmless; congruence. Qed.

Lemma harmless_money proc again id pid o d c ev :
  c_kind c = Unreadable \/ c_kind c = Underpaid -> harmless (money proc again id pid o d c ev).
Proof.
  intros Hk. assert (c_kind c <> Pay) as Hn by (destruct Hk; congruence).
  assert (forall o, hold_for o d c <> None) as Hh.
  { intros o'. unfold hold_for. destruct (parentPaymentId d); [done|]. destruct (invoiceMismatch d o'); [done|]. by destruct Hk as [-> | ->]. }
  revert o. induction again as [|again IH]; intros o; cbn [money]; unfold otherPayment, paymentTiedElsewhere;
    harmless; try (by apply harmless_same); by destruct (Hh o).
Qed.

Lemma harmless_terminal proc id pid o d c to ev : to <> OAwaiting -> harmless (terminal proc id pid o d c to ev).
Proof.
  intros Hto. unfold terminal, paidPaymentReversed. harmless. apply harmless_q. intros e. by apply idle_close.
Qed.

Lemma harmless_decide proc d pid oid ev : c_kind (classify d) <> Pay -> harmless (decide_callback proc d pid oid ev).
Proof.
  intros Hk. unfold decide_callback, unknownOrder. apply does_bind; [destruct oid; harmless|]. intros row.
  destruct oid as [id|]; [|harmless]. destruct row as [o|]; [|harmless]. destruct (c_kind (classify d)) as [| | | |to] eqn:E; [done| | |done|].
  - destruct (String.eqb pid ""); [harmless|]. apply harmless_money. by right.
  - destruct (String.eqb pid ""); [harmless|]. apply harmless_money. by left.
  - apply harmless_terminal. intros ->. unfold classify in E. cbn in E. revert E. by repeat case_match.
Qed.

(** C9: only a payment in full pays. A callback that is not in full -- partial,
    unreadable, 'confirmed' below 100%, waiting, failed, expired, refunded, an
    unknown status -- never sends anything and never makes an order await
    delivery: no await of its handling touches the wallet or accepts an order,
    whatever else runs in between. *)
Theorem only_full_payment_pays proc d :
  c_kind (classify d) <> Pay -> does pays_nothing (handle proc (Signed d)).
Proof.
  intros Hk. unfold handle. apply does_bind; [apply harmless_log|]. intros ev.
  apply does_bind; [by apply harmless_decide|]. intros res. unfold record. harmless.
Qed.

Lemma only_full_payment_pays_witness :
  c_kind (classify (paying "finished" "12.5")) = Underpaid /\ does pays_nothing (handle 1 (Signed (paying "finished" "12.5"))).
Proof.
  assert (c_kind (classify (paying "finished" "12.5")) = Underpaid) as H by (vm_compute; reflexivity).
  split; [exact H|]. apply (only_full_payment_pays 1 (paying "finished" "12.5")). rewrite H. discriminate.
Defined.

(** what in full means: 'finished' with at least 99.5% of what was asked, or
    'confirmed' with all of it, both amounts readable and the second above zero. *)
Theorem full_payment_is_full d :
  c_kind (classify d) = Pay <->
  exists paid due, readNumber (d_actually_paid d) = Some paid /\ readNumber (d_pay_amount d) = Some due /\
    positive due = true /\ num_ltb paid zero = false /\
    ((text_or_empty (d_payment_status d) = "finished" /\ num_leb nearly_all (num_div paid due) = true) \/
     (text_or_empty (d_payment_status d) = "confirmed" /\ num_leb (num 1) (num_div paid due) = true)).
Proof.
  unfold classify, paidRatio. cbn -[num]. set (s := text_or_empty (d_payment_status d)). split.
  - destruct (String.eqb s "failed"), (String.eqb s "expired"), (String.eqb s "refunded"),
      (String.eqb s "partially_paid"); try done; [by repeat case_match|].
    destruct (String.eqb_spec s "finished") as [Hf|_].
    + destruct (readNumber (d_actually_paid d)) as [a|], (readNumber (d_pay_amount d)) as [b|]; try done.
      destruct (positive b) eqn:Hb, (num_ltb a zero) eqn:Ha; try done. cbn -[num].
      destruct (num_leb nearly_all (num_div a b)) eqn:Hr; [|done]. intros _. exists a, b. auto 10.
    + destruct (String.eqb_spec s "confirmed") as [Hf|_]; [|done].
      destruct (readNumber (d_actually_paid d)) as [a|], (readNumber (d_pay_amount d)) as [b|]; try done.
      destruct (positive b) eqn:Hb, (num_ltb a zero) eqn:Ha; try done. cbn -[num].
      destruct (num_leb (num 1) (num_div a b)) eqn:Hr; [|done]. intros _. exists a, b. auto 10.
  - intros (a & b & -> & -> & -> & -> & [[Hs Hr]|[Hs Hr]]); cbn -[num]; rewrite Hs, Hr; done.
Qed.
