(* ===== verification/MarketTheorems.v ===== *)
(** * What the market promises (contrib/market)

    The theorems of the sale: an order is sent once and only when paid, one
    payment is one order, no rung is oversold, a payment is accepted only in full
    and only with its inventory, and the price is never below the floor. *)

From S2P Require Import Prelude JsInt JsNum JsText MarketPrice Tasks MarketDb MarketLadder MarketDelivery MarketSafe MarketIpn MarketShop MarketRetire MarketStall MarketRace MarketRun MarketKept MarketBooks MarketRows MarketExample.
From Stdlib Require Import SpecFloat.
Local Open Scope Z_scope.

(** ** Sends *)

Lemma run_sends prices S es : exists gs, sends_inv (market_run (opened prices S) es) gs.
Proof.
  destruct (run_machine_inv start forget outside_step sends_inv Idle (opened prices S) es sends_protocol (opened_sends prices S))
    as (gs & H & _). by exists gs.
Qed.

Lemma run_books prices S es : Forall (fun x => 0 <= x.2) prices -> books (w_db (market_run (opened prices S) es)).
Proof. intros Hp. by apply market_run_keeps, new_market_books. Qed.

(** What the wallet sent, and still counts, for the orders of a payment. *)
Definition sent_for (payment : string) (w : world) : list wallet_tx :=
  filter (fun t => x_send t = true /\ x_live t = true /\ x_comment t <> "" /\
    (o_paid_payment_id <$> orders (w_db w) !! x_comment t) = Some (Some payment)) (w_wallet w).

(** C4: never twice. Whatever payments, sweeps, operators and command lines run
    against each other, however connections fail and processes end, the wallet
    holds at most one live send for an order, and it is recorded or the order is
    still in sending, as long as no lookup scrolled past a send and no sweep gave
    up an order that was being sent. *)
Theorem order_sent_once prices S es id :
  let w := market_run (opened prices S) es in
  clean w -> id <> "" ->
  (length (sends_of id (w_wallet w)) <= 1)%nat /\ (sends_of id (w_wallet w) <> [] -> order_gone id (w_db w)).
Proof.
  intros w Hc Hid. destruct (run_sends prices S es) as (gs & _ & Hs & _). destruct (Hs Hc id Hid) as [H1 _ _ H4 _]. by split.
Qed.

Lemma order_sent_once_witness :
  let w := market_run (opened shop_prices shop_settings) sold in
  clean w /\ sends_of "A1" (w_wallet w) <> [] /\
  (length (sends_of "A1" (w_wallet w)) <= 1)%nat /\ (sends_of "A1" (w_wallet w) <> [] -> order_gone "A1" (w_db w)).
Proof.
  assert (clean (market_run (opened shop_prices shop_settings) sold)) as Hc.
  { split; [vm_compute; reflexivity|]. assert (w_gave_up (market_run (opened shop_prices shop_settings) sold) = []) as ->
      by (vm_compute; reflexivity). constructor. }
  split; [exact Hc|]. split; [vm_compute; discriminate|].
  apply (order_sent_once shop_prices shop_settings sold "A1"); [exact Hc|discriminate].
Defined.

(** C8: nothing leaves the wallet for an order nobody paid: every send that carries
    an order's id is for an order with a payment on it, whatever ran. *)
Theorem sends_are_paid prices S es t :
  let w := market_run (opened prices S) es in
  t ∈ w_wallet w -> x_send t = true -> x_comment t <> "" -> order_paid (x_comment t) (w_db w).
Proof. intros w Ht Hs Hne. destruct (run_sends prices S es) as (gs & _ & _ & Hp). by apply (ps_sent _ _ Hp). Qed.

Lemma sends_are_paid_witness :
  exists t, t ∈ w_wallet (market_run (opened shop_prices shop_settings) sold) /\ x_comment t = "A1" /\
    order_paid (x_comment t) (w_db (market_run (opened shop_prices shop_settings) sold)).
Proof.
  assert (w_wallet (market_run (opened shop_prices shop_settings) sold) =
    [{| x_txid := "ab"; x_comment := "A1"; x_send := true; x_to := "pcn1ann"; x_amount := 5000000000; x_live := true |}]) as E
    by (vm_compute; reflexivity).
  eexists. assert (_ ∈ w_wallet (market_run (opened shop_prices shop_settings) sold)) as Hin by (rewrite E; left).
  split; [exact Hin|]. split; [reflexivity|].
  apply (sends_are_paid shop_prices shop_settings sold); [exact Hin|reflexivity|discriminate].
Defined.

Lemma filter_length_le {A} (P Q : A -> Prop) `{!forall a, Decision (P a), !forall a, Decision (Q a)} l :
  (forall a, a ∈ l -> P a -> Q a) -> (length (filter P l) <= length (filter Q l))%nat.
Proof.
  induction l as [|a l IH]; intros Himp; [done|]. rewrite !filter_cons.
  assert (length (filter P l) <= length (filter Q l))%nat by (apply IH; intros; apply Himp; [by constructor|done]).
  assert (P a -> Q a) by (apply Himp; constructor). repeat case_decide; cbn; try lia. tauto.
Qed.

(** C7: one payment, one order, one send: in every run in which no lookup scrolled
    past a send and no sweep gave up an order that was being sent ([clean]), the
    wallet holds at most one live send for all the orders a payment is on. *)
Theorem one_payment_one_send prices S es payment :
  let w := market_run (opened prices S) es in
  Forall (fun x => 0 <= x.2) prices -> clean w -> (length (sent_for payment w) <= 1)%nat.
Proof.
  intros w Hp Hc. pose proof (run_books prices S es Hp) as [_ _ Hu _ _]. fold w in Hu.
  destruct (run_sends prices S es) as (gs & _ & Hs & _). fold w in Hs.
  destruct (sent_for payment w) as [|t l] eqn:E; [cbn; lia|]. rewrite <- E.
  assert (t ∈ sent_for payment w) as Ht by (rewrite E; constructor).
  apply list_elem_of_filter in Ht as [(_ & _ & Hne & Hpay) _].
  transitivity (length (sends_of (x_comment t) (w_wallet w))); [|by apply (so_once _ _ _ (Hs Hc _ Hne))].
  apply filter_length_le. intros u _ (Hsend & Hlive & Hune & Hupay). unfold is_send. rewrite Hsend, Hlive, !andb_true_r.
  apply bool_decide_eq_true_2. apply fmap_Some in Hpay as (o1 & H1 & Hp1), Hupay as (o2 & H2 & Hp2).
  by apply (Hu (x_comment u) (x_comment t) o2 o1 payment).
Qed.

Lemma one_payment_one_send_witness :
  let w := market_run (opened shop_prices shop_settings) sold in
  length (sent_for "900" w) = 1%nat /\ (length (sent_for "900" w) <= 1)%nat.
Proof.
  split; [vm_compute; reflexivity|]. apply (one_payment_one_send shop_prices shop_settings sold "900"); [apply shop_prices_ok|].
  split; [vm_compute; reflexivity|]. assert (w_gave_up (market_run (opened shop_prices shop_settings) sold) = []) as ->
    by (vm_compute; reflexivity). constructor.
Defined.



(** The same as a run of the machine. *)
Example sweep_race_sends_twice :
  length (sends_of "A1" (w_wallet (market_run (opened shop_prices by_hand) sweep_race))) = 2%nat.
Proof. vm_compute. reflexivity. Qed.

(** ** The ladder *)

(** C5: no rung is ever oversold. In every state the market can reach, each rung's
    sold and reserved counters are the sums of its fills in that state, and with
    what was retired they fit in it; every fill belongs to an order, one payment
    is on one order, an output was retired once and a callback logged once. *)
Theorem market_keeps_books prices S es no r :
  let d := w_db (market_run (opened prices S) es) in
  Forall (fun x => 0 <= x.2) prices -> rungs d !! no = Some r ->
  g_sold r = held_in no FSold (fills d) /\ g_reserved r = held_in no FReserved (fills d) /\
  0 <= g_sold r /\ 0 <= g_reserved r /\ 0 <= g_retired r /\ taken r <= g_total r /\ books d.
Proof.
  intros d Hp Hr. pose proof (run_books prices S es Hp) as Hb. fold d in Hb. pose proof (bk_ladder _ Hb) as Hl.
  pose proof (inv_rung_ok _ Hl _ _ Hr) as Hok. apply rung_ok_spec in Hok.
  split; [by apply Hl|]. split; [by apply Hl|]. tauto.
Qed.

Lemma market_keeps_books_witness :
  let d := w_db (market_run (opened shop_prices shop_settings) bought) in
  exists r, rungs d !! 1 = Some r /\ g_reserved r = 5000000000 /\
    g_sold r = held_in 1 FSold (fills d) /\ g_reserved r = held_in 1 FReserved (fills d) /\
    0 <= g_sold r /\ 0 <= g_reserved r /\ 0 <= g_retired r /\ taken r <= g_total r /\ books d.
Proof.
  set (r := {| g_price := 5000000000; g_total := 10000000000; g_sold := 0; g_reserved := 5000000000; g_retired := 0 |}).
  assert (rungs (w_db (market_run (opened shop_prices shop_settings) bought)) !! 1 = Some r) as Hr by (vm_compute; reflexivity).
  exists r. split; [exact Hr|]. split; [reflexivity|].
  apply (market_keeps_books shop_prices shop_settings bought 1 r); [apply shop_prices_ok|exact Hr].
Defined.

(** a reservation, on every branch. It answers the price in force for the rungs
    with stock; it refuses a purchase it cannot fill to within a tenth of a cent;
    otherwise each rung of the walk has its part reserved, one fill per rung, and
    nothing else changes. No CHECK and no UNIQUE key ever refuses it. *)
Theorem reservation id usd e d :
  books d -> orders d !! id = None ->
  match walkCapped (e_settings e) (e_index e) (stocked d) (Usd usd) with
  | Err why => reserveLadder id usd e d = (Err (Pricing why), d)
  | Ok k =>
      if num_ltb DUST (k_usdUnfilled k) then exists why, reserveLadder id usd e d = (Err (Refusal 409 why), d)
      else exists d', reserveLadder id usd e d = (Ok k, d') /\ ladder_inv d' /\ fillable d (k_fills k) /\
           fills d' = fills d ++ (new_fill id <$> k_fills k) /\ orders d' = orders d /\
           forall no, rungs d' !! no = move_rung 0 (at_rung f_rungNo no f_units (k_fills k)) 0 <$> rungs d !! no
  end.
Proof.
  intros Hd Hid. pose proof (reserveLadder_spec id usd e d (bk_ladder _ Hd) (no_fills _ _ Hd Hid)) as E.
  destruct (walkCapped _ _ _ _) as [k|why] eqn:Hw; [|done]. destruct (num_ltb _ _); [by eexists|].
  exists (reserved id (k_fills k) d). assert (fillable d (k_fills k)) as Hf by (by eapply fits_fillable, walkCapped_fits).
  split; [done|]. split; [apply reserved_inv; [apply Hd|done|by apply no_fills]|]. split; [done|]. split; [done|].
  split; [done|]. intros no. apply reserved_rungs.
Qed.

Lemma reservation_witness :
  let d := new_market shop_prices in
  let e := {| e_now := 1000; e_settings := shop_settings; e_index := None |} in
  exists k, walkCapped shop_settings None (stocked d) (Usd (num 25)) = Ok k /\
  exists d', reserveLadder "A1" (num 25) e d = (Ok k, d') /\ ladder_inv d' /\ fillable d (k_fills k) /\
    fills d' = fills d ++ (new_fill "A1" <$> k_fills k) /\ orders d' = orders d /\
    forall no, rungs d' !! no = move_rung 0 (at_rung f_rungNo no f_units (k_fills k)) 0 <$> rungs d !! no.
Proof.
  intros d e. destruct (walkCapped shop_settings None (stocked d) (Usd (num 25))) as [k|why] eqn:Hw;
    [|vm_compute in Hw; discriminate].
  exists k. split; [reflexivity|]. pose proof (reservation "A1" (num 25) e d (new_market_books _ shop_prices_ok) eq_refl) as H.
  cbn [e e_settings e_index] in H. rewrite Hw in H. vm_compute in Hw. injection Hw as <-. exact H.
Defined.

(** the end of a reservation. Settling sells what the order has reserved,
    releasing puts it back on sale, each exactly and in full; neither is ever
    refused by a CHECK; and after either, neither finds anything to do again, so
    a settled order is never un-sold. *)
Theorem reservation_ends_once id d :
  books d ->
  let q no := at_rung l_rung no l_qty (fills_of id d) in
  (exists d', settleLadder id d = (Ok (length (fills_of id d)), d') /\ books d' /\
     (forall no, rungs d' !! no = move_rung (q no) (- q no) 0 <$> rungs d !! no) /\
     settleLadder id d' = (Ok 0%nat, d') /\ releaseLadder id d' = (Ok 0%nat, d')) /\
  (exists d', releaseLadder id d = (Ok (length (fills_of id d)), d') /\ books d' /\
     (forall no, rungs d' !! no = move_rung 0 (- q no) 0 <$> rungs d !! no) /\
     settleLadder id d' = (Ok 0%nat, d') /\ releaseLadder id d' = (Ok 0%nat, d')).
Proof.
  intros Hd q.
  assert (forall s, s <> FReserved -> ladder_inv (moved_fills id s d) /\ fills_of id (moved_fills id s d) = []) as H.
  { intros s Hs. split; [apply moved_inv; [apply Hd|done]|by apply fills_of_moved]. }
  assert (forall s, s <> FReserved -> settleLadder id (moved_fills id s d) = (Ok 0%nat, moved_fills id s d) /\
    releaseLadder id (moved_fills id s d) = (Ok 0%nat, moved_fills id s d)) as Hagain.
  { intros s Hs. destruct (H s Hs) as [Hl Hn]. rewrite settleLadder_spec, releaseLadder_spec by done. rewrite Hn.
    by rewrite (moved_fills_none id FSold (moved_fills id s d)), (moved_fills_none id FReleased (moved_fills id s d)). }
  split.
  - exists (moved_fills id FSold d). rewrite settleLadder_spec by apply Hd. split; [done|].
    split; [by apply (books_settle id d (length (fills_of id d)) _ Hd), settleLadder_spec, Hd|]. split; [|by apply Hagain].
    intros no. rewrite moved_rungs by done. by rewrite sells_of.
  - exists (moved_fills id FReleased d). rewrite releaseLadder_spec by apply Hd. split; [done|].
    split; [by apply (books_release id d (length (fills_of id d)) _ Hd), releaseLadder_spec, Hd|]. split; [|by apply Hagain].
    intros no. rewrite moved_rungs by done. by rewrite sells_of.
Qed.

Lemma reservation_ends_once_witness :
  let d := w_db (shop bought) in
  length (fills_of "A1" d) = 1%nat /\
  exists d', settleLadder "A1" d = (Ok (length (fills_of "A1" d)), d') /\ books d' /\ releaseLadder "A1" d' = (Ok 0%nat, d').
Proof.
  intros d. split; [vm_compute; reflexivity|].
  destruct (reservation_ends_once "A1" d (shop_books bought)) as [(d' & H1 & H2 & _ & _ & H3) _]. exists d'. auto.
Defined.

(** ** Payments *)

Lemma unsold_unreserved id d : sold_of id (moved_fills id FSold d) = [] -> fills_of id d = [].
Proof.
  intros H. destruct (fills_of id d) as [|f l] eqn:E; [done|exfalso].
  assert (f ∈ fills_of id d) as (Hf & Ho & Hs)%fills_of_elem by (rewrite E; constructor).
  assert (set_fill FSold f ∈ sold_of id (moved_fills id FSold d)) as Hin; [|rewrite H in Hin; by apply elem_of_nil in Hin].
  apply list_elem_of_filter. split; [done|]. cbn. apply list_elem_of_fmap. exists f. split; [|done].
  unfold reserved_by. by rewrite !bool_decide_eq_true_2.
Qed.

(** Something was reserved or is sold exactly when something is sold after. *)
Lemma sold_backed id d :
  ((0 <? length (fills_of id d)) || (0 <? length (sold_of id (moved_fills id FSold d))))%nat
  = negb (bool_decide (sold_of id (moved_fills id FSold d) = [])).
Proof.
  pose proof (unsold_unreserved id d) as H. destruct (sold_of id (moved_fills id FSold d)) as [|x l].
  - by rewrite H.
  - by rewrite orb_true_r.
Qed.

(** C6: an acceptance, on every branch. A payment is taken only by an order that is
    unpaid, has no payment and was not sent; it is refused when it is on another
    order. Then the reservation is sold and the order gets the payment in one
    transaction, and the order goes to delivery only when some of the ladder's
    inventory backs it; without, it is held for a human as UNBACKED. *)
Theorem acceptance_on_every_branch id pid cb e d :
  books d ->
  match orders d !! id with
  | None => accept_tx id pid cb e d = (Ok LostRace, d)
  | Some o =>
      if negb (takes_payment o) then accept_tx id pid cb e d = (Ok LostRace, d) else
      match tied_elsewhere id pid d with
      | Some _ => exists d', accept_tx id pid cb e d = (Err (DupEntry "uq_paid_payment"), d')
      | None =>
          exists d' o', accept_tx id pid cb e d = (Ok (if bool_decide (sold_of id d' = []) then NotBacked else Accepted), d')
            /\ books d' /\ fills_of id d' = [] /\ orders d' = <[id := o']> (orders d)
            /\ o_paid_payment_id o' = Some pid /\ o_quoted_pcn o' = o_quoted_pcn o /\ o_address o' = o_address o
            /\ (sold_of id d' = [] -> o_status o' = ONeedsReview /\ o_delivery_error o' = Some Unbacked /\ rungs d' = rungs d)
            /\ (sold_of id d' <> [] -> o_status o' = OAwaiting /\ o_delivery_error o' = None)
      end
  end.
Proof.
  intros Hd. unfold accept_tx, with_tx. rewrite (stmt_ok _ _ _ _ _ (settleLadder_spec id d (bk_ladder _ Hd))).
  pose proof (books_settle id d _ _ Hd (settleLadder_spec id d (bk_ladder _ Hd))) as Hb1. set (d1 := moved_fills id FSold d) in *.
  rewrite (stmt_ok (select_order id) _ d1 (orders d !! id) d1) by done.
  destruct (orders d !! id) as [o|] eqn:Ho; [|done]. destruct (takes_payment o) eqn:Ht; cbn [negb]; [|done].
  rewrite (stmt_ok (select (sold_of id)) _ d1 (sold_of id d1) d1) by done.
  assert (tied_elsewhere id pid d1 = tied_elsewhere id pid d) as Hte by done.
  rewrite sold_backed. fold d1. set (f := fun o => set_payment _ _ _ _ _ _ _ _ _ o).
  assert (tie_order id pid (fun _ => true) f d1 = match tied_elsewhere id pid d with
    | Some _ => (Err (DupEntry "uq_paid_payment"), d1) | None => (Ok true, on_orders <[id := f o]> d1) end) as Htie.
  { unfold tie_order. change (orders d1) with (orders d). by rewrite Ho, Hte. }
  pose proof (books_tie id pid (fun _ => true) f (fun _ => eq_refl) d1) as Hkeep.
  destruct (tied_elsewhere id pid d) eqn:He; rewrite Htie in Hkeep.
  - exists d1. unfold mbind, stmt_bind. by rewrite Htie.
  - rewrite (stmt_ok _ _ _ _ _ Htie). exists (on_orders <[id := f o]> d1), (f o).
    change (sold_of id (on_orders <[id := f o]> d1)) with (sold_of id d1).
    split; [by case_bool_decide|]. split; [by apply (Hkeep true)|]. split; [by apply (fills_of_moved id FSold d)|].
    split; [done|]. split; [done|]. split; [done|]. split; [done|]. unfold f. split.
    + intros Hs. rewrite bool_decide_eq_true_2 by done. split; [done|]. split; [done|].
      change (rungs (on_orders _ d1)) with (rungs d1). unfold d1. rewrite moved_fills_none; [done|].
      by apply unsold_unreserved.
    + intros Hs. by rewrite bool_decide_eq_false_2.
Qed.

Lemma acceptance_on_every_branch_witness :
  let d := w_db (shop bought) in
  let e := {| e_now := 1060; e_settings := shop_settings; e_index := None |} in
  exists d' o', accept_tx "A1" "900" (paying "finished" "25.0") e d = (Ok (if bool_decide (sold_of "A1" d' = []) then NotBacked else Accepted), d')
    /\ books d' /\ o_paid_payment_id o' = Some "900" /\ orders d' = <["A1" := o']> (orders d).
Proof.
  intros d e. pose proof (acceptance_on_every_branch "A1" "900" (paying "finished" "25.0") e d (shop_books bought)) as H.
  assert (takes_payment <$> orders d !! "A1" = Some true) as Ho by (vm_compute; reflexivity).
  assert (tied_elsewhere "A1" "900" d = None) as He by (vm_compute; reflexivity).
  clearbody d e. rewrite He in H. destruct (orders d !! "A1") as [o|]; [|discriminate]. injection Ho as Ht.
  rewrite Ht in H. destruct H as (d' & o' & H1 & H2 & _ & H3 & H4 & _). exists d', o'. auto.
Defined.

(** ** Rows, prices, limits *)

(** C27: the status of an order types its row. In every reachable state: an order not
    paid carries no payment and no transaction; one that awaits delivery, is being
    sent or is held has its payment; one delivered has its transaction; and the
    payment, its time and its invoice price are there together, as the transaction
    and its time are. *)
Theorem orders_are_typed prices S es id o :
  orders (w_db (market_run (opened prices S) es)) !! id = Some o -> row_typed o /\ (settled o -> paid o).
Proof.
  intros Ho. split.
  - assert (rows_typed (w_db (opened prices S))) as H0 by (intros i x [=]).
    exact (market_run_keeps (I := rows_typed) (opened prices S) es H0 id o Ho).
  - destruct (run_sends prices S es) as (gs & _ & _ & Hp). exact (ps_db _ _ Hp id o Ho).
Qed.

Lemma orders_are_typed_witness :
  exists o, orders (w_db (market_run (opened shop_prices shop_settings) sold)) !! "A1" = Some o /\ o_status o = ODelivered /\ row_typed o /\ (settled o -> paid o).
Proof.
  destruct (orders (w_db (market_run (opened shop_prices shop_settings) sold)) !! "A1") as [o|] eqn:Ho; [|vm_compute in Ho; discriminate].
  exists o. split; [reflexivity|]. split; [vm_compute in Ho; injection Ho as <-; reflexivity|].
  apply (orders_are_typed shop_prices shop_settings sold "A1" o). exact Ho.
Defined.

(** What vouches for a price: the index states it is priced, fresh and not stale. *)
Record vouched (S : settings) (ix : index_reading) : Prop := {
  vo_state : exists state, ix_state ix = Some state /\ state ∈ INDEX_PRICED_STATES;
  vo_usd : positive (figure (ix_usd ix)) = true;
  vo_age : is_finite (figure (ix_ageSeconds ix)) = true /\ num_ltb (indexMaxAgeSeconds S) (figure (ix_ageSeconds ix)) = false;
  vo_stale : ix_stale ix = Some false
}.

Lemma indexQuote_vouched S index p :
  indexQuote S index = Ok p -> exists ix, index = Some ix /\ vouched S ix /\
    exists raw, ip_unitPrice p = floored (askFloor S) raw.
Proof.
  unfold indexQuote, indexUnitPrice. destruct index as [ix|]; [cbn|done]. destruct (ix_state ix) as [state|] eqn:Hst; [|done].
  case_bool_decide; [done|]. case_bool_decide as Hin; cbn [negb]; [|done].
  destruct (is_finite (figure (ix_usd ix)) && positive _) eqn:Hu; cbn [negb]; [|done].
  destruct (is_finite (figure (ix_ageSeconds ix))) eqn:Ha; cbn [negb]; [|done]. destruct (is_finite (indexMaxAgeSeconds S) && _); cbn [negb]; [|done].
  destruct (num_ltb _ (figure (ix_ageSeconds ix))) eqn:Hage; [done|]. case_bool_decide as Hs; cbn [negb]; [|done].
  destruct (is_finite _ && num_leb _ _); cbn [negb]; [|done]. intros [= <-]. exists ix. split; [done|]. split.
  - apply andb_true_iff in Hu as [_ Hu]. split; eauto.
  - by eexists.
Qed.

Lemma allocate_prices rs w p : Forall (fun f => f_price f = p) (allocate rs w p).1.
Proof.
  revert w. induction rs as [|[no r] rs IH]; intros w; [constructor|]. cbn [allocate].
  destruct (match w with Exactly z => z <=? 0 | Unbounded => false end); [constructor|]. destruct (_ <=? 0); [apply IH|].
  specialize (IH (match w with Exactly z => Exactly (z - match w with Exactly z => Z.min (availUnits r) z | Unbounded => availUnits r end)
                             | Unbounded => Unbounded end)).
  destruct (allocate rs _ p) as [fs rest]. by constructor.
Qed.

(** a price nobody vouches for sells nothing. In index mode every rung of a quote
    is sold at one price, that of an index that is live, held or frozen, not stale
    and not older than allowed, and never below the floor; there is no falling back
    to the ladder. *)
Theorem index_mode_price S index rs w k :
  pricingMode S = "index" -> walkCapped S index rs w = Ok k ->
  exists ix price, index = Some ix /\ vouched S ix /\ Forall (fun f => f_price f = price) (k_fills k)
    /\ is_finite price = true /\ positive price = true
    /\ (positive (askFloor S) = true -> num_leb (askFloor S) price = true).
Proof.
  intros Hm Hw. unfold walkCapped in Hw. rewrite bool_decide_eq_true_2 in Hw by done. unfold indexWalk in Hw.
  destruct (indexQuote S index) as [p|] eqn:Hq; [cbn in Hw|done]. apply indexQuote_vouched in Hq as (ix & -> & Hv & raw & Hp).
  exists ix, (ip_unitPrice p). split; [done|]. split; [done|]. unfold flatWalk in Hw.
  destruct (is_finite (ip_unitPrice p) && positive _) eqn:Hfin; [cbn in Hw|done]. destruct (is_finite _ && positive _) in Hw; [cbn in Hw|done].
  match type of Hw with context [allocate rs ?w' ?p'] => pose proof (allocate_prices rs w' p') as Hf; destruct (allocate rs w' p') as [fs togo] end.
  injection Hw as <-. cbn. apply andb_true_iff in Hfin as [Hfin Hpos]. split; [done|]. split; [done|]. split; [done|].
  intros Hfl. assert (is_finite (askFloor S) = true) as Hff.
  { unfold askFloor. destruct (is_finite (ladderMinPriceUsd S) && positive _) eqn:E; [by apply andb_true_iff in E as [-> _]|done]. }
  rewrite Hp in *. unfold floored in *. rewrite Hff, Hfl in *. cbn in *. apply js_max_ge. by destruct (js_max raw _).
Qed.

Lemma index_mode_price_witness :
  exists ix price, Some an_index = Some ix /\ vouched index_settings ix /\ price = num_dec 55 2.
Proof.
  destruct (walkCapped index_settings (Some an_index) (stocked (new_market shop_prices)) (Usd (num 11))) as [k|] eqn:Hk;
    [|vm_compute in Hk; discriminate].
  destruct (index_mode_price index_settings (Some an_index) _ _ k eq_refl Hk) as (ix & price & Hix & Hv & Hp & _).
  exists ix, price. split; [exact Hix|]. split; [exact Hv|]. vm_compute in Hk. injection Hk as <-. cbn in Hp.
  apply Forall_cons in Hp as [Hp _]. cbn in Hp. subst price. vm_compute. reflexivity.
Defined.

(** C28: a purchase keeps within every limit. The order's cap, the account's cap
    over its days and all that is sold and not yet delivered are read in the
    transaction that reserves; what the owner holds, [owner], was read before it.
    What the purchase takes is within each, and within what that reading leaves
    of the owner's coins; its order is written with what it reserved. *)
Theorem purchase_within_limits b owner e d k d' :
  books d -> buy_tx b owner e d = (Ok k, d') ->
  books d' /\ orders d !! b_id b = None /\ orders d' = <[b_id b := new_order b k (e_now e)]> (orders d)
  /\ fills d' = fills d ++ (new_fill (b_id b) <$> k_fills k)
  /\ num_ltb (maxOrderPcn (e_settings e)) (k_pcn k) = false
  /\ num_ltb (accountCapPcn (e_settings e))
       (num_add (num_ratio (sum_quoted (fun o => String.eqb (o_email o) (b_email b)
          && (e_now e - 86400 * accountCapDays (e_settings e) <=? o_created_at o) && bool_decide (o_status o ∈ BOUGHT)) d) (10 ^ 8)) (k_pcn k)) = false
  /\ num_ltb (num_sub owner (num_ratio (sum_quoted owed d) (10 ^ 8))) (k_pcn k) = false.
Proof.
  intros Hd Htx. pose proof (books_buy b owner e d k d' Hd Htx) as Hd'.
  apply buy_tx_inv in Htx as (d1 & Hr & Hid & -> & Hmax & (already & [= <-] & Hacc) & (ow & [= <-] & How)).
  pose proof (orders_reserve (b_id b) (b_usd b) e d) as Ho. rewrite Hr in Ho. cbn in Ho. unfold sum_quoted in *.
  rewrite Ho in *. destruct (reserveLadder_inv _ _ _ _ _ _ (bk_ladder _ Hd) (no_fills _ _ Hd Hid) Hr) as [_ ->]. auto 10.
Qed.

Lemma purchase_within_limits_witness :
  let d := new_market shop_prices in
  let e := {| e_now := 1000; e_settings := shop_settings; e_index := None |} in
  exists k d', buy_tx a_purchase (num 100000) e d = (Ok k, d') /\ books d' /\
    fills d' = fills d ++ (new_fill "A1" <$> k_fills k) /\ num_ltb (num 10000) (k_pcn k) = false.
Proof.
  intros d e. destruct (buy_tx a_purchase (num 100000) e d) as [[k|why] d'] eqn:Hb; [|vm_compute in Hb; discriminate].
  exists k, d'. split; [reflexivity|].
  destruct (purchase_within_limits a_purchase (num 100000) e d k d' (new_market_books _ shop_prices_ok) Hb)
    as (H1 & _ & _ & H2 & H3 & _). auto.
Defined.

(** ** Retired inventory *)

(** what usage retires comes from the cheapest rungs. All that is wanted or all
    there is leaves the ladder, never refused by a CHECK; a rung gives only when
    every cheaper one has given all it had; fills and orders stay. *)
Theorem retirement_takes_the_cheapest need d :
  books d -> 0 < need ->
  let given no := at_rung f_rungNo no f_units (allocate (stocked d) (Exactly need) zero).1 in
  exists d', retireFromLadder need d = (Ok (Z.min need (remUnits (stocked d))), d') /\ books d'
    /\ orders d' = orders d /\ fills d' = fills d
    /\ (forall no, rungs d' !! no = move_rung 0 0 (given no) <$> rungs d !! no)
    /\ forall no1 no2 r, no1 < no2 -> 0 < given no2 -> rungs d !! no1 = Some r -> given no1 = availUnits r.
Proof.
  intros Hd Hn given. destruct (retireFromLadder_spec need d (bk_ladder _ Hd) Hn) as [E Hf].
  exists (retired (allocate (stocked d) (Exactly need) zero).1 d). split; [done|].
  split; [exact (books_retire need d _ _ Hd E)|]. split; [done|]. split; [done|]. split; [intros no; apply retired_rungs|].
  intros no1 no2 r Hlt Hg Hr. pose proof (inv_rung_ok _ (bk_ladder _ Hd) _ _ Hr) as Hok%rung_ok_spec.
  set (fs := (allocate _ _ _).1) in *. unfold given in *. destruct (decide (0 < availUnits r)) as [Ha|Ha].
  - assert (exists f, f ∈ fs /\ f_rungNo f = no2) as (f & Hin & Hno).
    { destruct (decide (Exists (fun f => f_rungNo f = no2) fs)) as [(f & Hin & E2)%Exists_exists|Hne]; [by exists f|].
      assert (at_rung f_rungNo no2 f_units fs = 0); [|lia].
      apply zsum_by_zero. intros f Hin. destruct (f_rungNo f =? no2) eqn:E2; [|done]. bool_to_prop. destruct Hne. apply Exists_exists. eauto. }
    apply (allocate_cheapest (stocked d) (Exactly need) zero (no1, r) f).
    + eapply sublist_NoDup; [apply (by_id_NoDup (rungs d))|]. apply sublist_map, sublist_filter.
    + apply sorted_filter, by_id_sorted.
    + apply list_elem_of_filter. split; [unfold taken, availUnits in *; cbn; lia|]. by apply elem_of_by_id.
    + done.
    + cbn. lia.
    + done.
  - assert (at_rung f_rungNo no1 f_units fs = 0) as ->; [|unfold taken, availUnits in *; lia].
    apply zsum_by_zero. intros f Hin. destruct (f_rungNo f =? no1) eqn:E2; [|done]. bool_to_prop.
    destruct (proj2 Hf f Hin) as (r' & Hr' & Hu). subst no1. assert (r' = r) as -> by congruence. lia.
Qed.

Lemma retirement_takes_the_cheapest_witness :
  let d := new_market shop_prices in
  let given no := at_rung f_rungNo no f_units (allocate (stocked d) (Exactly 12000000000) zero).1 in
  0 < given 2 /\ given 1 = 10000000000 /\
  exists d', retireFromLadder 12000000000 d = (Ok 12000000000, d') /\ books d'.
Proof.
  intros d given. assert (0 < given 2) as H2 by (vm_compute; reflexivity). split; [exact H2|].
  destruct (retirement_takes_the_cheapest 12000000000 d (new_market_books _ shop_prices_ok) eq_refl)
    as (d' & H1 & Hb & _ & _ & _ & Hc).
  split; [|exists d'; split; [exact H1|exact Hb]].
  exact (Hc 1 2 _ eq_refl H2 eq_refl).
Defined.

(** C34: the cap defers an output for good when its share is more than the cap
    leaves: [over_cap], as a share greater than a whole day's cap is on every day
    nothing was retired on ([over_a_whole_day]). Then whatever market it is, no
    scan retires it or anything after it: any number of scans, of any processes,
    at any times, with any links and tips, leaves the database as it was, cursor
    and retirements included, and when the links work each only tells a human
    that retirement is paused. The block asked for is the one after the cursor;
    what comes before that output in it is not for a service, or already retired. *)
Theorem an_output_over_the_cap_is_never_retired live w from txs txid outs1 a value outs2 txs' system l :
  let S := w_settings w in
  let d := w_db w in
  retireSpentCoins S = true -> positive (retireRatio S) = true -> chain_scan d = Some from ->
  retires S d (Some a, value) = Some system -> txs_done S d txs -> outs_done S d txid 0 outs1 ->
  Forall (fun scanned : Z * list oracle => (scan_awaits txs outs1 <= length scanned.2)%nat /\
    Forall (fun o => or_block o = txs ++ (txid, outs1 ++ (Some a, value) :: outs2) :: txs' /\
                     over_cap S d value (or_now o) /\
                     (live = true -> or_link o = Works /\ from < or_tip o - retireMinConf S)) scanned.2) l ->
  exists w', scans l w = Some w' /\ w_db w' = d /\
    (idle w -> live = true -> w_alerts w' = repeat "Retirement paused: daily cap reached" (length l) ++ w_alerts w).
Proof.
  intros S d Hon Hratio Hfrom Hr Htxs Houts Hl.
  apply (scans_stall live S d (fun o => or_block o = txs ++ (txid, outs1 ++ (Some a, value) :: outs2) :: txs' /\
           over_cap S d value (or_now o) /\ (live = true -> or_link o = Works /\ from < or_tip o - retireMinConf S))
           from txs txid outs1 a value outs2 txs' system l w); try done; try (by intros o (? & ? & ?)).
  - intros o (_ & _ & Ho) Hlive. by apply Ho.
  - intros o (_ & _ & Ho) Hlive. by apply Ho.
  - eapply Forall_impl; [exact Hl|]. by intros x [? ?].
Qed.

(** Two processes scan, days apart; the daily cap is 100 PCN, the share is 500. *)
Lemma an_output_over_the_cap_is_never_retired_witness :
  let w := shop scanning in
  let l := [(1, repeat (big_block 200000) 20); (2, repeat (big_block 400000) 20)] in
  exists w', scans l w = Some w' /\ w_db w' = w_db w /\ chain_scan (w_db w') = Some 84 /\
    (idle w -> true = true -> w_alerts w' = repeat "Retirement paused: daily cap reached" 2 ++ w_alerts w).
Proof.
  intros w l. assert (chain_scan (w_db w) = Some 84) as Hfrom by (vm_compute; reflexivity).
  assert (retirements (w_db w) = []) as Hret by (vm_compute; reflexivity).
  assert (forall t, over_cap (w_settings w) (w_db w) (num 1000) t) as Hover.
  { intros t. apply over_a_whole_day; [|vm_compute; reflexivity].
    intros x Hx. rewrite Hret in Hx. inversion Hx. }
  destruct (an_output_over_the_cap_is_never_retired true w 84 [] "spend" [] "pcn1bot" (num 1000) [] [] "bot" l)
    as (w' & H1 & H2 & H3).
  - vm_compute. reflexivity.
  - vm_compute. reflexivity.
  - exact Hfrom.
  - vm_compute. reflexivity.
  - constructor.
  - exact I.
  - assert (forall t, (scan_awaits [] [] <= length (repeat (big_block t) 20))%nat) as Hlen
      by (intros t; rewrite repeat_length; vm_compute; lia).
    assert (retireMinConf (w_settings w) = 6) as Hconf by (vm_compute; reflexivity).
    repeat (apply Forall_cons; split); [..|apply Forall_nil; done]; (split; [apply Hlen|]);
      apply Forall_forall; intros o ->%list_elem_of_In%repeat_spec;
      (split; [reflexivity|]; split; [apply Hover|]; intros _; split; [reflexivity|]; rewrite Hconf; cbn; lia).
  - exists w'. split; [exact H1|]. split; [exact H2|]. split; [by rewrite H2|exact H3].
Defined.
