(* ===== verification/Desk.v ===== *)
(** * The wrap desk (contrib/wrapdesk/server.mjs)

    A customer asks to wrap PCN and is given a deposit address of their own from a
    fixed pool; a customer who sent wPCN back claims PCN with a signature. Both
    leave a record in a JSON file that the desk reads and writes whole. What runs
    between two awaits of a handler is one step. The explorer, the nodes of the
    token's chain, the watcher's ledger, the captcha, the signature recovery, the
    flag files and the disk are the outside's; [w_heard] and [w_answers] are
    history, read by no code. *)

From Stdlib Require Import SpecFloat Ascii.
From stdpp Require Import pretty.
From S2P Require Import Prelude JsInt JsNum JsText Bytes Bsc Tasks.
Local Open Scope Z_scope.

(** ** Settings *)

Record settings := {
  FEE_PCT : js_num; PER_PERSON : js_num; TOTAL_ALLOC : js_num;
  ACCOUNT_MONTHLY_PCN : js_num; ACCOUNT_DAILY_PCN : js_num; IP_DAILY_PCN : js_num;
  REQUIRE_ACCOUNT : bool; REQUIRE_VERIFIED : bool; HCAPTCHA_ON : bool;
  INVENTORY : string; TOKEN : string; pool : list (Z * string) }.

(** Index 0 is the reserve; it is never handed out. *)
Definition FIRST_INDEX : Z := 1.

(** [const pool]: the lines of the pool file that hold an index and an address. *)
Definition lower_alnum (c : ascii) : bool :=
  let n := Z.of_nat (nat_of_ascii c) in ((48 <=? n) && (n <=? 57)) || ((97 <=? n) && (n <=? 122)).
Definition isPcn (s : string) : bool :=
  match s with
  | String "p"%char (String "c"%char (String "1"%char t)) => string_all lower_alnum t && (20 <=? String.length t)%nat
  | _ => false
  end.
Definition isBsc : string -> bool := hex_text hex_any 40.
Definition isBscLower : string -> bool := hex_text hex_lower 40.
Definition isTxHash : string -> bool := hex_text hex_any 64.

(** ** The state file *)

(** [amount] is what was asked for; [released] is written null and [refunded] never; neither is kept. *)
Record wrap := {
  q_bsc : string; q_index : Z; q_address : string; q_amount : js_num; q_created : Z;
  q_account : option string; q_ip : option string }.

(** [requests] in the order of its keys' insertion. *)
Record desk_state := { requests : list (string * wrap); nextIndex : Z }.
Definition fresh_state : desk_state := {| requests := []; nextIndex := FIRST_INDEX |}.

Inductive file (A : Type) := Missing | Garbled | Holds (a : A).
Arguments Missing {A}.
Arguments Garbled {A}.
Arguments Holds {A} a.

Fixpoint find_request (key : string) (l : list (string * wrap)) : option wrap :=
  match l with [] => None | (k, x) :: l' => if String.eqb k key then Some x else find_request key l' end.
(** [st.requests[key] = x]: in its place, or at the end. *)
Fixpoint put_request (key : string) (x : wrap) (l : list (string * wrap)) : list (string * wrap) :=
  match l with
  | [] => [(key, x)]
  | (k, y) :: l' => if String.eqb k key then (k, x) :: l' else (k, y) :: put_request key x l'
  end.

(** ** Signed tokens *)

(** HMAC-SHA256 in hex: a digest has no dot. *)
Class Hmac := {
  hmac : string -> string -> string;
  hmac_no_dot : forall key payload, string_all (fun c => negb (Ascii.eqb c ".")) (hmac key payload) = true }.

Definition COOKIE_TAG : string := "wrapdesk-cookie-v1".
Definition COOKIE_TAG_V2 : string := "wrapdesk-cookie-v2".

(** [s.split(c)] *)
Fixpoint split_on (c : ascii) (s : string) : list string :=
  match s with
  | EmptyString => [""%string]
  | String a s' =>
      match split_on c s' with
      | w :: ws => if Ascii.eqb a c then ""%string :: w :: ws else String a w :: ws
      | [] => []
      end
  end.
(** What precedes and follows the last [c]. *)
Fixpoint split_last (c : ascii) (s : string) : option (string * string) :=
  match s with
  | EmptyString => None
  | String a s' =>
      match split_last c s' with
      | Some (p, t) => Some (String a p, t)
      | None => if Ascii.eqb a c then Some (""%string, s') else None
      end
  end.

(** An account, and whether its e-mail is confirmed. *)
Record session := { s_email : string; s_ev : bool }.

(** [!Number.isFinite(exp) || Date.now() > exp] *)
Definition expired (exp : string) (now : Z) : bool :=
  let e := Number_text exp in negb (is_finite e) || num_ltb e (num_of_Z now).

Definition read_payload (payload : string) (now : Z) : option session :=
  if String.prefix "v2|" payload then
    match split_on "|" payload with
    | [_; email; ev; exp] =>
        if String.eqb email "" || negb (String.eqb ev "0" || String.eqb ev "1") || expired exp now then None
        else Some {| s_email := email; s_ev := String.eqb ev "1" |}
    | _ => None
    end
  else
    match split_last "|" payload with
    | Some (email, exp) =>
        if expired exp now || String.eqb email "" then None else Some {| s_email := email; s_ev := false |}
    | None => None
    end.

Section tokens.
Context `{Hmac}.

Definition parseSigned (tok key : string) (now : Z) : option session :=
  if String.eqb tok "" || String.eqb key "" then None else
  match split_last "." tok with
  | Some (payload, got) => if String.eqb got (hmac key payload) then read_payload payload now else None
  | None => None
  end.
Definition verifySigned (tok key : string) (now : Z) : option string := s_email <$> parseSigned tok key now.

Definition signed (payload key : string) : string := (payload ++ "." ++ hmac key payload)%string.
Definition signSession (cookieKey email : string) (ev : bool) (now : Z) : string :=
  signed ("v2|" ++ email ++ "|" ++ (if ev then "1" else "0") ++ "|" ++ pretty (now + 7 * 86400000))%string cookieKey.
Definition signClaim (claimKey key : string) (now : Z) : string :=
  signed ("claim:" ++ key ++ "|" ++ pretty (now + 180 * 86400000))%string claimKey.
Definition claimCookieName (claimKey key : string) : string :=
  ("wdc_" ++ String.substring 0 12 (hmac claimKey ("name:" ++ key)))%string.

(** The keys of this desk; the cookies of a browser, decoded. *)
Record secrets := { SSO_SECRET : string; CLAIM_KEY : string }.
Definition COOKIE_KEY (s : secrets) : string := if String.eqb (SSO_SECRET s) "" then "" else hmac (SSO_SECRET s) COOKIE_TAG.
Definition COOKIE_KEY_V2 (s : secrets) : string :=
  if String.eqb (SSO_SECRET s) "" then "" else hmac (SSO_SECRET s) COOKIE_TAG_V2.

Definition sessionOf (s : secrets) (cookies : gmap string string) (now : Z) : option session :=
  if String.eqb (SSO_SECRET s) "" then None else
  t ← cookies !! "wd"%string;
  match parseSigned t (COOKIE_KEY_V2 s) now with Some x => Some x | None => parseSigned t (COOKIE_KEY s) now end.
Definition holdsClaim (s : secrets) (cookies : gmap string string) (key : string) (now : Z) : bool :=
  match cookies !! claimCookieName (CLAIM_KEY s) key with
  | Some t => bool_decide (verifySigned t (CLAIM_KEY s) now = Some ("claim:" ++ key)%string)
  | None => false
  end.
End tokens.

(** ** The outside *)

(** A flag file: absent, present, or its lookup failed. *)
Inductive flag := FlagAbsent | FlagPresent | FlagUnknown.
(** The block list: accounts, connections and prefixes of them, as written. *)
Inductive block_list :=
  | NoBlockFile | BlockUnreadable
  | Blocks (accounts ips prefixes : list string).

(** A row of the watcher's ledger, by the third field of its key. *)
Record seen := { e_address : string; e_released : bool; e_refunded : bool }.
Record allocation := { al_used : js_num; al_released : js_num; al_committed : js_num; al_per_address : gmap string js_num }.
(** [None]: unreadable; each part may be missing. *)
Record watch := { wt_seen : list seen; wt_allocation : option allocation }.

Inductive captcha := CaptchaOk | CaptchaMissing | CaptchaRejected | CaptchaUnreachable.
(** What the recovery of a signer says: the signer in lower case. *)
Inductive recovered := Recovered (signer : string) | RecoverBad | RecoverUnknown.

Record oracle := {
  a_flags : list flag;
  a_blocks : block_list;
  a_readable : bool;                         (* the desk's files can be read *)
  a_writable : bool;
  a_watch : option watch;
  a_captcha : captcha;
  a_deposits : option nat;                   (* how many deposits an address has; [None]: unknown *)
  a_recovered : recovered;
  a_receipt : list (rpc_reply (option receipt));
  a_now : Z }.                               (* milliseconds *)

(** ** Claims of returned wPCN *)

(** [verify_note], [updated_at] and the connection, which no code reads, are not kept. *)
Record claim := {
  t_txhash : string; t_logIndex : option Z; t_from : string; t_wpcn : js_num; t_pcoin : string;
  t_signature : string; t_message : string; t_verified : bool; t_block : option Z; t_at : Z;
  t_previous : option string; t_paid : bool }.
(** [txhash:logIndex]; the index is [None] for NaN. *)
Abbreviation claim_key := (string * option Z)%type.

(** ** Answers *)

(** With a deposit address goes the claim cookie of its record, [claimCookieName]
    and [signClaim]. *)
Inductive answer :=
  | Closed | NotBsc | NoAmount | BlocksUnknown | BlockedAccount | BlockedConnection | NeedAccount | NeedVerified
  | OverMonthly | OverRequest | CaptchaFailed | CaptchaDown | AllocationFull | OverAccountDay | OverIpDay
  | TooMany | NoAddresses | Private | DepositAddress (address : string) | Broke
  | ReturnLimited | ReturnBad | BadSignature | ChainDown | ReturnPending | ReturnReverted | NoTransfer | AlreadyPaid
  | Recorded (keys : list claim_key).

(** What the handlers heard of the outside about a return. *)
Inductive fact :=
  | HReceipt (txhash : string) (r : receipt)
  | HSigner (message signature signer : string).

Record world := {
  w_state : file desk_state;
  w_claims : file (gmap claim_key claim);
  w_hits : gmap string (list Z); w_rhits : gmap string (list Z);
  w_heard : list fact;
  w_answers : list (string * answer) }.      (* the connection, and what it was told *)
Definition on_state (f : file desk_state) (w : world) : world := {|
  w_state := f; w_claims := w_claims w; w_hits := w_hits w; w_rhits := w_rhits w; w_heard := w_heard w; w_answers := w_answers w |}.
Definition on_claims (f : file (gmap claim_key claim)) (w : world) : world := {|
  w_state := w_state w; w_claims := f; w_hits := w_hits w; w_rhits := w_rhits w; w_heard := w_heard w; w_answers := w_answers w |}.
Definition on_hits (h r : gmap string (list Z)) (w : world) : world := {|
  w_state := w_state w; w_claims := w_claims w; w_hits := h; w_rhits := r; w_heard := w_heard w; w_answers := w_answers w |}.
Definition hear (f : fact) (w : world) : world := {|
  w_state := w_state w; w_claims := w_claims w; w_hits := w_hits w; w_rhits := w_rhits w; w_heard := f :: w_heard w;
  w_answers := w_answers w |}.
Definition say (ip : string) (a : answer) (w : world) : world := {|
  w_state := w_state w; w_claims := w_claims w; w_hits := w_hits w; w_rhits := w_rhits w; w_heard := w_heard w;
  w_answers := w_answers w ++ [(ip, a)] |}.

(** [load]: what cannot be read is an empty desk. *)
Definition load (o : oracle) (w : world) : desk_state :=
  match w_state w with Holds st => if a_readable o then st else fresh_state | _ => fresh_state end.
(** [save]: whole, or not at all with an exception. *)
Definition save (o : oracle) (st : desk_state) (w : world) : result () world :=
  if a_writable o then Ok (on_state (Holds st) w) else Err ().

(** ** Guards and limits *)

(** Any flag that is not surely absent closes the desk. *)
Definition intakeClosed (o : oracle) : bool :=
  existsb (fun f => match f with FlagAbsent => false | _ => true end) (a_flags o).

Definition blockedFor (o : oracle) (acct : option string) (ip : string) : option answer :=
  match a_blocks o with
  | NoBlockFile => None
  | BlockUnreadable => Some BlocksUnknown
  | Blocks accounts ips prefixes =>
      let lc a := lower_string (js_trim a) in
      if match acct with Some a => bool_decide (lc a ∈ lc <$> accounts) | None => false end then Some BlockedAccount else
      if bool_decide (ip ∈ js_trim <$> ips) || existsb (fun p => negb (String.eqb p "") && String.prefix (js_trim p) ip) prefixes
      then Some BlockedConnection else None
  end.

Section limits.
Context (S : settings).

Definition fraction : js_num := num_sub (num_of_Z 1) (num_div (FEE_PCT S) (num_of_Z 100)).
(** [Number(a) || 0], at most an address's allowance. *)
Definition or_zero (x : js_num) : js_num := if is_nan x then S754_zero false else x.
Definition capped (x : js_num) : js_num := js_min (or_zero x) (PER_PERSON S).
Definition wpcnFor (x : js_num) : js_num := num_mul (capped x) fraction.
Definition slack (x : js_num) : js_num := num_add x (num_dec 1 8).

Definition MONTH : Z := 30 * 86400000.
Definition DAY : Z := 86400000.

Definition accountUsedWpcn (o : oracle) (st : desk_state) (email : string) : js_num :=
  let perAddr := default ∅ (al_per_address <$> (a_watch o ≫= wt_allocation)) in
  foldl (fun used x =>
    let r := snd x in
    if bool_decide (q_account r = Some email) && (a_now o - MONTH <=? q_created r) then
      let dep := default (S754_zero false) (perAddr !! q_address r) in
      num_add used (if num_ltb (S754_zero false) dep then dep else wpcnFor (q_amount r))
    else used) (S754_zero false) (requests st).

Definition leftMonthly (o : oracle) (st : desk_state) (email : string) : js_num :=
  let capW := num_mul (ACCOUNT_MONTHLY_PCN S) fraction in
  js_max (S754_zero false) (num_div (num_sub capW (accountUsedWpcn o st email)) fraction).

Definition askedSince (st : desk_state) (matches : wrap -> bool) (since : Z) : js_num :=
  foldl (fun total x => if matches (snd x) && (since <=? q_created (snd x)) then num_add total (capped (q_amount (snd x))) else total)
    (S754_zero false) (requests st).

(** Addresses with a refund and no release. *)
Definition refundedAddrs (o : oracle) : list string :=
  match a_watch o with
  | None => []
  | Some wt =>
      let named := filter (fun e => e_address e <> ""%string) (wt_seen wt) in
      let released := e_address <$> filter (fun e => e_released e = true) named in
      filter (fun a => a ∉ released)
        (e_address <$> filter (fun e => e_released e = false /\ e_refunded e = true) named)
  end.

Definition requested (o : oracle) (st : desk_state) (key : string) : js_num :=
  foldl (fun sum x => num_add sum (wpcnFor (q_amount (snd x)))) (S754_zero false)
    (filter (fun x => x.1 <> key /\ q_address x.2 ∉ refundedAddrs o) (requests st)).
Definition deposited (o : oracle) : js_num :=
  match a_watch o ≫= wt_allocation with
  | Some a => js_max (or_zero (al_used a)) (js_max (or_zero (al_released a)) (or_zero (al_committed a)))
  | None => S754_zero false
  end.
Definition headroom (o : oracle) (st : desk_state) (key : string) : js_num :=
  num_sub (TOTAL_ALLOC S) (js_max (requested o st key) (deposited o)).

(** [tooMany]: more than [cap] in the last hour; the attempt counts. *)
Definition hit (cap : nat) (now : Z) (ip : string) (hits : gmap string (list Z)) : bool * gmap string (list Z) :=
  let a := filter (fun t => now - t < 3600000) (default [] (hits !! ip)) ++ [now] in
  let hits' := <[ip := a]> hits in
  ((cap <? length a)%nat, if (5000 <? size hits')%nat then ∅ else hits').
End limits.

(** ** POST /request *)

(** A request as it arrives: the form's fields, the cookies, the connection. *)
Record asked := { f_bsc : string; f_amount : option string; f_cookies : gmap string string; f_ip : string }.
Definition amount_of (q : asked) : js_num := js_Number (match f_amount q with Some s => JStr s | None => JNull end).
Definition bsc_key (q : asked) : string := lower_string (js_trim (f_bsc q)).

(** Where a request is after a step: answered, waiting for its form, for the captcha,
    or for the explorer about the addresses left, with the state as it was loaded. *)
Inductive stage :=
  | Done (a : answer)
  | Opened
  | AskCaptcha
  | AskDeposits (email : string) (st : desk_state) (rest : list (string * wrap)).
Abbreviation desk_program := (io () oracle world).

Section request.
Context `{Hmac} (S : settings) (keys : secrets) (q : asked).

Definition acct_of (o : oracle) : option session := sessionOf keys (f_cookies q) (a_now o).
Definition email_of (o : oracle) : option string := s_email <$> acct_of o.

(** The guards from the form's arrival up to the captcha. *)
Definition gates (o : oracle) (w : world) : option answer :=
  let amount := amount_of q in
  let acct := email_of o in
  if negb (isBsc (js_trim (f_bsc q))) then Some NotBsc else
  if negb (num_ltb (S754_zero false) amount) then Some NoAmount else
  match blockedFor o acct (f_ip q) with
  | Some a => Some a
  | None =>
      if REQUIRE_ACCOUNT S && negb (bool_decide (is_Some acct)) then Some NeedAccount else
      if REQUIRE_VERIFIED S && match acct_of o with Some s => negb (s_ev s) | None => false end then Some NeedVerified else
      if match acct with
         | Some email => num_ltb (slack (leftMonthly S o (load o w) email)) amount
         | None => false
         end then Some OverMonthly else
      if num_ltb (PER_PERSON S) amount then Some OverRequest else None
  end.

(** The first free [bsc#n]. *)
Fixpoint free_key (fuel : nat) (n : Z) (base : string) (l : list (string * wrap)) : string :=
  let k := (base ++ "#" ++ pretty n)%string in
  match fuel with
  | O => k
  | Datatypes.S f => match find_request k l with Some _ => free_key f (n + 1) base l | None => k end
  end.

(** The account's requests for this BSC address, newest first. *)
Fixpoint insert_by_created (x : string * wrap) (l : list (string * wrap)) : list (string * wrap) :=
  match l with
  | [] => [x]
  | y :: l' => if q_created y.2 <=? q_created x.2 then x :: l else y :: insert_by_created x l'
  end.
Definition mine_here (email : string) (st : desk_state) : list (string * wrap) :=
  foldr insert_by_created []
    (filter (fun x => (x.1 = bsc_key q \/ String.prefix (bsc_key q ++ "#") x.1 = true) /\ q_account x.2 = Some email) (requests st)).

Definition key_for (acct : option string) (st : desk_state) (reuse : option string) : string :=
  match acct, reuse with
  | None, _ => bsc_key q
  | Some _, Some k => k
  | Some _, None =>
      match find_request (bsc_key q) (requests st) with
      | Some _ => free_key (length (requests st)) 2 (bsc_key q) (requests st)
      | None => bsc_key q
      end
  end.

(** The limits on a new record, then the next address of the pool. *)
Definition open_new (acct : option string) (o : oracle) (st : desk_state) (key : string) (w : world) : answer * world :=
  let want := js_min (amount_of q) (PER_PERSON S) in
  let since := a_now o - DAY in
  let over total limit := num_ltb (slack limit) (num_add total want) in
  if match acct with
     | Some email => over (askedSince S st (fun x => bool_decide (q_account x = Some email)) since) (ACCOUNT_DAILY_PCN S)
     | None => false
     end then (OverAccountDay, w) else
  if over (askedSince S st (fun x => bool_decide (q_ip x = Some (f_ip q))) since) (IP_DAILY_PCN S) then (OverIpDay, w) else
  let '(many, hits) := hit 10 (a_now o) (f_ip q) (w_hits w) in
  let w := on_hits hits (w_rhits w) w in
  if many then (TooMany, w) else
  if Z.of_nat (length (pool S)) <=? nextIndex st then (NoAddresses, w) else
  match list_find (fun x => x.1 = nextIndex st) (pool S) with
  | None => (Broke, w)
  | Some (_, slot) =>
      let r := {| q_bsc := js_trim (f_bsc q); q_index := slot.1; q_address := slot.2; q_amount := amount_of q;
                  q_created := a_now o; q_account := acct; q_ip := Some (f_ip q) |} in
      match save o {| requests := put_request key r (requests st); nextIndex := slot.1 + 1 |} w with
      | Ok w => (DepositAddress slot.2, w)
      | Err _ => (Broke, w)
      end
  end.

Definition set_amount (amount : js_num) (r : wrap) : wrap := {|
  q_bsc := q_bsc r; q_index := q_index r; q_address := q_address r; q_amount := amount; q_created := q_created r;
  q_account := q_account r; q_ip := q_ip r |}.

(** An existing record is shown to its owner, who may restate the amount. *)
Definition open_again (acct : option string) (o : oracle) (st : desk_state) (key : string) (r : wrap) (w : world) : answer * world :=
  if holdsClaim keys (f_cookies q) key (a_now o) || (bool_decide (is_Some acct) && bool_decide (q_account r = acct)) then
    if num_eqb (q_amount r) (amount_of q) then (DepositAddress (q_address r), w)
    else match save o {| requests := put_request key (set_amount (amount_of q) r) (requests st); nextIndex := nextIndex st |} w with
         | Ok w => (DepositAddress (q_address r), w)
         | Err _ => (Broke, w)
         end
  else (Private, w).

(** The rest of the handler, on the state as it was loaded. *)
Definition finish (acct : option string) (o : oracle) (st : desk_state) (reuse : option string) (w : world) : stage * world :=
  let key := key_for acct st reuse in
  let '(a, w) :=
    if num_ltb (slack (headroom S o st key)) (wpcnFor S (amount_of q)) then (AllocationFull, w) else
    match find_request key (requests st) with
    | None => open_new acct o st key w
    | Some r => open_again acct o st key r w
    end in
  (Done a, w).

(** The state is loaded; with no request of the account's to ask about, the rest
    runs at once. *)
Definition begin (acct : option string) (o : oracle) (w : world) : stage * world :=
  let st := load o w in
  match acct with
  | Some email => match mine_here email st with [] => finish acct o st None w | rest => (AskDeposits email st rest, w) end
  | None => finish acct o st None w
  end.

Definition arrive (o : oracle) (w : world) : stage * world :=
  match gates o w with
  | Some a => (Done a, w)
  | None => if HCAPTCHA_ON S && negb (bool_decide (is_Some (email_of o))) then (AskCaptcha, w) else begin (email_of o) o w
  end.

Definition solved (o : oracle) (w : world) : stage * world :=
  match a_captcha o with
  | CaptchaOk => begin None o w
  | CaptchaUnreachable => (Done CaptchaDown, w)
  | _ => (Done CaptchaFailed, w)
  end.

(** What the explorer says of one address; the last one ends the wait. *)
Definition seen_deposits (email : string) (st : desk_state) (k : string) (rest : list (string * wrap)) (o : oracle) (w : world) : stage * world :=
  match a_deposits o with
  | Some O => finish (Some email) o st (Some k) w
  | _ => match rest with [] => finish (Some email) o st None w | _ => (AskDeposits email st rest, w) end
  end.

Definition step (f : oracle -> world -> stage * world) : desk_program stage :=
  await (fun o w => let '(s, w) := f o w in (Ok s, w)).

Definition or_broke (s : stage) : answer := match s with Done a => a | _ => Broke end.
Fixpoint look (email : string) (st : desk_state) (rest : list (string * wrap)) : desk_program stage :=
  match rest with
  | [] => mret (Done Broke)
  | (k, _) :: rest' =>
      s ← step (seen_deposits email st k rest');
      match s with AskDeposits _ _ _ => look email st rest' | s => mret s end
  end.
Definition explore (s : stage) : desk_program stage :=
  match s with AskDeposits email st rest => look email st rest | s => mret s end.

Definition tell (ip : string) (a : answer) : desk_program () := await (fun _ w => (Ok (), say ip a w)).

(** A closed desk answers before it reads the form. *)
Definition door (o : oracle) (w : world) : stage * world := (if intakeClosed o then Done Closed else Opened, w).

Definition request : desk_program () :=
  s ← step door;
  s ← match s with Opened => step arrive | s => mret s end;
  s ← match s with AskCaptcha => step solved | s => mret s end;
  s ← explore s;
  tell (f_ip q) (or_broke s).
End request.

(** ** POST /return *)

(** The text the sender signs. *)
Definition returnMessage (S : settings) (txhash pcoin : string) : string :=
  ("PCoin wrap desk: return wPCN for PCN" ++ String "010"%char ("BSC transaction: " ++ txhash
   ++ String "010"%char ("Send the PCN to: " ++ pcoin
   ++ String "010"%char ("I sent the wPCN in that transaction to " ++ INVENTORY S ++ " from the wallet signing this."))))%string.

(** The first endpoint that answers; [None] is unknown, never "no such transaction". *)
Fixpoint bscRpc {A} (endpoints : list (rpc_reply A)) : option A :=
  match endpoints with [] => None | RpcResult a :: _ => Some a | _ :: rest => bscRpc rest end.

(** The last forty characters of a topic. *)
Definition addrFromTopic (t : json) : string :=
  let s := if truthy t then js_String t else ""%string in ("0x" ++ lower_string (slice_from (String.length s - 40) s))%string.

(** [parseInt(v, 16)]: the digits in front, [None] for NaN. *)
Fixpoint hex_prefix (s : string) (acc : Z) (n : nat) : Z * nat :=
  match s with
  | String c s' => match base_digit 16 c with Some d => hex_prefix s' (16 * acc + d) (Datatypes.S n) | None => (acc, n) end
  | EmptyString => (acc, n)
  end.
Definition parseInt16 (v : json) : option Z :=
  let '(sg, t) := sign_of (js_trim (js_String v)) in
  let t := match t with String "0"%char (String "x"%char u) | String "0"%char (String "X"%char u) => u | _ => t end in
  let '(z, n) := hex_prefix t 0 0 in
  if (n =? 0)%nat then None else Some (sg * round53 z).

(** The fields of the body, as texts; [None]: not JSON. *)
Record returned := { b_txhash : string; b_pcoin : string; b_from : string; b_signature : string }.

Section return_claim.
Context (S : settings) (b : option returned) (ip : string).

Definition moved_to_us (from : string) (l : log) : bool :=
  bool_decide (lower_string (js_String (l_address l)) = lower_string (TOKEN S))
  && bool_decide (is_Some (l_topics l)) && bool_decide (lower_string (js_String (topic 0 l)) = TRANSFER_TOPIC)
  && bool_decide (addrFromTopic (topic 2 l) = INVENTORY S) && bool_decide (addrFromTopic (topic 1 l) = from).

(** Like [load]: what cannot be read is no claim at all. *)
Definition loadReturns (o : oracle) (w : world) : gmap claim_key claim :=
  match w_claims w with Holds m => if a_readable o then m else ∅ | _ => ∅ end.

(** [Number(BigInt(l.data)) / 1e8] *)
Definition wpcn_of (l : log) : option js_num := (fun z => num_div (num_of_Z z) (num_of_Z (10 ^ 8))) <$> js_BigInt (l_data l).

Definition is_recovered (v : recovered) : bool := match v with Recovered _ => true | _ => false end.
Definition new_claim (r : returned) (v : recovered) (rc : receipt) (now : Z) (l : log) (wpcn : js_num) : claim := {|
  t_txhash := b_txhash r; t_logIndex := parseInt16 (l_logIndex l); t_from := b_from r; t_wpcn := wpcn; t_pcoin := b_pcoin r;
  t_signature := b_signature r; t_message := returnMessage S (b_txhash r) (b_pcoin r); t_verified := is_recovered v;
  t_block := parseInt16 (r_blockNumber rc); t_at := now / 1000; t_previous := None; t_paid := false |}.
(** The same transfer to another destination. *)
Definition redirect (r : returned) (v : recovered) (now : Z) (c : claim) : claim := {|
  t_txhash := t_txhash c; t_logIndex := t_logIndex c; t_from := t_from c; t_wpcn := t_wpcn c; t_pcoin := b_pcoin r;
  t_signature := b_signature r; t_message := returnMessage S (b_txhash r) (b_pcoin r); t_verified := is_recovered v;
  t_block := t_block c; t_at := t_at c; t_previous := Some (t_pcoin c);
  t_paid := t_paid c |}.

(** The loop over the transfers: the keys and the claims, or the answer that ends it. *)
Fixpoint record_claims (r : returned) (v : recovered) (rc : receipt) (now : Z) (ls : list log) (m : gmap claim_key claim)
    : answer + list claim_key * gmap claim_key claim :=
  match ls with
  | [] => inr ([], m)
  | l :: ls' =>
      let k := (b_txhash r, parseInt16 (l_logIndex l)) in
      let next m' := match record_claims r v rc now ls' m' with inr (ks, m'') => inr (k :: ks, m'') | inl a => inl a end in
      match wpcn_of l, m !! k with
      | None, _ => inl Broke
      | Some _, Some prev =>
          if bool_decide (t_pcoin prev = b_pcoin r) then next m
          else if t_paid prev then inl AlreadyPaid
          else next (<[k := redirect r v now prev]> m)
      | Some wpcn, None => next (<[k := new_claim r v rc now l wpcn]> m)
      end
  end.

Definition lowered (r : returned) : returned := {|
  b_txhash := lower_string (b_txhash r); b_pcoin := js_trim (b_pcoin r); b_from := lower_string (b_from r);
  b_signature := b_signature r |}.
Definition is_signature : string -> bool := hex_text hex_any 130.

(** The body has arrived: the limit, then the fields. *)
Definition return_arrive (o : oracle) (w : world) : (answer + returned) * world :=
  let '(many, hits) := hit 120 (a_now o) ip (w_rhits w) in
  let w := on_hits (w_hits w) hits w in
  if many then (inl ReturnLimited, w) else
  match b with
  | None => (inl ReturnBad, w)
  | Some r =>
      let r := lowered r in
      if isTxHash (b_txhash r) && isPcn (b_pcoin r) && isBscLower (b_from r) && is_signature (b_signature r)
      then (inr r, w) else (inl ReturnBad, w)
  end.

Definition return_recover (r : returned) (o : oracle) (w : world) : recovered * world :=
  match a_recovered o with
  | Recovered s => (Recovered s, hear (HSigner (returnMessage S (b_txhash r) (b_pcoin r)) (b_signature r) s) w)
  | v => (v, w)
  end.
Definition signature_refused (r : returned) (v : recovered) : bool :=
  match v with RecoverBad => true | Recovered s => negb (String.eqb s (b_from r)) | RecoverUnknown => false end.

(** The receipt has arrived: the claims are loaded, changed and saved. *)
Definition return_record (r : returned) (v : recovered) (o : oracle) (w : world) : answer * world :=
  match bscRpc (a_receipt o) with
  | None => (ChainDown, w)
  | Some None => (ReturnPending, w)
  | Some (Some rc) =>
      let w := hear (HReceipt (b_txhash r) rc) w in
      if negb (match r_status rc with JStr s => bool_decide (s = "0x1"%string) | _ => false end) then (ReturnReverted, w) else
      match filter (fun l => moved_to_us (b_from r) l = true) (r_logs rc) with
      | [] => (NoTransfer, w)
      | ls =>
          match record_claims r v rc (a_now o) ls (loadReturns o w) with
          | inl a => (a, w)
          | inr (ks, m) => if a_writable o then (Recorded ks, on_claims (Holds m) w) else (Broke, w)
          end
      end
  end.

Definition doing {A} (f : oracle -> world -> A * world) : desk_program A :=
  await (fun o w => let '(a, w) := f o w in (Ok a, w)).

Definition return_claim : desk_program () :=
  s ← doing return_arrive;
  match s with
  | inl a => tell ip a
  | inr r =>
      v ← doing (return_recover r);
      if signature_refused r v then tell ip BadSignature else
      a ← doing (return_record r v);
      tell ip a
  end.
End return_claim.

(** ** The desk *)

Inductive desk_request := Wrap (q : asked) | Return (b : option returned) (ip : string).

Section desk.
Context `{Hmac} (S : settings) (keys : secrets).

Definition serve (_ : ()) (r : desk_request) : desk_program () :=
  match r with Wrap q => request S keys q | Return b ip => return_claim S b ip end.
(** A restart loses the counts of the rate limits; no other program writes the files. *)
Definition restarted (_ : ()) (w : world) : world := on_hits ∅ ∅ w.
Definition no_other (x : Empty_set) (w : world) : world := match x with end.

Definition desk_after (w : world) (es : list (event (O := oracle) (R := desk_request) (X := Empty_set) (P := ()))) : world :=
  m_world (run_machine serve restarted no_other w es).

(** Customers one after another: each is answered before the next is served. *)
Fixpoint in_turn (rs : list (desk_request * list oracle)) (w : world) : option world :=
  match rs with
  | [] => Some w
  | (r, os) :: rs' => match run_alone (serve () r) os w with Some (_, w') => in_turn rs' w' | None => None end
  end.
End desk.
