(* ===== verification/DeskBooks.v ===== *)
(** * The books of the wrap desk

    What a request that is served alone does, branch by branch: when a deposit
    address is given and to whom, and how the state changes. The invariant of the
    state under customers served one after another. *)

From Stdlib Require Import SpecFloat Ascii.
From stdpp Require Import pretty.
From S2P Require Import Prelude JsInt JsNum JsText Bytes Bsc Tasks Desk.
Local Open Scope Z_scope.

(** ** The requests by key *)

Lemma find_put k x l k' : find_request k' (put_request k x l) = if decide (k' = k) then Some x else find_request k' l.
Proof.
  induction l as [|[k1 y] l IH]; cbn; [case_decide as H|].
  - subst. by rewrite String.eqb_refl.
  - by rewrite (proj2 (String.eqb_neq k k') (not_eq_sym H)).
  - destruct (String.eqb_spec k1 k) as [->|Hne]; cbn.
    + destruct (String.eqb_spec k k') as [->|Hn]; [by rewrite decide_True|by rewrite decide_False].
    + destruct (String.eqb_spec k1 k') as [->|Hn]; [by rewrite decide_False|done].
Qed.

Lemma find_request_elem k l : is_Some (find_request k l) -> k ∈ l.*1.
Proof.
  intros [x H]. induction l as [|[k1 y] l IH]; cbn in *; [done|].
  destruct (String.eqb_spec k1 k) as [->|]; [left|right; by apply IH].
Qed.

Lemma put_request_keys k x l : NoDup l.*1 -> NoDup (put_request k x l).*1.
Proof.
  induction l as [|[k1 y] l IH]; cbn; intros H; [by apply NoDup_singleton|]. apply NoDup_cons in H as [Hn H].
  destruct (String.eqb_spec k1 k) as [->|Hne]; cbn; apply NoDup_cons; [done|]. split; [|by apply IH].
  enough (forall k', k' ∈ (put_request k x l).*1 -> k' = k \/ k' ∈ l.*1) as Hin by (intros H1; destruct (Hin _ H1); congruence).
  clear. induction l as [|[k1 y] l IH]; cbn; intros k' Hk; [set_solver|].
  destruct (String.eqb k1 k); cbn in Hk; set_solver.
Qed.

Lemma find_request_in k x l : NoDup l.*1 -> (k, x) ∈ l -> find_request k l = Some x.
Proof.
  induction l as [|[k1 y] l IH]; cbn; [by intros _ ?%not_elem_of_nil|]. intros [Hn H]%NoDup_cons [[= -> ->]|Hin]%elem_of_cons.
  - by rewrite String.eqb_refl.
  - rewrite (proj2 (String.eqb_neq _ _)); [by apply IH|]. intros ->. apply Hn. change k with (k, x).1. by apply list_elem_of_fmap_2.
Qed.

Definition numbered (base : string) (n : Z) : string := (base ++ "#" ++ pretty n)%string.
#[export] Instance numbered_inj base : Inj (=) (=) (numbered base).
Proof.
  intros n n' H. unfold numbered in H. apply (inj (String.append base)) in H. cbn in H. simplify_eq. by apply (inj pretty).
Qed.

Lemma free_key_taken fuel n base l i :
  is_Some (find_request (free_key fuel n base l) l) -> (i <= fuel)%nat -> is_Some (find_request (numbered base (n + Z.of_nat i)) l).
Proof.
  revert n i. induction fuel as [|fuel IH]; intros n i H Hi; cbn [free_key] in H; cbv zeta in H;
    change (base ++ "#" ++ pretty n)%string with (numbered base n) in H.
  - replace i with 0%nat by lia. by rewrite Z.add_0_r.
  - destruct (find_request (numbered base n) l) eqn:Hn; [|rewrite Hn in H; by destruct H].
    destruct i as [|i]; [rewrite Z.add_0_r; eauto|].
    replace (n + Z.of_nat (S i)) with (n + 1 + Z.of_nat i) by lia. apply IH; [done|lia].
Qed.

(** The loop for a free key ends: of [length l + 1] keys one is free. *)
Lemma free_key_free n base l : find_request (free_key (length l) n base l) l = None.
Proof.
  destruct (find_request _ l) eqn:H; [exfalso|done].
  set (ks := (fun i => numbered base (n + Z.of_nat i)) <$> seq 0 (Datatypes.S (length l))).
  assert (ks ⊆+ l.*1) as Hsub.
  { apply NoDup_submseteq.
    - apply NoDup_fmap_2; [|apply NoDup_seq]. intros i j Hij. apply (inj (numbered base)) in Hij. lia.
    - intros k Hk. apply list_elem_of_fmap in Hk as (i & -> & Hi). apply elem_of_seq in Hi.
      apply find_request_elem, (free_key_taken (length l)); [by rewrite H|lia]. }
  apply submseteq_length in Hsub. unfold ks in Hsub. rewrite !length_fmap, length_seq in Hsub. lia.
Qed.

(** ** The invariant of the state *)

Definition pool_address (S : settings) (i : Z) : option string := (fun x => x.2.2) <$> list_find (fun x => x.1 = i) (pool S).

Record books (S : settings) (st : desk_state) : Prop := {
  bk_keys : NoDup (requests st).*1;
  bk_next : FIRST_INDEX <= nextIndex st;
  bk_each k x : find_request k (requests st) = Some x ->
    FIRST_INDEX <= q_index x < nextIndex st /\ pool_address S (q_index x) = Some (q_address x);
  bk_once k k' x x' : find_request k (requests st) = Some x -> find_request k' (requests st) = Some x' ->
    q_index x = q_index x' -> k = k' }.

(** No record is lost, and nothing of it but the amount changes. *)
Definition records_kept (st st' : desk_state) : Prop :=
  forall k x, find_request k (requests st) = Some x ->
  exists amount, find_request k (requests st') = Some (set_amount amount x).
#[export] Instance records_kept_refl : Reflexive records_kept.
Proof. intros st k x H. exists (q_amount x). rewrite H. by destruct x. Qed.
#[export] Instance records_kept_trans : Transitive records_kept.
Proof. intros s1 s2 s3 H1 H2 k x H. destruct (H1 _ _ H) as [a Ha]. destruct (H2 _ _ Ha) as [b Hb]. by exists b. Qed.

Definition state_of (w : world) : desk_state := match w_state w with Holds st => st | _ => fresh_state end.
Definition sound (S : settings) (w : world) : Prop := w_state w <> Garbled /\ books S (state_of w).

Lemma books_fresh S : books S fresh_state.
Proof. split; try done. constructor. Qed.

Section books.
Context (S : settings).

Lemma books_new st key x :
  books S st -> find_request key (requests st) = None -> q_index x = nextIndex st -> pool_address S (q_index x) = Some (q_address x) ->
  let st' := {| requests := put_request key x (requests st); nextIndex := q_index x + 1 |} in books S st' /\ records_kept st st'.
Proof.
  intros [Hd Hn He Ho] Hnone Hi Hp. split; [split; cbn|].
  - by apply put_request_keys.
  - lia.
  - intros k y. rewrite find_put. case_decide as Hk; [intros [= <-]; split; [lia|done]|]. intros H.
    destruct (He _ _ H). split; [lia|done].
  - intros k k' y y'. rewrite !find_put. case_decide as Hk; case_decide as Hk'; intros H H' Heq; simplify_eq; try done.
    + destruct (He _ _ H'). lia.
    + destruct (He _ _ H). lia.
    + by eapply Ho.
  - intros k y H. exists (q_amount y). cbn. rewrite find_put, decide_False by congruence. rewrite H. by destruct y.
Qed.

Lemma books_amount st key x amount :
  books S st -> find_request key (requests st) = Some x ->
  let st' := {| requests := put_request key (set_amount amount x) (requests st); nextIndex := nextIndex st |} in
  books S st' /\ records_kept st st'.
Proof.
  intros [Hd Hn He Ho] Hx.
  assert (forall k y, find_request k (put_request key (set_amount amount x) (requests st)) = Some y ->
    exists z, find_request k (requests st) = Some z /\ q_index y = q_index z /\ q_address y = q_address z) as Hback.
  { intros k y. rewrite find_put. case_decide as Hk; [subst; intros [= <-]; by exists x|]. intros H. by exists y. }
  split; [split; cbn|].
  - by apply put_request_keys.
  - done.
  - intros k y H. destruct (Hback _ _ H) as (z & Hz & -> & ->). by apply (He k).
  - intros k k' y y' H H'. destruct (Hback _ _ H) as (z & Hz & -> & _), (Hback _ _ H') as (z' & Hz' & -> & _). by eapply Ho.
  - intros k y H. cbn. rewrite find_put. case_decide as Hk; [subst k; rewrite Hx in H; injection H as ->; by eexists|].
    exists (q_amount y). rewrite H. by destruct y.
Qed.
End books.

(** ** What a request does *)

Section request.
Context `{HM : Hmac} (S : settings) (keys : secrets) (q : asked).

(** Nothing but the state and the counts of the limits moves. *)
Definition quiet (w w' : world) : Prop := w_claims w' = w_claims w /\ w_heard w' = w_heard w /\ w_answers w' = w_answers w.

(** The daily limits let a new record through. *)
Definition within_day (acct : option string) (o : oracle) (st : desk_state) : Prop :=
  let want := js_min (amount_of q) (PER_PERSON S) in
  let over total limit := num_ltb (slack limit) (num_add total want) in
  (forall email, acct = Some email ->
     over (askedSince S st (fun x => bool_decide (q_account x = Some email)) (a_now o - DAY)) (ACCOUNT_DAILY_PCN S) = false)
  /\ over (askedSince S st (fun x => bool_decide (q_ip x = Some (f_ip q))) (a_now o - DAY)) (IP_DAILY_PCN S) = false.

Definition new_record (acct : option string) (o : oracle) (i : Z) (address : string) : wrap := {|
  q_bsc := js_trim (f_bsc q); q_index := i; q_address := address; q_amount := amount_of q; q_created := a_now o;
  q_account := acct; q_ip := Some (f_ip q) |}.

(** The address [d] is given on the state [st]: a new record at the pool's next
    address, or the owner's own record with the amount asked. *)
Inductive given (acct : option string) (o : oracle) (st : desk_state) (key d : string) : option desk_state -> Prop :=
  | given_new i :
      find_request key (requests st) = None -> within_day acct o st ->
      nextIndex st = i -> i < Z.of_nat (length (pool S)) -> pool_address S i = Some d ->
      given acct o st key d (Some {| requests := put_request key (new_record acct o i d) (requests st); nextIndex := i + 1 |})
  | given_again r st' :
      find_request key (requests st) = Some r -> q_address r = d ->
      holdsClaim keys (f_cookies q) key (a_now o) = true \/ (is_Some acct /\ q_account r = acct) ->
      st' = (if num_eqb (q_amount r) (amount_of q) then None
             else Some {| requests := put_request key (set_amount (amount_of q) r) (requests st); nextIndex := nextIndex st |}) ->
      given acct o st key d st'.

Definition saved (st' : option desk_state) (w w' : world) : Prop :=
  w_state w' = match st' with Some st' => Holds st' | None => w_state w end.

(** An answer decided on [st], and the world after it. *)
Definition decided (acct : option string) (o : oracle) (st : desk_state) (key : string) (a : answer) (w w' : world) : Prop :=
  quiet w w' /\
  match a with
  | DepositAddress d =>
      num_ltb (slack (headroom S o st key)) (wpcnFor S (amount_of q)) = false /\ exists st', given acct o st key d st' /\ saved st' w w'
  | _ => w_state w' = w_state w
  end
  /\ (a = Private -> exists r, find_request key (requests st) = Some r /\ ~ (is_Some acct /\ q_account r = acct)).

Lemma pool_address_at i n slot : list_find (fun x => x.1 = i) (pool S) = Some (n, slot) -> slot.1 = i /\ pool_address S i = Some slot.2.
Proof. intros Hf. unfold pool_address. rewrite Hf. split; [by apply list_find_Some in Hf as (_ & ? & _)|done]. Qed.

Lemma open_new_spec acct o st key w :
  find_request key (requests st) = None -> num_ltb (slack (headroom S o st key)) (wpcnFor S (amount_of q)) = false ->
  decided acct o st key (open_new S q acct o st key w).1 w (open_new S q acct o st key w).2.
Proof.
  intros Hnone Hroom. unfold open_new. cbv beta zeta.
  destruct (match acct with Some _ => _ | None => false end) eqn:Hacct; [done|].
  destruct (num_ltb (slack (IP_DAILY_PCN S)) _) eqn:Hip; [done|].
  destruct (hit 10 (a_now o) (f_ip q) (w_hits w)) as [many hits]. destruct many; [done|].
  destruct (Z.leb_spec (Z.of_nat (length (pool S))) (nextIndex st)) as [|Hlen]; [done|].
  destruct (list_find _ _) as [[n slot]|] eqn:Hf; [|done].
  destruct (pool_address_at _ _ _ Hf) as [Hs Hp].
  unfold save. destruct (a_writable o); cbn; [|done]. split; [done|]. split; [|done]. split; [done|].
  eexists. split; [apply given_new with (i := slot.1)|].
  - done.
  - split; [|done]. intros email ->. done.
  - done.
  - lia.
  - by rewrite Hs.
  - done.
Qed.

Lemma open_again_spec acct o st key r w :
  find_request key (requests st) = Some r -> num_ltb (slack (headroom S o st key)) (wpcnFor S (amount_of q)) = false ->
  decided acct o st key (open_again keys q acct o st key r w).1 w (open_again keys q acct o st key r w).2.
Proof.
  intros Hr Hroom. unfold open_again.
  destruct (holdsClaim keys (f_cookies q) key (a_now o) || _) eqn:Hown; [|split; [done|split; [done|]]].
  2: { intros _. exists r. split; [done|]. intros [H1 H2]. apply orb_false_iff in Hown as [_ Hown].
       apply andb_false_iff in Hown as [Hown|Hown]; by apply bool_decide_eq_false in Hown. }
  assert (holdsClaim keys (f_cookies q) key (a_now o) = true \/ (is_Some acct /\ q_account r = acct)) as Ho.
  { apply orb_true_iff in Hown as [|Hown]; [by left|right]. apply andb_true_iff in Hown as [H1 H2].
    split; by eapply bool_decide_eq_true. }
  unfold save. destruct (num_eqb (q_amount r) (amount_of q)) eqn:Heq; [|destruct (a_writable o); [|done]];
    (split; [done|]; split; [split; [done|]; eexists; split; [by eapply given_again|]|done]).
  all: rewrite Heq; done.
Qed.

Lemma finish_spec acct o st reuse w :
  exists a, (finish S keys q acct o st reuse w).1 = Done a
  /\ decided acct o st (key_for q acct st reuse) a w (finish S keys q acct o st reuse w).2.
Proof.
  unfold finish. set (key := key_for q acct st reuse).
  destruct (num_ltb (slack (headroom S o st key)) _) eqn:Hroom; [by exists AllocationFull|].
  destruct (find_request key (requests st)) as [r|] eqn:Hr.
  - pose proof (open_again_spec acct o st key r w Hr Hroom) as Hd. destruct (open_again _ _ _ _ _ _ _ _) as [a w']. by exists a.
  - pose proof (open_new_spec acct o st key w Hr Hroom) as Hd. destruct (open_new _ _ _ _ _ _ _) as [a w']. by exists a.
Qed.

(** *** The whole request *)

(** What the guards before the captcha ask. *)
Record admissible (o : oracle) (w : world) : Prop := {
  ad_bsc : isBsc (js_trim (f_bsc q)) = true;
  ad_amount : num_ltb (S754_zero false) (amount_of q) = true /\ num_ltb (PER_PERSON S) (amount_of q) = false;
  ad_blocked : blockedFor o (email_of keys q o) (f_ip q) = None;
  ad_account : REQUIRE_ACCOUNT S = true -> is_Some (email_of keys q o);
  ad_verified : REQUIRE_VERIFIED S = true -> forall s, acct_of keys q o = Some s -> s_ev s = true;
  ad_monthly : forall email, email_of keys q o = Some email -> num_ltb (slack (leftMonthly S o (load o w) email)) (amount_of q) = false }.

Lemma gates_admit o w : gates S keys q o w = None -> admissible o w.
Proof.
  unfold gates. cbv zeta. intros H.
  destruct (isBsc _) eqn:H1; [|done]. destruct (num_ltb (S754_zero false) _) eqn:H2; [|done].
  destruct (blockedFor _ _ _) eqn:H3; [done|]. destruct (REQUIRE_ACCOUNT S && _) eqn:H4; [done|].
  destruct (REQUIRE_VERIFIED S && _) eqn:H5; [done|]. cbn in H.
  destruct (match email_of _ _ _ with Some _ => _ | None => _ end) eqn:H6; [done|]. destruct (num_ltb (PER_PERSON S) _) eqn:H7; [done|].
  split; try done.
  - intros Hr. rewrite Hr in H4. by apply negb_false_iff, bool_decide_eq_true in H4.
  - intros Hr s Hs. rewrite Hr, Hs in H5. by apply negb_false_iff in H5.
  - intros email He. by rewrite He in H6.
Qed.

Lemma insert_by_created_perm x l : insert_by_created x l ≡ₚ x :: l.
Proof. induction l as [|y l IH]; cbn; [done|]. case_match; [done|]. rewrite IH. constructor. Qed.
Lemma mine_here_perm email st : mine_here q email st
  ≡ₚ filter (fun x => (x.1 = bsc_key q \/ String.prefix (bsc_key q ++ "#") x.1 = true) /\ q_account x.2 = Some email) (requests st).
Proof. unfold mine_here. induction (filter _ _) as [|x l IH]; cbn; [done|]. by rewrite insert_by_created_perm, IH. Qed.

(** The record to reuse is the account's. *)
Definition reusable (acct : option string) (st : desk_state) (reuse : option string) : Prop :=
  match reuse with Some k => exists x, (k, x) ∈ requests st /\ q_account x = acct | None => True end.

Lemma mine_here_reusable email st k x : (k, x) ∈ mine_here q email st -> reusable (Some email) st (Some k).
Proof. rewrite mine_here_perm. intros [[_ H1] H2]%list_elem_of_filter. by exists x. Qed.
Lemma mine_here_length email st : (length (mine_here q email st) <= length (requests st))%nat.
Proof. rewrite mine_here_perm. apply length_filter. Qed.

(** An account has a free key or a record of its own. *)
Lemma key_for_account acct st reuse x :
  NoDup (requests st).*1 -> reusable (Some acct) st reuse ->
  find_request (key_for q (Some acct) st reuse) (requests st) = Some x -> q_account x = Some acct.
Proof.
  intros Hd Hr. cbn. destruct reuse as [k|].
  - destruct Hr as (y & Hy & <-). rewrite (find_request_in k y) by done. by intros [= <-].
  - destruct (find_request (bsc_key q) (requests st)) eqn:Hf; [by rewrite free_key_free|by rewrite Hf].
Qed.

Section good.
Context (Good : oracle -> Prop).

(** A decision on the state that [ol] loaded. *)
Definition decides (acct : option string) (ol : oracle) (a : answer) (w w' : world) : Prop :=
  exists o reuse, Good o /\ reusable acct (load ol w) reuse
    /\ decided acct o (load ol w) (key_for q acct (load ol w) reuse) a w w'.

Definition done_with (P : answer -> world -> Prop) (r : result () stage) (w : world) : Prop :=
  exists a, r = Ok (Done a) /\ P a w.

Lemma look_alone email ol w rest :
  Forall (fun x => x ∈ mine_here q email (load ol w)) rest -> rest <> [] ->
  alone Good (length rest) (look S keys q email (load ol w) rest) (done_with (fun a w' => decides (Some email) ol a w w')) w.
Proof.
  intros Hr Hne. assert (forall reuse o, reusable (Some email) (load ol w) reuse -> Good o ->
    done_with (fun a w' => decides (Some email) ol a w w') (Ok (finish S keys q (Some email) o (load ol w) reuse w).1)
      (finish S keys q (Some email) o (load ol w) reuse w).2) as Hfin.
  { intros reuse o Hre Ho. destruct (finish_spec (Some email) o (load ol w) reuse w) as (a & -> & Hd). exists a. split; [done|].
    by exists o, reuse. }
  induction Hr as [|[k x] rest Hx Hr IH]; [done|]. cbn [look length]. apply alone_await. intros o Ho.
  assert (reusable (Some email) (load ol w) (Some k)) as Hk by (by eapply mine_here_reusable).
  pose proof (Hfin (Some k) o Hk Ho) as H1. pose proof (Hfin None o I Ho) as H2. unfold seen_deposits.
  destruct (a_deposits o) as [[|n]|]; [|destruct rest; [|cbn; by apply IH]..].
  - destruct (finish _ _ _ _ _ _ (Some k) _) as [s w'], H1 as (a & [= ->] & H1). by exists a.
  - destruct (finish _ _ _ _ _ _ None _) as [s w'], H2 as (a & [= ->] & H2). by exists a.
  - destruct (finish _ _ _ _ _ _ None _) as [s w'], H2 as (a & [= ->] & H2). by exists a.
Qed.

Lemma begin_alone acct ol w :
  Good ol ->
  alone Good (length (requests (load ol w))) (explore S keys q (begin S keys q acct ol w).1)
    (done_with (fun a w' => decides acct ol a w w')) (begin S keys q acct ol w).2.
Proof.
  intros Ho.
  assert (alone Good (length (requests (load ol w))) (explore S keys q (finish S keys q acct ol (load ol w) None w).1)
    (done_with (fun a w' => decides acct ol a w w')) (finish S keys q acct ol (load ol w) None w).2) as Hfin.
  { destruct (finish_spec acct ol (load ol w) None w) as (a & -> & Hd). cbn. exists a. split; [done|]. by exists ol, None. }
  unfold begin. destruct acct as [email|]; [|done].
  pose proof (mine_here_length email (load ol w)) as Hl. pose proof (look_alone email ol w (mine_here q email (load ol w))) as Hlook.
  destruct (mine_here q email (load ol w)) as [|x rest] eqn:Hm; [done|]. cbn [fst snd explore].
  eapply alone_mono; [exact Hl|intros r w' H1; exact H1|]. apply Hlook; [|done]. by apply Forall_forall.
Qed.

(** An answer that neither gives an address nor says one exists. *)
Definition refused (a : answer) : Prop := match a with DepositAddress _ | Private => False | _ => True end.

Lemma gates_refused o w a : gates S keys q o w = Some a -> refused a.
Proof.
  unfold gates, blockedFor. cbv zeta. destruct (a_blocks o); cbn; intros H; repeat (case_match; simplify_eq); done.
Qed.

(** Past the guards, an answer is decided on the state loaded at [ol]. *)
Definition past_the_guards (a : answer) (w w' : world) : Prop :=
  exists o0 o1 ol, (Good o0 /\ Good o1 /\ Good ol) /\ intakeClosed o0 = false /\ admissible o1 w
    /\ (HCAPTCHA_ON S = true -> email_of keys q o1 = None -> a_captcha ol = CaptchaOk)
    /\ decides (email_of keys q o1) ol a w w'.
Definition answered (a : answer) (w w' : world) : Prop :=
  exists w0, w' = say (f_ip q) a w0 /\ ((w0 = w /\ refused a) \/ past_the_guards a w w0).

Definition told (r : result () ()) (w w' : world) : Prop := r = Ok () /\ exists a, answered a w w'.

Lemma tell_refused a w : refused a -> alone Good 1 (tell (f_ip q) a) (fun r => told r w) w.
Proof. intros Ha o Ho. cbn. split; [done|]. exists a, w. auto. Qed.

Lemma tell_decided o0 o1 ol w s :
  Good o0 -> Good o1 -> Good ol -> intakeClosed o0 = false -> admissible o1 w ->
  (HCAPTCHA_ON S = true -> email_of keys q o1 = None -> a_captcha ol = CaptchaOk) ->
  alone Good (length (requests (load ol w))) (explore S keys q s.1) (done_with (fun a w' => decides (email_of keys q o1) ol a w w')) s.2 ->
  alone Good (length (requests (load ol w)) + 1) (s ← explore S keys q s.1; tell (f_ip q) (or_broke s)) (fun r => told r w) s.2.
Proof.
  intros H0 H1 Hl Hd Had Hc Hs. apply alone_seq. eapply alone_mono; [done| |exact Hs].
  intros r w' (a & -> & Ha). intros o Ho. cbn. split; [done|]. exists a, w'. split; [done|]. right. by exists o0, o1, ol.
Qed.

Lemma load_length ol w : (length (requests (load ol w)) <= length (requests (state_of w)))%nat.
Proof. unfold load, state_of. destruct (w_state w); cbn; [lia..|]. destruct (a_readable ol); cbn; lia. Qed.

Theorem request_alone w : alone Good (4 + length (requests (state_of w))) (request S keys q) (fun r => told r w) w.
Proof.
  pose proof (fun ol => load_length ol w) as Hlen. set (n := length (requests (state_of w))) in *.
  assert (forall a k, refused a -> alone Good (Datatypes.S k) (s ← explore S keys q (Done a); tell (f_ip q) (or_broke s)) (fun r => told r w) w) as Href.
  { intros a k Ha. apply (alone_mono _ 1 _ _ (fun r => told r w)); [lia|done|by apply tell_refused]. }
  unfold request. apply (alone_await _ (3 + n)). intros o0 Ho0. cbn [fst snd door].
  destruct (intakeClosed o0) eqn:Hshut; [by apply Href|].
  apply (alone_await _ (2 + n)). intros o1 Ho1. unfold arrive.
  destruct (gates S keys q o1 w) as [a|] eqn:Hg; [apply Href; by eapply gates_refused|]. apply gates_admit in Hg.
  destruct (HCAPTCHA_ON S && negb (bool_decide (is_Some (email_of keys q o1)))) eqn:Hc.
  - apply andb_true_iff in Hc as [Hon Hno]. apply negb_true_iff, bool_decide_eq_false in Hno. apply eq_None_not_Some in Hno.
    apply (alone_await _ (1 + n)). intros ol Hol. unfold solved. destruct (a_captcha ol) eqn:Hcap; try (by apply Href).
    destruct (begin S keys q None ol w) as [s w'] eqn:Hb. cbn [fst snd]. rewrite ?Hb. cbn [fst snd].
    eapply (alone_mono _ _ _ _ (fun r => told r w)); [| |apply (tell_decided o0 o1 ol w (s, w')); try done].
    + specialize (Hlen ol). lia.
    + done.
    + rewrite Hno, <- Hb. by apply begin_alone.
  - destruct (begin S keys q (email_of keys q o1) o1 w) as [s w'] eqn:Hb. cbn [fst snd]. rewrite ?Hb. cbn [fst snd].
    assert (forall s', s' = s -> alone Good (2 + n) (s0 ← explore S keys q s'; tell (f_ip q) (or_broke s0)) (fun r => told r w) w') as Hrest.
    { intros s' ->. eapply (alone_mono _ _ _ _ (fun r => told r w)); [| |apply (tell_decided o0 o1 o1 w (s, w')); try done].
      - specialize (Hlen o1). lia.
      - done.
      - intros Hon Hno. rewrite Hon, Hno in Hc. done.
      - rewrite <- Hb. by apply begin_alone. }
    assert (s <> AskCaptcha) as Hs.
    { revert Hb. unfold begin. destruct (email_of keys q o1) as [email|]; [destruct (mine_here _ _ _) as [|x l]; [|by intros [= <- _]]|];
        intros Hb; [destruct (finish_spec (Some email) o1 (load o1 w) None w) as (a & Ha & _)|destruct (finish_spec None o1 (load o1 w) None w) as (a & Ha & _)];
        rewrite Hb in Ha; cbn in Ha; by subst s. }
    destruct s; try done; by apply Hrest.
Qed.
End good.
End request.

(** ** Customers one after another *)

Section turns.
Context `{HM : Hmac} (S : settings) (keys : secrets).

Lemma given_books q acct o st key d st' :
  books S st -> given S keys q acct o st key d (Some st') -> books S st' /\ records_kept st st'.
Proof.
  intros Hb Hg. inversion Hg as [i Hn _ Hi _ Hp|r ? Hr _ _ Hst]; subst; [by apply (books_new S st)|].
  destruct (num_eqb _ _); [done|]. injection Hst as ->. by apply books_amount.
Qed.

Definition state_kept (w w' : world) : Prop := w_state w' = w_state w.
#[export] Instance state_kept_refl : Reflexive state_kept.
Proof. done. Qed.
#[export] Instance state_kept_trans : Transitive state_kept.
Proof. unfold state_kept. by intros w1 w2 w3 <- <-. Qed.

Lemma return_keeps_state b ip : does state_kept (return_claim S b ip).
Proof.
  unfold return_claim, doing, tell. apply does_bind; [|intros [a|r]].
  - apply does_await. intros o w. unfold return_arrive, state_kept. cbv zeta. destruct (hit _ _ _ _) as [[] h]; [done|].
    destruct b as [r|]; [|done]. by destruct (_ && _).
  - by apply does_await.
  - apply does_bind.
    + apply does_await. intros o w. unfold return_recover, state_kept. by destruct (a_recovered o).
    + intros v. destruct (signature_refused r v); [by apply does_await|]. apply does_bind; [|intros a; by apply does_await].
      apply does_await. intros o w. unfold return_record, state_kept. cbv zeta. destruct (bscRpc _) as [[rc|]|]; [|done..].
      destruct (negb _); [done|]. destruct (filter _ _) as [|l ls]; [done|].
      destruct (record_claims _ _ _ _ _ _ _) as [a|[ks m]]; [done|]. by destruct (a_writable o).
Qed.

Section good.
Context (Good : oracle -> Prop) (Hgood : forall o, Good o -> a_readable o = true).

Lemma load_readable o w : Good o -> load o w = state_of w.
Proof using Hgood. intros Ho. unfold load, state_of. by rewrite (Hgood o Ho). Qed.

Lemma answered_sound q a w w' :
  answered S keys q Good a w w' -> sound S w -> sound S w' /\ records_kept (state_of w) (state_of w').
Proof using Hgood.
  intros (w0 & -> & H) Hw. change (sound S (say (f_ip q) a w0)) with (sound S w0).
  change (state_of (say (f_ip q) a w0)) with (state_of w0).
  destruct H as [[-> _]|(o0 & o1 & ol & (_ & _ & Hol) & _ & _ & _ & o & reuse & _ & _ & _ & Hd & _)]; [done|].
  rewrite (load_readable ol w Hol) in Hd. revert Hd. generalize (key_for q (email_of keys q o1) (state_of w) reuse). intros key Hd.
  assert (forall w1 w2, w_state w2 = w_state w1 -> sound S w1 -> sound S w2 /\ records_kept (state_of w1) (state_of w2)) as Hsame.
  { intros w1 w2 He Hs. unfold sound, state_of in *. by rewrite He. }
  destruct a; try (by apply Hsame). destruct Hd as (_ & [st'|] & Hg & Hs); unfold saved in Hs; [|by apply Hsame].
  destruct (given_books _ _ _ _ _ _ _ (proj2 Hw) Hg) as [Hb Hk]. unfold sound, state_of in *. by rewrite Hs.
Qed.

Lemma served_sound r os w x w' :
  run_alone (serve S keys () r) os w = Some (x, w') -> Forall Good os -> sound S w ->
  sound S w' /\ records_kept (state_of w) (state_of w').
Proof using Hgood.
  intros Hrun Hos Hw. destruct r as [q|b ip].
  - destruct (alone_run Good _ _ (fun r => told S keys q Good r w) _ _ _ _ Hos Hrun (request_alone S keys q Good w)) as (_ & a & Ha). by eapply answered_sound.
  - apply (does_run_alone state_kept) in Hrun; [|apply return_keeps_state]. unfold state_kept in Hrun.
    unfold sound, state_of in *. by rewrite Hrun.
Qed.

Lemma in_turn_sound rs w w' :
  in_turn S keys rs w = Some w' -> Forall (fun r => Forall Good r.2) rs -> sound S w ->
  sound S w' /\ records_kept (state_of w) (state_of w').
Proof using Hgood.
  revert w. induction rs as [|[r os] rs IH]; intros w; cbn; [by intros [= ->]|].
  destruct (run_alone _ os w) as [[x w1]|] eqn:Hr; [|done]. intros Hrun [Hos Hrs]%Forall_cons Hw.
  destruct (served_sound _ _ _ _ _ Hr Hos Hw) as [H1 K1]. destruct (IH _ Hrun Hrs H1) as [H2 K2]. split; [done|by etrans].
Qed.
End good.

(** Distinct addresses in the pool belong to distinct records. *)
Lemma address_index i j a :
  NoDup ((fun x => x.2) <$> pool S) -> pool_address S i = Some a -> pool_address S j = Some a -> i = j.
Proof.
  unfold pool_address. intros Hd. destruct (list_find _ (pool S)) as [[n x]|] eqn:H1; [|done]. intros [= <-].
  destruct (list_find (fun x => x.1 = j) (pool S)) as [[m y]|] eqn:H2; [|done]. intros [= Hxy].
  apply list_find_Some in H1 as (H1 & <- & _). apply list_find_Some in H2 as (H2 & <- & _).
  enough (n = m) by congruence. eapply NoDup_lookup; [exact Hd|..]; rewrite list_lookup_fmap.
  - by rewrite H1.
  - rewrite H2. cbn. by f_equal.
Qed.
End turns.
