(* ===== verification/DeskClaims.v ===== *)
(** * What a claim of returned wPCN rests on

    The invariant of the claims file under every interleaving of customers and
    restarts: each claim rests on a receipt the desk heard, and a verified one on a
    signer the desk heard, who made the transfer. The note of a request under way
    is what it heard of its signature. *)

From Stdlib Require Import SpecFloat Ascii.
From S2P Require Import Prelude JsInt JsNum JsText Bytes Bsc Tasks Desk DeskBooks.
Local Open Scope Z_scope.

Section claims.
Context (S : settings).

(** A heard receipt of the transaction [tx] shows that [from] sent [wpcn] to the
    desk at the log index [i]. *)
Definition sent_to_us (heard : list fact) (tx from : string) (i : option Z) (wpcn : js_num) : Prop :=
  exists rc l, HReceipt tx rc ∈ heard /\ r_status rc = JStr "0x1" /\ l ∈ r_logs rc /\ moved_to_us S from l = true
    /\ parseInt16 (l_logIndex l) = i /\ wpcn_of l = Some wpcn.

Record vouched (heard : list fact) (k : claim_key) (c : claim) : Prop := {
  vo_key : k = (t_txhash c, t_logIndex c);
  vo_sent : sent_to_us heard (t_txhash c) (t_from c) (t_logIndex c) (t_wpcn c);
  vo_address : isPcn (t_pcoin c) = true;
  vo_message : t_message c = returnMessage S (t_txhash c) (t_pcoin c);
  vo_signed : t_verified c = true -> exists signer wpcn,
    HSigner (t_message c) (t_signature c) signer ∈ heard /\ sent_to_us heard (t_txhash c) signer (t_logIndex c) wpcn }.

Lemma sent_mono heard heard' tx from i wpcn : heard ⊆ heard' -> sent_to_us heard tx from i wpcn -> sent_to_us heard' tx from i wpcn.
Proof. intros Hs (rc & l & Hr & H). exists rc, l. split; [by apply Hs|done]. Qed.
Lemma claim_vouched_mono heard heard' k c : heard ⊆ heard' -> vouched heard k c -> vouched heard' k c.
Proof.
  intros Hs [Hk Ht Ha Hm Hv]. split; try done; [by eapply sent_mono|].
  intros Hver. destruct (Hv Hver) as (s & x & H1 & H2). exists s, x. split; [by apply Hs|by eapply sent_mono].
Qed.

Definition all_vouched (heard : list fact) (m : gmap claim_key claim) : Prop := map_Forall (vouched heard) m.

(** What is known of a signature that was not refused. *)
Definition signature_known (heard : list fact) (r : returned) (v : recovered) : Prop :=
  match v with
  | Recovered s => s = b_from r /\ HSigner (returnMessage S (b_txhash r) (b_pcoin r)) (b_signature r) s ∈ heard
  | _ => True
  end.

Section record.
Context (heard : list fact) (r : returned) (v : recovered) (rc : receipt) (now : Z).
Context (Hrc : HReceipt (b_txhash r) rc ∈ heard) (Hok : r_status rc = JStr "0x1").
Context (Hsig : signature_known heard r v) (Hpcn : isPcn (b_pcoin r) = true).

Lemma verified_signer l wpcn :
  l ∈ r_logs rc -> moved_to_us S (b_from r) l = true -> wpcn_of l = Some wpcn -> is_recovered v = true ->
  exists signer wpcn, HSigner (returnMessage S (b_txhash r) (b_pcoin r)) (b_signature r) signer ∈ heard
    /\ sent_to_us heard (b_txhash r) signer (parseInt16 (l_logIndex l)) wpcn.
Proof using All.
  intros Hl Hm Hw Hv. destruct v as [s| |]; [|done..]. destruct Hsig as [-> Hs]. exists (b_from r), wpcn. split; [done|].
  by exists rc, l.
Qed.

Lemma record_claims_vouched ls m ks m' :
  Forall (fun l => l ∈ r_logs rc /\ moved_to_us S (b_from r) l = true) ls ->
  record_claims S r v rc now ls m = inr (ks, m') -> all_vouched heard m -> all_vouched heard m'.
Proof using All.
  intros Hls. revert m ks. induction Hls as [|l ls [Hl Hm] _ IH]; intros m ks; cbn; [by intros [= _ ->]|]. cbv zeta.
  destruct (wpcn_of l) as [wpcn|] eqn:Hw; [|done].
  destruct (m !! (b_txhash r, parseInt16 (l_logIndex l))) as [prev|] eqn:Hp; intros H Hall.
  - pose proof (Hall _ _ Hp) as [Hk Ht Ha Hmsg Hv]. injection Hk as Hk1 Hk2.
    case_bool_decide; [destruct (record_claims S r v rc now ls m) as [|[ks1 m1]] eqn:Hrest; [done|]|].
    { injection H as _ <-. by eapply IH. }
    destruct (t_paid prev); [done|]. destruct (record_claims _ _ _ _ _ _ (<[_ := _]> m)) as [|[ks1 m1]] eqn:Hrest; [done|].
    injection H as _ <-. eapply IH; [exact Hrest|]. apply map_Forall_insert_2; [|done].
    split; cbn; try done; rewrite <- ?Hk1, <- ?Hk2; try done. by apply verified_signer with wpcn.
  - destruct (record_claims _ _ _ _ _ _ _) as [|[ks1 m1]] eqn:Hrest; [done|]. injection H as _ <-.
    eapply IH; [exact Hrest|]. apply map_Forall_insert_2; [|done].
    split; cbn; try done; [by exists rc, l|by apply verified_signer with wpcn].
Qed.
End record.
End claims.

(** ** Every interleaving *)

Section runs.
Context `{HM : Hmac} (S : settings) (keys : secrets).

Definition recorded_claims (w : world) : gmap claim_key claim := match w_claims w with Holds m => m | _ => ∅ end.
Definition claims_vouched (w : world) : Prop := all_vouched S (w_heard w) (recorded_claims w).

Record claims_inv (w : world) (gs : gmap nat (() * list fact)) : Prop := {
  ci_claims : claims_vouched w;
  ci_notes tid p g : gs !! tid = Some (p, g) -> g ⊆ w_heard w }.
Abbreviation safely := (safe (E := ()) (O := oracle) (W := world) (P := ()) claims_inv).

(** A step that hears facts, keeps or replaces the note by what has been heard and
    leaves claims that are vouched for. *)
Lemma claims_step w w' gs tid p g g' :
  claims_inv w (<[tid := (p, g)]> gs) -> w_heard w ⊆ w_heard w' -> g' ⊆ w_heard w' -> claims_vouched w' ->
  claims_inv w' (<[tid := (p, g')]> gs).
Proof.
  intros [_ Hn] Hh Hg Hc. split; [done|]. intros t p1 g1.
  destruct (decide (t = tid)) as [->|Hne]; [rewrite lookup_insert_eq; by intros [= <- <-]|].
  rewrite lookup_insert_ne by done. intros H. etrans; [eapply (Hn t p1 g1); by rewrite lookup_insert_ne|done].
Qed.
Lemma claims_same w w' gs tid p g g' :
  claims_inv w (<[tid := (p, g)]> gs) -> w_heard w' = w_heard w -> w_claims w' = w_claims w -> g' ⊆ w_heard w ->
  claims_inv w' (<[tid := (p, g')]> gs).
Proof.
  intros Hi Hh Hc Hg. eapply claims_step; [exact Hi|by rewrite Hh|by rewrite Hh|].
  unfold claims_vouched, recorded_claims. rewrite Hh, Hc. apply Hi.
Qed.
Lemma note_heard w gs tid p g : claims_inv w (<[tid := (p, g)]> gs) -> g ⊆ w_heard w.
Proof. intros Hi. eapply (ci_notes _ _ Hi tid p). apply lookup_insert_eq. Qed.

Section task.
Context (tid : nat) (p : ()).

Lemma tell_safe ip a g : safely tid p (tell ip a) (fun _ g' => g' = []) g.
Proof. intros o w gs Hi. exists []. split; [|done]. by eapply claims_same; [exact Hi|..|apply list_subseteq_nil]. Qed.

Lemma doing_safe {A} (f : oracle -> world -> A * world) (Q : result () A -> list fact -> Prop) g :
  (forall o w gs, claims_inv w (<[tid := (p, g)]> gs) ->
     exists g', claims_inv (f o w).2 (<[tid := (p, g')]> gs) /\ Q (Ok (f o w).1) g') ->
  safely tid p (doing f) Q g.
Proof. intros H o w gs Hi. destruct (H o w gs Hi) as (g' & H1 & H2). destruct (f o w) as [a w']. by exists g'. Qed.

(** A request to wrap does not touch the claims. *)
Definition unclaimed (w w' : world) : Prop := w_claims w' = w_claims w /\ w_heard w' = w_heard w.
Lemma step_unclaimed f : (forall o w, unclaimed w (f o w).2) -> does unclaimed (step f).
Proof. intros Hf. apply does_await. intros o w. specialize (Hf o w). by destruct (f o w). Qed.
Lemma finish_unclaimed q acct o st reuse w : unclaimed w (finish S keys q acct o st reuse w).2.
Proof. destruct (finish_spec S keys q acct o st reuse w) as (a & _ & (H1 & H2 & _) & _). done. Qed.
Lemma begin_unclaimed q acct o w : unclaimed w (begin S keys q acct o w).2.
Proof. unfold begin. destruct acct as [email|]; [destruct (mine_here _ _ _)|]; try apply finish_unclaimed. done. Qed.
Lemma look_unclaimed q email st rest : does unclaimed (look S keys q email st rest).
Proof.
  induction rest as [|[k x] rest IH]; cbn [look]; [done|]. apply does_bind.
  - apply step_unclaimed. intros o w. unfold seen_deposits.
    destruct (a_deposits o) as [[|n]|]; [|destruct rest..]; try apply finish_unclaimed; done.
  - by intros [].
Qed.
Lemma request_unclaimed q : does unclaimed (request S keys q).
Proof.
  unfold request. apply does_bind; [by apply step_unclaimed|]. intros s. apply does_bind.
  - destruct s; try done. apply step_unclaimed. intros o w. unfold arrive. destruct (gates _ _ _ _ _); [done|].
    destruct (_ && _); [done|]. apply begin_unclaimed.
  - intros s'. apply does_bind.
    + destruct s'; try done. apply step_unclaimed. intros o w. unfold solved. destruct (a_captcha o); try done. apply begin_unclaimed.
    + intros s2. apply does_bind; [destruct s2; try done; apply look_unclaimed|]. intros s3. by apply does_await.
Qed.

(** The signature's verdict is noted. *)
Lemma recover_safe r (Q : result () recovered -> list fact -> Prop) :
  (forall v g, (forall s, v = Recovered s -> HSigner (returnMessage S (b_txhash r) (b_pcoin r)) (b_signature r) s ∈ g) -> Q (Ok v) g) ->
  safely tid p (doing (return_recover S r)) Q [].
Proof.
  intros HQ. apply doing_safe. intros o w gs Hi. unfold return_recover. destruct (a_recovered o) as [s| |] eqn:Hr; cbn.
  - exists [HSigner (returnMessage S (b_txhash r) (b_pcoin r)) (b_signature r) s]. split.
    + eapply claims_step; [exact Hi|cbn; set_solver|cbn; set_solver|].
      eapply map_Forall_impl; [apply Hi|]. intros k c. apply claim_vouched_mono. cbn. set_solver.
    + apply HQ. intros s' [= <-]. set_solver.
  - exists []. split; [done|]. by apply HQ.
  - exists []. split; [done|]. by apply HQ.
Qed.

Lemma record_safe r v g (Q : result () answer -> list fact -> Prop) :
  isPcn (b_pcoin r) = true -> signature_refused r v = false ->
  (forall s, v = Recovered s -> HSigner (returnMessage S (b_txhash r) (b_pcoin r)) (b_signature r) s ∈ g) ->
  (forall a, Q (Ok a) g) -> safely tid p (doing (return_record S r v)) Q g.
Proof.
  intros Hp Hs Hv HQ. apply doing_safe. intros o w gs Hi. exists g. split; [|apply HQ]. unfold return_record.
  destruct (bscRpc (a_receipt o)) as [[rc|]|]; [|done..].
  set (w1 := hear (HReceipt (b_txhash r) rc) w).
  assert (claims_inv w1 (<[tid := (p, g)]> gs)) as Hi1.
  { eapply claims_step; [exact Hi|cbn; set_solver|etrans; [by eapply note_heard|cbn; set_solver]|].
    eapply map_Forall_impl; [apply Hi|]. intros k c. apply claim_vouched_mono. cbn. set_solver. }
  cbv zeta. destruct (match r_status rc with JStr s => bool_decide (s = "0x1"%string) | _ => false end) eqn:Hst; [|done].
  destruct (filter _ _) as [|l ls] eqn:Hf; [done|]. cbn [negb].
  destruct (record_claims _ _ _ _ _ _ _) as [a|[ks m]] eqn:Hrec; [done|]. destruct (a_writable o); [|done].
  eapply claims_step; [exact Hi1|done|exact (note_heard _ _ _ _ _ Hi1)|].
  apply (record_claims_vouched S (w_heard w1) r v rc (a_now o)) in Hrec; try done.
  - cbn. set_solver.
  - destruct (r_status rc); try done. by apply bool_decide_eq_true in Hst as ->.
  - destruct v as [s| |]; cbn; [|done..]. cbn in Hs. apply negb_false_iff, String.eqb_eq in Hs as ->. split; [done|].
    apply (note_heard _ _ _ _ _ Hi1). by apply Hv.
  - apply Forall_forall. intros x Hx. rewrite <- Hf in Hx. by apply list_elem_of_filter in Hx as [H1 H2].
  - unfold loadReturns. pose proof (ci_claims _ _ Hi1) as Hc. unfold claims_vouched, recorded_claims in Hc.
    destruct (w_claims w1); try apply map_Forall_empty. destruct (a_readable o); [done|apply map_Forall_empty].
Qed.

Lemma return_safe b ip : safely tid p (return_claim S b ip) (fun _ g => g = []) [].
Proof.
  unfold return_claim. apply safe_seq, doing_safe. intros o w gs Hi. exists [].
  assert (claims_inv (return_arrive b ip o w).2 (<[tid := (p, [])]> gs)
    /\ match (return_arrive b ip o w).1 with inr r => isPcn (b_pcoin r) = true | _ => True end) as [H1 H2].
  { unfold return_arrive. cbv zeta. destruct (hit _ _ _ _) as [[] h]; [|destruct b as [r|]; [destruct (_ && _) eqn:Hc|]]; (split;
      [by eapply claims_same; [exact Hi|..|apply list_subseteq_nil]|]); try done.
    cbn -[isPcn isTxHash isBscLower is_signature] in *. by repeat (apply andb_true_iff in Hc as [Hc ?]). }
  destruct (return_arrive b ip o w) as [[a|r] w1]; cbn [fst snd] in *; (split; [done|]); [apply tell_safe|].
  apply safe_seq, recover_safe. intros v g Hv. destruct (signature_refused r v) eqn:Hs; [apply tell_safe|].
  apply safe_seq, record_safe; try done. intros a. apply tell_safe.
Qed.
End task.

Lemma claims_protocol : protocol (serve S keys) restarted no_other claims_inv [].
Proof.
  split.
  - intros p [q|b ip] tid; [|apply return_safe]. eapply (does_safe _ unclaimed); [|apply request_unclaimed].
    intros w w' gs [Hc Hn] [H1 H2]. split; [unfold claims_vouched, recorded_claims in *; by rewrite H1, H2|]. by rewrite H2.
  - intros w gs tid p Hn [Hc Hg]. split; [done|]. intros t p1 g1.
    destruct (decide (t = tid)) as [->|Hne]; [rewrite lookup_insert_eq; intros [= <- <-]; apply list_subseteq_nil|].
    rewrite lookup_insert_ne by done. apply Hg.
  - intros w gs tid p Hn [Hc Hg]. split; [done|]. intros t p1 g1 H. eapply (Hg t p1). rewrite lookup_insert_ne; [done|]. congruence.
  - intros w gs p [Hc Hg]. split; [done|]. intros t p1 g1 H. apply map_lookup_filter_Some in H as [H _]. by eapply Hg.
  - intros w gs [].
Qed.

Lemma desk_claims w es : claims_vouched w -> claims_vouched (desk_after S keys w es).
Proof.
  intros Hw. destruct (run_machine_inv (serve S keys) restarted no_other claims_inv [] w es claims_protocol) as (gs & Hi & _).
  - by split.
  - apply Hi.
Qed.
End runs.
