(* ===== verification/DeskTheorems.v ===== *)
(** * The wrap desk's theorems

    Signed tokens, who is given a deposit address, the books under customers served
    one after another and what breaks them, the claims of returned wPCN. *)

From Stdlib Require Import SpecFloat Ascii.
From stdpp Require Import pretty.
From S2P Require Import Prelude JsInt JsNum JsText Bytes Bsc Tasks Desk DeskBooks DeskClaims.
Local Open Scope Z_scope.

(** ** Texts cut at a character *)

Definition without (c : ascii) (s : string) : bool := string_all (fun a => negb (Ascii.eqb a c)) s.

Lemma without_cons c a s : without c (String a s) = true <-> a <> c /\ without c s = true.
Proof. unfold without. cbn. rewrite andb_true_iff, negb_true_iff, Ascii.eqb_neq. done. Qed.
Lemma without_app c s t : without c (s ++ t) = without c s && without c t.
Proof. unfold without. induction s as [|a s IH]; [done|]. rewrite string_cons_app. cbn. by rewrite IH, andb_assoc. Qed.

Lemma split_last_none c t : without c t = true -> split_last c t = None.
Proof. induction t as [|a t IH]; [done|]. intros [Ha Ht]%without_cons. cbn. by rewrite IH, (proj2 (Ascii.eqb_neq a c)). Qed.
Lemma split_last_app c p t : without c t = true -> split_last c (p ++ String c t) = Some (p, t).
Proof.
  intros Ht. induction p as [|a p IH]; [rewrite string_nil_app|rewrite string_cons_app]; cbn.
  - by rewrite split_last_none, Ascii.eqb_refl.
  - by rewrite IH.
Qed.
Lemma split_last_some c s p t : split_last c s = Some (p, t) -> s = (p ++ String c t)%string.
Proof.
  revert p t. induction s as [|a s IH]; intros p t; cbn; [done|]. destruct (split_last c s) as [[p' t']|].
  - intros [= <- <-]. rewrite string_cons_app. f_equal. by apply IH.
  - destruct (Ascii.eqb_spec a c) as [->|]; [by intros [= <- <-]|done].
Qed.

Lemma split_on_nonempty c s : split_on c s <> [].
Proof. induction s as [|a s IH]; cbn; [done|]. destruct (split_on c s); [done|]. by destruct (Ascii.eqb a c). Qed.
Lemma split_on_without c s : without c s = true -> split_on c s = [s].
Proof. induction s as [|a s IH]; [done|]. intros [Ha Hs]%without_cons. cbn. by rewrite IH, (proj2 (Ascii.eqb_neq a c)). Qed.
Lemma split_on_app c s t : without c s = true -> split_on c (s ++ String c t) = s :: split_on c t.
Proof.
  induction s as [|a s IH]; [rewrite string_nil_app|rewrite string_cons_app]; cbn.
  - intros _. rewrite Ascii.eqb_refl. destruct (split_on c t) eqn:H; [by apply split_on_nonempty in H|done].
  - intros [Ha Hs]%without_cons. by rewrite IH, (proj2 (Ascii.eqb_neq a c)).
Qed.
(** A text that has the character gives two parts at least. *)
Lemma split_on_length c s t : without c s = false -> (length (split_on c t) < length (split_on c (s ++ String c t)))%nat
  /\ (2 + length (split_on c t) <= length (split_on c (s ++ String c t)))%nat.
Proof.
  induction s as [|a s IH]; [done|]. rewrite string_cons_app. intros Ha. cbn.
  assert ((1 + length (split_on c t) <= length (split_on c (s ++ String c t)))%nat) as Hone.
  { clear. induction s as [|b s IH]; [rewrite string_nil_app|rewrite string_cons_app]; cbn.
    - rewrite Ascii.eqb_refl. destruct (split_on c t) eqn:H; [by apply split_on_nonempty in H|done].
    - destruct (split_on c (s ++ String c t)) eqn:H; [by apply split_on_nonempty in H|]. destruct (Ascii.eqb b c); cbn in *; lia. }
  destruct (split_on c (s ++ String c t)) as [|x l] eqn:H; [by apply split_on_nonempty in H|].
  destruct (Ascii.eqb_spec a c) as [->|Hne]; cbn [length] in *; [lia|].
  enough (without c s = false) as Hs by (specialize (IH Hs); lia).
  destruct (without c s) eqn:Hs; [|done]. rewrite (proj2 (without_cons c a s)) in Ha; done.
Qed.

(** The digits of a number have no bar. *)
Lemma pretty_no_bar (z : Z) : without "|" (pretty z) = true.
Proof.
  assert (forall x s, without "|" s = true -> without "|" (pretty_N_go x s) = true) as Hgo.
  { intros x. induction (N.lt_wf_0 x) as [x _ IH]; intros s Hs. assert (x = 0 \/ 0 < x)%N as [->|Hx] by lia; [done|].
    rewrite pretty_N_go_step by done. apply IH; [by apply N.div_lt|]. apply without_cons. split; [|done].
    unfold pretty_N_char. by repeat case_match. }
  unfold pretty, pretty_Z. destruct z as [|x|x]; [done| |]; unfold pretty, pretty_positive, pretty, pretty_N; (case_decide; [done|]).
  - by apply Hgo.
  - change ("-" +:+ pretty_N_go (N.pos x) "")%string with (String "-" (pretty_N_go (N.pos x) "")). apply without_cons. split; [done|by apply Hgo].
Qed.

Section tokens.
Context `{HM : Hmac}.

Lemma parse_signed payload key now :
  key <> ""%string -> parseSigned (signed payload key) key now = read_payload payload now.
Proof.
  intros Hk. unfold parseSigned, signed. rewrite (proj2 (String.eqb_neq key "")) by done.
  rewrite (proj2 (String.eqb_neq _ "")) by (destruct payload; [rewrite string_nil_app|rewrite string_cons_app]; done).
  change ("." ++ hmac key payload)%string with (String "." (hmac key payload)).
  rewrite split_last_app by apply hmac_no_dot. by rewrite String.eqb_refl.
Qed.

(** C39: a session cookie the desk signed for an e-mail gives back that e-mail and
    whether it is confirmed until the cookie expires. An e-mail with a bar in it,
    which could shift a field, gives no session, and neither does an empty one. *)
Theorem session_token_roundtrip key email ev now now' :
  key <> ""%string ->
  parseSigned (signSession key email ev now) key now'
  = if without "|" email && negb (String.eqb email "") && negb (expired (pretty (now + 7 * 86400000)) now')
    then Some {| s_email := email; s_ev := ev |} else None.
Proof.
  intros Hk. unfold signSession. rewrite parse_signed by done. set (exp := pretty (now + 7 * 86400000)).
  set (flag := (if ev then "1" else "0")%string).
  change (("v2|" ++ email ++ "|" ++ flag ++ "|" ++ exp)%string) with (("v2" ++ String "|" (email ++ String "|" (flag ++ String "|" exp)))%string).
  unfold read_payload. replace (String.prefix "v2|" _) with true by (cbn; by destruct email). rewrite split_on_app by done.
  assert (split_on "|" (flag ++ String "|" exp) = [flag; exp]) as Htail.
  { rewrite split_on_app by (by destruct ev). by rewrite split_on_without by apply pretty_no_bar. }
  destruct (without "|" email) eqn:Hbar; cbn [andb].
  - rewrite split_on_app, Htail by done. replace (negb (String.eqb flag "0" || String.eqb flag "1")) with false by (by destruct ev).
    destruct (String.eqb email ""); [done|]. cbn [negb andb orb]. destruct (expired exp now'); [done|]. by destruct ev.
  - pose proof (proj2 (split_on_length "|" email (flag ++ String "|" exp) Hbar)) as Hl. rewrite Htail in Hl. cbn [length] in Hl.
    destruct (split_on "|" (email ++ _)) as [|x1 [|x2 [|x3 [|x4 l]]]]; cbn in Hl; done || lia.
Qed.

(** A claim token gives back its key, whatever the key. *)
Lemma claim_token_roundtrip ck key now now' :
  ck <> ""%string ->
  verifySigned (signClaim ck key now) ck now'
  = if expired (pretty (now + 180 * 86400000)) now' then None else Some ("claim:" ++ key)%string.
Proof.
  intros Hk. unfold verifySigned, signClaim. rewrite parse_signed by done. set (exp := pretty (now + 180 * 86400000)).
  change (("claim:" ++ key ++ "|" ++ exp)%string) with (("claim:" ++ key ++ String "|" exp)%string). rewrite <- string_app_assoc.
  unfold read_payload. rewrite split_last_app by apply pretty_no_bar. cbn -[expired]. by destruct (expired exp now').
Qed.

(** What a token says was signed under the key. *)
Lemma parsed_is_signed tok key now s :
  parseSigned tok key now = Some s -> exists payload, tok = signed payload key /\ read_payload payload now = Some s.
Proof.
  unfold parseSigned. destruct (_ || _); [done|]. destruct (split_last "." tok) as [[payload got]|] eqn:Hs; [|done].
  destruct (String.eqb_spec got (hmac key payload)) as [->|]; [|done]. intros Hr. exists payload. split; [|done].
  by apply split_last_some in Hs as ->.
Qed.
End tokens.

(** ** A desk to run *)

Module Example.
(** A toy keyed digest: the dots of key and payload are written as commas. *)
Fixpoint undotted (s : string) : string :=
  match s with EmptyString => "" | String c s' => String (if Ascii.eqb c "." then "," else c)%char (undotted s') end.
Lemma undotted_no_dot s : without "." (undotted s) = true.
Proof. induction s as [|c s IH]; [done|]. apply without_cons. split; [|done]. by destruct (Ascii.eqb_spec c "."). Qed.
#[export] Instance toy_hmac : Hmac := {| hmac := fun key payload => undotted (key ++ "/" ++ payload); hmac_no_dot := fun key payload => undotted_no_dot _ |}.

Definition inventory : string := "0x37cefF465A3a2f72979062aD781DDa7293477b8a".
Definition S : settings := {|
  FEE_PCT := num_of_Z 5; PER_PERSON := num_of_Z 250; TOTAL_ALLOC := num_of_Z 1500; ACCOUNT_MONTHLY_PCN := num_of_Z 1000;
  ACCOUNT_DAILY_PCN := num_of_Z 250; IP_DAILY_PCN := num_of_Z 250; REQUIRE_ACCOUNT := true; REQUIRE_VERIFIED := true;
  HCAPTCHA_ON := false; INVENTORY := lower_string inventory; TOKEN := "0x290A5779a419Cb9cB22fa087CDD1CD16dA2D95F1";
  pool := [(0, "pc1reserve"); (1, "pc1first"); (2, "pc1second"); (3, "pc1third")]%string |}.
Definition keys : secrets := {| SSO_SECRET := "sso"; CLAIM_KEY := "claims" |}.

Definition now : Z := 1790000000000.
(** An hour in which every file is there and the explorer saw one deposit. *)
Definition sunny : oracle := {|
  a_flags := [FlagAbsent; FlagAbsent]; a_blocks := NoBlockFile; a_readable := true; a_writable := true;
  a_watch := Some {| wt_seen := []; wt_allocation := None |}; a_captcha := CaptchaOk; a_deposits := Some 1%nat;
  a_recovered := RecoverUnknown; a_receipt := []; a_now := now |}.
Definition unreadable : oracle := {|
  a_flags := [FlagAbsent; FlagAbsent]; a_blocks := NoBlockFile; a_readable := false; a_writable := true;
  a_watch := Some {| wt_seen := []; wt_allocation := None |}; a_captcha := CaptchaOk; a_deposits := Some 1%nat;
  a_recovered := RecoverUnknown; a_receipt := []; a_now := now |}.

Definition wallet (c : string) : string := ("0x" ++ c ++ "00000000000000000000000000000000000000a")%string.
(** A signed-in, confirmed account asks for 100 PCN. *)
Definition asks (email c ip : string) : asked := {|
  f_bsc := wallet c; f_amount := Some "100"%string;
  f_cookies := {[ "wd"%string := signSession (COOKIE_KEY_V2 keys) email true now ]}; f_ip := ip |}.

Definition record_of (email c : string) (i : Z) (address : string) (ip : string) : wrap := {|
  q_bsc := wallet c; q_index := i; q_address := address; q_amount := num_of_Z 100; q_created := now;
  q_account := Some email; q_ip := Some ip |}.
Definition desk (st : file desk_state) : world := {|
  w_state := st; w_claims := Missing; w_hits := ∅; w_rhits := ∅; w_heard := []; w_answers := [] |}.
Definition fresh : world := desk Missing.
(** Alice has the first address, and has sent to it. *)
Definition one_record : desk_state := {| requests := [(wallet "a", record_of "alice" "a" 1 "pc1first" "10.0.0.1")]; nextIndex := 2 |}.
Definition alice_first : world := desk (Holds one_record).

Lemma one_record_books : books S one_record.
Proof.
  split.
  - apply NoDup_singleton.
  - done.
  - intros k x. cbn. destruct (String.eqb _ k); [|done]. by intros [= <-].
  - intros k k' x x'. cbn. destruct (String.eqb_spec (wallet "a") k) as [<-|]; [|done].
    by destruct (String.eqb_spec (wallet "a") k') as [<-|].
Qed.
Lemma alice_first_sound : sound S alice_first.
Proof. split; [done|apply one_record_books]. Qed.
End Example.
#[local] Existing Instance Example.toy_hmac.

Lemma session_token_roundtrip_witness :
  let t := Example.now in
  "k"%string <> ""%string
  /\ parseSigned (signSession "k" "alice@pc.am" true t) "k" (t + 1000) = Some {| s_email := "alice@pc.am"; s_ev := true |}
  /\ parseSigned (signSession "k" "v|1" true t) "k" (t + 1000) = None.
Proof.
  cbv zeta. split; [discriminate|]. rewrite !session_token_roundtrip by discriminate. split; vm_compute; reflexivity.
Defined.

(** ** Requests to wrap *)

(** C18: a request served alone is answered with as many answers of the outside as
    it waits for, and a deposit address is given only past every guard: the desk
    open, a BSC address and an amount above nothing and within one request's cap,
    the account and connection not blocked, the account signed in and confirmed
    where that is required and within its month, the captcha solved where one is
    asked, room in the allocation; then it is a new record at the pool's next
    address within the daily limits, or the owner's own record. Any other answer
    leaves the state as it was, and an account is never told that a record is
    someone else's. *)
Theorem deposit_address_only_past_every_guard `{HM : Hmac} S keys q os w :
  (4 + length (requests (state_of w)) <= length os)%nat ->
  exists w' a, run_alone (request S keys q) os w = Some (Ok (), w') /\ w_answers w' = w_answers w ++ [(f_ip q, a)]
  /\ w_claims w' = w_claims w
  /\ match a with
     | DepositAddress d => exists o0 o1 ol o key st', (o0 ∈ os /\ o1 ∈ os /\ ol ∈ os /\ o ∈ os)
         /\ intakeClosed o0 = false /\ admissible S keys q o1 w
         /\ (HCAPTCHA_ON S = true -> email_of keys q o1 = None -> a_captcha ol = CaptchaOk)
         /\ num_ltb (slack (headroom S o (load ol w) key)) (wpcnFor S (amount_of q)) = false
         /\ given S keys q (email_of keys q o1) o (load ol w) key d st' /\ saved st' w w'
     | _ => w_state w' = w_state w
     end
  /\ (a = Private -> NoDup (requests (state_of w)).*1 -> exists o1, o1 ∈ os /\ email_of keys q o1 = None).
Proof.
  intros Hlen. destruct (alone_returns (fun o => o ∈ os) _ _ _ os w ltac:(by apply Forall_forall) Hlen (request_alone S keys q _ w))
    as (r & w' & Hrun & -> & a & w0 & -> & H).
  exists (say (f_ip q) a w0), a. split; [done|]. destruct H as [[-> Ha]|H].
  { split_and!; try done; [by destruct a|by intros ->]. }
  destruct H as (o0 & o1 & ol & (H0 & H1 & Hl) & Hshut & Had & Hcap & o & reuse & Ho & Hreuse & (Hc & Hh & Ha) & Hd & Hp).
  split; [cbn; by rewrite Ha|]. split; [done|]. split.
  - destruct a; try done. destruct Hd as (Hroom & st' & Hg & Hs). exists o0, o1, ol, o. by eexists _, st'.
  - intros -> Hnd. exists o1. split; [done|]. destruct (email_of keys q o1) as [email|] eqn:He; [exfalso|done].
    destruct (Hp eq_refl) as (x & Hx & Hno). apply Hno. split; [done|]. eapply key_for_account; [|exact Hreuse|exact Hx].
    unfold load. unfold state_of in Hnd. destruct (w_state w); try constructor. by destruct (a_readable ol); [|constructor].
Qed.

Lemma deposit_address_only_past_every_guard_witness :
  exists w', run_alone (request Example.S Example.keys (Example.asks "bob" "b" "10.0.0.2")) (replicate 5 Example.sunny) Example.alice_first = Some (Ok (), w')
  /\ w_answers w' = [("10.0.0.2", DepositAddress "pc1second")]%string.
Proof.
  destruct (deposit_address_only_past_every_guard Example.S Example.keys (Example.asks "bob" "b" "10.0.0.2") (replicate 5 Example.sunny)
    Example.alice_first ltac:(cbn; lia)) as (w' & a & H & _).
  exists w'. split; [exact H|]. vm_compute in H. injection H as <-. reflexivity.
Defined.

(** C19: customers served one after another, whatever they ask and whatever the
    outside answers, as long as the desk's files can be read: every record holds
    an address of the pool, none of them the reserve, no two records hold the same
    one, and no record is lost or changed in anything but the amount asked. *)
Theorem every_deposit_address_is_ones_own `{HM : Hmac} S keys rs w w' :
  in_turn S keys rs w = Some w' -> Forall (fun r => Forall (fun o => a_readable o = true) r.2) rs -> sound S w ->
  sound S w' /\ records_kept (state_of w) (state_of w')
  /\ (NoDup ((fun x => x.2) <$> pool S) -> forall k k' x x',
        find_request k (requests (state_of w')) = Some x -> find_request k' (requests (state_of w')) = Some x' ->
        q_address x = q_address x' -> k = k').
Proof.
  intros Hrun Hr Hw. destruct (in_turn_sound S keys (fun o => a_readable o = true) (fun o H => H) rs w w' Hrun Hr Hw) as [Hw' Hk].
  split; [done|]. split; [done|]. intros Hd k k' x x' Hx Hx' He. destruct Hw' as [_ Hb].
  destruct (bk_each _ _ Hb _ _ Hx) as [_ H1]. destruct (bk_each _ _ Hb _ _ Hx') as [_ H2]. rewrite <- He in H2.
  eapply (bk_once _ _ Hb); [exact Hx|exact Hx'|]. by eapply address_index.
Qed.

Lemma every_deposit_address_is_ones_own_witness :
  exists w', in_turn Example.S Example.keys
    [(Wrap (Example.asks "bob" "b" "10.0.0.2"), replicate 4 Example.sunny); (Wrap (Example.asks "alice" "a" "10.0.0.1"), replicate 4 Example.sunny)]
    Example.alice_first = Some w' /\ nextIndex (state_of w') = 4
  /\ sound Example.S w'.
Proof.
  destruct (in_turn Example.S Example.keys
    [(Wrap (Example.asks "bob" "b" "10.0.0.2"), replicate 4 Example.sunny); (Wrap (Example.asks "alice" "a" "10.0.0.1"), replicate 4 Example.sunny)]
    Example.alice_first) as [w'|] eqn:H; [|vm_compute in H; discriminate].
  exists w'. split; [reflexivity|]. split; [vm_compute in H; injection H as <-; reflexivity|].
  eapply (every_deposit_address_is_ones_own Example.S Example.keys); [exact H| |apply Example.alice_first_sound].
  repeat constructor.
Defined.

(** ** What breaks the books *)

(** What customers and the outside do: [Resume] is what the outside answers to the
    await a request is at. *)
Module StaleCopy.
(** Alice comes back; while the explorer is asked about her first address, Bob
    asks and is answered. *)
Definition es : list (event (O := oracle) (R := desk_request) (X := Empty_set) (P := ())) :=
  [Start 0 () (Wrap (Example.asks "alice" "a" "10.0.0.1")); Resume 0 Example.sunny; Resume 0 Example.sunny;
   Start 1 () (Wrap (Example.asks "bob" "b" "10.0.0.2")); Resume 1 Example.sunny; Resume 1 Example.sunny; Resume 1 Example.sunny;
   Resume 0 Example.sunny; Resume 0 Example.sunny].
End StaleCopy.

(** As the run of the machine it is: Bob and Alice are given the same address, and
    the file knows only Alice's record of it. *)
Example stale_copy_run :
  let w := desk_after Example.S Example.keys Example.alice_first StaleCopy.es in
  w_answers w = [("10.0.0.2", DepositAddress "pc1second"); ("10.0.0.1", DepositAddress "pc1second")]%string
  /\ find_request (Example.wallet "b") (requests (state_of w)) = None
  /\ (q_account <$> find_request (Example.wallet "a" ++ "#2") (requests (state_of w))) = Some (Some "alice"%string).
Proof. vm_compute. auto. Qed.








(** C25: a state file that is there but cannot be read at the moment is taken for an
    empty desk: whoever is given a deposit address is given the pool's first, and
    the file is overwritten with that one record. Every earlier record is gone. *)
Theorem unreadable_state_starts_over `{HM : Hmac} S keys q os w r w' d :
  run_alone (request S keys q) os w = Some (r, w') -> Forall (fun o => a_readable o = false) os ->
  w_answers w' = w_answers w ++ [(f_ip q, DepositAddress d)] ->
  pool_address S FIRST_INDEX = Some d
  /\ exists x, q_address x = d /\ w_state w' = Holds {| requests := [(bsc_key q, x)]; nextIndex := FIRST_INDEX + 1 |}.
Proof.
  intros Hrun Hos Hans.
  destruct (alone_run _ _ _ (fun r => told S keys q (fun o => a_readable o = false) r w) _ _ _ _ Hos Hrun (request_alone S keys q _ w))
    as (_ & a & w0 & -> & H).
  assert (load_fresh : forall o, a_readable o = false -> load o w = fresh_state) by (intros o Ho; unfold load; rewrite Ho; by destruct (w_state w)).
  destruct H as [[-> Ha]|(o0 & o1 & ol & (_ & _ & Hl) & _ & _ & _ & o & reuse & _ & Hreuse & (_ & _ & Ha) & Hd & _)].
  { cbn in Hans. apply (inj (app _)) in Hans. by injection Hans as ->. }
  cbn in Hans. rewrite Ha in Hans. apply (inj (app _)) in Hans. injection Hans as ->.
  rewrite (load_fresh ol Hl) in Hd, Hreuse. destruct Hd as (_ & st' & Hg & Hs).
  assert (key_for q (email_of keys q o1) fresh_state reuse = bsc_key q) as Hkey.
  { destruct (email_of keys q o1); [|done]. destruct reuse as [k|]; [|done]. destruct Hreuse as (x & Hx & _). by apply not_elem_of_nil in Hx. }
  rewrite Hkey in Hg. inversion Hg as [i _ _ Hi _ Hp|]; subst; [|done]. split; [done|].
  exists (new_record q (email_of keys q o1) o FIRST_INDEX d). split; [done|]. exact Hs.
Qed.

Lemma unreadable_state_starts_over_witness :
  exists x w', run_alone (request Example.S Example.keys (Example.asks "bob" "b" "10.0.0.2")) (replicate 3 Example.unreadable) Example.alice_first
    = Some (Ok (), w') /\ q_address x = "pc1first"%string
  /\ w_state w' = Holds {| requests := [(Example.wallet "b", x)]; nextIndex := 2 |}.
Proof.
  destruct (run_alone (request Example.S Example.keys (Example.asks "bob" "b" "10.0.0.2")) (replicate 3 Example.unreadable) Example.alice_first)
    as [[[[]|[]] w']|] eqn:H; [|vm_compute in H; discriminate..].
  destruct (unreadable_state_starts_over Example.S Example.keys (Example.asks "bob" "b" "10.0.0.2") _ _ _ _ "pc1first" H) as [_ (x & Hx & Hs)].
  - repeat constructor.
  - vm_compute in H. injection H as <-. reflexivity.
  - exists x, w'. split; [reflexivity|]. split; [exact Hx|]. rewrite Hs. vm_compute. reflexivity.
Defined.

(** ** Claims of returned wPCN *)

Module Returning.
Definition tx : string := "0x00000000000000000000000000000000000000000000000000000000000000ab".
Definition alice : string := lower_string (Example.wallet "a").
Definition sig (c : string) : string := ("0x" ++ c ++ "00000000000000000000000000000000000000000000000000000000000000000000000000000000000000000000000000000000000000000000000000000001b")%string.
Definition topic_of (a : string) : json := JStr ("0x000000000000000000000000" ++ String.substring 2 40 a).
(** One log: 5 wPCN from Alice to the inventory, at index 7. *)
Definition transfer : log := {|
  l_address := JStr (TOKEN Example.S); l_topics := Some [JStr TRANSFER_TOPIC; topic_of alice; topic_of (INVENTORY Example.S)];
  l_data := JStr "0x1dcd6500"; l_logIndex := JStr "0x7" |}.
Definition receipt : receipt := {| r_status := JStr "0x1"; r_blockNumber := JStr "0x10"; r_blockHash := JStr "0xaa"; r_logs := [transfer] |}.
(** The nodes show the receipt; of the signature the recovery says [v]. *)
Definition hearing (v : recovered) : oracle := {|
  a_flags := []; a_blocks := NoBlockFile; a_readable := true; a_writable := true; a_watch := None; a_captcha := CaptchaOk; a_deposits := None;
  a_recovered := v; a_receipt := [FetchThrew; RpcResult (Some receipt)]; a_now := Example.now |}.
Definition claimed (pcoin signature : string) : returned := {|
  b_txhash := tx; b_pcoin := pcoin; b_from := alice; b_signature := signature |}.
Definition of_alice : string := "pc1qalicealicealicealice".
Definition of_mallory : string := "pc1qmallorymallorymallory".
(** Alice claims, and her signature is recovered. *)
Definition alice_claims : list (event (O := oracle) (R := desk_request) (X := Empty_set) (P := ())) :=
  Start 0 () (Return (Some (claimed of_alice (sig "a"))) "10.0.0.1") :: replicate 4 (Resume 0 (hearing (Recovered alice))).
Definition after_alice : world := desk_after Example.S Example.keys Example.fresh alice_claims.
End Returning.

(** C20: in every run, however requests interleave and whenever the desk restarts:
    a claim in the file rests on a receipt the desk heard of a transaction that
    succeeded, in which its sender moved that much of the token to the inventory at
    that log index; its address is a PCoin address and its message the one that
    names it; and one marked verified on a signature the desk heard recovered, over
    that very message, to a wallet that made the transfer. *)
Theorem return_claims_are_vouched `{HM : Hmac} S keys w es :
  claims_vouched S w -> claims_vouched S (desk_after S keys w es).
Proof. apply desk_claims. Qed.

Lemma return_claims_are_vouched_witness :
  size (recorded_claims Returning.after_alice) = 1%nat
  /\ (t_verified <$> recorded_claims Returning.after_alice !! (Returning.tx, Some 7)) = Some true
  /\ claims_vouched Example.S Returning.after_alice.
Proof.
  split; [vm_compute; reflexivity|]. split; [vm_compute; reflexivity|].
  apply (return_claims_are_vouched Example.S Example.keys Example.fresh Returning.alice_claims). apply map_Forall_empty.
Defined.

Lemma steady_doing {A B} (f : oracle -> world -> A * world) (k : A -> desk_program B) o w :
  run_steady o (doing f ≫= k) w = run_steady o (k (f o w).1) (f o w).2.
Proof. cbn. by destruct (f o w). Qed.

(** C26: while signatures cannot be recovered, anyone who names the transaction and
    its sender moves the claim, verified or not, to an address of their own: the
    destination, the signature and the verdict of the claim become theirs. *)
Theorem unverified_claim_takes_over S r ip o w m rc l wpcn prev :
  lowered r = r -> isTxHash (b_txhash r) && isPcn (b_pcoin r) && isBscLower (b_from r) && is_signature (b_signature r) = true ->
  (hit 120 (a_now o) ip (w_rhits w)).1 = false -> a_recovered o = RecoverUnknown ->
  a_readable o = true -> a_writable o = true -> w_claims w = Holds m ->
  bscRpc (a_receipt o) = Some (Some rc) -> r_status rc = JStr "0x1" ->
  filter (fun l => moved_to_us S (b_from r) l = true) (r_logs rc) = [l] -> wpcn_of l = Some wpcn ->
  let k := (b_txhash r, parseInt16 (l_logIndex l)) in
  m !! k = Some prev -> t_paid prev = false -> t_pcoin prev <> b_pcoin r ->
  exists w' c, run_steady o (return_claim S (Some r) ip) w = (Ok (), w') /\ w_claims w' = Holds (<[k := c]> m)
  /\ t_pcoin c = b_pcoin r /\ t_signature c = b_signature r /\ t_verified c = false /\ t_previous c = Some (t_pcoin prev).
Proof.
  intros Hlow Hf Hhit Hrec Hrd Hwr Hm Hrc Hst Hl Hw k Hk Hp Hne.
  destruct (hit 120 (a_now o) ip (w_rhits w)) as [many h] eqn:Hh. cbn in Hhit. subst many. set (w1 := on_hits (w_hits w) h w).
  assert (return_arrive (Some r) ip o w = (inr r, w1)) as Harrive by (unfold return_arrive; by rewrite Hh, Hlow, Hf).
  assert (return_recover S r o w1 = (RecoverUnknown, w1)) as Hrecover by (unfold return_recover; by rewrite Hrec).
  set (c := redirect S r RecoverUnknown (a_now o) prev).
  assert (return_record S r RecoverUnknown o w1 = (Recorded [k], on_claims (Holds (<[k := c]> m)) (hear (HReceipt (b_txhash r) rc) w1))) as Hrecord.
  { unfold return_record. rewrite Hrc, Hst, bool_decide_eq_true_2 by done. cbn [negb]. rewrite Hl. unfold loadReturns. cbn [w_claims hear on_hits w1].
    rewrite Hm, Hrd. cbn [record_claims]. cbv zeta. fold k. by rewrite Hw, Hk, bool_decide_eq_false_2, Hp, Hwr by done. }
  unfold return_claim. rewrite steady_doing, Harrive. cbn [fst snd]. rewrite steady_doing, Hrecover. cbn [fst snd signature_refused].
  rewrite steady_doing, Hrecord. cbn [fst snd]. by eexists _, c.
Qed.

Lemma there_are_claims w : match w_claims w with Holds _ => true | _ => false end = true -> w_claims w = Holds (recorded_claims w).
Proof. unfold recorded_claims. by destruct (w_claims w). Qed.

Lemma unverified_claim_takes_over_witness :
  let r := Returning.claimed Returning.of_mallory (Returning.sig "b") in
  let w := Returning.after_alice in
  (t_verified <$> recorded_claims w !! (Returning.tx, Some 7)) = Some true
  /\ exists w' c, run_steady (Returning.hearing RecoverUnknown) (return_claim Example.S (Some r) "10.9.9.9") w = (Ok (), w')
  /\ recorded_claims w' !! (Returning.tx, Some 7) = Some c /\ t_pcoin c = Returning.of_mallory /\ t_verified c = false.
Proof.
  cbv zeta. set (k := (Returning.tx, Some 7)).
  assert ((fun c => (t_verified c, t_paid c, t_pcoin c)) <$> recorded_claims Returning.after_alice !! k = Some (true, false, Returning.of_alice)) as Hp
    by (vm_compute; reflexivity).
  destruct (recorded_claims Returning.after_alice !! k) as [prev|] eqn:Hk; [|discriminate]. injection Hp as Hv Hpaid Hto.
  split; [cbn; by rewrite Hv|].
  assert (w_claims Returning.after_alice = Holds (recorded_claims Returning.after_alice)) as Hm by (apply there_are_claims; vm_compute; reflexivity).
  destruct (unverified_claim_takes_over Example.S (Returning.claimed Returning.of_mallory (Returning.sig "b")) "10.9.9.9"
    (Returning.hearing RecoverUnknown) Returning.after_alice (recorded_claims Returning.after_alice) Returning.receipt Returning.transfer
    (num_div (num_of_Z 500000000) (num_of_Z (10 ^ 8))) prev)
    as (w' & c & H1 & H2 & H3 & _ & H4 & _);
    [vm_compute; reflexivity|vm_compute; reflexivity|vm_compute; reflexivity|reflexivity|reflexivity|reflexivity|exact Hm
    |reflexivity|reflexivity|vm_compute; reflexivity|vm_compute; reflexivity|exact Hk|exact Hpaid|rewrite Hto; discriminate|].
  exists w', c. split; [exact H1|]. unfold recorded_claims. rewrite H2. split; [apply lookup_insert_eq|split; assumption].
Defined.
